(* ===== verification/_CoqProject ===== *)
-Q . S2P
Prelude.v
Prog.v
GoUnicode.v
GoStrings.v
GoText.v
GoFloat.v
GoTime.v
GoJson.v
GoNet.v
DnsMsg.v
Encoder.v
Decoder.v
WireSpec.v
WireCalculus.v
WireNames.v
WireRoundTrip.v
DecoderSafe.v
DnssecRecords.v
DnssecNames.v
Verify.v
VerifySpec.v
Denial.v
DenialSpec.v
Privacy.v
Interface.v
Lru.v
Cache.v
CacheSpec.v
DelegationCache.v
ServerChoice.v
Upstream.v
UpstreamSpec.v
TrustAnchor.v
AnchorFile.v
Validate.v
ValidateSpec.v
Resolve.v
ResolveSpec.v
Resolution.v
Handler.v
Acl.v
RateLimit.v
SingleFlight.v
SingleFlightProg.v
SingleFlightRefine.v
DnsServer.v
NetText.v
Config.v
Chain.v
Network.v
Commands.v
Witnesses.v
WitnessNet.v
WitnessServer.v
WitnessCommands.v
Findings.v
FindingsServer.v
