(* ===== verification/Prelude.v ===== *)
(** * A verification library for the dns_resolver repository

    The program is a recursive, validating DNS resolver written in Go.  A query
    comes in over UDP or TCP ([dnsserver]), passes the middlewares the configuration
    lists ([middleware/acl], [ratelimit], [cache], [singleflight]) and reaches
    [resolverhandler], which asks the [resolver]; the resolver walks the tree of
    zones from the root by itself, asking name servers in the wire format of
    [dnsmsg] and checking what they say with [dnssec].  [cmd/server] reads the
    configuration ([config]) and puts the parts together.

    Every definition is a function that can be evaluated; the files of witnesses
    and findings evaluate them.  Go code that fails returns [result]; methods that
    mutate their receiver and may fail are [stateR].  Code that runs beside other
    goroutines on shared memory - the resolver, the handlers - is a program
    ([Prog.prog]): a tree of atomic actions on the shared state, one for every
    critical section and every event of the outside world, so that theorems about
    it hold when any number of queries are served at once.

    ** Files and the code they model

    Go itself, as far as the repository uses it:
    - [GoUnicode], [GoStrings]: package [strings] on names, byte for byte, with the
      decoding of runes and the simple case mappings of Unicode;
    - [GoText]: [strings.Fields], [strconv], [encoding/hex], [bufio.Scanner];
    - [GoFloat]: [float64] as [SpecFloat], [strconv.ParseFloat] and [ParseInt];
    - [GoTime]: [time.Duration.String] and [time.ParseDuration], inverse to each other;
    - [GoJson]: [encoding/json], the reader of documents and a writer it inverts;
    - [GoNet], [Acl], [NetText]: [net.IP], [netip.Addr] and [netip.Prefix] with their
      text form;
    - [Prelude]: results, the monads, [uint8], [uint16] and [uint32] as integers with
      their wrap-around, big-endian bytes;
    - [Prog]: goroutines.  [exec] runs a program alone, [pool_reach] many in any
      interleaving; [obeys], proved once by the structure of a program, gives
      results about both: its actions keep an invariant and change the state only
      as a guarantee allows, whatever others that do so do in between.

    [dnsmsg]:
    - [DnsMsg]: [message.go] and [edns.go], the data, [CloneRRs], the OPT record;
    - [Encoder]: [encode.go], [name.go], [Pack], [PackQuery], [PackQueryEDNS0], over the
      buffer and the table of compressed names;
    - [Decoder]: [decode.go], [Unpack], over the buffer and an offset;
    - [DnssecRecords]: [dnssec.go], the RDATA of the DNSSEC types.
    - [WireSpec], [WireCalculus], [WireNames], [WireRoundTrip], [DecoderSafe]: theorems.
      [WireCalculus.emits] is the contract between a writer and a reader; the round
      trip of messages composes it, and compression is an invariant of the table.

    [dnssec]:
    - [DnssecNames]: names, the canonical order and ancestry as orders and prefixes of
      lists of labels (class [TotalOrder]);
    - [Verify], [VerifySpec]: [verify.go];
    - [Denial], [DenialSpec]: [denial.go] and [nsec3.go]; the specification is a signed
      zone and truthful records of it.

    [middleware/cache] and the delegation cache:
    - [Lru]: the map and list both are built on, list elements with their identity;
    - [Cache], [CacheSpec]: [cache.go], the store and the handler;
    - [DelegationCache]: [delegationcache.go].

    [resolver]:
    - [ServerChoice] ([serverchoice.go]), [Privacy] ([privacy.go]);
    - [Upstream], [UpstreamSpec]: the lower half of [resolver.go], one exchange, its
      checks, the retries, the passes over a list of servers, the filter on addresses;
    - [TrustAnchor], [AnchorFile]: [trustanchor.go];
    - [Validate], [ValidateSpec]: [validate.go]; [ValidateSpec.chain], [unsigned] and
      [excuse] say what a chain of trust is, what makes a zone unsigned and which
      answers may pass without proof;
    - [Resolve], [ResolveSpec], [Resolution]: the upper half of [resolver.go],
      [roothints.go] and [priming.go].

    The server:
    - [Interface]: [dnsserver/handler.go].  A handler is a program for each query; the
      class [Serves] is its contract: an invariant and a guarantee it keeps and what
      it writes for a query.  Each middleware is an instance given one for what it
      wraps.  What a handler writes is the result of its program;
    - [Handler]: [resolverhandler.go];
    - [Acl] ([acl.go]), [RateLimit] ([ratelimit.go]);
    - [SingleFlight], [SingleFlightProg], [SingleFlightRefine]: [singleflight.go], first
      as the events of all its clients, then as a program in front of any other
      handler, then the proof that pools of the program are runs of the events;
    - [DnsServer]: [dnsserver/server.go], first as bytes in and bytes out, then the
      goroutines as a transition system, then which sockets are opened and closed;
    - [Config]: [config.go], the defaults, the checks and how a file is read onto them;
    - [Chain]: [buildHandler] of [cmd/server/main.go] and the chain it makes;
    - [Network]: the listeners of [DnsServer] in front of that chain;
    - [Commands]: [cmd/server/main.go] and [cmd/resolve/main.go], from the command line
      to the exit code.

    [Witnesses], [WitnessNet], [WitnessServer] and [WitnessCommands] apply the theorems
    to concrete inputs, the last three to a resolver in front of small signed
    networks;
    [Findings] and [FindingsServer] show behaviours of the code that differ from what
    it means to do.

    ** What the theorems show

    - The whole server ([Chain]): with any middlewares in any order and any number of
      queries at once, at most one reply per query, its own; a reply marked
      authentic rests on a verified answer, and with validation on an unmarked one
      is excused ([ValidateSpec.excuse]).
    - From bytes to bytes ([Network]): what a client decodes of a datagram or a
      connection is such a reply to what it sent, whole or marked as truncated.
    - The programs ([Commands]): the server serves exactly what was configured and
      checked, or says by its exit code that it does not; the query tool prints the
      addresses of a verified or excused answer.
    - The resolver ([Resolution], [ResolveSpec]): whatever the network does and
      whatever other resolutions do to the caches they share, it ends;
      secure results are verified along a chain of trust, nothing is downgraded
      without an excuse, answers are CNAME chains from the question, its caches stay
      sound, the delegation cache and the table of round-trip times bounded (the key
      cache has no bound in the code), and packets go to allowed addresses only.
    - Signatures and denials ([VerifySpec], [DenialSpec]): acceptance is characterised
      exactly; a signature fixes its record set; proofs of absence built from
      truthful records are true of the zone.
    - The wire ([WireRoundTrip], [DecoderSafe]): both round trips, and totality of the
      decoder on every buffer.
    - Caches ([CacheSpec], [DelegationCache]): nothing stale or foreign is returned,
      stored data is found, sizes are bounded.
    - Concurrency ([SingleFlight], [DnsServer]): over every interleaving, one flight per
      question, no waiter left behind, the limit on work in progress, shutdown.
    - Clients and configuration ([Acl], [RateLimit], [NetText], [AnchorFile], [Config]):
      who is served, how often, and how the files that say so are read: what is
      written in the documented form is read back as what was meant.

    ** Bounds and fuel

    Loops that are not structural take fuel, and no theorem supposes that it is
    enough:
    - [Decoder.readName_fuel] is 160: a round follows one of at most 20 pointers or
      adds at least two to a length of at most 255; [DecoderSafe] proves that the
      fuel is never the reason of a failure;
    - loops over a buffer, a list or a text ([bitmap_loop], [uncompressed_loop],
      [lower_wire], [decimal_rev], [evict], [closest_loop], [handleTCPConn], [unframe]) have
      the length of what they consume, which shrinks in every round;
    - [ipv6_fields] has one round for each of the 8 groups of an address;
    - [GoJson.parse_value] has two rounds for each byte of the document and one more:
      a value takes at least one byte, and [GoJson.parse_steady] proves that more fuel
      changes nothing; its other bound, 10000 nested values, is that of the package;
    - [Resolve.resolve_depth] bounds the nested calls of [resolve], one for each link
      of a CNAME chain at each depth of glue lookups; [Resolution.ResolveRR_ends]
      proves it enough, together with the loops inside ([descend], [follow_chain]).

    ** What is assumed

    - The network, the clock and random choices are the class [Upstream.Env]: every
      outside event has a number, and [Env] says how it turns out.  Theorems hold for
      all of them; [UpstreamSpec.env_ok] asks only that the network delivers bytes and
      that shuffles and map iterations are permutations.
    - The primitives of [crypto/*] are the class [Verify.Crypto], about which nothing is
      assumed: what is proved is which data they were given and that they accepted.
    - The file system is an argument of the readers of files, the order of a [range]
      over the rate limiter's clients an argument of [RateLimit.allow].  Whether a key
      pair loads, an address resolves, a socket opens, and the error that ends the
      first listener are arguments of [Commands.main].
    - How [encoding/json] writes a floating-point number is an argument of
      [Config.document], of which the theorems ask that it reads back; nothing in the
      repository writes one.
    - Memory is sequentially consistent between atomic actions, as Go promises where
      every access to shared memory is under a mutex or ordered by a channel: all
      shared fields here are.  The table of round-trip times is read once for the
      order of a list of servers ([rtt_order]); the code locks it for every
      comparison, which another query may make disagree, and the result is a
      permutation of the list either way.
    - The clock is read once for the validation of one answer ([answer_loop]); the code
      reads it again for every signature, moments apart.  [Cache.seconds] divides
      integers where the code goes through [Duration.Seconds], a [float64]: the two
      may differ by one second for times longer than 2^22 seconds, 48 days.
    - The context of a query that waits for another's reply ends by itself, and when it
      has ended and the reply is there too, [select] takes either: both are events of
      [Env], by the number of the waiter ([waiter_ended], [select_done]).
    - A handler's replies leave when its program ends; the code writes them a little
      earlier, before what is done after them (the cache stores what it forwarded).
    - Floating point is IEEE double precision, each operation rounded on its own, as
      Go compiles it for amd64.

    ** What is not modelled

    - Sockets and TLS themselves, the deadlines the server sets on its connections, and
      the delivery of signals: input and output without logic of their own.  What they
      cause is modelled: a stream or a listener that ends, an event of the outside
      world that a context has ended.  The deadlines of the sockets to name servers are
      computed by the resolver, and modelled.
    - Log output, error texts and usage messages, [RRType.String] among them, which
      only format messages for people. *)

From Stdlib Require Export ZArith Lia.
From stdpp Require Export prelude gmap.

(** ** Results of fallible Go functions

    A Go function returning [(T, error)] is modelled by [result E T].  On an
    error Go returns the zero value of [T] beside the error and every caller in
    the repository discards it, so the error case carries the error only. *)
Inductive result (E A : Type) : Type :=
  | Ok (a : A)
  | Err (e : E).
Arguments Ok {E A} a.
Arguments Err {E A} e.

#[global] Instance result_ret E : MRet (result E) := fun A a => Ok a.
#[global] Instance result_bind E : MBind (result E) := fun A B f m =>
  match m with Ok a => f a | Err e => Err e end.
#[global] Instance result_fmap E : FMap (result E) := fun A B f m =>
  match m with Ok a => Ok (f a) | Err e => Err e end.

Definition is_ok {E A} (r : result E A) : bool :=
  match r with Ok _ => true | Err _ => false end.

#[global] Instance result_eq_dec E A `{EqDecision E, EqDecision A} :
  EqDecision (result E A).
Proof. solve_decision. Defined.

(** ** A state-and-error monad

    The methods of [*encoder] and [*decoder] mutate their receiver and may
    fail.  [stateR S E A] is such a method: on success it returns its result
    and the new receiver, on failure only the error (both receivers are
    abandoned by every caller once a method has failed). *)
Definition stateR (S E A : Type) : Type := S -> result E (A * S).

#[global] Instance stateR_ret S E : MRet (stateR S E) := fun A a s => Ok (a, s).
#[global] Instance stateR_bind S E : MBind (stateR S E) := fun A B f m s =>
  match m s with Ok (a, s') => f a s' | Err e => Err e end.

Definition fail {S E A} (e : E) : stateR S E A := fun _ => Err e.
Definition get {S E} : stateR S E S := fun s => Ok (s, s).
Definition modify {S E} (f : S -> S) : stateR S E unit := fun s => Ok (tt, f s).
Definition guard {S E} (b : bool) (e : E) : stateR S E unit :=
  if b then mret tt else fail e.

(** [for _, x := range l { if err := f(x); err != nil { return err } }]. *)
Fixpoint iterM {S E A} (f : A -> stateR S E unit) (l : list A) : stateR S E unit :=
  match l with
  | [] => mret tt
  | x :: l => _ ← f x; iterM f l
  end.

(** [for i := 0; i < n; i++ { x, err := m(); ...; xs = append(xs, x) }]. *)
Fixpoint repeatM {S E A} (n : nat) (m : stateR S E A) : stateR S E (list A) :=
  match n with
  | O => mret []
  | S n => x ← m; xs ← repeatM n m; mret (x :: xs)
  end.

(** ** Fixed-width integers

    A Go [uint8], [uint16] or [uint32] is a [Z]; a conversion to the type keeps
    the low bits. *)
Definition u8 (z : Z) : Z := (z mod 2 ^ 8)%Z.
Definition u16 (z : Z) : Z := (z mod 2 ^ 16)%Z.
Definition u32 (z : Z) : Z := (z mod 2 ^ 32)%Z.

Definition is_u8 (z : Z) : Prop := (0 <= z < 2 ^ 8)%Z.
Definition is_u16 (z : Z) : Prop := (0 <= z < 2 ^ 16)%Z.
Definition is_u32 (z : Z) : Prop := (0 <= z < 2 ^ 32)%Z.

#[global] Instance is_u8_dec z : Decision (is_u8 z).
Proof. unfold is_u8. apply _. Defined.
#[global] Instance is_u16_dec z : Decision (is_u16 z).
Proof. unfold is_u16. apply _. Defined.
#[global] Instance is_u32_dec z : Decision (is_u32 z).
Proof. unfold is_u32. apply _. Defined.

(** [binary.BigEndian.AppendUint16] / [Uint16] and their 32-bit versions. *)
Definition be16 (v : Z) : list Z := [u8 (Z.shiftr v 8); u8 v].
Definition be32 (v : Z) : list Z :=
  [u8 (Z.shiftr v 24); u8 (Z.shiftr v 16); u8 (Z.shiftr v 8); u8 v].
Definition from_be16 (b0 b1 : Z) : Z := Z.lor (Z.shiftl b0 8) b1.
Definition from_be32 (b0 b1 b2 b3 : Z) : Z :=
  Z.lor (Z.shiftl b0 24) (Z.lor (Z.shiftl b1 16) (Z.lor (Z.shiftl b2 8) b3)).

(** [lia] with division and remainder by constants turned into equations. *)
Ltac zlia := Z.to_euclidean_division_equations; lia.

(** *** Big-endian encoding *)

Lemma u8_small z : is_u8 z -> u8 z = z.
Proof. intros. by apply Z.mod_small. Qed.
Lemma u16_small z : is_u16 z -> u16 z = z.
Proof. intros. by apply Z.mod_small. Qed.
Lemma u32_small z : is_u32 z -> u32 z = z.
Proof. intros. by apply Z.mod_small. Qed.
Lemma is_u8_u8 z : is_u8 (u8 z).
Proof. apply Z.mod_pos_bound. lia. Qed.
Lemma is_u16_u16 z : is_u16 (u16 z).
Proof. apply Z.mod_pos_bound. lia. Qed.
Lemma is_u32_u32 z : is_u32 (u32 z).
Proof. apply Z.mod_pos_bound. lia. Qed.

(** What is converted to a width, or assembled from bytes, is in its range. *)
Create HintDb widths.
#[export] Hint Resolve is_u8_u8 is_u16_u16 is_u32_u32 : widths.
#[export] Hint Extern 1 (Forall is_u8 []) => constructor : widths.
#[export] Hint Extern 1 (Forall is_u8 (_ :: _)) => constructor : widths.

(** Disjoint bit fields: [lor] of a shifted value and a small one is their sum. *)
Lemma lor_shiftl_add a b n : (0 <= n)%Z -> (0 <= b < 2 ^ n)%Z -> Z.lor (Z.shiftl a n) b = (a * 2 ^ n + b)%Z.
Proof.
  intros Hn Hb. rewrite <-Z.shiftl_mul_pow2 by done. symmetry. apply Z.add_nocarry_lor.
  apply Z.bits_inj'. intros k Hk. rewrite Z.land_spec, Z.bits_0.
  destruct (Z.lt_ge_cases k n).
  - by rewrite Z.shiftl_spec_low by lia.
  - destruct (Z.eq_dec b 0%Z) as [->|]; [by rewrite Z.bits_0, andb_false_r|].
    rewrite (Z.bits_above_log2 b k), andb_false_r; [done|lia|].
    apply Z.log2_lt_pow2; [lia|]. eapply Z.lt_le_trans; [apply Hb|].
    by apply Z.pow_le_mono_r.
Qed.

Lemma from_be16_add b0 b1 : is_u8 b1 -> from_be16 b0 b1 = (b0 * 256 + b1)%Z.
Proof. intros. unfold from_be16. by rewrite lor_shiftl_add. Qed.

Lemma from_be32_add b0 b1 b2 b3 : is_u8 b1 -> is_u8 b2 -> is_u8 b3 ->
  from_be32 b0 b1 b2 b3 = (b0 * 16777216 + b1 * 65536 + b2 * 256 + b3)%Z.
Proof.
  unfold is_u8. intros. unfold from_be32.
  rewrite (lor_shiftl_add b2), (lor_shiftl_add b1), (lor_shiftl_add b0); lia.
Qed.

Lemma be16_roundtrip v : from_be16 (u8 (Z.shiftr v 8)) (u8 v) = u16 v.
Proof.
  rewrite from_be16_add by auto with widths.
  unfold u8, u16. rewrite Z.shiftr_div_pow2 by lia. zlia.
Qed.

Lemma be32_roundtrip v :
  from_be32 (u8 (Z.shiftr v 24)) (u8 (Z.shiftr v 16)) (u8 (Z.shiftr v 8)) (u8 v) = u32 v.
Proof.
  rewrite from_be32_add by auto with widths.
  unfold u8, u32. rewrite !Z.shiftr_div_pow2 by lia. zlia.
Qed.

Lemma from_be16_range b0 b1 : is_u8 b0 -> is_u8 b1 -> is_u16 (from_be16 b0 b1).
Proof. intros. rewrite from_be16_add by done. unfold is_u8, is_u16 in *. lia. Qed.

Lemma from_be32_range b0 b1 b2 b3 :
  is_u8 b0 -> is_u8 b1 -> is_u8 b2 -> is_u8 b3 -> is_u32 (from_be32 b0 b1 b2 b3).
Proof. intros. rewrite from_be32_add by done. unfold is_u8, is_u32 in *. lia. Qed.

#[export] Hint Resolve from_be16_range from_be32_range : widths.

(** Splitting a value into the bytes it was assembled from. *)
Lemma be16_from_be16 b0 b1 : is_u8 b0 -> is_u8 b1 -> be16 (from_be16 b0 b1) = [b0; b1].
Proof.
  intros H0 H1. rewrite from_be16_add by done. unfold be16, u8, is_u8 in *.
  rewrite Z.shiftr_div_pow2 by lia. change (2 ^ 8)%Z with 256%Z in *.
  f_equal; [zlia|]. f_equal; zlia.
Qed.

Lemma be32_from_be32 b0 b1 b2 b3 :
  is_u8 b0 -> is_u8 b1 -> is_u8 b2 -> is_u8 b3 ->
  be32 (from_be32 b0 b1 b2 b3) = [b0; b1; b2; b3].
Proof.
  intros H0 H1 H2 H3. rewrite from_be32_add by done. unfold be32, u8, is_u8 in *.
  rewrite !Z.shiftr_div_pow2 by lia.
  change (2 ^ 8)%Z with 256%Z in *. change (2 ^ 16)%Z with 65536%Z.
  change (2 ^ 24)%Z with 16777216%Z.
  f_equal; [zlia|]. f_equal; [zlia|]. f_equal; [zlia|]. f_equal; zlia.
Qed.

(** *** Lists *)

Lemma elem_of_take_in {A} n (l : list A) x : x ∈ take n l -> x ∈ l.
Proof. rewrite <-(take_drop n l) at 2. rewrite elem_of_app. by left. Qed.
