(* ===== verification/Prog.v ===== *)
(** Goroutines: code that runs while other code works on the same memory.

    The resolver, its caches and the middlewares are shared by all queries, each
    of which is served by a goroutine of its own.  Such code is a program: a tree
    of atomic actions on a shared state - what is done while a mutex is held, one
    event of the outside world - with what to do next, depending on the result of
    the last.  An action that is not enabled, the receive from a channel nobody
    has closed yet, gives [None]: the goroutine waits.

    A program can be run alone ([exec]), and many can run together in any
    interleaving of their actions ([pool]).  [obeys] is what is proved about a
    program once, by its structure, and gives both: the rule of the game is that
    every action of every goroutine keeps the invariant [I] and only changes the
    state the way [G] allows. *)

From S2P Require Import Prelude.

Inductive prog (S A : Type) : Type :=
  | Ret (a : A)
  | Act {B : Type} (f : S -> option (S * B)) (k : B -> prog S A).
Arguments Ret {S A} a.
Arguments Act {S A B} f k.

#[global] Instance prog_ret S : MRet (prog S) := fun A a => Ret a.

Fixpoint prog_bind_def {S A B} (f : A -> prog S B) (p : prog S A) : prog S B :=
  match p with
  | Ret a => f a
  | Act g k => Act g (fun b => prog_bind_def f (k b))
  end.
#[global] Instance prog_bind S : MBind (prog S) := fun A B f p => prog_bind_def f p.

(** One action that is always enabled, and one that waits. *)
Definition atomic {S A} (f : S -> S * A) : prog S A := Act (fun s => Some (f s)) Ret.
Definition await {S A} (f : S -> option (S * A)) : prog S A := Act f Ret.

(** A program on a part of the state. *)
Fixpoint zoom {S T A} (get : S -> T) (set : T -> S -> S) (p : prog T A) : prog S A :=
  match p with
  | Ret a => Ret a
  | Act f k => Act (fun s => match f (get s) with Some (t, b) => Some (set t s, b) | None => None end)
                 (fun b => zoom get set (k b))
  end.

Definition zoom_snd {T S A} : prog S A -> prog (T * S) A := zoom snd (fun s ts => (ts.1, s)).

(** ** Alone *)

(** [None] if the program waits for something only another goroutine can do. *)
Fixpoint exec {S A} (p : prog S A) (s : S) : option (S * A) :=
  match p with
  | Ret a => Some (s, a)
  | Act f k => match f s with Some (s, b) => exec (k b) s | None => None end
  end.

Lemma exec_bind {S A B} (p : prog S A) (f : A -> prog S B) : forall s,
  exec (p ≫= f) s = match exec p s with Some (s, a) => exec (f a) s | None => None end.
Proof. induction p as [a|T g k IH]; intros s; [done|]. cbn. destruct (g s) as [[s' b]|]; [apply IH|done]. Qed.

(** ** The same program *)

(** Programs that do the same actions with the same results; functions that
    differ in how they are written are the only reason not to use equality. *)
Inductive same {S A} : prog S A -> prog S A -> Prop :=
  | same_Ret a : same (Ret a) (Ret a)
  | same_Act {B} (f : S -> option (S * B)) k k' : (forall b, same (k b) (k' b)) -> same (Act f k) (Act f k').

#[global] Instance same_refl {S A} : Reflexive (@same S A).
Proof. intros p. induction p; by constructor. Qed.

Lemma same_inv {S A} (p q : prog S A) : same p q ->
  match p with
  | Ret a => q = Ret a
  | Act f k => exists k', q = Act f k' /\ forall b, same (k b) (k' b)
  end.
Proof. intros [a|B f k k' H]; [done|]. by exists k'. Qed.

#[global] Instance same_trans {S A} : Transitive (@same S A).
Proof.
  intros p q r H. revert r. induction H as [a|B f k k' _ IH]; intros r; [done|].
  intros (k2 & -> & H2)%same_inv. constructor. auto.
Qed.

#[global] Instance same_sym {S A} : Symmetric (@same S A).
Proof. induction 1; by constructor. Qed.

Lemma same_exec {S A} (p p' : prog S A) : same p p' -> forall s, exec p s = exec p' s.
Proof. induction 1 as [|B f k k' _ IH]; intros s; [done|]. cbn. by destruct (f s) as [[s' b]|]. Qed.

Lemma same_bind {S A B} (p p' : prog S A) (f f' : A -> prog S B) :
  same p p' -> (forall a, same (f a) (f' a)) -> same (p ≫= f) (p' ≫= f').
Proof. intros Hp Hf. induction Hp as [a|T g k k' _ IH]; [apply Hf|]. constructor. exact IH. Qed.

Lemma same_bind_l {S A B} (p p' : prog S A) (f : A -> prog S B) : same p p' -> same (p ≫= f) (p' ≫= f).
Proof. intros. by apply same_bind. Qed.

Lemma bind_assoc {S A B C} (p : prog S A) (f : A -> prog S B) (g : B -> prog S C) :
  same ((p ≫= f) ≫= g) (p ≫= (fun a => f a ≫= g)).
Proof. induction p as [a|T h k IH]; [by cbn|]. cbn. by constructor. Qed.

Lemma bind_ret {S A} (p : prog S A) : same (p ≫= Ret) p.
Proof. induction p as [a|T h k IH]; [done|]. by constructor. Qed.

(** ** Among others *)

(** No restriction on what may change. *)
Definition anything {S} (s s' : S) : Prop := True.

#[global] Instance anything_preorder S : PreOrder (@anything S).
Proof. by split. Qed.

Section obeys.
(** [W] says whether waiting is allowed. *)
Context {S : Type} (W : Prop) (I : S -> Prop) (G : S -> S -> Prop).

(** [obeys s0 p Q]: begun in a state that came from [s0], and interrupted by anybody
    who plays by the rule, the program plays by the rule, and if it ends with [a]
    in a state [s], [Q s a] holds there. *)
Fixpoint obeys {A} (s0 : S) (p : prog S A) (Q : S -> A -> Prop) : Prop :=
  match p with
  | Ret a => Q s0 a
  | Act f k => forall s, I s -> G s0 s ->
      match f s with Some (s', b) => I s' /\ G s s' /\ obeys s' (k b) Q | None => W end
  end.

Lemma obeys_mono {A} (p : prog S A) (Q Q' : S -> A -> Prop) : forall s0,
  obeys s0 p Q -> (forall s a, Q s a -> Q' s a) -> obeys s0 p Q'.
Proof.
  induction p as [a|T f k IH]; intros s0 Hp HQ; [by apply HQ|]. intros s Hs Hg. specialize (Hp s Hs Hg).
  destruct (f s) as [[s' b]|]; [|done]. destruct Hp as (? & ? & ?). split_and!; [done..|]. by eapply IH.
Qed.

Lemma obeys_bind {A B} (p : prog S A) (f : A -> prog S B) P Q : forall s0,
  obeys s0 p P -> (forall s a, P s a -> obeys s (f a) Q) -> obeys s0 (p ≫= f) Q.
Proof.
  induction p as [a|T g k IH]; intros s0 Hp Hf; [by apply Hf|]. intros s Hs Hg. specialize (Hp s Hs Hg).
  destruct (g s) as [[s' b]|]; [|done]. destruct Hp as (? & ? & ?). split_and!; [done..|]. by apply IH.
Qed.

Lemma obeys_same {A} (p p' : prog S A) Q : same p p' -> forall s0, obeys s0 p Q -> obeys s0 p' Q.
Proof.
  induction 1 as [|B f k k' _ IH]; intros s0; [done|]. intros Hp s Hs Hg. specialize (Hp s Hs Hg).
  destruct (f s) as [[s' b]|]; [|done]. destruct Hp as (? & ? & ?). split_and!; [done..|]. by apply IH.
Qed.

Context `{!PreOrder G}.

(** What came earlier will do. *)
Lemma obeys_earlier {A} (p : prog S A) (Q : S -> A -> Prop) s0 s1 :
  (forall s s' a, G s s' -> Q s a -> Q s' a) -> G s0 s1 -> obeys s0 p Q -> obeys s1 p Q.
Proof.
  intros HQ Hg. destruct p as [a|T f k]; [by apply HQ|]. intros Hp s Hs Hs1. apply Hp; [done|]. by etrans.
Qed.

(** Where it ends comes from where it began. *)
Lemma obeys_from {A} (p : prog S A) Q : forall s0, obeys s0 p Q -> obeys s0 p (fun s a => G s0 s /\ Q s a).
Proof.
  induction p as [a|T f k IH]; intros s0 Hp; [done|]. intros s Hs Hg. specialize (Hp s Hs Hg).
  destruct (f s) as [[s' b]|]; [|done]. destruct Hp as (H1 & H2 & H3). split_and!; [done..|].
  eapply obeys_mono; [by apply IH|]. intros s1 a [? ?]. split; [|done]. etrans; [exact Hg|]. by etrans.
Qed.

(** *** Alone *)

Lemma obeys_atomic {A} (f : S -> S * A) (Q : S -> A -> Prop) s0 :
  (forall s, I s -> G s0 s -> I (f s).1 /\ G s (f s).1 /\ Q (f s).1 (f s).2) -> obeys s0 (atomic f) Q.
Proof. intros H s Hs Hg. specialize (H s Hs Hg). by destruct (f s). Qed.

Lemma obeys_exec {A} (p : prog S A) Q : forall s0 s' a,
  obeys s0 p Q -> I s0 -> exec p s0 = Some (s', a) -> I s' /\ G s0 s' /\ Q s' a.
Proof.
  induction p as [a|T f k IH]; intros s0 s' a' Hp Hs; cbn [exec]; [by intros [= <- <-]|].
  specialize (Hp s0 Hs ltac:(done)). destruct (f s0) as [[s1 b]|]; [|done]. destruct Hp as (H1 & H2 & H3).
  intros E. destruct (IH b s1 s' a' H3 H1 E) as (? & ? & ?). split_and!; [done|by etrans|done].
Qed.

(** Where waiting is not allowed, there is a result. *)
Lemma obeys_total {A} (p : prog S A) Q : forall s0,
  ~ W -> obeys s0 p Q -> I s0 -> exists s' a, exec p s0 = Some (s', a).
Proof.
  induction p as [a|T f k IH]; intros s0 HW Hp Hs; [by do 2 eexists|]. cbn [exec].
  specialize (Hp s0 Hs ltac:(done)). destruct (f s0) as [[s1 b]|]; [|done]. destruct Hp as (? & ? & ?). by apply IH.
Qed.

(** *** Among goroutines nobody knows *)

(** [returns s0 p a]: begun in a state that came from [s0], [p] can return [a] when
    others who play by the rule change the state between its actions. *)
Inductive returns {A} : S -> prog S A -> A -> Prop :=
  | returns_Ret s0 a : returns s0 (Ret a) a
  | returns_Act {B} s0 s s' f (k : B -> prog S A) b a :
      I s -> G s0 s -> f s = Some (s', b) -> returns s' (k b) a -> returns s0 (Act f k) a.

Lemma returns_inv {A} s0 (p : prog S A) a : returns s0 p a ->
  match p with
  | Ret a' => a' = a
  | Act f k => exists s s' b, I s /\ G s0 s /\ f s = Some (s', b) /\ returns s' (k b) a
  end.
Proof. intros [s1 a'|B s1 s s' f k b a' Hs Hg Hf Hk]; [done|]. by exists s, s', b. Qed.

Lemma obeys_returns {A} (p : prog S A) (Q : A -> Prop) a : forall s0,
  obeys s0 p (fun _ => Q) -> returns s0 p a -> Q a.
Proof.
  induction p as [a'|B f k IH]; intros s0 Hp Hr; apply returns_inv in Hr; [by subst|].
  destruct Hr as (s & s' & b & Hs & Hg & Hf & Hr). specialize (Hp s Hs Hg). rewrite Hf in Hp.
  destruct Hp as (_ & _ & Hp). by eapply IH.
Qed.

Lemma returns_bind {A B} (p : prog S A) (f : A -> prog S B) b : forall s0,
  returns s0 (p ≫= f) b -> exists s a, returns s0 p a /\ returns s (f a) b.
Proof.
  induction p as [a|T g k IH]; intros s0 Hr; [exists s0, a; split; [constructor|done]|].
  apply returns_inv in Hr as (s & s' & t & Hs & Hgs & Hg & (s1 & a & Ha & Hb)%IH). exists s1, a.
  split; [|done]. by eapply returns_Act.
Qed.

Lemma returns_same {A} (p p' : prog S A) a : same p p' -> forall s0, returns s0 p a -> returns s0 p' a.
Proof.
  induction 1 as [a'|B f k k' _ IH]; intros s0 Hr; [done|]. apply returns_inv in Hr as (s & s' & b & Hs & Hg & Hf & Hr).
  eapply returns_Act; [done..|by apply IH].
Qed.

Lemma returns_earlier {A} (p : prog S A) a s0 s1 : G s0 s1 -> returns s1 p a -> returns s0 p a.
Proof.
  intros Hg Hr. destruct p as [a'|B f k]; apply returns_inv in Hr; [subst; constructor|].
  destruct Hr as (s & s' & b & Hs & Hgs & Hf & Hr). eapply returns_Act; [done| |done..]. by etrans.
Qed.

Lemma exec_returns {A} (p : prog S A) Q : forall s0 s' a,
  obeys s0 p Q -> I s0 -> exec p s0 = Some (s', a) -> returns s0 p a.
Proof.
  induction p as [a|T f k IH]; intros s0 s' a' Hp Hs; cbn [exec]; [intros [= _ <-]; constructor|].
  specialize (Hp s0 Hs ltac:(done)). destruct (f s0) as [[s1 b]|] eqn:E; [|done]. destruct Hp as (H1 & _ & H3).
  intros Hx. eapply returns_Act; [exact Hs|done|exact E|]. by eapply IH.
Qed.

(** *** In a pool of goroutines *)

(** Each with the request it was started for.  Goroutines that have returned stay
    in the list with their result. *)
Context {X A : Type} (start : X -> prog S A).

Inductive pool_step : S * list (X * prog S A) -> S * list (X * prog S A) -> Prop :=
  | pool_spawn s ts x : pool_step (s, ts) (s, ts ++ [(x, start x)])
  | pool_act {B} s s' ts i x (f : S -> option (S * B)) k b :
      ts !! i = Some (x, Act f k) -> f s = Some (s', b) -> pool_step (s, ts) (s', <[i := (x, k b)]> ts).

(** The requests that come in satisfy [ok]. *)
Inductive pool_reach (ok : X -> Prop) (s0 : S) : S -> list (X * prog S A) -> Prop :=
  | pool_init : pool_reach ok s0 s0 []
  | pool_next s ts s' ts' : pool_reach ok s0 s ts -> pool_step (s, ts) (s', ts') ->
      Forall (fun t => ok t.1) ts' -> pool_reach ok s0 s' ts'.

Lemma pool_reach_ok ok s0 s ts : pool_reach ok s0 s ts -> Forall (fun t => ok t.1) ts.
Proof. by destruct 1. Qed.

Lemma pool_obeys ok s0 (Q : X -> S -> A -> Prop) :
  I s0 -> (forall x s a s', G s s' -> Q x s a -> Q x s' a) ->
  (forall x s, ok x -> I s -> obeys s (start x) (Q x)) ->
  forall s ts, pool_reach ok s0 s ts -> I s /\ G s0 s /\ Forall (fun t => obeys s t.2 (Q t.1)) ts.
Proof.
  intros H0 HQ Hstart s ts. induction 1 as [|s ts s' ts' _ (IH1 & IH2 & IH3) Hstep Hok]; [done|].
  inversion Hstep as [s1 ts1 x|B s1 s2 ts1 i x f k b Hi Hf]; simplify_eq.
  - split_and!; [done..|]. apply Forall_app. split; [done|]. constructor; [|constructor].
    apply Hstart; [|done]. apply Forall_app in Hok as [_ Hok]. by apply Forall_inv in Hok.
  - pose proof (Forall_lookup_1 _ _ _ _ IH3 Hi) as Hp. cbn in Hp. specialize (Hp s IH1 ltac:(done)).
    rewrite Hf in Hp. destruct Hp as (H1 & H2 & H3). split_and!; [done|by etrans|].
    apply Forall_insert; [|done]. eapply Forall_impl; [exact IH3|]. intros [y p] Hp. cbn in *.
    eapply obeys_earlier; [|done|done]. intros s2 s3 a. apply HQ.
Qed.

(** What has been returned is what one goroutine may return among others. *)
Lemma pool_returns ok s0 (Q : X -> S -> A -> Prop) :
  I s0 -> (forall x s a s', G s s' -> Q x s a -> Q x s' a) ->
  (forall x s, ok x -> I s -> obeys s (start x) (Q x)) ->
  forall s ts, pool_reach ok s0 s ts ->
  Forall (fun t => forall a, returns s t.2 a -> exists s1, returns s1 (start t.1) a) ts.
Proof.
  intros H0 HQ Hstart s ts Hr. pose proof Hr as Hr'. induction Hr as [|s ts s' ts' Hr IH Hstep Hok]; [done|].
  specialize (IH Hr). destruct (pool_obeys ok s0 Q H0 HQ Hstart s ts Hr) as (Hs & _ & Hall).
  inversion Hstep as [s1 ts1 x|B s1 s2 ts1 i x f k b Hi Hf]; simplify_eq.
  - apply Forall_app. split; [done|]. constructor; [|done]. intros a Ha. by exists s'.
  - pose proof (Forall_lookup_1 _ _ _ _ Hall Hi s Hs ltac:(done)) as Hp. rewrite Hf in Hp.
    destruct Hp as (_ & Hg & _). apply Forall_insert.
    + eapply Forall_impl; [exact IH|]. intros t Ht a Ha. apply Ht. by eapply returns_earlier.
    + intros a Ha. apply (Forall_lookup_1 _ _ _ _ IH Hi). by eapply returns_Act.
Qed.
End obeys.

(** *** A pool that can be run *)

Section play.
Context {S X A : Type} (start : X -> prog S A).

(** A goroutine for a request begins, or the goroutine with an index does its next
    action - or nothing, if it has returned or must wait. *)
Inductive turn := Begin (x : X) | Move (i : nat).

Definition play_turn (st : S * list (X * prog S A)) (t : turn) : S * list (X * prog S A) :=
  match t with
  | Begin x => (st.1, st.2 ++ [(x, start x)])
  | Move i =>
    match st.2 !! i with
    | Some (x, Act f k) => match f st.1 with Some (s, b) => (s, <[i := (x, k b)]> st.2) | None => st end
    | _ => st
    end
  end.

Definition play (s : S) (turns : list turn) : S * list (X * prog S A) := fold_left play_turn turns (s, []).

(** All goroutines in turn, so many times. *)
Definition robin (rounds goroutines : nat) : list turn := concat (repeat (map Move (seq 0 goroutines)) rounds).

(** The requests goroutines begin for. *)
Definition begun (turns : list turn) : list X := omap (fun t => match t with Begin x => Some x | Move _ => None end) turns.

Lemma play_reach ok s0 turns : Forall ok (begun turns) ->
  pool_reach start ok s0 (play s0 turns).1 (play s0 turns).2.
Proof.
  unfold play, begun. induction turns as [|t turns IH] using rev_ind; [constructor|].
  rewrite omap_app. intros [Hok Hlast]%Forall_app. rewrite fold_left_app. cbn [fold_left]. specialize (IH Hok).
  destruct (fold_left play_turn turns (s0, [])) as [s ts]. cbn [fst snd] in *.
  pose proof (pool_reach_ok _ _ _ _ _ IH) as Hall. destruct t as [x|i]; cbn [play_turn fst snd].
  - eapply pool_next; [exact IH|constructor|]. apply Forall_app. split; [done|]. constructor; [|constructor].
    by apply Forall_inv in Hlast.
  - destruct (ts !! i) as [[x [a|B f k]]|] eqn:Ei; [exact IH| |exact IH].
    destruct (f s) as [[s' b]|] eqn:Ef; [|exact IH]. eapply pool_next; [exact IH|by eapply pool_act|].
    apply Forall_insert; [done|]. exact (Forall_lookup_1 _ _ _ _ Hall Ei).
Qed.

(** The request and the result of a goroutine that has returned. *)
Definition result_of (ts : list (X * prog S A)) (i : nat) : option (X * A) :=
  match ts !! i with Some (x, Ret a) => Some (x, a) | _ => None end.

Lemma result_of_Some ts i x a : result_of ts i = Some (x, a) -> ts !! i = Some (x, Ret a).
Proof. unfold result_of. destruct (ts !! i) as [[y [b|B f k]]|]; [|done|done]. by intros [= -> ->]. Qed.
End play.
Arguments turn X : clear implicits.

(** Who need not wait may wait. *)
Lemma obeys_wait {S A} (W W' : Prop) (I : S -> Prop) G (p : prog S A) Q : forall s0,
  (W -> W') -> obeys W I G s0 p Q -> obeys W' I G s0 p Q.
Proof.
  intros s0 HW. revert s0. induction p as [a|B f k IH]; intros s0; [done|]. intros Hp s Hs Hg. specialize (Hp s Hs Hg).
  destruct (f s) as [[s' b]|]; [|by apply HW]. destruct Hp as (? & ? & ?). split_and!; [done..|]. by apply IH.
Qed.

(** ** The pieces of a state *)

(** A program on the second part of a state among programs on the whole: the
    invariant may say more of the whole, as long as what the part may do does not
    break that. *)
Lemma obeys_zoom_snd {T S A} (W : Prop) (J : T * S -> Prop) (I : S -> Prop) (GT : T -> T -> Prop) (G : S -> S -> Prop)
    `{!Reflexive GT} (p : prog S A) (Q : S -> A -> Prop) :
  (forall t s s', J (t, s) -> G s s' -> J (t, s')) -> forall ts,
  obeys W I G ts.2 p Q ->
  obeys W (fun ts => J ts /\ I ts.2) (fun ts ts' => GT ts.1 ts'.1 /\ G ts.2 ts'.2) ts (zoom_snd p)
    (fun ts a => Q ts.2 a).
Proof.
  intros HJ. induction p as [a|B f k IH]; intros ts Hp; [done|]. intros [t s] [Hc Hs] [_ Hg]. cbn in *.
  specialize (Hp s Hs Hg). destruct (f s) as [[s' b]|]; [|done]. destruct Hp as (? & ? & ?).
  split_and!; [by eapply HJ|done..|]. by apply IH.
Qed.

#[global] Instance pair_preorder {T S} (GT : T -> T -> Prop) (G : S -> S -> Prop) :
  PreOrder GT -> PreOrder G -> PreOrder (fun ts ts' : T * S => GT ts.1 ts'.1 /\ G ts.2 ts'.2).
Proof. intros [? ?] [? ?]. split; [by split|]. intros x y z [? ?] [? ?]. split; by etrans. Qed.
