(* ===== verification/GoUnicode.v ===== *)
(** Runes and case mappings: the part of Go's [unicode/utf8] and [unicode]
    packages that [strings.ToLower], [strings.ToUpper] and [strings.EqualFold]
    rest on.

    A Go string is a sequence of bytes that need not be valid UTF-8, and a
    domain name taken from the wire can hold any byte but a dot, so the
    case-insensitive comparisons of the repository run the full Unicode code
    path on hostile input.  The decoding of runes is therefore modelled byte for
    byte, invalid sequences included.  The tables are the simple case mappings of
    the Unicode character database for the code points above ASCII; they are
    written as ranges [CaseRange lo hi stride delta]. *)

From S2P Require Import Prelude.

Open Scope Z_scope.

(** [utf8.RuneError], what an invalid byte decodes to. *)
Definition RuneError : Z := 65533.

(** A continuation byte of a multi-byte sequence. *)
Definition is_cont (b : Z) : bool := (128 <=? b) && (b <=? 191).

(** The bytes allowed after a leading byte [b0]: [utf8.acceptRanges]. *)
Definition accept (b0 b1 : Z) : bool :=
  if b0 =? 224 then (160 <=? b1) && (b1 <=? 191)
  else if b0 =? 237 then (128 <=? b1) && (b1 <=? 159)
  else if b0 =? 240 then (144 <=? b1) && (b1 <=? 191)
  else if b0 =? 244 then (128 <=? b1) && (b1 <=? 143)
  else is_cont b1.

Definition lead2 (b : Z) : bool := (194 <=? b) && (b <=? 223).
Definition lead3 (b : Z) : bool := (224 <=? b) && (b <=? 239).
Definition lead4 (b : Z) : bool := (240 <=? b) && (b <=? 244).

(** The runes of a byte string, as [for _, r := range s] yields them: an
    invalid sequence gives [RuneError] and consumes one byte. *)
Fixpoint runes (s : list Z) : list Z :=
  match s with
  | [] => []
  | b0 :: t =>
    if b0 <? 128 then b0 :: runes t
    else match t with
    | b1 :: t1 =>
      if lead2 b0 && accept b0 b1 then (b0 - 192) * 64 + (b1 - 128) :: runes t1
      else match t1 with
      | b2 :: t2 =>
        if lead3 b0 && accept b0 b1 && is_cont b2
        then (b0 - 224) * 4096 + (b1 - 128) * 64 + (b2 - 128) :: runes t2
        else match t2 with
        | b3 :: t3 =>
          if lead4 b0 && accept b0 b1 && is_cont b2 && is_cont b3
          then (b0 - 240) * 262144 + (b1 - 128) * 4096 + (b2 - 128) * 64 + (b3 - 128) :: runes t3
          else RuneError :: runes t
        | [] => RuneError :: runes t
        end
      | [] => RuneError :: runes t
      end
    | [] => RuneError :: runes t
    end
  end.

(** [utf8.AppendRune]. *)
Definition encode_rune (r : Z) : list Z :=
  if r <? 128 then [r]
  else if r <? 2048 then [192 + r / 64; 128 + r mod 64]
  else if r <? 65536 then [224 + r / 4096; 128 + r / 64 mod 64; 128 + r mod 64]
  else [240 + r / 262144; 128 + r / 4096 mod 64; 128 + r / 64 mod 64; 128 + r mod 64].

Record case_range := CaseRange { cr_lo : Z; cr_hi : Z; cr_stride : Z; cr_delta : Z }.

Definition in_range (r : Z) (c : case_range) : bool :=
  (cr_lo c <=? r) && (r <=? cr_hi c) && ((r - cr_lo c) mod cr_stride c =? 0).

Fixpoint convert_case (t : list case_range) (r : Z) : Z :=
  match t with
  | [] => r
  | c :: t => if in_range r c then r + cr_delta c else convert_case t r
  end.

(** [unicode.ToLower] above ASCII. *)
Definition lower_ranges : list case_range := [
  CaseRange 192 214 1 (32); CaseRange 216 222 1 (32); CaseRange 256 302 2 (1);
  CaseRange 304 304 1 (-199); CaseRange 306 310 2 (1); CaseRange 313 327 2 (1);
  CaseRange 330 374 2 (1); CaseRange 376 376 1 (-121); CaseRange 377 381 2 (1);
  CaseRange 385 385 1 (210); CaseRange 386 388 2 (1); CaseRange 390 390 1 (206);
  CaseRange 391 391 1 (1); CaseRange 393 394 1 (205); CaseRange 395 395 1 (1);
  CaseRange 398 398 1 (79); CaseRange 399 399 1 (202); CaseRange 400 400 1 (203);
  CaseRange 401 401 1 (1); CaseRange 403 403 1 (205); CaseRange 404 404 1 (207);
  CaseRange 406 406 1 (211); CaseRange 407 407 1 (209); CaseRange 408 408 1 (1);
  CaseRange 412 412 1 (211); CaseRange 413 413 1 (213); CaseRange 415 415 1 (214);
  CaseRange 416 420 2 (1); CaseRange 422 422 1 (218); CaseRange 423 423 1 (1);
  CaseRange 425 425 1 (218); CaseRange 428 428 1 (1); CaseRange 430 430 1 (218);
  CaseRange 431 431 1 (1); CaseRange 433 434 1 (217); CaseRange 435 437 2 (1);
  CaseRange 439 439 1 (219); CaseRange 440 440 1 (1); CaseRange 444 444 1 (1);
  CaseRange 452 452 1 (2); CaseRange 453 453 1 (1); CaseRange 455 455 1 (2);
  CaseRange 456 456 1 (1); CaseRange 458 458 1 (2); CaseRange 459 475 2 (1);
  CaseRange 478 494 2 (1); CaseRange 497 497 1 (2); CaseRange 498 500 2 (1);
  CaseRange 502 502 1 (-97); CaseRange 503 503 1 (-56); CaseRange 504 542 2 (1);
  CaseRange 544 544 1 (-130); CaseRange 546 562 2 (1); CaseRange 570 570 1 (10795);
  CaseRange 571 571 1 (1); CaseRange 573 573 1 (-163); CaseRange 574 574 1 (10792);
  CaseRange 577 577 1 (1); CaseRange 579 579 1 (-195); CaseRange 580 580 1 (69);
  CaseRange 581 581 1 (71); CaseRange 582 590 2 (1); CaseRange 880 882 2 (1);
  CaseRange 886 886 1 (1); CaseRange 895 895 1 (116); CaseRange 902 902 1 (38);
  CaseRange 904 906 1 (37); CaseRange 908 908 1 (64); CaseRange 910 911 1 (63);
  CaseRange 913 929 1 (32); CaseRange 931 939 1 (32); CaseRange 975 975 1 (8);
  CaseRange 984 1006 2 (1); CaseRange 1012 1012 1 (-60); CaseRange 1015 1015 1 (1);
  CaseRange 1017 1017 1 (-7); CaseRange 1018 1018 1 (1); CaseRange 1021 1023 1 (-130);
  CaseRange 1024 1039 1 (80); CaseRange 1040 1071 1 (32); CaseRange 1120 1152 2 (1);
  CaseRange 1162 1214 2 (1); CaseRange 1216 1216 1 (15); CaseRange 1217 1229 2 (1);
  CaseRange 1232 1326 2 (1); CaseRange 1329 1366 1 (48); CaseRange 4256 4293 1 (7264);
  CaseRange 4295 4295 1 (7264); CaseRange 4301 4301 1 (7264); CaseRange 5024 5103 1 (38864);
  CaseRange 5104 5109 1 (8); CaseRange 7312 7354 1 (-3008); CaseRange 7357 7359 1 (-3008);
  CaseRange 7680 7828 2 (1); CaseRange 7838 7838 1 (-7615); CaseRange 7840 7934 2 (1);
  CaseRange 7944 7951 1 (-8); CaseRange 7960 7965 1 (-8); CaseRange 7976 7983 1 (-8);
  CaseRange 7992 7999 1 (-8); CaseRange 8008 8013 1 (-8); CaseRange 8025 8031 2 (-8);
  CaseRange 8040 8047 1 (-8); CaseRange 8072 8079 1 (-8); CaseRange 8088 8095 1 (-8);
  CaseRange 8104 8111 1 (-8); CaseRange 8120 8121 1 (-8); CaseRange 8122 8123 1 (-74);
  CaseRange 8124 8124 1 (-9); CaseRange 8136 8139 1 (-86); CaseRange 8140 8140 1 (-9);
  CaseRange 8152 8153 1 (-8); CaseRange 8154 8155 1 (-100); CaseRange 8168 8169 1 (-8);
  CaseRange 8170 8171 1 (-112); CaseRange 8172 8172 1 (-7); CaseRange 8184 8185 1 (-128);
  CaseRange 8186 8187 1 (-126); CaseRange 8188 8188 1 (-9); CaseRange 8486 8486 1 (-7517);
  CaseRange 8490 8490 1 (-8383); CaseRange 8491 8491 1 (-8262); CaseRange 8498 8498 1 (28);
  CaseRange 8544 8559 1 (16); CaseRange 8579 8579 1 (1); CaseRange 9398 9423 1 (26);
  CaseRange 11264 11311 1 (48); CaseRange 11360 11360 1 (1); CaseRange 11362 11362 1 (-10743);
  CaseRange 11363 11363 1 (-3814); CaseRange 11364 11364 1 (-10727); CaseRange 11367 11371 2 (1);
  CaseRange 11373 11373 1 (-10780); CaseRange 11374 11374 1 (-10749);
  CaseRange 11375 11375 1 (-10783); CaseRange 11376 11376 1 (-10782); CaseRange 11378 11378 1 (1);
  CaseRange 11381 11381 1 (1); CaseRange 11390 11391 1 (-10815); CaseRange 11392 11490 2 (1);
  CaseRange 11499 11501 2 (1); CaseRange 11506 11506 1 (1); CaseRange 42560 42604 2 (1);
  CaseRange 42624 42650 2 (1); CaseRange 42786 42798 2 (1); CaseRange 42802 42862 2 (1);
  CaseRange 42873 42875 2 (1); CaseRange 42877 42877 1 (-35332); CaseRange 42878 42886 2 (1);
  CaseRange 42891 42891 1 (1); CaseRange 42893 42893 1 (-42280); CaseRange 42896 42898 2 (1);
  CaseRange 42902 42920 2 (1); CaseRange 42922 42922 1 (-42308); CaseRange 42923 42923 1 (-42319);
  CaseRange 42924 42924 1 (-42315); CaseRange 42925 42925 1 (-42305);
  CaseRange 42926 42926 1 (-42308); CaseRange 42928 42928 1 (-42258);
  CaseRange 42929 42929 1 (-42282); CaseRange 42930 42930 1 (-42261); CaseRange 42931 42931 1 (928);
  CaseRange 42932 42946 2 (1); CaseRange 42948 42948 1 (-48); CaseRange 42949 42949 1 (-42307);
  CaseRange 42950 42950 1 (-35384); CaseRange 42951 42953 2 (1); CaseRange 42960 42960 1 (1);
  CaseRange 42966 42968 2 (1); CaseRange 42997 42997 1 (1); CaseRange 65313 65338 1 (32);
  CaseRange 66560 66599 1 (40); CaseRange 66736 66771 1 (40); CaseRange 66928 66938 1 (39);
  CaseRange 66940 66954 1 (39); CaseRange 66956 66962 1 (39); CaseRange 66964 66965 1 (39);
  CaseRange 68736 68786 1 (64); CaseRange 71840 71871 1 (32); CaseRange 93760 93791 1 (32);
  CaseRange 125184 125217 1 (34)]%Z.

(** [unicode.ToUpper] above ASCII. *)
Definition upper_ranges : list case_range := [
  CaseRange 181 181 1 (743); CaseRange 224 246 1 (-32); CaseRange 248 254 1 (-32);
  CaseRange 255 255 1 (121); CaseRange 257 303 2 (-1); CaseRange 305 305 1 (-232);
  CaseRange 307 311 2 (-1); CaseRange 314 328 2 (-1); CaseRange 331 375 2 (-1);
  CaseRange 378 382 2 (-1); CaseRange 383 383 1 (-300); CaseRange 384 384 1 (195);
  CaseRange 387 389 2 (-1); CaseRange 392 392 1 (-1); CaseRange 396 396 1 (-1);
  CaseRange 402 402 1 (-1); CaseRange 405 405 1 (97); CaseRange 409 409 1 (-1);
  CaseRange 410 410 1 (163); CaseRange 414 414 1 (130); CaseRange 417 421 2 (-1);
  CaseRange 424 424 1 (-1); CaseRange 429 429 1 (-1); CaseRange 432 432 1 (-1);
  CaseRange 436 438 2 (-1); CaseRange 441 441 1 (-1); CaseRange 445 445 1 (-1);
  CaseRange 447 447 1 (56); CaseRange 453 453 1 (-1); CaseRange 454 454 1 (-2);
  CaseRange 456 456 1 (-1); CaseRange 457 457 1 (-2); CaseRange 459 459 1 (-1);
  CaseRange 460 460 1 (-2); CaseRange 462 476 2 (-1); CaseRange 477 477 1 (-79);
  CaseRange 479 495 2 (-1); CaseRange 498 498 1 (-1); CaseRange 499 499 1 (-2);
  CaseRange 501 501 1 (-1); CaseRange 505 543 2 (-1); CaseRange 547 563 2 (-1);
  CaseRange 572 572 1 (-1); CaseRange 575 576 1 (10815); CaseRange 578 578 1 (-1);
  CaseRange 583 591 2 (-1); CaseRange 592 592 1 (10783); CaseRange 593 593 1 (10780);
  CaseRange 594 594 1 (10782); CaseRange 595 595 1 (-210); CaseRange 596 596 1 (-206);
  CaseRange 598 599 1 (-205); CaseRange 601 601 1 (-202); CaseRange 603 603 1 (-203);
  CaseRange 604 604 1 (42319); CaseRange 608 608 1 (-205); CaseRange 609 609 1 (42315);
  CaseRange 611 611 1 (-207); CaseRange 613 613 1 (42280); CaseRange 614 614 1 (42308);
  CaseRange 616 616 1 (-209); CaseRange 617 617 1 (-211); CaseRange 618 618 1 (42308);
  CaseRange 619 619 1 (10743); CaseRange 620 620 1 (42305); CaseRange 623 623 1 (-211);
  CaseRange 625 625 1 (10749); CaseRange 626 626 1 (-213); CaseRange 629 629 1 (-214);
  CaseRange 637 637 1 (10727); CaseRange 640 640 1 (-218); CaseRange 642 642 1 (42307);
  CaseRange 643 643 1 (-218); CaseRange 647 647 1 (42282); CaseRange 648 648 1 (-218);
  CaseRange 649 649 1 (-69); CaseRange 650 651 1 (-217); CaseRange 652 652 1 (-71);
  CaseRange 658 658 1 (-219); CaseRange 669 669 1 (42261); CaseRange 670 670 1 (42258);
  CaseRange 837 837 1 (84); CaseRange 881 883 2 (-1); CaseRange 887 887 1 (-1);
  CaseRange 891 893 1 (130); CaseRange 940 940 1 (-38); CaseRange 941 943 1 (-37);
  CaseRange 945 961 1 (-32); CaseRange 962 962 1 (-31); CaseRange 963 971 1 (-32);
  CaseRange 972 972 1 (-64); CaseRange 973 974 1 (-63); CaseRange 976 976 1 (-62);
  CaseRange 977 977 1 (-57); CaseRange 981 981 1 (-47); CaseRange 982 982 1 (-54);
  CaseRange 983 983 1 (-8); CaseRange 985 1007 2 (-1); CaseRange 1008 1008 1 (-86);
  CaseRange 1009 1009 1 (-80); CaseRange 1010 1010 1 (7); CaseRange 1011 1011 1 (-116);
  CaseRange 1013 1013 1 (-96); CaseRange 1016 1016 1 (-1); CaseRange 1019 1019 1 (-1);
  CaseRange 1072 1103 1 (-32); CaseRange 1104 1119 1 (-80); CaseRange 1121 1153 2 (-1);
  CaseRange 1163 1215 2 (-1); CaseRange 1218 1230 2 (-1); CaseRange 1231 1231 1 (-15);
  CaseRange 1233 1327 2 (-1); CaseRange 1377 1414 1 (-48); CaseRange 4304 4346 1 (3008);
  CaseRange 4349 4351 1 (3008); CaseRange 5112 5117 1 (-8); CaseRange 7296 7296 1 (-6254);
  CaseRange 7297 7297 1 (-6253); CaseRange 7298 7298 1 (-6244); CaseRange 7299 7300 1 (-6242);
  CaseRange 7301 7301 1 (-6243); CaseRange 7302 7302 1 (-6236); CaseRange 7303 7303 1 (-6181);
  CaseRange 7304 7304 1 (35266); CaseRange 7545 7545 1 (35332); CaseRange 7549 7549 1 (3814);
  CaseRange 7566 7566 1 (35384); CaseRange 7681 7829 2 (-1); CaseRange 7835 7835 1 (-59);
  CaseRange 7841 7935 2 (-1); CaseRange 7936 7943 1 (8); CaseRange 7952 7957 1 (8);
  CaseRange 7968 7975 1 (8); CaseRange 7984 7991 1 (8); CaseRange 8000 8005 1 (8);
  CaseRange 8017 8023 2 (8); CaseRange 8032 8039 1 (8); CaseRange 8048 8049 1 (74);
  CaseRange 8050 8053 1 (86); CaseRange 8054 8055 1 (100); CaseRange 8056 8057 1 (128);
  CaseRange 8058 8059 1 (112); CaseRange 8060 8061 1 (126); CaseRange 8064 8071 1 (8);
  CaseRange 8080 8087 1 (8); CaseRange 8096 8103 1 (8); CaseRange 8112 8113 1 (8);
  CaseRange 8115 8115 1 (9); CaseRange 8126 8126 1 (-7205); CaseRange 8131 8131 1 (9);
  CaseRange 8144 8145 1 (8); CaseRange 8160 8161 1 (8); CaseRange 8165 8165 1 (7);
  CaseRange 8179 8179 1 (9); CaseRange 8526 8526 1 (-28); CaseRange 8560 8575 1 (-16);
  CaseRange 8580 8580 1 (-1); CaseRange 9424 9449 1 (-26); CaseRange 11312 11359 1 (-48);
  CaseRange 11361 11361 1 (-1); CaseRange 11365 11365 1 (-10795); CaseRange 11366 11366 1 (-10792);
  CaseRange 11368 11372 2 (-1); CaseRange 11379 11379 1 (-1); CaseRange 11382 11382 1 (-1);
  CaseRange 11393 11491 2 (-1); CaseRange 11500 11502 2 (-1); CaseRange 11507 11507 1 (-1);
  CaseRange 11520 11557 1 (-7264); CaseRange 11559 11559 1 (-7264); CaseRange 11565 11565 1 (-7264);
  CaseRange 42561 42605 2 (-1); CaseRange 42625 42651 2 (-1); CaseRange 42787 42799 2 (-1);
  CaseRange 42803 42863 2 (-1); CaseRange 42874 42876 2 (-1); CaseRange 42879 42887 2 (-1);
  CaseRange 42892 42892 1 (-1); CaseRange 42897 42899 2 (-1); CaseRange 42900 42900 1 (48);
  CaseRange 42903 42921 2 (-1); CaseRange 42933 42947 2 (-1); CaseRange 42952 42954 2 (-1);
  CaseRange 42961 42961 1 (-1); CaseRange 42967 42969 2 (-1); CaseRange 42998 42998 1 (-1);
  CaseRange 43859 43859 1 (-928); CaseRange 43888 43967 1 (-38864); CaseRange 65345 65370 1 (-32);
  CaseRange 66600 66639 1 (-40); CaseRange 66776 66811 1 (-40); CaseRange 66967 66977 1 (-39);
  CaseRange 66979 66993 1 (-39); CaseRange 66995 67001 1 (-39); CaseRange 67003 67004 1 (-39);
  CaseRange 68800 68850 1 (-64); CaseRange 71872 71903 1 (-32); CaseRange 93792 93823 1 (-32);
  CaseRange 125218 125251 1 (-34)]%Z.

(** Simple case folding above ASCII: two runes are in one [unicode.SimpleFold]
    orbit exactly when they fold to the same rune.  The long s and the Kelvin
    sign fold to the ASCII letters s and k. *)
Definition fold_ranges : list case_range := [
  CaseRange 181 181 1 (775); CaseRange 192 214 1 (32); CaseRange 216 222 1 (32);
  CaseRange 256 302 2 (1); CaseRange 306 310 2 (1); CaseRange 313 327 2 (1);
  CaseRange 330 374 2 (1); CaseRange 376 376 1 (-121); CaseRange 377 381 2 (1);
  CaseRange 383 383 1 (-268); CaseRange 385 385 1 (210); CaseRange 386 388 2 (1);
  CaseRange 390 390 1 (206); CaseRange 391 391 1 (1); CaseRange 393 394 1 (205);
  CaseRange 395 395 1 (1); CaseRange 398 398 1 (79); CaseRange 399 399 1 (202);
  CaseRange 400 400 1 (203); CaseRange 401 401 1 (1); CaseRange 403 403 1 (205);
  CaseRange 404 404 1 (207); CaseRange 406 406 1 (211); CaseRange 407 407 1 (209);
  CaseRange 408 408 1 (1); CaseRange 412 412 1 (211); CaseRange 413 413 1 (213);
  CaseRange 415 415 1 (214); CaseRange 416 420 2 (1); CaseRange 422 422 1 (218);
  CaseRange 423 423 1 (1); CaseRange 425 425 1 (218); CaseRange 428 428 1 (1);
  CaseRange 430 430 1 (218); CaseRange 431 431 1 (1); CaseRange 433 434 1 (217);
  CaseRange 435 437 2 (1); CaseRange 439 439 1 (219); CaseRange 440 440 1 (1);
  CaseRange 444 444 1 (1); CaseRange 452 452 1 (2); CaseRange 453 453 1 (1);
  CaseRange 455 455 1 (2); CaseRange 456 456 1 (1); CaseRange 458 458 1 (2);
  CaseRange 459 475 2 (1); CaseRange 478 494 2 (1); CaseRange 497 497 1 (2);
  CaseRange 498 500 2 (1); CaseRange 502 502 1 (-97); CaseRange 503 503 1 (-56);
  CaseRange 504 542 2 (1); CaseRange 544 544 1 (-130); CaseRange 546 562 2 (1);
  CaseRange 570 570 1 (10795); CaseRange 571 571 1 (1); CaseRange 573 573 1 (-163);
  CaseRange 574 574 1 (10792); CaseRange 577 577 1 (1); CaseRange 579 579 1 (-195);
  CaseRange 580 580 1 (69); CaseRange 581 581 1 (71); CaseRange 582 590 2 (1);
  CaseRange 837 837 1 (116); CaseRange 880 882 2 (1); CaseRange 886 886 1 (1);
  CaseRange 895 895 1 (116); CaseRange 902 902 1 (38); CaseRange 904 906 1 (37);
  CaseRange 908 908 1 (64); CaseRange 910 911 1 (63); CaseRange 913 929 1 (32);
  CaseRange 931 939 1 (32); CaseRange 962 962 1 (1); CaseRange 975 975 1 (8);
  CaseRange 976 976 1 (-30); CaseRange 977 977 1 (-25); CaseRange 981 981 1 (-15);
  CaseRange 982 982 1 (-22); CaseRange 984 1006 2 (1); CaseRange 1008 1008 1 (-54);
  CaseRange 1009 1009 1 (-48); CaseRange 1012 1012 1 (-60); CaseRange 1013 1013 1 (-64);
  CaseRange 1015 1015 1 (1); CaseRange 1017 1017 1 (-7); CaseRange 1018 1018 1 (1);
  CaseRange 1021 1023 1 (-130); CaseRange 1024 1039 1 (80); CaseRange 1040 1071 1 (32);
  CaseRange 1120 1152 2 (1); CaseRange 1162 1214 2 (1); CaseRange 1216 1216 1 (15);
  CaseRange 1217 1229 2 (1); CaseRange 1232 1326 2 (1); CaseRange 1329 1366 1 (48);
  CaseRange 4256 4293 1 (7264); CaseRange 4295 4295 1 (7264); CaseRange 4301 4301 1 (7264);
  CaseRange 5112 5117 1 (-8); CaseRange 7296 7296 1 (-6222); CaseRange 7297 7297 1 (-6221);
  CaseRange 7298 7298 1 (-6212); CaseRange 7299 7300 1 (-6210); CaseRange 7301 7301 1 (-6211);
  CaseRange 7302 7302 1 (-6204); CaseRange 7303 7303 1 (-6180); CaseRange 7304 7304 1 (35267);
  CaseRange 7312 7354 1 (-3008); CaseRange 7357 7359 1 (-3008); CaseRange 7680 7828 2 (1);
  CaseRange 7835 7835 1 (-58); CaseRange 7838 7838 1 (-7615); CaseRange 7840 7934 2 (1);
  CaseRange 7944 7951 1 (-8); CaseRange 7960 7965 1 (-8); CaseRange 7976 7983 1 (-8);
  CaseRange 7992 7999 1 (-8); CaseRange 8008 8013 1 (-8); CaseRange 8025 8031 2 (-8);
  CaseRange 8040 8047 1 (-8); CaseRange 8072 8079 1 (-8); CaseRange 8088 8095 1 (-8);
  CaseRange 8104 8111 1 (-8); CaseRange 8120 8121 1 (-8); CaseRange 8122 8123 1 (-74);
  CaseRange 8124 8124 1 (-9); CaseRange 8126 8126 1 (-7173); CaseRange 8136 8139 1 (-86);
  CaseRange 8140 8140 1 (-9); CaseRange 8152 8153 1 (-8); CaseRange 8154 8155 1 (-100);
  CaseRange 8168 8169 1 (-8); CaseRange 8170 8171 1 (-112); CaseRange 8172 8172 1 (-7);
  CaseRange 8184 8185 1 (-128); CaseRange 8186 8187 1 (-126); CaseRange 8188 8188 1 (-9);
  CaseRange 8486 8486 1 (-7517); CaseRange 8490 8490 1 (-8383); CaseRange 8491 8491 1 (-8262);
  CaseRange 8498 8498 1 (28); CaseRange 8544 8559 1 (16); CaseRange 8579 8579 1 (1);
  CaseRange 9398 9423 1 (26); CaseRange 11264 11311 1 (48); CaseRange 11360 11360 1 (1);
  CaseRange 11362 11362 1 (-10743); CaseRange 11363 11363 1 (-3814);
  CaseRange 11364 11364 1 (-10727); CaseRange 11367 11371 2 (1); CaseRange 11373 11373 1 (-10780);
  CaseRange 11374 11374 1 (-10749); CaseRange 11375 11375 1 (-10783);
  CaseRange 11376 11376 1 (-10782); CaseRange 11378 11378 1 (1); CaseRange 11381 11381 1 (1);
  CaseRange 11390 11391 1 (-10815); CaseRange 11392 11490 2 (1); CaseRange 11499 11501 2 (1);
  CaseRange 11506 11506 1 (1); CaseRange 42560 42604 2 (1); CaseRange 42624 42650 2 (1);
  CaseRange 42786 42798 2 (1); CaseRange 42802 42862 2 (1); CaseRange 42873 42875 2 (1);
  CaseRange 42877 42877 1 (-35332); CaseRange 42878 42886 2 (1); CaseRange 42891 42891 1 (1);
  CaseRange 42893 42893 1 (-42280); CaseRange 42896 42898 2 (1); CaseRange 42902 42920 2 (1);
  CaseRange 42922 42922 1 (-42308); CaseRange 42923 42923 1 (-42319);
  CaseRange 42924 42924 1 (-42315); CaseRange 42925 42925 1 (-42305);
  CaseRange 42926 42926 1 (-42308); CaseRange 42928 42928 1 (-42258);
  CaseRange 42929 42929 1 (-42282); CaseRange 42930 42930 1 (-42261); CaseRange 42931 42931 1 (928);
  CaseRange 42932 42946 2 (1); CaseRange 42948 42948 1 (-48); CaseRange 42949 42949 1 (-42307);
  CaseRange 42950 42950 1 (-35384); CaseRange 42951 42953 2 (1); CaseRange 42960 42960 1 (1);
  CaseRange 42966 42968 2 (1); CaseRange 42997 42997 1 (1); CaseRange 43888 43967 1 (-38864);
  CaseRange 65313 65338 1 (32); CaseRange 66560 66599 1 (40); CaseRange 66736 66771 1 (40);
  CaseRange 66928 66938 1 (39); CaseRange 66940 66954 1 (39); CaseRange 66956 66962 1 (39);
  CaseRange 66964 66965 1 (39); CaseRange 68736 68786 1 (64); CaseRange 71840 71871 1 (32);
  CaseRange 93760 93791 1 (32); CaseRange 125184 125217 1 (34)]%Z.

(** ** The mappings on every rune *)

Definition lower_ascii (r : Z) : Z := if (65 <=? r) && (r <=? 90) then r + 32 else r.
Definition upper_ascii (r : Z) : Z := if (97 <=? r) && (r <=? 122) then r - 32 else r.

Definition unicode_ToLower (r : Z) : Z :=
  if r <? 128 then lower_ascii r else convert_case lower_ranges r.
Definition unicode_ToUpper (r : Z) : Z :=
  if r <? 128 then upper_ascii r else convert_case upper_ranges r.
Definition fold_rune (r : Z) : Z :=
  if r <? 128 then lower_ascii r else convert_case fold_ranges r.

