(* ===== verification/GoStrings.v ===== *)
(** Go strings: the functions of Go's [strings] package the repository calls on
    domain names, and the lemmas on splitting, joining and lowercasing that the
    components share.

    A string is the list of its bytes.  A separator is always one byte (the
    repository only splits, cuts and trims at dots). *)

From Stdlib Require Import Ascii String.
From S2P Require Import Prelude GoUnicode.

Open Scope Z_scope.

Abbreviation gostring := (list Z).

(** String literals. *)
Fixpoint str (s : string) : gostring :=
  match s with
  | EmptyString => []
  | String c s => Z.of_nat (nat_of_ascii c) :: str s
  end.

Definition dot : Z := 46.

(** [strings.Split(s, sep)]. *)
Fixpoint Split (c : Z) (s : gostring) : list gostring :=
  match s with
  | [] => [[]]
  | x :: s =>
    if x =? c then [] :: Split c s
    else match Split c s with
         | l :: ls => (x :: l) :: ls
         | [] => [[x]]
         end
  end.

(** [strings.Join(ls, sep)]. *)
Fixpoint Join (c : Z) (ls : list gostring) : gostring :=
  match ls with
  | [] => []
  | [l] => l
  | l :: ls => l ++ c :: Join c ls
  end.

(** [strings.HasSuffix] and [strings.TrimSuffix]. *)
Definition HasSuffix (s suffix : gostring) : bool :=
  bool_decide (length suffix <= length s)%nat &&
  bool_decide (drop (length s - length suffix) s = suffix).
Definition TrimSuffix (s suffix : gostring) : gostring :=
  if HasSuffix s suffix then take (length s - length suffix) s else s.

(** [strings.TrimSuffix(name, ".")]. *)
Abbreviation trim_dot s := (TrimSuffix s [dot]).

(** [strings.Contains(s, sep)] for a one-byte [sep]. *)
Definition Contains (s : gostring) (c : Z) : bool := existsb (Z.eqb c) s.

(** [strings.Cut(s, sep)] for a one-byte [sep]; [None] stands for
    [found == false], when Go returns [s, "", false]. *)
Fixpoint Cut (s : gostring) (c : Z) : option (gostring * gostring) :=
  match s with
  | [] => None
  | x :: s =>
    if x =? c then Some ([], s)
    else match Cut s c with
         | Some (before, after) => Some (x :: before, after)
         | None => None
         end
  end.

(** [strings.Compare]: bytewise lexicographic order. *)
Fixpoint Compare (a b : gostring) : comparison :=
  match a, b with
  | [], [] => Eq
  | [], _ :: _ => Lt
  | _ :: _, [] => Gt
  | x :: a, y :: b => match x ?= y with Eq => Compare a b | c => c end
  end.

Definition is_ascii (s : gostring) : bool := forallb (fun b => b <? 128) s.

(** [strings.ToLower] and [strings.ToUpper]: a byte loop on ASCII strings,
    [strings.Map] over the decoded runes otherwise. *)
Definition ToLower (s : gostring) : gostring :=
  if is_ascii s then map lower_ascii s
  else flat_map (fun r => encode_rune (unicode_ToLower r)) (runes s).
Definition ToUpper (s : gostring) : gostring :=
  if is_ascii s then map upper_ascii s
  else flat_map (fun r => encode_rune (unicode_ToUpper r)) (runes s).

(** [strings.EqualFold]: rune by rune under simple case folding. *)
Definition EqualFold (a b : gostring) : bool :=
  bool_decide (map fold_rune (runes a) = map fold_rune (runes b)).

(** ** Splitting and joining *)

Lemma Split_cons c s : exists l ls, Split c s = l :: ls.
Proof.
  destruct s as [|x s]; simpl; [eauto|].
  destruct (x =? c); [eauto|]. destruct (Split c s); eauto.
Qed.

Lemma Split_not_nil c s : Split c s <> [].
Proof. destruct (Split_cons c s) as (l & ls & ->). done. Qed.

Lemma Join_cons c l ls : ls <> [] -> Join c (l :: ls) = l ++ c :: Join c ls.
Proof. by destruct ls. Qed.

Lemma Forall_Join (P : Z -> Prop) c fs : P c -> Forall (Forall P) fs -> Forall P (Join c fs).
Proof.
  intros Hc. induction 1 as [|f fs Hf Hfs IH]; [constructor|]. destruct fs as [|f' fs]; [done|].
  rewrite Join_cons by done. apply Forall_app. split; [done|]. by constructor.
Qed.

Lemma Join_Split c s : Join c (Split c s) = s.
Proof.
  induction s as [|x s IH]; simpl; [done|].
  destruct (Z.eqb_spec x c) as [->|_].
  - rewrite Join_cons by apply Split_not_nil. simpl. by rewrite IH.
  - destruct (Split_cons c s) as (l & ls & E). rewrite E in IH |- *.
    destruct ls; simpl in *; congruence.
Qed.

Definition no_sep (c : Z) (l : gostring) : Prop := c ∉ l.

Lemma Split_no_sep c s : Forall (no_sep c) (Split c s).
Proof.
  induction s as [|x s IH]; simpl.
  - repeat constructor. unfold no_sep. set_solver.
  - destruct (Z.eqb_spec x c) as [->|Hne].
    + constructor; [apply not_elem_of_nil | done].
    + destruct (Split_cons c s) as (l & ls & E). rewrite E in IH |- *.
      apply Forall_cons in IH as [Hl IH]. constructor; [|done].
      apply not_elem_of_cons. split; [congruence | done].
Qed.

Lemma Split_atom c l : no_sep c l -> Split c l = [l].
Proof.
  unfold no_sep. induction l as [|x l IH]; simpl; [done|]. intros Hn.
  destruct (Z.eqb_spec x c) as [->|_]; [set_solver|].
  rewrite IH by set_solver. done.
Qed.

Lemma Split_app c a b : Split c (a ++ c :: b) = Split c a ++ Split c b.
Proof.
  induction a as [|x a IH]; simpl.
  - by rewrite Z.eqb_refl.
  - destruct (x =? c); rewrite IH; [done|].
    destruct (Split_cons c a) as (l & ls & ->). done.
Qed.

Lemma Split_Join c ls : ls <> [] -> Forall (no_sep c) ls -> Split c (Join c ls) = ls.
Proof.
  intros Hne Hall. induction Hall as [|l ls Hl Hall IH]; [done|].
  destruct ls as [|l' ls]; [by apply Split_atom|].
  rewrite Join_cons, Split_app, Split_atom, IH by done. done.
Qed.

Lemma Join_app c l1 l2 :
  l1 <> [] -> l2 <> [] -> Join c (l1 ++ l2) = Join c l1 ++ c :: Join c l2.
Proof.
  intros H1 H2. induction l1 as [|l l1 IH]; [done|].
  destruct l1 as [|l' l1].
  - simpl. by destruct l2.
  - change ((l :: l' :: l1) ++ l2) with (l :: ((l' :: l1) ++ l2)).
    rewrite !Join_cons by done. rewrite IH by done. by rewrite <-app_assoc.
Qed.

Lemma Join_nil_iff c ls : Forall (fun l => l <> []) ls -> Join c ls = [] <-> ls = [].
Proof.
  intros H. split; [|by intros ->].
  destruct H as [|l ls Hl _]; [done|].
  destruct ls; simpl; [done|]. by destruct l.
Qed.

(** The length of the joined name in wire terms: every label costs itself and
    one length byte. *)
Definition wire_len (ls : list gostring) : nat := sum_list_with (fun l => S (length l)) ls.

Lemma length_Join c ls : ls <> [] -> S (length (Join c ls)) = wire_len ls.
Proof.
  unfold wire_len. induction ls as [|l ls IH]; [done|]. intros _.
  destruct ls as [|l' ls]; [simpl; lia|].
  rewrite Join_cons, length_app by done. simpl length.
  specialize (IH ltac:(done)). simpl in *. lia.
Qed.

(** ** Trimming a trailing dot *)

Lemma TrimSuffix_snoc c s : TrimSuffix (s ++ [c]) [c] = s.
Proof.
  unfold TrimSuffix, HasSuffix. rewrite length_app. simpl length.
  replace (length s + 1 - 1)%nat with (length s) by lia.
  rewrite drop_app_length, take_app_length.
  rewrite !bool_decide_true; [done|done|lia].
Qed.

Lemma TrimSuffix_cases c s : (exists t, s = t ++ [c] /\ TrimSuffix s [c] = t) \/ TrimSuffix s [c] = s.
Proof.
  unfold TrimSuffix, HasSuffix.
  do 2 case_bool_decide; simpl; [|auto..].
  left. exists (take (length s - length [c]) s). split; [|reflexivity].
  rewrite <-(take_drop (length s - length [c]) s) at 1. by f_equal.
Qed.

(** A string with no such last byte is left alone. *)
Lemma TrimSuffix_other c s : last s <> Some c -> TrimSuffix s [c] = s.
Proof.
  intros H. destruct (TrimSuffix_cases c s) as [(t & -> & _)|]; [|done].
  by rewrite last_snoc in H.
Qed.

Lemma trim_dot_snoc s : trim_dot (s ++ [dot]) = s.
Proof. apply TrimSuffix_snoc. Qed.

Lemma trim_dot_cases s : (exists t, s = t ++ [dot] /\ trim_dot s = t) \/ trim_dot s = s.
Proof. apply TrimSuffix_cases. Qed.

Lemma trim_dot_id s : last s <> Some dot -> trim_dot s = s.
Proof. apply TrimSuffix_other. Qed.

Lemma last_not_dot_Join ls :
  Forall (fun l => l <> []) ls -> Forall (no_sep dot) ls -> last (Join dot ls) <> Some dot.
Proof.
  intros Hne Hns. induction ls as [|l ls IH]; [done|].
  inversion Hne; inversion Hns; subst. destruct ls as [|l' ls].
  - simpl. intros E. apply last_Some in E as [l' ->]. unfold no_sep in *. set_solver.
  - rewrite Join_cons by done. change (dot :: ?x) with ([dot] ++ x).
    rewrite !last_app.
    destruct (last (Join dot (l' :: ls))) eqn:E.
    + by apply IH.
    + apply last_None, Join_nil_iff in E; done.
Qed.

Lemma trim_dot_Join ls :
  Forall (fun l => l <> []) ls -> Forall (no_sep dot) ls -> trim_dot (Join dot ls) = Join dot ls.
Proof. intros. apply trim_dot_id. by apply last_not_dot_Join. Qed.

(** ** Runes and lowercasing *)

Lemma is_cont_high b : is_cont b = true -> 128 <= b.
Proof. unfold is_cont. lia. Qed.

Lemma accept_high b0 b1 : accept b0 b1 = true -> 128 <= b1.
Proof. unfold accept, is_cont. repeat case_match; lia. Qed.

Lemma accept_ascii b0 c : c < 128 -> accept b0 c = false.
Proof.
  intros Hc. destruct (accept b0 c) eqn:E; [|done]. apply accept_high in E. lia.
Qed.

Lemma is_cont_ascii c : c < 128 -> is_cont c = false.
Proof. intros Hc. destruct (is_cont c) eqn:E; [|done]. apply is_cont_high in E. lia. Qed.

(** A dot never takes part in a multi-byte sequence, so decoding splits there. *)
Lemma runes_app_dot a b : runes (a ++ dot :: b) = runes a ++ dot :: runes b.
Proof.
  remember (length a) as n eqn:Hn.
  induction (lt_wf n) as [n _ IH] in a, Hn |- *. subst n.
  assert (IH' : forall a', (length a' < length a)%nat ->
    runes (a' ++ dot :: b) = runes a' ++ dot :: runes b) by (intros; eapply IH; eauto).
  clear IH. destruct a as [|b0 a]; [done|].
  assert (Hd : forall b0, accept b0 dot = false) by (intros; by apply accept_ascii).
  assert (Hc : is_cont dot = false) by done.
  cbn [runes app]. destruct (b0 <? 128); [by rewrite IH' by (simpl; lia)|].
  destruct a as [|b1 a]; cbn [app].
  { rewrite Hd, !andb_false_r. cbn [andb]. destruct b as [|? [|? ?]]; reflexivity. }
  destruct (lead2 b0 && accept b0 b1); [by rewrite IH' by (simpl; lia)|].
  destruct a as [|b2 a]; cbn [app].
  { rewrite Hc, !andb_false_r. cbn [andb].
    rewrite <-(IH' [b1]) by (simpl; lia). destruct b; reflexivity. }
  destruct (lead3 b0 && _ && _); [by rewrite IH' by (simpl; lia)|].
  destruct a as [|b3 a]; cbn [app].
  { rewrite Hc, !andb_false_r. by rewrite <-(IH' [b1; b2]) by (simpl; lia). }
  destruct (lead4 b0 && _ && _ && _); [by rewrite IH' by (simpl; lia)|].
  change (RuneError :: runes ((b1 :: b2 :: b3 :: a) ++ dot :: b)
          = RuneError :: (runes (b1 :: b2 :: b3 :: a) ++ dot :: runes b)).
  by rewrite IH' by (simpl; lia).
Qed.

Lemma runes_ascii s : is_ascii s = true -> runes s = s.
Proof.
  induction s as [|b s IH]; simpl; [done|]. intros [Hb Hs]%andb_true_iff.
  rewrite Hb. by rewrite IH.
Qed.

Lemma is_ascii_app a b : is_ascii (a ++ b) = is_ascii a && is_ascii b.
Proof. apply forallb_app. Qed.

Lemma flat_map_encode_ascii (f g : Z -> Z) s :
  (forall r, r < 128 -> f r = g r /\ g r < 128) -> is_ascii s = true ->
  flat_map (fun r => encode_rune (f r)) s = map g s.
Proof.
  intros Hf. induction s as [|b s IH]; [done|].
  cbn [is_ascii forallb flat_map map]. intros [Hb Hs]%andb_true_iff.
  apply Z.ltb_lt in Hb. destruct (Hf b Hb) as [-> Hg].
  unfold encode_rune at 1. rewrite (proj2 (Z.ltb_lt _ _) Hg). simpl.
  by rewrite IH.
Qed.

Lemma lower_ascii_bound r : r < 128 -> lower_ascii r < 128.
Proof. unfold lower_ascii. case_match; lia. Qed.

(** The two code paths of [strings.ToLower] agree, so it is one function of the
    decoded runes. *)
Lemma ToLower_runes s :
  ToLower s = flat_map (fun r => encode_rune (unicode_ToLower r)) (runes s).
Proof.
  unfold ToLower. destruct (is_ascii s) eqn:Hs; [|done].
  rewrite runes_ascii by done. symmetry. apply flat_map_encode_ascii; [|done].
  intros r Hr. unfold unicode_ToLower. rewrite (proj2 (Z.ltb_lt _ _) Hr).
  split; [done|]. by apply lower_ascii_bound.
Qed.

Lemma ToLower_app_dot a b : ToLower (a ++ dot :: b) = ToLower a ++ dot :: ToLower b.
Proof. by rewrite !ToLower_runes, runes_app_dot, flat_map_app. Qed.

Lemma ToLower_nil : ToLower [] = [].
Proof. done. Qed.

Lemma ToLower_Join ls : ls <> [] -> ToLower (Join dot ls) = Join dot (map ToLower ls).
Proof.
  induction ls as [|l ls IH]; [done|]. intros _.
  destruct ls as [|l' ls]; [done|].
  rewrite Join_cons, ToLower_app_dot, IH by done. done.
Qed.

(** *** Lowercasing creates no dot *)

Lemma convert_case_spec (P : Z -> Z -> Prop) t r :
  (forall x, 128 <= x -> P x x) ->
  Forall (fun c => 128 <= cr_lo c /\ forall x, cr_lo c <= x <= cr_hi c -> P x (x + cr_delta c)) t ->
  128 <= r -> P r (convert_case t r).
Proof.
  intros Hid Hall Hr. induction Hall as [|c t [Hlo Hc] Hall IH]; simpl; [auto|].
  destruct (in_range r c) eqn:E; [|done].
  apply Hc. unfold in_range in E. lia.
Qed.

(** A check on the ends of a range that bounds every image away from ASCII
    punctuation. *)
Definition range_letters (c : case_range) : bool :=
  (128 <=? cr_lo c) &&
  ((128 <=? cr_lo c + cr_delta c) ||
   ((cr_lo c =? cr_hi c) && (97 <=? cr_lo c + cr_delta c) && (cr_lo c + cr_delta c <=? 122))).

Lemma lower_ranges_letters : forallb range_letters lower_ranges = true.
Proof. vm_compute. reflexivity. Qed.

Lemma unicode_ToLower_high r :
  128 <= r -> 128 <= unicode_ToLower r \/ 97 <= unicode_ToLower r <= 122.
Proof.
  intros Hr. unfold unicode_ToLower. rewrite (proj2 (Z.ltb_ge _ _) Hr).
  apply (convert_case_spec (fun _ y => 128 <= y \/ 97 <= y <= 122)); [auto| |done].
  apply Forall_forall. intros c Hc. pose proof lower_ranges_letters as Hall.
  rewrite forallb_forall in Hall. specialize (Hall c (proj1 (list_elem_of_In _ _) Hc)).
  unfold range_letters in Hall. split; intros; lia.
Qed.

Lemma unicode_ToLower_dot r : unicode_ToLower r = dot -> r = dot.
Proof.
  intros H. destruct (Z.lt_ge_cases r 128).
  - unfold unicode_ToLower, lower_ascii, dot in *. repeat case_match; lia.
  - destruct (unicode_ToLower_high r); unfold dot in *; lia.
Qed.

Lemma encode_rune_dot r : dot ∈ encode_rune r -> r = dot.
Proof.
  unfold encode_rune, dot. intros H.
  repeat case_match; rewrite !elem_of_cons, elem_of_nil in H;
    zlia.
Qed.

(** A multi-byte sequence decodes to a rune above ASCII. *)
Lemma rune2_high b0 b1 :
  lead2 b0 && accept b0 b1 = true -> 128 <= (b0 - 192) * 64 + (b1 - 128).
Proof. intros [H1 H2%accept_high]%andb_true_iff. unfold lead2 in H1. lia. Qed.

Lemma accept_lead3 b0 b1 :
  accept b0 b1 = true -> (b0 = 224 -> 160 <= b1) /\ (b0 = 240 -> 144 <= b1).
Proof. unfold accept. intros H. split; intros ->; simpl in H; lia. Qed.

Lemma rune3_high b0 b1 b2 :
  lead3 b0 && accept b0 b1 && is_cont b2 = true ->
  128 <= (b0 - 224) * 4096 + (b1 - 128) * 64 + (b2 - 128).
Proof.
  intros [[H1 Ha]%andb_true_iff H3%is_cont_high]%andb_true_iff.
  pose proof (accept_high _ _ Ha). apply accept_lead3 in Ha. unfold lead3 in H1. lia.
Qed.

Lemma rune4_high b0 b1 b2 b3 :
  lead4 b0 && accept b0 b1 && is_cont b2 && is_cont b3 = true ->
  128 <= (b0 - 240) * 262144 + (b1 - 128) * 4096 + (b2 - 128) * 64 + (b3 - 128).
Proof.
  intros [[[H1 Ha]%andb_true_iff H3%is_cont_high]%andb_true_iff H4%is_cont_high]%andb_true_iff.
  pose proof (accept_high _ _ Ha). apply accept_lead3 in Ha. unfold lead4 in H1. lia.
Qed.

(** A decoded rune above ASCII comes from a multi-byte sequence; an ASCII rune
    is a byte of the string. *)
Lemma runes_elem s r : r ∈ runes s -> 128 <= r \/ r ∈ s.
Proof.
  remember (length s) as n eqn:Hn.
  induction (lt_wf n) as [n _ IH] in s, Hn |- *. subst n.
  assert (IH' : forall s', (length s' < length s)%nat -> r ∈ runes s' -> 128 <= r \/ r ∈ s')
    by (intros; eapply IH; eauto).
  clear IH. destruct s as [|b0 t]; [by intros ?%elem_of_nil|].
  assert (Ht : forall pre t' x, t = pre ++ t' ->
    128 <= x \/ x = b0 -> r ∈ x :: runes t' -> 128 <= r \/ r ∈ b0 :: t).
  { intros pre t' x -> Hx. rewrite !elem_of_cons. intros [->|Hr]; [tauto|].
    destruct (IH' t') as [|Hin]; [simpl; rewrite length_app; lia|done|auto|].
    right; right. apply elem_of_app. auto. }
  assert (Herr : r ∈ RuneError :: runes t -> 128 <= r \/ r ∈ b0 :: t)
    by (apply (Ht []); [done|unfold RuneError; lia]).
  cbn [runes]. destruct (b0 <? 128); [by apply (Ht []); [|right]|].
  destruct t as [|b1 t]; [exact Herr|].
  destruct (lead2 b0 && accept b0 b1) eqn:E2.
  { apply (Ht [b1]); [done|left]. by apply rune2_high. }
  destruct t as [|b2 t]; [exact Herr|].
  destruct (lead3 b0 && _ && _) eqn:E3.
  { apply (Ht [b1; b2]); [done|left]. by apply rune3_high. }
  destruct t as [|b3 t]; [exact Herr|].
  destruct (lead4 b0 && _ && _ && _) eqn:E4; [|exact Herr].
  apply (Ht [b1; b2; b3]); [done|left]. by apply rune4_high.
Qed.

Lemma ToLower_no_dot s : no_sep dot s -> no_sep dot (ToLower s).
Proof.
  unfold no_sep. intros Hs Hin. apply Hs. rewrite ToLower_runes in Hin.
  apply list_elem_of_In, in_flat_map in Hin as (r & Hr & Hin).
  apply list_elem_of_In in Hr, Hin.
  apply encode_rune_dot, unicode_ToLower_dot in Hin as ->.
  apply runes_elem in Hr as [Hr|]; [|done]. unfold dot in Hr. lia.
Qed.

(** Lowercasing a name lowercases its labels and nothing else. *)
Lemma Split_ToLower s : Split dot (ToLower s) = map ToLower (Split dot s).
Proof.
  rewrite <-(Join_Split dot s) at 1.
  rewrite ToLower_Join by apply Split_not_nil. apply Split_Join.
  - intros E. apply map_eq_nil in E. by apply Split_not_nil in E.
  - apply Forall_map. eapply Forall_impl; [apply Split_no_sep|].
    intros l. apply ToLower_no_dot.
Qed.

Lemma encode_rune_not_nil r : encode_rune r <> [].
Proof. unfold encode_rune. by repeat case_match. Qed.

Lemma runes_not_nil b s : runes (b :: s) <> [].
Proof. cbn [runes]. by repeat case_match. Qed.

Lemma ToLower_nil_iff s : ToLower s = [] <-> s = [].
Proof.
  split; [|by intros ->]. rewrite ToLower_runes. destruct s as [|b s]; [done|].
  pose proof (runes_not_nil b s). destruct (runes (b :: s)) as [|r rs]; [done|].
  simpl. intros E. apply app_eq_nil in E as [E _]. by apply encode_rune_not_nil in E.
Qed.

(** *** Lowercasing twice *)

(** What the decoder can yield: no surrogates, nothing above the last plane. *)
Definition valid_rune (r : Z) : Prop := r < 55296 \/ 57344 <= r < 1114112.

#[export] Instance valid_rune_dec r : Decision (valid_rune r).
Proof. unfold valid_rune. apply _. Defined.

Lemma accept_range b0 b1 :
  accept b0 b1 = true ->
  128 <= b1 <= 191 /\ (b0 = 224 -> 160 <= b1) /\ (b0 = 237 -> b1 <= 159) /\
  (b0 = 240 -> 144 <= b1) /\ (b0 = 244 -> b1 <= 143).
Proof. unfold accept, is_cont. intros H. repeat case_match; lia. Qed.

Lemma accept_intro b0 b1 :
  128 <= b1 <= 191 -> (b0 = 224 -> 160 <= b1) -> (b0 = 237 -> b1 <= 159) ->
  (b0 = 240 -> 144 <= b1) -> (b0 = 244 -> b1 <= 143) -> accept b0 b1 = true.
Proof. unfold accept, is_cont. intros. repeat case_match; lia. Qed.

Lemma runes_valid s : Forall valid_rune (runes s).
Proof.
  remember (length s) as n eqn:Hn. induction (lt_wf n) as [n _ IH] in s, Hn |- *. subst n.
  destruct s as [|b0 t]; [constructor|].
  assert (IH' : forall s', (length s' < length (b0 :: t))%nat -> Forall valid_rune (runes s'))
    by (intros; by eapply IH).
  assert (Herr : Forall valid_rune (RuneError :: runes t)).
  { constructor; [unfold valid_rune, RuneError; lia|]. apply IH'. simpl. lia. }
  clear IH. cbn [runes]. destruct (Z.ltb_spec b0 128).
  { constructor; [left; lia|]. apply IH'. simpl. lia. }
  destruct t as [|b1 t1]; [done|].
  destruct (lead2 b0 && accept b0 b1) eqn:E2.
  { apply andb_true_iff in E2 as [L A%accept_range]. unfold lead2 in L.
    constructor; [left; lia|apply IH'; simpl; lia]. }
  destruct t1 as [|b2 t2]; [done|].
  destruct (lead3 b0 && accept b0 b1 && is_cont b2) eqn:E3.
  { apply andb_true_iff in E3 as [[L A%accept_range]%andb_true_iff C]. unfold lead3, is_cont in *.
    constructor; [unfold valid_rune; lia|apply IH'; simpl; lia]. }
  destruct t2 as [|b3 t3]; [done|].
  destruct (lead4 b0 && accept b0 b1 && is_cont b2 && is_cont b3) eqn:E4; [|done].
  apply andb_true_iff in E4 as [[[L A%accept_range]%andb_true_iff C]%andb_true_iff D].
  unfold lead4, is_cont in *. constructor; [unfold valid_rune; lia|apply IH'; simpl; lia].
Qed.

(** Decoding undoes encoding. *)
Lemma runes_encode r rest : valid_rune r -> runes (encode_rune r ++ rest) = r :: runes rest.
Proof.
  intros Hr. unfold encode_rune. destruct (Z.ltb_spec r 128); [cbn [app runes]; by rewrite (proj2 (Z.ltb_lt r 128))|].
  destruct (Z.ltb_spec r 2048).
  { cbn [app runes]. assert (Hlead : 194 <= 192 + r / 64 <= 223) by zlia.
    rewrite (proj2 (Z.ltb_ge _ _)) by lia.
    assert (E : lead2 (192 + r / 64) && accept (192 + r / 64) (128 + r mod 64) = true).
    { apply andb_true_iff. split; [unfold lead2; lia|]. apply accept_intro; zlia. }
    rewrite E. f_equal. zlia. }
  destruct (Z.ltb_spec r 65536).
  { cbn [app runes]. assert (Hlead : 224 <= 224 + r / 4096 <= 239) by zlia.
    rewrite (proj2 (Z.ltb_ge _ _)) by lia.
    assert (E2 : lead2 (224 + r / 4096) = false) by (unfold lead2; lia). rewrite E2. cbn [andb].
    assert (E : lead3 (224 + r / 4096) && accept (224 + r / 4096) (128 + r / 64 mod 64) &&
                is_cont (128 + r mod 64) = true).
    { rewrite !andb_true_iff. unfold lead3, is_cont, valid_rune in *. split_and!; [lia| |zlia].
      apply accept_intro; zlia. }
    rewrite E. f_equal. zlia. }
  cbn [app runes]. unfold valid_rune in Hr. assert (Hlead : 240 <= 240 + r / 262144 <= 244) by zlia.
  rewrite (proj2 (Z.ltb_ge _ _)) by lia.
  assert (E2 : lead2 (240 + r / 262144) = false) by (unfold lead2; lia).
  assert (E3 : lead3 (240 + r / 262144) = false) by (unfold lead3; lia). rewrite E2, E3. cbn [andb].
  assert (E : lead4 (240 + r / 262144) && accept (240 + r / 262144) (128 + r / 4096 mod 64) &&
              is_cont (128 + r / 64 mod 64) && is_cont (128 + r mod 64) = true).
  { rewrite !andb_true_iff. unfold lead4, is_cont in *. split_and!; try zlia. apply accept_intro; zlia. }
  rewrite E. f_equal. zlia.
Qed.

(** The images of the table, checked one by one. *)
Lemma lower_ranges_fixed :
  forallb (fun c => (128 <=? cr_lo c) && forallb (fun x => negb (in_range x c) ||
    (unicode_ToLower (x + cr_delta c) =? x + cr_delta c) && bool_decide (valid_rune (x + cr_delta c)))
    (seqZ (cr_lo c) (cr_hi c - cr_lo c + 1))) lower_ranges = true.
Proof. vm_compute. reflexivity. Qed.

Lemma convert_case_cases t r :
  convert_case t r = r \/ exists c, c ∈ t /\ in_range r c = true /\ convert_case t r = r + cr_delta c.
Proof.
  induction t as [|c t IH]; cbn [convert_case]; [by left|].
  destruct (in_range r c) eqn:E.
  - right. exists c. split_and!; [by left|done|done].
  - destruct IH as [?|(c' & ? & ? & ?)]; [by left|right]. exists c'. split_and!; [by right|done|done].
Qed.

Lemma unicode_ToLower_fixed r :
  valid_rune r -> unicode_ToLower (unicode_ToLower r) = unicode_ToLower r /\ valid_rune (unicode_ToLower r).
Proof.
  intros Hr. unfold unicode_ToLower at 2 3 4. destruct (Z.ltb_spec r 128) as [Hlow|Hhigh].
  { pose proof (lower_ascii_bound r Hlow). unfold unicode_ToLower. rewrite (proj2 (Z.ltb_lt _ _)) by done.
    split; [unfold lower_ascii; repeat case_match; lia|left; lia]. }
  destruct (convert_case_cases lower_ranges r) as [E|(c & Hc & Hin & E)]; rewrite E.
  - split; [|done]. unfold unicode_ToLower. by rewrite (proj2 (Z.ltb_ge _ _)).
  - pose proof lower_ranges_fixed as Hall. rewrite forallb_forall in Hall.
    specialize (Hall c (proj1 (list_elem_of_In _ _) Hc)). apply andb_true_iff in Hall as [_ Hall].
    rewrite forallb_forall in Hall. specialize (Hall r). rewrite <-list_elem_of_In, elem_of_seqZ in Hall.
    rewrite Hin in Hall. specialize (Hall ltac:(unfold in_range in Hin; lia)). cbn [negb orb] in Hall.
    apply andb_true_iff in Hall as [H1 H2%bool_decide_eq_true]. split; [lia|done].
Qed.

Lemma runes_ToLower s : runes (ToLower s) = map unicode_ToLower (runes s).
Proof.
  rewrite ToLower_runes. induction (runes_valid s) as [|r rs Hr _ IH]; [done|].
  cbn [flat_map map]. rewrite runes_encode by by apply unicode_ToLower_fixed. by rewrite IH.
Qed.

Lemma ToLower_twice s : ToLower (ToLower s) = ToLower s.
Proof.
  rewrite (ToLower_runes (ToLower s)), runes_ToLower, ToLower_runes.
  induction (runes_valid s) as [|r rs Hr _ IH]; [done|]. cbn [map flat_map].
  by rewrite IH, (proj1 (unicode_ToLower_fixed r Hr)).
Qed.
