(* ===== verification/GoText.v ===== *)
(** The functions of Go's [strings], [strconv], [encoding/hex] and [bufio] the configuration and
    the trust anchor file are read with. *)

From S2P Require Import Prelude GoUnicode GoStrings.

Open Scope list_scope.
Open Scope Z_scope.

(** ** White space

    [unicode.IsSpace] on the bytes of a string: how many bytes the space takes that
    [s] starts with, 0 if it starts with something else.  No space has a
    continuation byte in front, so looking at every byte finds the spaces a
    decoder of runes finds, in valid and invalid strings alike. *)
Definition space_len (s : gostring) : nat :=
  match s with
  | b :: s =>
    if ((9 <=? b) && (b <=? 13)) || (b =? 32) then 1%nat
    else match s with
         | b1 :: s =>
           if (b =? 194) && ((b1 =? 133) || (b1 =? 160)) then 2%nat
           else match s with
                | b2 :: _ =>
                  if ((b =? 225) && (b1 =? 154) && (b2 =? 128))
                     || ((b =? 226) && (b1 =? 128) && (((128 <=? b2) && (b2 <=? 138)) || (b2 =? 168) || (b2 =? 169) || (b2 =? 175)))
                     || ((b =? 226) && (b1 =? 129) && (b2 =? 159))
                     || ((b =? 227) && (b1 =? 128) && (b2 =? 128))
                  then 3%nat else 0%nat
                | [] => 0%nat
                end
         | [] => 0%nat
         end
  | [] => 0%nat
  end.

Definition flush (cur : gostring) : list gostring := if bool_decide (cur = []) then [] else [cur].

(** [strings.Fields]: [skip] bytes of a space are left, [cur] is the field so far. *)
Fixpoint fields_loop (skip : nat) (cur s : gostring) : list gostring :=
  match s with
  | [] => flush cur
  | c :: s' =>
    match skip with
    | S skip => fields_loop skip cur s'
    | O =>
      match space_len s with
      | O => fields_loop 0 (cur ++ [c]) s'
      | S k => flush cur ++ fields_loop k [] s'
      end
    end
  end.

Definition Fields (s : gostring) : list gostring := fields_loop 0 [] s.

(** [strings.TrimSpace]. *)
Fixpoint TrimLeftSpace (skip : nat) (s : gostring) : gostring :=
  match s with
  | [] => []
  | _ :: s' =>
    match skip with
    | S skip => TrimLeftSpace skip s'
    | O => match space_len s with O => s | S k => TrimLeftSpace k s' end
    end
  end.

Fixpoint TrimRightSpace (s : gostring) : gostring :=
  match s with
  | [] => []
  | c :: s' => if bool_decide (Fields s = []) then [] else c :: TrimRightSpace s'
  end.

Definition TrimSpace (s : gostring) : gostring := TrimRightSpace (TrimLeftSpace 0 s).

(** ** Numbers *)

Definition digit (c : Z) : option Z := if (48 <=? c) && (c <=? 57) then Some (c - 48) else None.

Fixpoint digits_value (acc : Z) (s : gostring) : option Z :=
  match s with
  | [] => Some acc
  | c :: s => match digit c with Some d => digits_value (acc * 10 + d) s | None => None end
  end.

(** [strconv.ParseUint(s, 10, bitSize)]; the errors are one. *)
Definition ParseUint (bitSize : Z) (s : gostring) : option Z :=
  if bool_decide (s = []) then None
  else match digits_value 0 s with
       | Some v => if v <? 2 ^ bitSize then Some v else None
       | None => None
       end.

(** ** Hexadecimal *)

(** [hex.DecodeString]: two digits of either case per byte. *)
Definition hex_digit (c : Z) : option Z :=
  if (48 <=? c) && (c <=? 57) then Some (c - 48)
  else if (97 <=? c) && (c <=? 102) then Some (c - 87)
  else if (65 <=? c) && (c <=? 70) then Some (c - 55)
  else None.

Fixpoint hex_DecodeString (s : gostring) : option (list Z) :=
  match s with
  | [] => Some []
  | [_] => None
  | a :: b :: s =>
    match hex_digit a, hex_digit b, hex_DecodeString s with
    | Some x, Some y, Some rest => Some (x * 16 + y :: rest)
    | _, _, _ => None
    end
  end.

(** ** Lines *)

Definition maxScanTokenSize : Z := 65536.

(** The lines [bufio.Scanner] delivers, without their ends, [None] for one that is
    too long to be delivered. *)
Definition scan_line (line : gostring) : option gostring :=
  if Z.of_nat (length line) <? maxScanTokenSize then Some (TrimSuffix line [13]) else None.

Fixpoint scanned (pieces : list gostring) : list (option gostring) :=
  match pieces with
  | [] => []
  | [tail] => if bool_decide (tail = []) then [] else [scan_line tail]
  | line :: pieces => scan_line line :: scanned pieces
  end.

Definition Lines (data : gostring) : list (option gostring) := scanned (Split 10 data).

(** ** Printing *)

(** The decimal digits of a number, least significant first. *)
Fixpoint decimal_rev (fuel : nat) (n : Z) : gostring :=
  match fuel with
  | O => []
  | S fuel => 48 + n mod 10 :: (if n <? 10 then [] else decimal_rev fuel (n / 10))
  end.

Definition decimal (n : Z) : gostring := reverse (decimal_rev (S (Z.to_nat n)) n).

Definition hex_char (d : Z) : Z := if d <? 10 then 48 + d else 87 + d.

Definition hex_EncodeToString (b : list Z) : gostring :=
  flat_map (fun x => [hex_char (x / 16); hex_char (x mod 16)]) b.

(** ** Facts *)

Lemma digits_value_app a : forall acc b,
  digits_value acc (a ++ b) = match digits_value acc a with Some v => digits_value v b | None => None end.
Proof.
  induction a as [|c a IH]; intros acc b; [done|]. cbn [app digits_value]. destruct (digit c); [apply IH|done].
Qed.

Lemma digit_char d : 0 <= d < 10 -> digit (48 + d) = Some d.
Proof.
  intros H. unfold digit. rewrite (proj2 (Z.leb_le _ _)), (proj2 (Z.leb_le _ _)) by lia. cbn [andb]. f_equal. lia.
Qed.

Lemma decimal_rev_value fuel : forall n, 0 <= n -> n < Z.of_nat fuel ->
  digits_value 0 (reverse (decimal_rev fuel n)) = Some n.
Proof.
  induction fuel as [|fuel IH]; intros n Hn Hf; [lia|]. cbn [decimal_rev]. rewrite reverse_cons, digits_value_app.
  destruct (Z.ltb_spec n 10) as [H10|H10].
  - cbn [reverse digits_value]. rewrite digit_char by zlia. f_equal. zlia.
  - rewrite IH by zlia. cbn [digits_value]. rewrite digit_char by zlia. f_equal. zlia.
Qed.

Lemma decimal_chars n : 0 <= n -> Forall (fun c => 48 <= c <= 57) (decimal n).
Proof.
  intros Hn. unfold decimal. apply Forall_reverse. generalize (S (Z.to_nat n)). intros fuel. revert n Hn.
  induction fuel as [|fuel IH]; intros n Hn; cbn [decimal_rev]; constructor; [zlia|].
  destruct (n <? 10); [constructor|]. apply IH. zlia.
Qed.

Lemma decimal_not_nil n : decimal n <> [].
Proof. unfold decimal. cbn [decimal_rev]. rewrite reverse_cons. by destruct (reverse _). Qed.

Lemma ParseUint_decimal bits n : 0 <= n < 2 ^ bits -> ParseUint bits (decimal n) = Some n.
Proof.
  intros Hn. unfold ParseUint. rewrite bool_decide_false by apply decimal_not_nil.
  unfold decimal. rewrite decimal_rev_value by lia. by rewrite (proj2 (Z.ltb_lt _ _)) by lia.
Qed.

Lemma length_decimal_rev fuel : forall n k, 0 <= n < 10 ^ Z.of_nat k -> (0 < k)%nat -> (length (decimal_rev fuel n) <= k)%nat.
Proof.
  induction fuel as [|fuel IH]; intros n k Hn Hk; cbn [decimal_rev length]; [lia|].
  destruct (Z.ltb_spec n 10); [simpl; lia|]. destruct k as [|[|k]]; [lia|simpl in Hn; lia|].
  assert (length (decimal_rev fuel (n / 10)) <= S k)%nat; [|lia]. apply IH; [|lia].
  split; [zlia|]. apply Z.div_lt_upper_bound; [lia|]. rewrite <-Z.pow_succ_r, <-Nat2Z.inj_succ by lia. lia.
Qed.

Lemma length_decimal n k : 0 <= n < 10 ^ Z.of_nat k -> (0 < k)%nat -> (length (decimal n) <= k)%nat.
Proof. intros. unfold decimal. rewrite length_reverse. by apply length_decimal_rev. Qed.

Lemma digits_value_decimal n : 0 <= n -> digits_value 0 (decimal n) = Some n.
Proof. intros Hn. unfold decimal. by rewrite decimal_rev_value by lia. Qed.

(** No zero in front. *)
Lemma decimal_rev_last fuel : forall n, 0 < n < Z.of_nat fuel -> last (decimal_rev fuel n) <> Some 48.
Proof.
  induction fuel as [|fuel IH]; intros n Hn; [lia|]. cbn [decimal_rev]. destruct (Z.ltb_spec n 10) as [H10|H10].
  - cbn [last]. intros [= E]. zlia.
  - assert (Hf : n / 10 < Z.of_nat fuel) by zlia. specialize (IH (n / 10) ltac:(zlia)).
    destruct (decimal_rev fuel (n / 10)) as [|c l] eqn:E; [|exact IH]. destruct fuel; [zlia|]. by cbn in E.
Qed.

Lemma decimal_head n : 0 < n -> head (decimal n) <> Some 48.
Proof.
  intros Hn. unfold decimal. rewrite <-(reverse_involutive (decimal_rev _ _)), head_reverse, reverse_involutive.
  apply decimal_rev_last. lia.
Qed.

(** A byte of a printed field: visible and ASCII. *)
Definition visible (c : Z) : Prop := 33 <= c < 128.

Lemma space_len_visible c s : visible c -> space_len (c :: s) = 0%nat.
Proof.
  intros Hc. unfold visible in Hc. unfold space_len.
  replace ((9 <=? c) && (c <=? 13)) with false by (symmetry; apply andb_false_iff; right; lia).
  rewrite (proj2 (Z.eqb_neq c 32)) by lia. cbn [orb].
  destruct s as [|b1 s]; [done|]. rewrite (proj2 (Z.eqb_neq c 194)) by lia. cbn [andb].
  destruct s as [|b2 s]; [done|].
  by rewrite (proj2 (Z.eqb_neq c 225)), (proj2 (Z.eqb_neq c 226)), (proj2 (Z.eqb_neq c 227)) by lia.
Qed.

Lemma fields_loop_visible f : Forall visible f -> forall cur s,
  fields_loop 0 cur (f ++ s) = fields_loop 0 (cur ++ f) s.
Proof.
  induction 1 as [|c f Hc _ IH]; intros cur s; [by rewrite app_nil_r|]. cbn [app].
  change (fields_loop 0 cur (c :: f ++ s)) with
    (match space_len (c :: f ++ s) with O => fields_loop 0 (cur ++ [c]) (f ++ s) | S k => flush cur ++ fields_loop k [] (f ++ s) end).
  rewrite space_len_visible by done. rewrite IH. by rewrite <-app_assoc.
Qed.

(** Blanks between fields: spaces and tabs. *)
Definition blank (s : gostring) : Prop := Forall (fun c => c = 32 \/ c = 9) s.

Lemma fields_loop_blank cur c s : c = 32 \/ c = 9 -> fields_loop 0 cur (c :: s) = flush cur ++ fields_loop 0 [] s.
Proof. by intros [-> | ->]. Qed.

Lemma fields_loop_space cur s : fields_loop 0 cur (32 :: s) = flush cur ++ fields_loop 0 [] s.
Proof. done. Qed.

Lemma fields_loop_gap gap s : blank gap -> fields_loop 0 [] (gap ++ s) = fields_loop 0 [] s.
Proof. induction 1 as [|c gap Hc _ IH]; [done|]. cbn [app]. by rewrite fields_loop_blank. Qed.

(** Fields joined by single spaces are found again. *)
Lemma Fields_Join fs : Forall (fun f => f <> [] /\ Forall visible f) fs -> Fields (Join 32 fs) = fs.
Proof.
  unfold Fields. induction 1 as [|f fs [Hne Hv] Hfs IH]; [done|].
  destruct fs as [|f' fs].
  - cbn [Join]. rewrite <-(app_nil_r f) at 1. rewrite fields_loop_visible by done. cbn [fields_loop app].
    unfold flush. by rewrite bool_decide_false.
  - rewrite Join_cons by done. rewrite fields_loop_visible by done. rewrite fields_loop_space, IH. unfold flush.
    by rewrite bool_decide_false.
Qed.

(** Fields with blanks in front of each, at least one between two, and behind. *)
Definition spread (gaps fs : list gostring) (trail : gostring) : gostring := concat (zip_with app gaps fs) ++ trail.

Lemma fields_loop_end cur rest : cur <> [] -> rest = [] \/ (exists c s, rest = c :: s /\ (c = 32 \/ c = 9)) ->
  fields_loop 0 cur rest = cur :: fields_loop 0 [] rest.
Proof.
  intros Hne Hrest. assert (E : flush cur = [cur]) by (unfold flush; by rewrite bool_decide_false).
  destruct Hrest as [->|(c & s & -> & Hc)]; [exact E|]. rewrite !fields_loop_blank by done. by rewrite E.
Qed.

Lemma Fields_spread gaps fs trail :
  length gaps = length fs -> Forall blank gaps -> Forall (fun gap => gap <> []) (tail gaps) -> blank trail ->
  Forall (fun f => f <> [] /\ Forall visible f) fs -> Fields (spread gaps fs trail) = fs.
Proof.
  unfold Fields, spread. intros Hl Hb Hne Ht Hf. revert fs Hl Hne Hf.
  induction Hb as [|gap gaps Hg Hb IH]; intros [|f fs] Hl Hne Hf; try done.
  { cbn [zip_with concat app]. by rewrite <-(app_nil_r trail), fields_loop_gap. }
  cbn [zip_with concat tail] in *. injection Hl as Hl. apply Forall_cons in Hf as [[Hfne Hfv] Hf].
  rewrite <-!app_assoc, fields_loop_gap, fields_loop_visible by done. cbn [app].
  rewrite fields_loop_end; [|done|].
  - f_equal. apply IH; [done| |done]. by destruct Hne.
  - destruct fs as [|f' fs]; [destruct gaps; [|done]|destruct gaps as [|gap' gaps]; [done|]]; cbn [zip_with concat app].
    + destruct Ht as [|c t Hc _]; [by left|right; by exists c, t].
    + apply Forall_cons in Hne as [Hgn _]. apply Forall_cons in Hb as [Hg' _].
      destruct Hg' as [|c t Hc _]; [done|]. right. rewrite <-!app_assoc. by eexists c, _.
Qed.

Lemma Fields_blank s : Forall (fun c => c = 32) s -> Fields s = [].
Proof. unfold Fields. induction 1 as [|c s -> _ IH]; [done|]. by rewrite fields_loop_space. Qed.

Lemma fields_loop_some s : forall skip cur, cur <> [] -> fields_loop skip cur s <> [].
Proof.
  assert (Hf : forall cur, cur <> [] -> flush cur <> []) by (intros cur Hne; unfold flush; by rewrite bool_decide_false).
  induction s as [|c s IH]; intros [|skip] cur Hne; cbn [fields_loop]; [by apply Hf..| |by apply IH].
  destruct (space_len (c :: s)); [apply IH; by destruct cur|]. specialize (Hf cur Hne). by destruct (flush cur).
Qed.

Lemma TrimSpace_padded left s right : blank left -> blank right -> s <> [] -> Forall visible s ->
  TrimSpace (left ++ s ++ right) = s.
Proof.
  intros Hl Hr Hne Hs. unfold TrimSpace.
  assert (E : TrimLeftSpace 0 (left ++ s ++ right) = s ++ right).
  { induction Hl as [|c left Hc _ IH]; cbn [app].
    - destruct Hs as [|c s Hc Hs]; [done|]. cbn [app TrimLeftSpace]. by rewrite space_len_visible.
    - destruct Hc as [-> | ->]; exact IH. }
  rewrite E. clear E Hne. induction Hs as [|c s Hc _ IH]; cbn [app].
  - destruct Hr as [|c right Hc Hr]; [done|]. cbn [TrimRightSpace]. rewrite bool_decide_true; [done|].
    unfold Fields. rewrite fields_loop_blank by done. cbn [flush]. rewrite <-(app_nil_r right).
    by rewrite fields_loop_gap.
  - cbn [TrimRightSpace]. rewrite bool_decide_false; [by rewrite IH|]. unfold Fields. cbn [fields_loop].
    rewrite space_len_visible by done. by apply fields_loop_some.
Qed.

Lemma hex_digit_char d : 0 <= d < 16 -> hex_digit (hex_char d) = Some d.
Proof.
  intros Hd. assert (Hin : d ∈ seqZ 0 16) by (apply elem_of_seqZ; lia). clear Hd. revert d Hin.
  apply Forall_forall. apply (bool_decide_unpack _). vm_compute. exact I.
Qed.

Lemma hex_roundtrip b : Forall is_u8 b -> hex_DecodeString (hex_EncodeToString b) = Some b.
Proof.
  induction 1 as [|x b Hx _ IH]; [done|]. unfold is_u8 in Hx. unfold hex_EncodeToString in *.
  cbn [flat_map app hex_DecodeString]. rewrite !hex_digit_char, IH by zlia. do 2 f_equal. zlia.
Qed.

Lemma hex_text b : Forall is_u8 b -> Forall (fun c => 48 <= c <= 57 \/ 97 <= c <= 102) (hex_EncodeToString b).
Proof.
  assert (H : forall d, 0 <= d < 16 -> 48 <= hex_char d <= 57 \/ 97 <= hex_char d <= 102)
    by (unfold hex_char; intros d Hd; destruct (Z.ltb_spec d 10); lia).
  induction 1 as [|x b Hx _ IH]; [constructor|]. unfold is_u8 in Hx. unfold hex_EncodeToString in *.
  cbn [flat_map app]. constructor; [apply H; zlia|]. constructor; [apply H; zlia|done].
Qed.
