(* ===== verification/GoFloat.v ===== *)
(** Go's [float64]: IEEE 754 double precision (the executable [SpecFloat] of the
    Standard Library, every operation rounded on its own, as Go compiles it for
    amd64), its conversions and [strconv.ParseFloat]. *)

From Stdlib Require Import SpecFloat.
From S2P Require Import Prelude GoUnicode GoStrings GoText.

Open Scope list_scope.
Open Scope Z_scope.

Abbreviation float64 := spec_float.

#[global] Instance float64_eq_dec : EqDecision float64.
Proof. solve_decision. Defined.

Definition add64 : float64 -> float64 -> float64 := SFadd 53 1024.
Definition sub64 : float64 -> float64 -> float64 := SFsub 53 1024.
Definition mul64 : float64 -> float64 -> float64 := SFmul 53 1024.
Definition div64 : float64 -> float64 -> float64 := SFdiv 53 1024.
Definition of_Z (z : Z) : float64 := binary_normalize 53 1024 z 0 false.

(** The conversion of a number that is not negative to an integer drops the
    fraction.  Where the result is out of range Go leaves it open; here it is 0. *)
Definition to_uint64 (x : float64) : Z :=
  match x with
  | S754_finite false m e =>
    let z := if 0 <=? e then Zpos m * 2 ^ e else Zpos m / 2 ^ (- e) in if z <? 2 ^ 64 then z else 0
  | _ => 0
  end.

(** The built-in [min]: NaN if either is, and the negative of two zeros. *)
Definition min64 (x y : float64) : float64 :=
  match SFcompare x y with
  | None => S754_nan
  | Some Lt => x
  | Some Gt => y
  | Some Eq => match x with S754_zero true => x | _ => y end
  end.

(** ** Decimal fractions *)

(** The number [m * 10 ^ e] rounded to the nearest, ties to even, with its sign. *)
Definition of_decimal (neg : bool) (m e : Z) : float64 :=
  match m with
  | Zpos _ =>
    if 0 <=? e then
      match m * 10 ^ e with Zpos p => binary_round 53 1024 neg p 0 | _ => S754_nan end
    else
      let '(q, e', l) := SFdiv_core_binary 53 1024 m 0 (10 ^ (- e)) 0 in binary_round_aux 53 1024 neg q e' l
  | _ => S754_zero neg
  end.

(** The digits a text starts with. *)
Fixpoint span_digits (s : gostring) : gostring * gostring :=
  match s with
  | [] => ([], [])
  | c :: s' =>
    match digit c with
    | Some _ => let (ds, rest) := span_digits s' in (c :: ds, rest)
    | None => ([], s)
    end
  end.

Definition digits_Z (ds : gostring) : Z := default 0 (digits_value 0 ds).

(** The sign of an exponent, or of a number. *)
Definition read_sign (s : gostring) : bool * gostring :=
  match s with 45 :: s => (true, s) | 43 :: s => (false, s) | _ => (false, s) end.

(** The text of an exponent, if there is one: [None] for one without digits. *)
Definition read_exponent (s : gostring) : option (Z * gostring) :=
  match s with
  | c :: s' =>
    if (c =? 101) || (c =? 69) then
      let (neg, s') := read_sign s' in
      let (ds, rest) := span_digits s' in
      if bool_decide (ds = []) then None else Some (if neg : bool then - digits_Z ds else digits_Z ds, rest)
    else Some (0, s)
  | [] => Some (0, s)
  end.

(** [strconv.ParseFloat(s, 64)] on decimal numbers, which is all a JSON text can
    hold; a number too large is an error. *)
Definition ParseFloat (s : gostring) : option float64 :=
  let (neg, s) := read_sign s in
  let (ip, s) := span_digits s in
  let (fp, s) := match s with 46 :: s => span_digits s | _ => ([], s) end in
  if bool_decide (ip ++ fp = []) then None
  else
    match read_exponent s with
    | Some (e, []) =>
      match of_decimal neg (digits_Z (ip ++ fp)) (e - Z.of_nat (length fp)) with
      | S754_infinity _ => None
      | x => Some x
      end
    | _ => None
    end.

(** [strconv.ParseInt(s, 10, 64)]. *)
Definition ParseInt64 (s : gostring) : option Z :=
  let (neg, ds) := read_sign s in
  if bool_decide (ds = []) then None
  else
    match digits_value 0 ds with
    | Some v =>
      let v := if neg : bool then - v else v in
      if (- 2 ^ 63 <=? v) && (v <? 2 ^ 63) then Some v else None
    | None => None
    end.

(** ** Integers a double holds exactly *)

(** How a positive integer below [2 ^ 53] is held: with 53 digits. *)
Definition held (z : Z) : float64 :=
  S754_finite false (Z.to_pos (z * 2 ^ (52 - Z.log2 z))) (Z.log2 z - 52).

Lemma digits2_log2 p : Zpos (digits2_pos p) = Z.log2 (Zpos p) + 1.
Proof. induction p as [p IH|p IH|]; [| |done]; cbn [digits2_pos]; rewrite Pos2Z.inj_succ, IH; destruct p; cbn; lia. Qed.

Lemma shr_1_double z : 0 <= z ->
  shr_1 (Build_shr_record (2 * z) false false) = Build_shr_record z false false.
Proof. intros Hz. by destruct z as [|p|p]. Qed.

Lemma iter_pos_shr p : forall z, 0 <= z ->
  SpecFloat.iter_pos shr_1 p (Build_shr_record (z * 2 ^ Zpos p) false false) = Build_shr_record z false false.
Proof.
  induction p as [p IH|p IH|]; intros z Hz; cbn [SpecFloat.iter_pos].
  - replace (z * 2 ^ Zpos p~1) with (2 * (z * 2 ^ Zpos p * 2 ^ Zpos p)).
    + rewrite shr_1_double by lia. rewrite IH by lia. by apply IH.
    + replace (Zpos p~1) with (1 + Zpos p + Zpos p) by lia. rewrite !Z.pow_add_r, Z.pow_1_r by lia. lia.
  - replace (z * 2 ^ Zpos p~0) with (z * 2 ^ Zpos p * 2 ^ Zpos p).
    + rewrite IH by lia. by apply IH.
    + replace (Zpos p~0) with (Zpos p + Zpos p) by lia. rewrite Z.pow_add_r by lia. lia.
  - rewrite Z.pow_1_r, Z.mul_comm. by apply shr_1_double.
Qed.

(** Rounding what needs no rounding. *)
Lemma round_exact z k : 0 < z < 2 ^ 53 -> 0 <= k -> 52 <= Z.log2 z + k ->
  binary_round_aux 53 1024 false (z * 2 ^ k) (- k) loc_Exact = held z.
Proof.
  intros Hz Hk Hlog. assert (Hl : 0 <= Z.log2 z < 53).
  { split; [apply Z.log2_nonneg|]. apply Z.log2_lt_pow2; lia. }
  assert (Hdig : forall w, 0 < w -> Zdigits2 w = Z.log2 w + 1) by (intros [|p|p] ?; [lia|apply digits2_log2|lia]).
  unfold binary_round_aux, shr_fexp. cbn [shr_record_of_loc].
  assert (Hpow : 0 < z * 2 ^ k) by (apply Z.mul_pos_pos; [lia|by apply Z.pow_pos_nonneg]).
  rewrite Hdig, Z.log2_mul_pow2 by lia.
  set (n := k - (52 - Z.log2 z)).
  replace (fexp 53 1024 (k + Z.log2 z + 1 + - k) - - k) with n by (unfold fexp, emin, n; lia).
  assert (Hn : shr (Build_shr_record (z * 2 ^ k) false false) (- k) n =
    (Build_shr_record (z * 2 ^ (52 - Z.log2 z)) false false, Z.log2 z - 52)).
  { assert (Hn0 : 0 <= n) by (unfold n; lia). replace (z * 2 ^ k) with (z * 2 ^ (52 - Z.log2 z) * 2 ^ n).
    2: { rewrite <-Z.mul_assoc, <-Z.pow_add_r by lia. f_equal. f_equal. unfold n. lia. }
    replace (Z.log2 z - 52) with (- k + n) by (unfold n; lia).
    destruct n as [|p|p]; cbn [shr]; [|rewrite iter_pos_shr by lia; done|lia].
    by rewrite Z.mul_1_r, Z.add_0_r. }
  rewrite Hn. cbn [shr_m loc_of_shr_record round_nearest_even].
  assert (Hm : 0 < z * 2 ^ (52 - Z.log2 z)) by (apply Z.mul_pos_pos; [lia|apply Z.pow_pos_nonneg; lia]).
  rewrite Hdig, Z.log2_mul_pow2 by lia.
  replace (fexp 53 1024 (52 - Z.log2 z + Z.log2 z + 1 + (Z.log2 z - 52)) - (Z.log2 z - 52)) with 0
    by (unfold fexp, emin; lia).
  cbn [shr shr_m]. unfold held. destruct (z * 2 ^ (52 - Z.log2 z)) as [|p|p]; [lia| |lia].
  by rewrite (proj2 (Z.leb_le _ _)) by lia.
Qed.

Lemma shift_xO d p : Zpos (Pos.iter xO p d) = Zpos p * 2 ^ Zpos d.
Proof.
  revert p. induction d as [|d IH] using Pos.peano_ind; intros p; [rewrite Z.pow_1_r; cbn; lia|].
  rewrite Pos.iter_succ, Pos2Z.inj_xO, IH, Pos2Z.inj_succ, Z.pow_succ_r by lia. lia.
Qed.

Lemma of_Z_exact z : 0 < z < 2 ^ 53 -> of_Z z = held z.
Proof.
  intros Hz. assert (Hl : 0 <= Z.log2 z < 53) by (split; [apply Z.log2_nonneg|apply Z.log2_lt_pow2; lia]).
  rewrite <-(round_exact z (52 - Z.log2 z)) by lia. unfold of_Z, binary_normalize.
  destruct z as [|p|p]; [lia| |lia]. unfold binary_round. rewrite digits2_log2.
  unfold shl_align. replace (fexp 53 1024 (Z.log2 (Zpos p) + 1 + 0) - 0) with (Z.log2 (Zpos p) - 52) by (unfold fexp, emin; lia).
  replace (fexp 53 1024 (Z.log2 (Zpos p) + 1 + 0)) with (Z.log2 (Zpos p) - 52) by (unfold fexp, emin; lia).
  destruct (Z.log2 (Zpos p) - 52) as [|q|d] eqn:E; [|lia|].
  - replace (52 - Z.log2 (Zpos p)) with 0 by lia. by rewrite Z.mul_1_r.
  - replace (52 - Z.log2 (Zpos p)) with (Zpos d) by lia. by rewrite shift_xO.
Qed.

Lemma mul64_exact a b : 0 < a -> 0 < b -> a * b < 2 ^ 53 -> mul64 (of_Z a) (of_Z b) = of_Z (a * b).
Proof.
  intros Ha Hb Hab. rewrite !of_Z_exact by nia. unfold mul64, held at 1 2, SFmul. cbn [xorb].
  assert (Hl : forall z, 0 < z -> z < 2 ^ 53 -> 0 <= Z.log2 z < 53).
  { intros z ??. split; [apply Z.log2_nonneg|apply Z.log2_lt_pow2; lia]. }
  pose proof (Hl a Ha ltac:(nia)). pose proof (Hl b Hb ltac:(nia)).
  assert (Hp : forall z, 0 < z -> Z.log2 z < 53 -> Zpos (Z.to_pos (z * 2 ^ (52 - Z.log2 z))) = z * 2 ^ (52 - Z.log2 z)).
  { intros z ??. apply Z2Pos.id, Z.mul_pos_pos; [lia|apply Z.pow_pos_nonneg; lia]. }
  rewrite Pos2Z.inj_mul, !Hp by lia.
  replace (a * 2 ^ (52 - Z.log2 a) * (b * 2 ^ (52 - Z.log2 b)))
    with (a * b * 2 ^ (104 - Z.log2 a - Z.log2 b)).
  2: { replace (104 - Z.log2 a - Z.log2 b) with ((52 - Z.log2 a) + (52 - Z.log2 b)) by lia.
       rewrite Z.pow_add_r by lia. lia. }
  replace (Z.log2 a - 52 + (Z.log2 b - 52)) with (- (104 - Z.log2 a - Z.log2 b)) by lia.
  apply round_exact; [nia|lia|]. pose proof (Z.log2_mul_below a b Ha Hb). lia.
Qed.

Lemma to_uint64_exact z : 0 < z < 2 ^ 53 -> to_uint64 (of_Z z) = z.
Proof.
  intros Hz. rewrite of_Z_exact by done. assert (Hl : 0 <= Z.log2 z < 53) by (split; [apply Z.log2_nonneg|apply Z.log2_lt_pow2; lia]).
  assert (Hp : 0 < 2 ^ (52 - Z.log2 z)) by (apply Z.pow_pos_nonneg; lia).
  unfold held, to_uint64. rewrite Z2Pos.id by (apply Z.mul_pos_pos; lia).
  destruct (Z.leb_spec 0 (Z.log2 z - 52)).
  - replace (Z.log2 z) with 52 by lia. rewrite !Z.mul_1_r. by rewrite (proj2 (Z.ltb_lt _ _)) by lia.
  - replace (- (Z.log2 z - 52)) with (52 - Z.log2 z) by lia. rewrite Z.div_mul by lia.
    by rewrite (proj2 (Z.ltb_lt _ _)) by lia.
Qed.

(** ** Reading digits *)

Lemma span_digits_app ds rest : Forall (fun c => 48 <= c <= 57) ds ->
  match rest with c :: _ => digit c = None | [] => True end -> span_digits (ds ++ rest) = (ds, rest).
Proof.
  intros Hds Hrest. induction Hds as [|c ds Hc _ IH]; cbn [app span_digits].
  - destruct rest as [|c rest]; [done|]. cbn [span_digits]. by rewrite Hrest.
  - replace c with (48 + (c - 48)) at 1 by lia. rewrite digit_char by lia. by rewrite IH.
Qed.
