(* ===== verification/GoTime.v ===== *)
(** Durations of Go's [time]: [Duration.String] and [time.ParseDuration], which the
    configuration writes and reads them with. *)

From Stdlib Require Import SpecFloat.
From stdpp Require Import strings.
From S2P Require Import Prelude GoUnicode GoStrings GoText GoFloat.

Open Scope list_scope.
Open Scope Z_scope.

(** A [time.Duration] is a signed 64-bit number of nanoseconds. *)
Definition is_duration (d : Z) : Prop := - 2 ^ 63 <= d < 2 ^ 63.

Definition u64 (x : Z) : Z := x mod 2 ^ 64.

(** ** Writing *)

(** The loop of [fmtFrac] over the digits behind the point: what is written so far,
    whether anything is, and the digits left. *)
Fixpoint frac_loop (prec : nat) (v : Z) (print : bool) (acc : gostring) : bool * gostring * Z :=
  match prec with
  | O => (print, acc, v)
  | S prec =>
    let print := print || negb (v mod 10 =? 0) in
    frac_loop prec (v / 10) print (if print then 48 + v mod 10 :: acc else acc)
  end.

Definition fmtFrac (v : Z) (prec : nat) : gostring * Z :=
  let '(print, acc, v) := frac_loop prec v false [] in (if print then dot :: acc else acc, v).

(** Below a second, in the largest unit that leaves a digit before the point. *)
Definition fmt_small (u : Z) : gostring :=
  let '(unit, prec) :=
    if u <? 1000 then (str "n"%string, 0%nat) else if u <? 1000000 then ([194; 181], 3%nat) else (str "m"%string, 6%nat) in
  let (frac, v) := fmtFrac u prec in decimal v ++ frac ++ unit ++ str "s"%string.

Definition fmt_large (u : Z) : gostring :=
  let (frac, v) := fmtFrac u 9 in
  let seconds := decimal (v mod 60) ++ frac ++ str "s"%string in
  let minutes := v / 60 in
  if minutes <=? 0 then seconds
  else
    let seconds := decimal (minutes mod 60) ++ str "m"%string ++ seconds in
    let hours := minutes / 60 in
    if hours <=? 0 then seconds else decimal hours ++ str "h"%string ++ seconds.

Definition Duration_String (d : Z) : gostring :=
  let neg := d <? 0 in
  let u := u64 (if neg then - d else d) in
  (if neg then [45] else []) ++
  (if u <? 1000000000 then (if u =? 0 then str "0s"%string else fmt_small u) else fmt_large u).

(** ** Reading *)

(** [None] on overflow. *)
Fixpoint leadingInt (x : Z) (s : gostring) : option (Z * gostring) :=
  match s with
  | [] => Some (x, [])
  | c :: s' =>
    match digit c with
    | None => Some (x, s)
    | Some d =>
      if 2 ^ 63 / 10 <? x then None else if 2 ^ 63 <? x * 10 + d then None else leadingInt (x * 10 + d) s'
    end
  end.

(** Digits that do not fit any more are dropped. *)
Fixpoint leadingFraction (x : Z) (scale : float64) (overflow : bool) (s : gostring) : Z * float64 * gostring :=
  match s with
  | [] => (x, scale, [])
  | c :: s' =>
    match digit c with
    | None => (x, scale, s)
    | Some d =>
      if overflow || ((2 ^ 63 - 1) / 10 <? x) || (2 ^ 63 <? x * 10 + d) then leadingFraction x scale true s'
      else leadingFraction (x * 10 + d) (mul64 scale (of_Z 10)) false s'
    end
  end.

(** The letters of a unit: up to the next digit or point. *)
Fixpoint span_unit (s : gostring) : gostring * gostring :=
  match s with
  | [] => ([], [])
  | c :: s' =>
    if (c =? dot) || bool_decide (is_Some (digit c)) then ([], s)
    else let (u, rest) := span_unit s' in (c :: u, rest)
  end.

Definition unitMap (u : gostring) : option Z :=
  if bool_decide (u = str "ns"%string) then Some 1
  else if bool_decide (u ∈ [str "us"%string; [194; 181; 115]; [206; 188; 115]]) then Some 1000
  else if bool_decide (u = str "ms"%string) then Some 1000000
  else if bool_decide (u = str "s"%string) then Some 1000000000
  else if bool_decide (u = str "m"%string) then Some 60000000000
  else if bool_decide (u = str "h"%string) then Some 3600000000000
  else None.

(** A number with its unit, in nanoseconds, and what follows. *)
Definition parse_term (s : gostring) : option (Z * gostring) :=
  match s with
  | [] => None
  | c :: _ =>
    if negb ((c =? dot) || bool_decide (is_Some (digit c))) then None
    else
      match leadingInt 0 s with
      | None => None
      | Some (v, s1) =>
        let pre := negb (bool_decide (length s1 = length s)) in
        let '(f, scale, s2, post) :=
          match s1 with
          | 46 :: s1 =>
            let '(f, scale, s2) := leadingFraction 0 (of_Z 1) false s1 in
            (f, scale, s2, negb (bool_decide (length s2 = length s1)))
          | _ => (0, of_Z 1, s1, false)
          end in
        if negb pre && negb post then None
        else
          let (u, s3) := span_unit s2 in
          match unitMap u with
          | None => None
          | Some unit =>
            if 2 ^ 63 / unit <? v then None
            else
              let v := v * unit in
              let v := if 0 <? f then u64 (v + to_uint64 (mul64 (of_Z f) (div64 (of_Z unit) scale))) else v in
              if 2 ^ 63 <? v then None else Some (v, s3)
          end
      end
  end.

(** The loop; every term takes at least one byte. *)
Fixpoint parse_terms (fuel : nat) (d : Z) (s : gostring) : option Z :=
  match s with
  | [] => Some d
  | _ =>
    match fuel with
    | O => None
    | S fuel =>
      match parse_term s with
      | None => None
      | Some (v, s) => let d := u64 (d + v) in if 2 ^ 63 <? d then None else parse_terms fuel d s
      end
    end
  end.

Definition ParseDuration (s : gostring) : option Z :=
  let (neg, s) := read_sign s in
  if bool_decide (s = str "0"%string) then Some 0
  else if bool_decide (s = []) then None
  else
    match parse_terms (length s) 0 s with
    | None => None
    | Some d => if neg : bool then Some (- d) else if 2 ^ 63 - 1 <? d then None else Some d
    end.

(** ** Reading what was written *)

Notation digits ds := (Forall (fun c => 48 <= c <= 57) ds).

Lemma digits_value_Some ds : forall acc, digits ds -> exists v, digits_value acc ds = Some v.
Proof.
  induction ds as [|c ds IH]; intros acc H; [by eexists|]. apply Forall_cons in H as [Hc Hds]. cbn [digits_value].
  replace c with (48 + (c - 48)) by lia. rewrite digit_char by lia. by apply IH.
Qed.

Lemma digits_value_Z ds : digits ds -> digits_value 0 ds = Some (digits_Z ds).
Proof. intros [v E]%(digits_value_Some _ 0). unfold digits_Z. by rewrite E. Qed.

Lemma digits_Z_snoc ds d : digits ds -> 0 <= d < 10 -> digits_Z (ds ++ [48 + d]) = digits_Z ds * 10 + d.
Proof.
  intros Hds Hd. unfold digits_Z at 1. rewrite digits_value_app, digits_value_Z by done.
  cbn [digits_value]. by rewrite digit_char.
Qed.

Lemma mod_pow10_succ v k : 0 <= v -> v mod 10 ^ Z.of_nat (S k) = v / 10 mod 10 ^ Z.of_nat k * 10 + v mod 10.
Proof.
  intros Hv. rewrite Nat2Z.inj_succ, Z.pow_succ_r by lia. rewrite Z.rem_mul_r by lia. lia.
Qed.

Lemma frac_loop_print k : forall v acc, 0 <= v -> exists ds,
  frac_loop k v true acc = (true, ds ++ acc, v / 10 ^ Z.of_nat k) /\
  digits ds /\ length ds = k /\ digits_Z ds = v mod 10 ^ Z.of_nat k.
Proof.
  induction k as [|k IH]; intros v acc Hv.
  { exists []. cbn [frac_loop]. rewrite Z.div_1_r, Z.mod_1_r. by split_and!. }
  cbn [frac_loop orb]. destruct (IH (v / 10) (48 + v mod 10 :: acc) ltac:(zlia)) as (ds & -> & Hds & Hl & Hz).
  exists (ds ++ [48 + v mod 10]). rewrite <-app_assoc, Nat2Z.inj_succ, Z.pow_succ_r, Z.div_div by lia.
  split; [done|]. split; [apply Forall_app; split; [done|constructor; [zlia|constructor]]|].
  split; [rewrite length_app; simpl; lia|].
  rewrite digits_Z_snoc, Hz by (done || zlia). rewrite <-mod_pow10_succ by done. by rewrite Nat2Z.inj_succ, Z.pow_succ_r by lia.
Qed.

(** The text of a fraction: nothing, or a point and digits that end in another than 0. *)
Definition fraction (ft : gostring) (k : nat) (r : Z) : Prop :=
  (ft = [] /\ r = 0) \/
  exists ds, ft = dot :: ds /\ digits ds /\ ds <> [] /\ (length ds <= k)%nat /\ 0 < digits_Z ds /\
    digits_Z ds * 10 ^ Z.of_nat (k - length ds) = r.

Lemma fmtFrac_spec k v : 0 <= v -> exists ft,
  fmtFrac v k = (ft, v / 10 ^ Z.of_nat k) /\ fraction ft k (v mod 10 ^ Z.of_nat k).
Proof.
  unfold fmtFrac, fraction. revert v. induction k as [|k IH]; intros v Hv.
  { exists []. cbn [frac_loop]. rewrite Z.div_1_r, Z.mod_1_r. auto. }
  cbn [frac_loop orb]. rewrite mod_pow10_succ by done. rewrite Nat2Z.inj_succ, Z.pow_succ_r, <-Z.div_div by lia.
  destruct (Z.eqb_spec (v mod 10) 0) as [E|E]; cbn [negb].
  - destruct (IH (v / 10) ltac:(zlia)) as (ft & -> & Hft). exists ft. split; [done|].
    rewrite E, Z.add_0_r. destruct Hft as [[? ->]|(ds & ? & ? & ? & ? & ? & Hr)]; [by left|right].
    exists ds. split_and!; [done..|lia|done|]. rewrite Nat.sub_succ_l, Nat2Z.inj_succ, Z.pow_succ_r by lia. lia.
  - destruct (frac_loop_print k (v / 10) [48 + v mod 10] ltac:(zlia)) as (ds & -> & Hds & Hl & Hz).
    eexists. split; [done|]. right. exists (ds ++ [48 + v mod 10]). split; [done|].
    split; [apply Forall_app; split; [done|constructor; [zlia|constructor]]|]. split; [by destruct ds|].
    rewrite length_app, Hl. cbn [length]. split; [lia|]. rewrite digits_Z_snoc, Hz by (done || zlia).
    pose proof (Z.mod_pos_bound (v / 10) (10 ^ Z.of_nat k) ltac:(lia)).
    split; [zlia|]. replace (S k - (k + 1))%nat with 0%nat by lia. rewrite Z.pow_0_r. lia.
Qed.

(** *** A term *)

Lemma digits_value_mono ds : forall acc v, 0 <= acc -> digits_value acc ds = Some v -> acc <= v.
Proof.
  induction ds as [|c ds IH]; intros acc v Ha; cbn [digits_value]; [intros [= <-]; lia|].
  unfold digit. destruct (Z.leb_spec 48 c), (Z.leb_spec c 57); cbn [andb]; try done.
  intros Hv%IH; lia.
Qed.

Lemma leadingInt_digits ds rest : match rest with c :: _ => digit c = None | [] => True end ->
  forall x v, 0 <= x -> digits ds -> digits_value x ds = Some v -> v <= 2 ^ 63 -> leadingInt x (ds ++ rest) = Some (v, rest).
Proof.
  intros Hrest. induction ds as [|c ds IH]; intros x v Hx Hds Hv Hle; cbn [app].
  - injection Hv as <-. destruct rest as [|c rest]; [done|]. cbn [leadingInt]. by rewrite Hrest.
  - apply Forall_cons in Hds as [Hc Hds]. cbn [digits_value leadingInt] in *.
    replace c with (48 + (c - 48)) in Hv |- * by lia. rewrite digit_char in Hv |- * by lia.
    assert (x * 10 + (c - 48) <= v) by (eapply digits_value_mono; [|exact Hv]; lia).
    change (2 ^ 63 / 10) with 922337203685477580.
    rewrite (proj2 (Z.ltb_ge _ _)), (proj2 (Z.ltb_ge _ _)) by lia. by apply IH; [lia|..].
Qed.

Lemma leadingFraction_digits ds rest : match rest with c :: _ => digit c = None | [] => True end ->
  forall x v k, 0 <= x -> digits ds -> digits_value x ds = Some v -> v < 10 ^ 9 -> (k + length ds <= 9)%nat ->
  leadingFraction x (of_Z (10 ^ Z.of_nat k)) false (ds ++ rest) = (v, of_Z (10 ^ Z.of_nat (k + length ds)), rest).
Proof.
  intros Hrest. induction ds as [|c ds IH]; intros x v k Hx Hds Hv Hle Hk; cbn [app].
  - injection Hv as <-. rewrite Nat.add_0_r. destruct rest as [|c rest]; [done|]. cbn [leadingFraction]. by rewrite Hrest.
  - apply Forall_cons in Hds as [Hc Hds]. cbn [digits_value leadingFraction length] in *.
    replace c with (48 + (c - 48)) in Hv |- * by lia. rewrite digit_char in Hv |- * by lia.
    assert (x * 10 + (c - 48) <= v) by (eapply digits_value_mono; [|exact Hv]; lia).
    change ((2 ^ 63 - 1) / 10) with 922337203685477580.
    rewrite (proj2 (Z.ltb_ge _ _)), (proj2 (Z.ltb_ge _ _)) by lia. cbn [orb].
    assert (Hp : 10 ^ Z.of_nat k <= 10 ^ 8) by (apply Z.pow_le_mono_r; lia).
    rewrite mul64_exact by lia. replace (10 ^ Z.of_nat k * 10) with (10 ^ Z.of_nat (S k)).
    2: { rewrite Nat2Z.inj_succ, Z.pow_succ_r by lia. lia. }
    replace (k + S (length ds))%nat with (S k + length ds)%nat by lia. apply IH; [lia|done|done|done|lia].
Qed.

(** The units a fraction is written in: a thousandfold, a millionfold, a billionfold. *)
Lemma unit_scale k j : (k ∈ [0; 3; 6; 9])%nat -> (j <= k)%nat ->
  div64 (of_Z (10 ^ Z.of_nat k)) (of_Z (10 ^ Z.of_nat j)) = of_Z (10 ^ Z.of_nat (k - j)).
Proof.
  intros Hk Hj.
  assert (Hall : forallb (fun k => forallb (fun j => bool_decide (div64 (of_Z (10 ^ Z.of_nat k)) (of_Z (10 ^ Z.of_nat j)) =
    of_Z (10 ^ Z.of_nat (k - j)))) (seq 0 (S k))) [0; 3; 6; 9]%nat = true) by (vm_compute; reflexivity).
  rewrite forallb_forall in Hall. specialize (Hall k (proj1 (list_elem_of_In _ _) Hk)).
  rewrite forallb_forall in Hall. specialize (Hall j ltac:(apply in_seq; lia)). by apply bool_decide_eq_true in Hall.
Qed.

(** A unit is written with letters only. *)
Definition unit_text (u : gostring) : Prop := u <> [] /\ Forall (fun c => c <> dot /\ digit c = None) u.

Definition starts_term (rest : gostring) : Prop :=
  match rest with c :: _ => digit c <> None | [] => True end.

Lemma span_unit_app u rest : unit_text u -> starts_term rest -> span_unit (u ++ rest) = (u, rest).
Proof.
  intros [_ Hu] Hrest. induction Hu as [|c u [Hd Hc] _ IH]; cbn [app].
  - destruct rest as [|c rest]; [done|]. cbn [span_unit]. rewrite bool_decide_true, orb_true_r; [done|].
    cbn in Hrest. by destruct (digit c).
  - cbn [span_unit]. rewrite (proj2 (Z.eqb_neq _ _)) by done. rewrite Hc, bool_decide_false by (by intros []).
    cbn [orb]. by rewrite IH.
Qed.

Lemma parse_term_spec v ft k u rest r :
  0 <= v -> (k ∈ [0; 3; 6; 9])%nat -> fraction ft k r -> r < 10 ^ Z.of_nat k ->
  unit_text u -> (ft <> [] -> unitMap u = Some (10 ^ Z.of_nat k)) -> starts_term rest ->
  forall unit, unitMap u = Some unit -> 0 < unit -> v * unit + r <= 2 ^ 63 ->
  parse_term (decimal v ++ ft ++ u ++ rest) = Some (v * unit + r, rest).
Proof.
  intros Hv Hk Hft Hr Hu Hku Hrest unit Hunit Hpos Hle.
  assert (Hr0 : 0 <= r).
  { destruct Hft as [[_ ->]|(ds & _ & _ & _ & _ & Hz & <-)]; [lia|]. apply Z.mul_nonneg_nonneg; lia. }
  assert (Hvle : v <= 2 ^ 63 / unit) by (apply Z.div_le_lower_bound; lia).
  assert (Hnext : match ft ++ u ++ rest with c :: _ => digit c = None | [] => True end).
  { destruct Hft as [[-> _]|(ds & -> & _)]; [|done]. destruct Hu as [Hne Hu]. destruct u as [|c u]; [done|].
    by apply Forall_inv in Hu as [_ ?]. }
  assert (Hint : leadingInt 0 (decimal v ++ ft ++ u ++ rest) = Some (v, ft ++ u ++ rest)).
  { apply leadingInt_digits; [done|lia|by apply decimal_chars| |].
    - unfold decimal. rewrite decimal_rev_value by lia. done.
    - pose proof (Z.div_le_upper_bound (2 ^ 63) unit (2 ^ 63) ltac:(lia) ltac:(nia)). lia. }
  unfold parse_term. pose proof (decimal_not_nil v) as Hne. pose proof (decimal_chars v Hv) as Hch.
  destruct (decimal v ++ ft ++ u ++ rest) as [|c s] eqn:Es; [by destruct (decimal v)|].
  assert (Hc : negb ((c =? dot) || bool_decide (is_Some (digit c))) = false).
  { destruct (decimal v) as [|c' ds]; [done|]. injection Es as <- _. apply Forall_inv in Hch.
    replace c' with (48 + (c' - 48)) by lia. rewrite digit_char by lia. by rewrite orb_true_r. }
  rewrite Hc, Hint.
  assert (Hpre : negb (bool_decide (length (ft ++ u ++ rest) = length (c :: s))) = true).
  { rewrite bool_decide_false; [done|]. rewrite <-Es, (length_app (decimal v)). destruct (decimal v); [done|simpl; lia]. }
  rewrite Hpre. cbn [negb andb].
  assert (Hle2 : (2 ^ 63 / unit <? v) = false) by (apply Z.ltb_ge; lia).
  destruct Hft as [[-> ->]|(ds & -> & Hds & Hdne & Hlen & Hz & Er)]; cbn [app].
  - assert (Hm : match u ++ rest with 46 :: s1 =>
      let '(f, scale, s2) := leadingFraction 0 (of_Z 1) false s1 in (f, scale, s2, negb (bool_decide (length s2 = length s1)))
      | _ => (0, of_Z 1, u ++ rest, false) end = (0, of_Z 1, u ++ rest, false)).
    { destruct Hu as [Hune Hu]. destruct u as [|c0 u]; [done|]. apply Forall_inv in Hu as [Hdot _]. cbn [app].
      unfold dot in Hdot. repeat (case_match; try done). }
    rewrite Hm, span_unit_app, Hunit, Hle2 by done. cbn. rewrite (proj2 (Z.ltb_ge _ _)) by lia. f_equal. f_equal. lia.
  - rewrite Hku in Hunit by done. injection Hunit as <-.
    assert (Hk9 : (k <= 9)%nat).
    { clear -Hk. repeat (apply elem_of_cons in Hk as [->|Hk]; [lia|]). by apply elem_of_nil in Hk. }
    assert (Hp9 : 10 ^ Z.of_nat k <= 10 ^ 9) by (apply Z.pow_le_mono_r; lia).
    assert (Hone : 1 <= 10 ^ Z.of_nat (k - length ds)) by (apply (Z.pow_le_mono_r 10 0); lia).
    assert (Hzlt : digits_Z ds < 10 ^ 9) by (clear -Hr Er Hp9 Hone Hz; nia).
    unfold dot. change (of_Z 1) with (of_Z (10 ^ Z.of_nat 0)).
    rewrite (leadingFraction_digits ds (u ++ rest)) with (v := digits_Z ds); [|by destruct Hu as [? Hu]; destruct u; [|apply Forall_inv in Hu as []]
      |lia|done|by apply digits_value_Z|done|simpl; lia].
    cbn [Nat.add]. rewrite span_unit_app, Hku, Hle2 by done.
    rewrite (proj2 (Z.ltb_lt 0 (digits_Z ds)) Hz). rewrite unit_scale by done.
    rewrite mul64_exact by lia. rewrite to_uint64_exact by lia. rewrite Er.
    unfold u64. rewrite Z.mod_small by lia. rewrite (proj2 (Z.ltb_ge _ _)) by lia. done.
Qed.

(** *** All terms *)

(** [s] is read as [total] nanoseconds, whatever came before. *)
Definition reads (s : gostring) (total : Z) : Prop :=
  starts_term s /\ 0 <= total /\
  forall fuel d, (length s <= fuel)%nat -> 0 <= d -> d + total <= 2 ^ 63 -> parse_terms fuel d s = Some (d + total).

Lemma reads_nil : reads [] 0.
Proof. split_and!; [done|lia|]. intros [|fuel] d _ _ _; cbn; f_equal; lia. Qed.

Lemma starts_decimal v rest : 0 <= v -> starts_term (decimal v ++ rest).
Proof.
  intros Hv. pose proof (decimal_not_nil v) as Hne. pose proof (decimal_chars v Hv) as Hch.
  destruct (decimal v) as [|c ds]; [done|]. apply Forall_inv in Hch. cbn.
  replace c with (48 + (c - 48)) by lia. by rewrite digit_char by lia.
Qed.

Lemma reads_term v ft k u unit r rest total :
  0 <= v -> (k ∈ [0; 3; 6; 9])%nat -> fraction ft k r -> r < 10 ^ Z.of_nat k ->
  unit_text u -> (ft <> [] -> unitMap u = Some (10 ^ Z.of_nat k)) -> unitMap u = Some unit -> 0 < unit ->
  reads rest total -> reads (decimal v ++ ft ++ u ++ rest) (v * unit + r + total).
Proof.
  intros Hv Hk Hft Hr Hu Hku Hunit Hpos (Hs & Ht & Hrest).
  assert (Hr0 : 0 <= r).
  { destruct Hft as [[_ ->]|(ds & _ & _ & _ & _ & Hz & <-)]; [lia|]. apply Z.mul_nonneg_nonneg; lia. }
  split; [by apply starts_decimal|]. split; [nia|]. intros fuel d Hfuel Hd Hle.
  assert (Hv0 : 0 <= v * unit) by nia.
  assert (Hlen : (length rest < length (decimal v ++ ft ++ u ++ rest))%nat).
  { rewrite (length_app (decimal v)), (length_app ft), (length_app u). pose proof (decimal_not_nil v).
    destruct (decimal v); [done|simpl; lia]. }
  pose proof (parse_term_spec v ft k u rest r Hv Hk Hft Hr Hu Hku Hs unit Hunit Hpos ltac:(lia)) as Hp.
  destruct (decimal v ++ ft ++ u ++ rest) as [|c s]; [simpl in Hlen; lia|]. destruct fuel as [|fuel]; [simpl in Hfuel; lia|].
  cbn [parse_terms]. rewrite Hp. unfold u64. rewrite Z.mod_small by lia. rewrite (proj2 (Z.ltb_ge _ _)) by lia.
  rewrite Hrest by (simpl in *; lia). f_equal. lia.
Qed.

(** A term without a fraction. *)
Lemma reads_whole v u unit rest total :
  0 <= v -> unit_text u -> unitMap u = Some unit -> 0 < unit -> reads rest total ->
  reads (decimal v ++ u ++ rest) (v * unit + total).
Proof.
  intros Hv Hu Hunit Hpos Hrest. replace (v * unit + total) with (v * unit + 0 + total) by lia.
  apply (reads_term v [] 0 u unit 0 rest total); [done|by left|by left|lia|done|done|done|done|done].
Qed.

Ltac unit_text := split; [done|repeat constructor; discriminate].

Lemma fmt_small_reads u : 0 <= u < 1000000000 -> reads (fmt_small u) u.
Proof.
  intros Hu. unfold fmt_small.
  assert (Hterm : forall unit k, (k ∈ [0; 3; 6; 9])%nat -> unit_text (unit ++ str "s") ->
    unitMap (unit ++ str "s") = Some (10 ^ Z.of_nat k) ->
    reads (let (frac, v) := fmtFrac u k in decimal v ++ frac ++ unit ++ str "s") u).
  { intros unit k Hk Ht Hunit. destruct (fmtFrac_spec k u ltac:(lia)) as (ft & -> & Hft).
    pose proof (Z.div_mod u (10 ^ Z.of_nat k) ltac:(lia)) as Hdm.
    pose proof (Z.mod_pos_bound u (10 ^ Z.of_nat k) ltac:(lia)) as Hm.
    rewrite <-(app_nil_r (unit ++ str "s")).
    replace u with (u / 10 ^ Z.of_nat k * 10 ^ Z.of_nat k + u mod 10 ^ Z.of_nat k + 0) at 2 by lia.
    apply (reads_term _ ft k _ (10 ^ Z.of_nat k)); [apply Z.div_pos; lia|done|done|lia|done|done|done|lia|apply reads_nil]. }
  destruct (u <? 1000); [|destruct (u <? 1000000)]; apply Hterm; try (by vm_compute); try unit_text; set_solver.
Qed.

Lemma fmt_large_reads u : 0 <= u -> reads (fmt_large u) u.
Proof.
  intros Hu. unfold fmt_large. destruct (fmtFrac_spec 9 u Hu) as (ft & -> & Hft).
  pose proof (Z.div_mod u (10 ^ Z.of_nat 9) ltac:(lia)) as Hdm.
  change (10 ^ Z.of_nat 9) with 1000000000 in *. set (v := u / 1000000000) in *. set (r := u mod 1000000000) in *.
  assert (Hv : 0 <= v) by (apply Z.div_pos; lia). assert (Hr : 0 <= r < 1000000000) by (apply Z.mod_pos_bound; lia).
  assert (Hs : reads (decimal (v mod 60) ++ ft ++ str "s") (v mod 60 * 1000000000 + r)).
  { rewrite <-(app_nil_r (str "s")). replace (v mod 60 * 1000000000 + r) with (v mod 60 * 1000000000 + r + 0) by lia.
    apply (reads_term _ ft 9 _ 1000000000); [zlia|set_solver|done|lia|unit_text|by vm_compute|by vm_compute|lia|apply reads_nil]. }
  destruct (Z.leb_spec (v / 60) 0) as [Hm|Hm].
  { assert (E : v mod 60 = v) by zlia. rewrite E in Hs |- *. by replace u with (v * 1000000000 + r) by lia. }
  assert (Hms : reads (decimal (v / 60 mod 60) ++ str "m" ++ decimal (v mod 60) ++ ft ++ str "s")
    (v / 60 mod 60 * 60000000000 + (v mod 60 * 1000000000 + r))).
  { apply reads_whole; [zlia|unit_text|by vm_compute|lia|done]. }
  destruct (Z.leb_spec (v / 60 / 60) 0) as [Hh|Hh].
  { assert (E : v / 60 mod 60 = v / 60) by zlia. rewrite E in Hms |- *.
    by replace u with (v / 60 * 60000000000 + (v mod 60 * 1000000000 + r)) by (clear -Hdm; zlia). }
  replace u with (v / 60 / 60 * 3600000000000 + (v / 60 mod 60 * 60000000000 + (v mod 60 * 1000000000 + r)))
    by (clear -Hdm; zlia).
  apply reads_whole; [zlia|unit_text|by vm_compute|lia|done].
Qed.

Lemma reads_parse s total : s <> [] -> s <> str "0" -> reads s total -> total <= 2 ^ 63 ->
  read_sign s = (false, s) /\ parse_terms (length s) 0 s = Some total /\
  ParseDuration s = (if 2 ^ 63 - 1 <? total then None else Some total) /\ ParseDuration (45 :: s) = Some (- total).
Proof.
  intros Hne H0 (Hs & Ht & Hr) Hle. specialize (Hr (length s) 0 ltac:(lia) ltac:(lia) ltac:(lia)).
  assert (Hsign : read_sign s = (false, s)).
  { destruct s as [|c s]; [done|]. unfold starts_term, digit in Hs. unfold read_sign.
    repeat (case_match; try done). }
  split; [done|]. split; [done|]. unfold ParseDuration. rewrite Hsign. cbn [read_sign].
  rewrite !bool_decide_false by done. by rewrite Hr.
Qed.

Lemma Duration_String_parse d : is_duration d -> ParseDuration (Duration_String d) = Some d.
Proof.
  intros Hd. unfold is_duration in Hd. unfold Duration_String.
  set (u := u64 (if d <? 0 then - d else d)).
  assert (Hu : u = Z.abs d) by (unfold u, u64; destruct (Z.ltb_spec d 0); rewrite Z.mod_small; lia).
  destruct (Z.eqb_spec u 0) as [H0|H0].
  { rewrite H0. replace d with 0 by lia. by vm_compute. }
  cbv iota. set (text := if u <? 1000000000 then fmt_small u else fmt_large u).
  assert (Hr : reads text u).
  { unfold text. destruct (Z.ltb_spec u 1000000000); [apply fmt_small_reads|apply fmt_large_reads]; lia. }
  assert (Hne : text <> [] /\ text <> str "0").
  { destruct Hr as (_ & _ & Hr). specialize (Hr (length text) 0 ltac:(lia) ltac:(lia) ltac:(lia)).
    assert (H1 : parse_terms (length (str "0")) 0 (str "0") = None) by (vm_compute; reflexivity).
    split; intros E; rewrite E in Hr; [injection Hr as E0; lia|by rewrite H1 in Hr]. }
  destruct (reads_parse text u) as (_ & _ & Hp & Hn); [by destruct Hne..|done|lia|].
  destruct (Z.ltb_spec d 0); cbn [app].
  - rewrite Hn. f_equal. lia.
  - rewrite Hp. rewrite (proj2 (Z.ltb_ge _ _)) by lia. f_equal. lia.
Qed.
