(* ===== verification/GoJson.v ===== *)
(** JSON texts as [encoding/json] reads and writes them: the syntax check, the
    decoding of strings, and strings as they are written.  What a text means for a
    variable of a given type is said where one is decoded ([Config]). *)

From stdpp Require Import strings.
From S2P Require Import Prelude GoUnicode GoStrings GoText GoFloat.

Open Scope list_scope.
Open Scope Z_scope.

(** Numbers keep their text: whether it is read as an integer or as a fraction is
    decided by the variable. *)
Inductive json :=
  | JNull
  | JBool (b : bool)
  | JNumber (literal : gostring)
  | JString (s : gostring)
  | JArray (vs : list json)
  | JObject (kvs : list (gostring * json)).

(** ** Strings *)

(** The bytes of a string with every invalid one replaced. *)
Definition to_valid (s : gostring) : gostring := flat_map encode_rune (runes s).

Definition is_hex (c : Z) : bool := bool_decide (is_Some (hex_digit c)).

(** The letter after a backslash. *)
Definition escape_letter (c : Z) : option Z :=
  if (c =? 34) || (c =? 92) || (c =? 47) then Some c
  else if c =? 98 then Some 8
  else if c =? 102 then Some 12
  else if c =? 110 then Some 10
  else if c =? 114 then Some 13
  else if c =? 116 then Some 9
  else None.

(** The scanner inside a string: its text up to the closing quote, and the rest. *)
Fixpoint scan_string (s : gostring) : option (gostring * gostring) :=
  match s with
  | [] => None
  | c :: s =>
    if c =? 34 then Some ([], s)
    else if c <? 32 then None
    else if negb (c =? 92) then
      match scan_string s with Some (raw, rest) => Some (c :: raw, rest) | None => None end
    else
      match s with
      | [] => None
      | e :: s =>
        if e =? 117 then
          match s with
          | h1 :: h2 :: h3 :: h4 :: s =>
            if is_hex h1 && is_hex h2 && is_hex h3 && is_hex h4 then
              match scan_string s with Some (raw, rest) => Some (c :: e :: h1 :: h2 :: h3 :: h4 :: raw, rest) | None => None end
            else None
          | _ => None
          end
        else
          match escape_letter e, scan_string s with
          | Some _, Some (raw, rest) => Some (c :: e :: raw, rest)
          | _, _ => None
          end
      end
  end.

Definition hex4 (h1 h2 h3 h4 : Z) : Z :=
  let d c := default 0 (hex_digit c) in ((d h1 * 16 + d h2) * 16 + d h3) * 16 + d h4.

(** [getu4]: the number of the escape a text starts with. *)
Definition getu4 (s : gostring) : option Z :=
  match s with
  | 92 :: 117 :: h1 :: h2 :: h3 :: h4 :: _ => Some (hex4 h1 h2 h3 h4)
  | _ => None
  end.

Definition is_surrogate (r : Z) : bool := (55296 <=? r) && (r <? 57344).

(** [utf16.DecodeRune]. *)
Definition surrogate_pair (r1 r2 : Z) : option Z :=
  if (55296 <=? r1) && (r1 <? 56320) && (56320 <=? r2) && (r2 <? 57344)
  then Some ((r1 - 55296) * 1024 + (r2 - 56320) + 65536) else None.

(** [unquote] on the text of a string: [skip] bytes of a second escape are used up,
    [plain] are bytes that have not been copied yet. *)
Fixpoint unquote (skip : nat) (plain raw : gostring) : gostring :=
  match raw with
  | [] => to_valid plain
  | c :: raw =>
    match skip with
    | S skip => unquote skip plain raw
    | O =>
      if negb (c =? 92) then unquote 0 (plain ++ [c]) raw
      else
        to_valid plain ++
        match raw with
        | [] => []
        | e :: raw =>
          if e =? 117 then
            match raw with
            | h1 :: h2 :: h3 :: h4 :: raw =>
              let r := hex4 h1 h2 h3 h4 in
              if is_surrogate r then
                match (r2 ← getu4 raw; surrogate_pair r r2) with
                | Some r => encode_rune r ++ unquote 6 [] raw
                | None => encode_rune RuneError ++ unquote 0 [] raw
                end
              else encode_rune r ++ unquote 0 [] raw
            | _ => []
            end
          else default 0 (escape_letter e) :: unquote 0 [] raw
        end
    end
  end.

(** *** Writing one *)

(** [appendString] on a character below 128, with the escapes HTML needs. *)
Definition marshal_ascii (b : Z) : gostring :=
  if (b =? 92) || (b =? 34) then [92; b]
  else if b =? 8 then [92; 98]
  else if b =? 12 then [92; 102]
  else if b =? 10 then [92; 110]
  else if b =? 13 then [92; 114]
  else if b =? 9 then [92; 116]
  else if (b <? 32) || (b =? 60) || (b =? 62) || (b =? 38) then [92; 117; 48; 48; hex_char (b / 16); hex_char (b mod 16)]
  else [b].

Definition marshal_rune (r : Z) : gostring :=
  if r <? 128 then marshal_ascii r
  else if (r =? 8232) || (r =? 8233) then [92; 117; 50; 48; 50; hex_char (r mod 16)]
  else encode_rune r.

(** The bytes of a rune that are still to be passed over are [skip]. *)
Fixpoint marshal_loop (skip : nat) (s : gostring) : gostring :=
  match s with
  | [] => []
  | b :: s' =>
    match skip with
    | S skip => marshal_loop skip s'
    | O =>
      let r := default 0 (head (runes s)) in
      if (r =? RuneError) && negb (bool_decide (take 3 s = encode_rune RuneError)) then str "\ufffd" ++ marshal_loop 0 s'
      else marshal_rune r ++ marshal_loop (length (encode_rune r) - 1) s'
    end
  end.

Definition marshal_string (s : gostring) : gostring := [34] ++ marshal_loop 0 s ++ [34].

(** ** Numbers *)

(** The rest of a text that starts with a character. *)
Definition expect (c : Z) (s : gostring) : option gostring :=
  match s with b :: s => if b =? c then Some s else None | [] => None end.

Definition lex_fraction (s : gostring) : option (gostring * gostring) :=
  match expect 46 s with
  | Some s => let (ds, rest) := span_digits s in if bool_decide (ds = []) then None else Some (46 :: ds, rest)
  | None => Some ([], s)
  end.

Definition lex_exponent (s : gostring) : option (gostring * gostring) :=
  match s with
  | c :: s' =>
    if (c =? 101) || (c =? 69) then
      let (sign, s') := match s' with
        | d :: s'' => if (d =? 43) || (d =? 45) then ([d], s'') else ([], s')
        | [] => ([], s') end in
      let (ds, rest) := span_digits s' in
      if bool_decide (ds = []) then None else Some (c :: sign ++ ds, rest)
    else Some ([], s)
  | [] => Some ([], s)
  end.

(** No zero in front of other digits. *)
Definition lex_integer (s : gostring) : option (gostring * gostring) :=
  match expect 48 s with
  | Some s => Some ([48], s)
  | None => let (ds, rest) := span_digits s in if bool_decide (ds = []) then None else Some (ds, rest)
  end.

Definition lex_number (s : gostring) : option (gostring * gostring) :=
  let (sign, s) := match expect 45 s with Some s => ([45], s) | None => ([], s) end in
  '(i, s) ← lex_integer s;
  '(f, s) ← lex_fraction s;
  '(e, s) ← lex_exponent s;
  Some (sign ++ i ++ f ++ e, s).

(** ** Values *)

Fixpoint skip_space (s : gostring) : gostring :=
  match s with
  | c :: s' => if (c =? 32) || (c =? 9) || (c =? 13) || (c =? 10) then skip_space s' else s
  | [] => []
  end.

(** The rest of a text that starts with [word]. *)
Definition after (word s : gostring) : option gostring :=
  if bool_decide (take (length word) s = word) then Some (drop (length word) s) else None.

Definition maxNestingDepth : nat := Z.to_nat 10000.

(** [depth] is how many more brackets may be opened. *)
Fixpoint parse_value (fuel depth : nat) (s : gostring) : option (json * gostring) :=
  match fuel with
  | O => None
  | S fuel =>
    match skip_space s with
    | [] => None
    | c :: s' =>
      if c =? 34 then '(raw, rest) ← scan_string s'; Some (JString (unquote 0 [] raw), rest)
      else if c =? 123 then
        match depth with
        | O => None
        | S depth =>
          match expect 125 (skip_space s') with
          | Some rest => Some (JObject [], rest)
          | None => '(kvs, rest) ← parse_members fuel depth s'; Some (JObject kvs, rest)
          end
        end
      else if c =? 91 then
        match depth with
        | O => None
        | S depth =>
          match expect 93 (skip_space s') with
          | Some rest => Some (JArray [], rest)
          | None => '(vs, rest) ← parse_elements fuel depth s'; Some (JArray vs, rest)
          end
        end
      else if c =? 116 then rest ← after (str "rue") s'; Some (JBool true, rest)
      else if c =? 102 then rest ← after (str "alse") s'; Some (JBool false, rest)
      else if c =? 110 then rest ← after (str "ull") s'; Some (JNull, rest)
      else '(lit, rest) ← lex_number (c :: s'); Some (JNumber lit, rest)
    end
  end
with parse_elements (fuel depth : nat) (s : gostring) : option (list json * gostring) :=
  match fuel with
  | O => None
  | S fuel =>
    '(v, s) ← parse_value fuel depth s;
    match expect 44 (skip_space s) with
    | Some s => '(vs, rest) ← parse_elements fuel depth s; Some (v :: vs, rest)
    | None => rest ← expect 93 (skip_space s); Some ([v], rest)
    end
  end
with parse_members (fuel depth : nat) (s : gostring) : option (list (gostring * json) * gostring) :=
  match fuel with
  | O => None
  | S fuel =>
    s ← expect 34 (skip_space s);
    '(raw, s) ← scan_string s;
    s ← expect 58 (skip_space s);
    '(v, s) ← parse_value fuel depth s;
    match expect 44 (skip_space s) with
    | Some s => '(kvs, rest) ← parse_members fuel depth s; Some ((unquote 0 [] raw, v) :: kvs, rest)
    | None => rest ← expect 125 (skip_space s); Some ([(unquote 0 [] raw, v)], rest)
    end
  end.

(** The value of a text: [None] if [checkValid] finds it malformed. *)
Definition Parse (data : gostring) : option json :=
  '(v, rest) ← parse_value (2 * length data + 1) maxNestingDepth data;
  if bool_decide (skip_space rest = []) then Some v else None.

(** ** Enough fuel

    Every call but one of two takes a byte, so twice the length is enough. *)

Lemma skip_space_length s : (length (skip_space s) <= length s)%nat.
Proof. induction s as [|c s IH]; [done|]. cbn [skip_space]. destruct (_ || _); simpl in *; lia. Qed.

Lemma scan_string_length s raw rest : scan_string s = Some (raw, rest) -> (length rest < length s)%nat.
Proof.
  remember (length s) as n eqn:Hn. induction (lt_wf n) as [n _ IH] in s, Hn, raw |- *. subst n.
  assert (IH' : forall s' raw', (length s' < length s)%nat -> scan_string s' = Some (raw', rest) -> (length rest < length s')%nat)
    by (intros; by eapply IH). clear IH.
  destruct s as [|c s]; [done|]. cbn [scan_string]. destruct (c =? 34); [intros [= _ <-]; simpl; lia|].
  destruct (c <? 32); [done|].
  assert (Hrec : forall s' raw', (length s' <= length s)%nat -> scan_string s' = Some (raw', rest) -> (length rest < length (c :: s))%nat).
  { intros s' raw' Hl E. apply IH' in E; simpl in *; lia. }
  destruct (negb _).
  { destruct (scan_string s) as [[raw' rest']|] eqn:E; [|done]. intros [= _ <-]. by apply (Hrec s raw'). }
  destruct s as [|e s]; [done|]. destruct (e =? 117).
  - destruct s as [|h1 [|h2 [|h3 [|h4 s]]]]; try done. destruct (_ && _); [|done].
    destruct (scan_string s) as [[raw' rest']|] eqn:E; [|done]. intros [= _ <-]. apply (Hrec s raw'); [simpl; lia|done].
  - destruct (escape_letter e); [|done].
    destruct (scan_string s) as [[raw' rest']|] eqn:E; [|done]. intros [= _ <-]. apply (Hrec s raw'); [simpl; lia|done].
Qed.

Lemma span_digits_split s : forall ds rest, span_digits s = (ds, rest) -> s = ds ++ rest.
Proof.
  induction s as [|c s IH]; intros ds rest; cbn [span_digits]; [by intros [= <- <-]|].
  destruct (digit c); [|by intros [= <- <-]]. destruct (span_digits s) as [ds' rest'].
  intros [= <- <-]. cbn [app]. f_equal. by apply IH.
Qed.

Lemma expect_length c s rest : expect c s = Some rest -> length s = S (length rest).
Proof. unfold expect. destruct s as [|b s]; [done|]. destruct (b =? c); [|done]. by intros [= <-]. Qed.

Lemma expect_space_length c s rest : expect c (skip_space s) = Some rest -> (length rest < length s)%nat.
Proof. intros H%expect_length. pose proof (skip_space_length s). lia. Qed.

Lemma lex_integer_length s i rest : lex_integer s = Some (i, rest) -> (length rest < length s)%nat.
Proof.
  unfold lex_integer. destruct (expect 48 s) as [s'|] eqn:E; [apply expect_length in E; intros [= _ <-]; lia|].
  destruct (span_digits s) as [ds rest'] eqn:E'. apply span_digits_split in E' as ->.
  case_bool_decide; [done|]. intros [= _ <-]. rewrite length_app. destruct ds; [done|simpl; lia].
Qed.

Lemma lex_fraction_length s f rest : lex_fraction s = Some (f, rest) -> (length rest <= length s)%nat.
Proof.
  unfold lex_fraction. destruct (expect 46 s) as [s'|] eqn:E; [|by intros [= _ <-]]. apply expect_length in E.
  destruct (span_digits s') as [ds rest'] eqn:E'. apply span_digits_split in E' as ->.
  case_bool_decide; [done|]. intros [= _ <-]. rewrite length_app in E. lia.
Qed.

Lemma lex_exponent_length s e rest : lex_exponent s = Some (e, rest) -> (length rest <= length s)%nat.
Proof.
  destruct s as [|c s]; [by intros [= _ <-]|]. unfold lex_exponent. destruct (_ || _); [|by intros [= _ <-]].
  assert (Hspan : forall (sign s' : gostring), (length s' <= length s)%nat ->
    (let (ds, rest) := span_digits s' in if bool_decide (ds = []) then None else Some (c :: sign ++ ds, rest)) = Some (e, rest) ->
    (length rest <= length (c :: s))%nat).
  { intros sign s' Hl. destruct (span_digits s') as [ds rest'] eqn:E. apply span_digits_split in E as ->.
    case_bool_decide; [done|]. intros [= _ <-]. rewrite length_app in Hl. simpl. lia. }
  destruct s as [|d s]; [by apply Hspan|]. destruct (_ || _); apply Hspan; simpl; lia.
Qed.

(** Taking a step of a computation in [option]. *)
Ltac option_step H :=
  match type of H with
  | (?m ≫= _) = Some _ => let E := fresh "E" in destruct m as [?|] eqn:E; [cbn [mbind option_bind] in H|discriminate H]
  end; repeat match goal with x : _ * _ |- _ => destruct x end.

Lemma lex_number_length s lit rest : lex_number s = Some (lit, rest) -> (length rest < length s)%nat.
Proof.
  unfold lex_number.
  assert (Hsign : exists sign s', match expect 45 s with Some s => ([45], s) | None => ([], s) end = (sign, s') /\ (length s' <= length s)%nat).
  { destruct (expect 45 s) eqn:E; [|by do 2 eexists]. apply expect_length in E. do 2 eexists. split; [done|lia]. }
  destruct Hsign as (sign & s' & -> & Hl). intros H. do 3 option_step H. injection H as _ <-.
  apply lex_integer_length in E. apply lex_fraction_length in E0. apply lex_exponent_length in E1. lia.
Qed.

Lemma after_length word s rest : after word s = Some rest -> (length rest <= length s)%nat.
Proof. unfold after. case_bool_decide; [|done]. intros [= <-]. rewrite length_drop. lia. Qed.

(** *** The three functions *)

Notation shorter f := (forall depth s v rest, f depth s = Some (v, rest) -> (length rest < length s)%nat).

Lemma parse_shorter fuel :
  shorter (parse_value fuel) /\ shorter (parse_elements fuel) /\ shorter (parse_members fuel).
Proof.
  induction fuel as [|fuel (IHv & IHe & IHm)]; [done|]. split_and!; intros depth s v rest H.
  - cbn [parse_value] in H. pose proof (skip_space_length s) as Hs. destruct (skip_space s) as [|c s']; [done|].
    cbn [length] in Hs. destruct (c =? 34); [option_step H; injection H as _ <-; apply scan_string_length in E; lia|].
    destruct (c =? 123); [|destruct (c =? 91)].
    1, 2: destruct depth as [|depth]; [done|]; destruct (expect _ (skip_space s')) eqn:E;
      [injection H as _ <-; apply expect_space_length in E; lia|option_step H; injection H as _ <-].
    1: apply IHm in E0; lia. 1: apply IHe in E0; lia.
    destruct (c =? 116); [option_step H; injection H as _ <-; apply after_length in E; lia|].
    destruct (c =? 102); [option_step H; injection H as _ <-; apply after_length in E; lia|].
    destruct (c =? 110); [option_step H; injection H as _ <-; apply after_length in E; lia|].
    option_step H. injection H as _ <-. apply lex_number_length in E. simpl in E. lia.
  - cbn [parse_elements] in H. option_step H. apply IHv in E. destruct (expect 44 _) eqn:E1.
    + apply expect_space_length in E1. option_step H. injection H as _ <-. apply IHe in E0. lia.
    + option_step H. injection H as _ <-. apply expect_space_length in E0. lia.
  - cbn [parse_members] in H. do 4 option_step H. apply expect_space_length in E, E1. apply scan_string_length in E0.
    apply IHv in E2. destruct (expect 44 _) eqn:E3.
    + apply expect_space_length in E3. option_step H. injection H as _ <-. apply IHm in E4. lia.
    + option_step H. injection H as _ <-. apply expect_space_length in E4. lia.
Qed.

(** More fuel than that changes nothing. *)
Lemma parse_steady fuel : forall fuel', (fuel <= fuel')%nat ->
  (forall depth s, (2 * length s + 1 <= fuel)%nat -> parse_value fuel' depth s = parse_value fuel depth s) /\
  (forall depth s, (2 * length s + 2 <= fuel)%nat -> parse_elements fuel' depth s = parse_elements fuel depth s) /\
  (forall depth s, (2 * length s + 2 <= fuel)%nat -> parse_members fuel' depth s = parse_members fuel depth s).
Proof.
  induction fuel as [|fuel IH]; intros fuel' Hle; [split_and!; intros; lia|].
  destruct fuel' as [|fuel']; [lia|]. destruct (IH fuel' ltac:(lia)) as (IHv & IHe & IHm).
  split_and!; intros depth s Hf.
  - cbn [parse_value]. pose proof (skip_space_length s) as Hs. destruct (skip_space s) as [|c s']; [done|].
    cbn [length] in Hs. destruct (c =? 34); [done|].
    destruct (c =? 123); [destruct depth as [|depth]; [done|]; destruct (expect _ _); [done|]; by rewrite IHm by lia|].
    destruct (c =? 91); [destruct depth as [|depth]; [done|]; destruct (expect _ _); [done|]; by rewrite IHe by lia|].
    done.
  - cbn [parse_elements]. rewrite IHv by lia.
    destruct (parse_value fuel depth s) as [[v s1]|] eqn:E; [|done]. cbn [mbind option_bind].
    apply parse_shorter in E. destruct (expect 44 (skip_space s1)) as [s2|] eqn:E2; [|done].
    apply expect_space_length in E2. by rewrite IHe by lia.
  - cbn [parse_members].
    destruct (expect 34 (skip_space s)) as [s1|] eqn:E1; [|done]. cbn [mbind option_bind]. apply expect_space_length in E1.
    destruct (scan_string s1) as [[raw s2]|] eqn:E2; [|done]. cbn [mbind option_bind]. apply scan_string_length in E2.
    destruct (expect 58 (skip_space s2)) as [s3|] eqn:E3; [|done]. cbn [mbind option_bind]. apply expect_space_length in E3.
    rewrite IHv by lia. destruct (parse_value fuel depth s3) as [[v s4]|] eqn:E4; [|done]. cbn [mbind option_bind].
    apply parse_shorter in E4. destruct (expect 44 (skip_space s4)) as [s5|] eqn:E5; [|done].
    apply expect_space_length in E5. by rewrite IHm by lia.
Qed.

(** ** Reading what was written *)

Definition print_int (z : Z) : gostring := (if z <? 0 then [45] else []) ++ decimal (Z.abs z).

(** A text in the form [json.Marshal] gives it, without white space. *)
Fixpoint print (v : json) : gostring :=
  match v with
  | JNull => str "null"
  | JBool b => if b then str "true" else str "false"
  | JNumber literal => literal
  | JString s => marshal_string s
  | JArray vs => [91] ++ Join 44 (map print vs) ++ [93]
  | JObject kvs => [123] ++ Join 44 (map (fun kv => marshal_string kv.1 ++ [58] ++ print kv.2) kvs) ++ [125]
  end.

(** Characters of Unicode. *)
Definition is_scalar (r : Z) : Prop := 0 <= r /\ valid_rune r.

(** Strings that are the encoding of some. *)
Definition valid_utf8 (s : gostring) : Prop := exists rs, Forall is_scalar rs /\ s = flat_map encode_rune rs.

(** The text of a number: what may follow one does not belong to it. *)
Definition number_ok (literal : gostring) : Prop := lex_number literal = Some (literal, []).

Inductive json_ok : nat -> json -> Prop :=
  | ok_null d : json_ok d JNull
  | ok_bool d b : json_ok d (JBool b)
  | ok_number d l : number_ok l -> json_ok d (JNumber l)
  | ok_string d s : valid_utf8 s -> json_ok d (JString s)
  | ok_array d vs : Forall (json_ok d) vs -> json_ok (S d) (JArray vs)
  | ok_object d kvs : Forall (fun kv => valid_utf8 kv.1 /\ json_ok d kv.2) kvs -> json_ok (S d) (JObject kvs).

Lemma json_ok_mono d : forall d' v, (d <= d')%nat -> json_ok d v -> json_ok d' v.
Proof.
  induction d as [|d IH]; intros d' v Hd Hok; inversion Hok as [| | | |d0 vs Hvs|d0 kvs Hkvs]; subst; try by constructor.
  all: destruct d' as [|d']; [lia|]; constructor.
  - eapply Forall_impl; [exact Hvs|]. intros v Hv. apply IH; [lia|done].
  - eapply Forall_impl; [exact Hkvs|]. intros kv [? ?]. split; [done|]. apply IH; [lia|done].
Qed.

(** *** Strings *)

Lemma valid_utf8_to_valid s : valid_utf8 s -> to_valid s = s.
Proof.
  intros (rs & Hrs & ->). unfold to_valid.
  f_equal. induction Hrs as [|r rs [_ Hr] _ IH]; [done|]. cbn [flat_map]. by rewrite runes_encode, IH.
Qed.

Lemma valid_utf8_app a b : valid_utf8 a -> valid_utf8 b -> valid_utf8 (a ++ b).
Proof.
  intros (ra & Ha & ->) (rb & Hb & ->). exists (ra ++ rb). split; [by apply Forall_app|]. by rewrite flat_map_app.
Qed.

Lemma valid_utf8_nil : valid_utf8 [].
Proof. by exists []. Qed.

Lemma valid_utf8_rune r : is_scalar r -> valid_utf8 (encode_rune r).
Proof. intros Hr. exists [r]. split; [by constructor|]. cbn. by rewrite app_nil_r. Qed.

Lemma valid_utf8_ascii s : Forall (fun c => 0 <= c < 128) s -> valid_utf8 s.
Proof.
  intros Hs. exists s. split; [eapply Forall_impl; [exact Hs|]; intros c Hc; cbn in Hc; split; [lia|left; lia]|].
  induction Hs as [|c s Hc _ IH]; [done|]. cbn [flat_map]. rewrite <-IH. unfold encode_rune.
  by rewrite (proj2 (Z.ltb_lt _ _)) by lia.
Qed.

(** The check a witness evaluates. *)
Lemma valid_utf8_check s : forallb (fun c => (0 <=? c) && (c <? 128)) s = true -> valid_utf8 s.
Proof.
  intros Hs. apply valid_utf8_ascii. apply Forall_forall. rewrite forallb_forall in Hs.
  intros c Hc. specialize (Hs c (proj1 (list_elem_of_In _ _) Hc)). lia.
Qed.

Lemma encode_rune_high r : 128 <= r -> Forall (fun b => 128 <= b) (encode_rune r).
Proof.
  intros Hr. unfold encode_rune. rewrite (proj2 (Z.ltb_ge _ _)) by lia.
  destruct (r <? 2048); [|destruct (r <? 65536)]; repeat constructor; zlia.
Qed.

Lemma marshal_loop_skip n : forall s, (n <= length s)%nat -> marshal_loop n s = marshal_loop 0 (drop n s).
Proof. induction n as [|n IH]; intros s Hl; [done|]. destruct s as [|b s]; [simpl in Hl; lia|]. cbn. apply IH. simpl in Hl. lia. Qed.

Lemma marshal_loop_rune r rest : valid_rune r ->
  marshal_loop 0 (encode_rune r ++ rest) = marshal_rune r ++ marshal_loop 0 rest.
Proof.
  intros Hr. pose proof (encode_rune_not_nil r) as Hne.
  assert (Hout : forall s, s <> [] -> marshal_loop 0 s =
    let r := default 0 (head (runes s)) in
    if (r =? RuneError) && negb (bool_decide (take 3 s = encode_rune RuneError)) then str "\ufffd" ++ marshal_loop 0 (tail s)
    else marshal_rune r ++ marshal_loop (length (encode_rune r) - 1) (tail s)) by by intros [|b s] ?.
  rewrite Hout by (intros [? _]%app_nil; done). rewrite runes_encode by done. cbn [head default id].
  match goal with |- context [if ?b then _ else _] => assert (b = false) as -> end.
  { destruct (Z.eqb_spec r RuneError) as [->|]; [rewrite bool_decide_true; reflexivity|done]. }
  f_equal. destruct (encode_rune r) as [|b bs]; [done|]. cbn [app tail length]. rewrite Nat.sub_succ, Nat.sub_0_r.
  rewrite marshal_loop_skip by (rewrite length_app; lia). by rewrite drop_app_length.
Qed.

Lemma marshal_loop_runes rs : Forall is_scalar rs ->
  marshal_loop 0 (flat_map encode_rune rs) = flat_map marshal_rune rs.
Proof.
  induction 1 as [|r rs [_ Hr] _ IH]; [done|]. cbn [flat_map]. by rewrite marshal_loop_rune, IH.
Qed.

(** What is written for one rune is scanned whole, and read as the rune again. *)
Definition rune_text (r : Z) (t : gostring) : Prop :=
  (forall s, scan_string (t ++ s) = '(raw, rest) ← scan_string s; Some (t ++ raw, rest)) /\
  (forall plain raw, valid_utf8 plain -> exists done plain',
    unquote 0 plain (t ++ raw) = done ++ unquote 0 plain' raw /\ done ++ plain' = plain ++ encode_rune r /\ valid_utf8 plain').

Lemma plain_text bs : Forall (fun b => 32 <= b /\ b <> 34 /\ b <> 92) bs ->
  (forall s, scan_string (bs ++ s) = '(raw, rest) ← scan_string s; Some (bs ++ raw, rest)) /\
  (forall plain raw, unquote 0 plain (bs ++ raw) = unquote 0 (plain ++ bs) raw).
Proof.
  induction 1 as [|b bs (H1 & H2 & H3) _ [IHs IHu]]; split.
  - intros s. cbn [app]. by destruct (scan_string s) as [[]|].
  - intros plain raw. by rewrite app_nil_r.
  - intros s. cbn [app scan_string]. rewrite (proj2 (Z.eqb_neq _ _) H2), (proj2 (Z.ltb_ge _ _) H1), (proj2 (Z.eqb_neq _ _) H3).
    cbn [negb]. rewrite IHs. by destruct (scan_string s) as [[]|].
  - intros plain raw. cbn [app unquote]. rewrite (proj2 (Z.eqb_neq _ _) H3). cbn [negb]. rewrite IHu. by rewrite <-app_assoc.
Qed.

Lemma plain_rune r : is_scalar r -> Forall (fun b => 32 <= b /\ b <> 34 /\ b <> 92) (encode_rune r) -> rune_text r (encode_rune r).
Proof.
  intros Hr Hbs. destruct (plain_text _ Hbs) as [Hs Hu]. split; [exact Hs|]. intros plain raw Hp.
  exists [], (plain ++ encode_rune r). split_and!; [apply Hu|done|]. by apply valid_utf8_app, valid_utf8_rune.
Qed.

Lemma escape_rune r e : escape_letter e = Some r -> e <> 117 -> 0 <= r < 128 -> rune_text r [92; e].
Proof.
  intros He Hne Hr. split.
  - intros s. cbn. rewrite (proj2 (Z.eqb_neq _ _) Hne), He. by destruct (scan_string s) as [[]|].
  - intros plain raw Hp. exists (plain ++ [r]), []. cbn. rewrite (proj2 (Z.eqb_neq _ _) Hne), He. cbn [default id].
    rewrite (valid_utf8_to_valid _ Hp), <-app_assoc, app_nil_r. split_and!; [done| |apply valid_utf8_nil]. f_equal. unfold encode_rune. by rewrite (proj2 (Z.ltb_lt _ _)) by lia.
Qed.

Lemma hex_rune r h1 h2 h3 h4 :
  is_hex h1 && is_hex h2 && is_hex h3 && is_hex h4 = true -> hex4 h1 h2 h3 h4 = r -> is_surrogate r = false ->
  rune_text r [92; 117; h1; h2; h3; h4].
Proof.
  intros Hh Hr Hs. split.
  - intros s. cbn. rewrite Hh. by destruct (scan_string s) as [[]|].
  - intros plain raw Hp. exists (plain ++ encode_rune r), []. cbn. rewrite Hr, Hs. rewrite (valid_utf8_to_valid _ Hp), <-app_assoc, app_nil_r.
    split_and!; [done..|apply valid_utf8_nil].
Qed.

(** ASCII and the two separators, checked one by one. *)
Lemma marshal_rune_text r : is_scalar r -> rune_text r (marshal_rune r).
Proof.
  intros Hr. assert (H0 : 0 <= r) by apply Hr. unfold marshal_rune. destruct (Z.ltb_spec r 128) as [Hlow|Hhigh].
  - unfold marshal_ascii.
    destruct ((r =? 92) || (r =? 34)) eqn:E0; [apply escape_rune; unfold escape_letter; [by destruct (r =? 92), (r =? 34)| |]; lia|].
    destruct (Z.eqb_spec r 8) as [->|]; [by apply escape_rune|]. destruct (Z.eqb_spec r 12) as [->|]; [by apply escape_rune|].
    destruct (Z.eqb_spec r 10) as [->|]; [by apply escape_rune|]. destruct (Z.eqb_spec r 13) as [->|]; [by apply escape_rune|].
    destruct (Z.eqb_spec r 9) as [->|]; [by apply escape_rune|].
    destruct ((r <? 32) || (r =? 60) || (r =? 62) || (r =? 38)) eqn:E.
    + assert (H1 : 0 <= r / 16 < 16) by (split; [apply Z.div_pos|apply Z.div_lt_upper_bound]; lia).
      assert (H2 : 0 <= r mod 16 < 16) by (apply Z.mod_pos_bound; lia).
      apply hex_rune; [| |unfold is_surrogate; lia].
      * unfold is_hex. by rewrite (hex_digit_char (r / 16)), (hex_digit_char (r mod 16)) by done.
      * unfold hex4. rewrite (hex_digit_char (r / 16)), (hex_digit_char (r mod 16)) by done. cbn. zlia.
    + assert (Er : [r] = encode_rune r) by (unfold encode_rune; by rewrite (proj2 (Z.ltb_lt _ _))). rewrite Er.
      apply plain_rune; [done|]. rewrite <-Er. constructor; [lia|constructor].
  - destruct ((r =? 8232) || (r =? 8233)) eqn:E.
    + assert (Hr2 : r = 8232 \/ r = 8233) by lia. destruct Hr2 as [-> | ->]; by apply hex_rune.
    + apply plain_rune; [done|]. eapply Forall_impl; [by apply encode_rune_high|]. intros b Hb. cbn in Hb. lia.
Qed.

Lemma marshal_text rs : Forall is_scalar rs -> forall s,
  scan_string (flat_map marshal_rune rs ++ s) = '(raw, rest) ← scan_string s; Some (flat_map marshal_rune rs ++ raw, rest).
Proof.
  induction 1 as [|r rs Hr _ IH]; intros s; [cbn; by destruct (scan_string s) as [[]|]|].
  cbn [flat_map]. rewrite <-app_assoc. destruct (marshal_rune_text r Hr) as [Hs _]. rewrite Hs, IH.
  destruct (scan_string s) as [[]|]; [|done]. cbn. by rewrite <-app_assoc.
Qed.

Lemma unquote_text rs : Forall is_scalar rs -> forall plain, valid_utf8 plain ->
  unquote 0 plain (flat_map marshal_rune rs) = plain ++ flat_map encode_rune rs.
Proof.
  induction 1 as [|r rs Hr _ IH]; intros plain Hp; [cbn; by rewrite valid_utf8_to_valid, app_nil_r|].
  cbn [flat_map]. destruct (marshal_rune_text r Hr) as [_ Hu].
  destruct (Hu plain (flat_map marshal_rune rs) Hp) as (done & plain' & -> & E & Hp'). rewrite IH by done.
  by rewrite app_assoc, E, <-app_assoc.
Qed.

Lemma scan_marshal s rest : valid_utf8 s ->
  exists raw, scan_string (marshal_loop 0 s ++ 34 :: rest) = Some (raw, rest) /\ unquote 0 [] raw = s.
Proof.
  intros (rs & Hrs & ->). exists (flat_map marshal_rune rs). rewrite marshal_loop_runes by done.
  rewrite marshal_text by done. cbn. rewrite app_nil_r. split; [done|]. by rewrite unquote_text by (done || apply valid_utf8_nil).
Qed.

(** *** Numbers *)

(** What may come after a value inside another, or at the end. *)
Definition ends (rest : gostring) : Prop := match rest with [] => True | c :: _ => c = 44 \/ c = 93 \/ c = 125 end.

Section extends.
Context (rest : gostring) (Hrest : ends rest).

Lemma span_digits_extends s : span_digits (s ++ rest) = let (ds, r) := span_digits s in (ds, r ++ rest).
Proof.
  induction s as [|c s IH]; cbn [app span_digits].
  - destruct rest as [|c r]; [done|]. cbn [span_digits ends] in *. unfold digit. by destruct Hrest as [->|[->| ->]].
  - destruct (digit c); [|done]. rewrite IH. by destruct (span_digits s).
Qed.

Lemma expect_extends c s : 45 <= c <= 48 -> expect c (s ++ rest) = (.++ rest) <$> expect c s.
Proof.
  intros Hc. destruct s as [|b s]; cbn; [|by destruct (b =? c)]. unfold expect. destruct rest as [|b r]; [done|].
  cbn in Hrest. by rewrite (proj2 (Z.eqb_neq _ _)) by lia.
Qed.

(** Reading a part of a number leaves [rest] where it is. *)
Definition extends (f : gostring -> option (gostring * gostring)) : Prop :=
  forall s t r, f s = Some (t, r) -> f (s ++ rest) = Some (t, r ++ rest).

Lemma lex_integer_extends : extends lex_integer.
Proof.
  intros s t r. unfold lex_integer. rewrite expect_extends by lia. destruct (expect 48 s); cbn; [by intros [= <- <-]|].
  rewrite span_digits_extends. destruct (span_digits s). case_bool_decide; [done|]. by intros [= <- <-].
Qed.

Lemma lex_fraction_extends : extends lex_fraction.
Proof.
  intros s t r. unfold lex_fraction. rewrite expect_extends by lia. destruct (expect 46 s) as [s'|]; cbn; [|by intros [= <- <-]].
  rewrite span_digits_extends. destruct (span_digits s'). case_bool_decide; [done|]. by intros [= <- <-].
Qed.

Lemma lex_exponent_extends : extends lex_exponent.
Proof.
  intros s t r. destruct s as [|c s]; cbn [app lex_exponent].
  - intros [= <- <-]. destruct rest as [|c r']; [done|]. cbn in Hrest. unfold lex_exponent.
    by rewrite !(proj2 (Z.eqb_neq c _)) by lia.
  - destruct (_ || _); [|by intros [= <- <-]]. destruct s as [|d s]; cbn [app].
    + cbn. discriminate.
    + destruct ((d =? 43) || (d =? 45)).
      * rewrite span_digits_extends. destruct (span_digits s). case_bool_decide; [done|]. by intros [= <- <-].
      * change (d :: s ++ rest) with ((d :: s) ++ rest). rewrite span_digits_extends. destruct (span_digits (d :: s)).
        case_bool_decide; [done|]. by intros [= <- <-].
Qed.

Lemma lex_number_extends : extends lex_number.
Proof.
  intros s t r. unfold lex_number. rewrite expect_extends by lia.
  assert (Hlex : forall (sign : gostring) s',
    ('(i, s) ← lex_integer s'; '(f, s) ← lex_fraction s; '(e, s) ← lex_exponent s; Some (sign ++ i ++ f ++ e, s)) = Some (t, r) ->
    ('(i, s) ← lex_integer (s' ++ rest); '(f, s) ← lex_fraction s; '(e, s) ← lex_exponent s; Some (sign ++ i ++ f ++ e, s)) =
      Some (t, r ++ rest)).
  { intros sign s' H. do 3 option_step H. injection H as <- <-.
    rewrite (lex_integer_extends _ _ _ E). cbn. rewrite (lex_fraction_extends _ _ _ E0). cbn.
    by rewrite (lex_exponent_extends _ _ _ E1). }
  destruct (expect 45 s) as [s'|]; cbn [fmap option_fmap option_map]; apply Hlex.
Qed.
End extends.

Lemma number_head l : number_ok l -> exists c l', l = c :: l' /\ (c = 45 \/ 48 <= c <= 57).
Proof.
  unfold number_ok, lex_number. destruct l as [|c l]; [by cbn|]. intros H. exists c, l. split; [done|]. unfold expect in H.
  destruct (Z.eqb_spec c 45); [by left|right]. option_step H. unfold lex_integer, expect in E.
  destruct (Z.eqb_spec c 48); [lia|]. cbn [span_digits] in E. unfold digit in E.
  destruct ((48 <=? c) && (c <=? 57)) eqn:Ed; [lia|]. by rewrite bool_decide_true in E.
Qed.

(** Integers are written as they are read. *)
Lemma lex_decimal n : 0 <= n -> lex_integer (decimal n) = Some (decimal n, []).
Proof.
  intros Hn. destruct (Z.eq_dec n 0) as [->|Hne]; [by vm_compute|]. unfold lex_integer.
  pose proof (decimal_head n ltac:(lia)) as Hh. pose proof (decimal_not_nil n).
  assert (expect 48 (decimal n) = None) as ->.
  { unfold expect. destruct (decimal n) as [|c ds]; [done|]. destruct (Z.eqb_spec c 48) as [->|]; [|done]. by cbn in Hh. }
  rewrite <-(app_nil_r (decimal n)), span_digits_app, app_nil_r; [|by apply decimal_chars|done].
  by rewrite bool_decide_false.
Qed.

Lemma decimal_no_sign n c : 0 <= n -> c < 48 -> expect c (decimal n) = None.
Proof.
  intros Hn Hc. unfold expect. pose proof (decimal_chars n Hn) as Hd. destruct (decimal n) as [|b ds]; [done|].
  apply Forall_inv in Hd. by rewrite (proj2 (Z.eqb_neq _ _)) by lia.
Qed.

Lemma print_int_number z : number_ok (print_int z).
Proof.
  unfold number_ok, print_int, lex_number. destruct (z <? 0); cbn [app].
  - unfold expect at 1. cbn [Z.eqb Pos.eqb]. rewrite lex_decimal by lia. cbn. by rewrite app_nil_r.
  - rewrite decimal_no_sign by lia. rewrite lex_decimal by lia. cbn. by rewrite app_nil_r.
Qed.

Lemma print_int_ParseInt64 z : - 2 ^ 63 <= z < 2 ^ 63 -> ParseInt64 (print_int z) = Some z.
Proof.
  intros Hz. unfold ParseInt64, print_int. pose proof (decimal_not_nil (Z.abs z)) as Hne.
  destruct (Z.ltb_spec z 0); cbn [app].
  - cbn [read_sign]. rewrite bool_decide_false, digits_value_decimal by (done || lia).
    rewrite (proj2 (Z.leb_le _ _)), (proj2 (Z.ltb_lt _ _)) by lia. cbn [andb]. f_equal. lia.
  - assert (Hs : read_sign (decimal (Z.abs z)) = (false, decimal (Z.abs z))).
    { pose proof (decimal_chars (Z.abs z) ltac:(lia)) as Hd. destruct (decimal (Z.abs z)) as [|c ds]; [done|].
      apply Forall_inv in Hd. unfold read_sign. repeat (case_match; try done); lia. }
    rewrite Hs, bool_decide_false, digits_value_decimal by (done || lia).
    rewrite (proj2 (Z.leb_le _ _)), (proj2 (Z.ltb_lt _ _)) by lia. cbn [andb]. f_equal. lia.
Qed.

(** *** Values *)

Lemma expect_same c s : expect c (c :: s) = Some s.
Proof. cbn. by rewrite Z.eqb_refl. Qed.

Lemma expect_other c b s : b <> c -> expect c (b :: s) = None.
Proof. intros H. cbn. by rewrite (proj2 (Z.eqb_neq _ _)). Qed.

Lemma after_app word rest : after word (word ++ rest) = Some rest.
Proof. unfold after. by rewrite take_app_length, bool_decide_true, drop_app_length. Qed.

Definition solid (c : Z) : Prop := c <> 32 /\ c <> 9 /\ c <> 13 /\ c <> 10.

Lemma skip_space_solid c s : solid c -> skip_space (c :: s) = c :: s.
Proof. intros (? & ? & ? & ?). cbn. by rewrite !(proj2 (Z.eqb_neq c _)). Qed.

Lemma skip_space_ends rest : ends rest -> skip_space rest = rest.
Proof. destruct rest as [|c r]; [done|]. cbn [ends]. intros H. apply skip_space_solid. unfold solid. lia. Qed.

(** What a value starts with is no space and closes nothing. *)
Lemma print_head d v : json_ok d v -> exists c s, print v = c :: s /\ solid c /\ c <> 93 /\ c <> 125.
Proof.
  unfold solid. intros H. destruct H as [d|d [|]|d l Hl|d s _|d vs _|d kvs _]; cbn [print];
    try (do 2 eexists; split; [reflexivity|split_and!; discriminate]).
  apply number_head in Hl as (c & l' & -> & Hc). exists c, l'. split; [done|lia].
Qed.

(** *** Members and elements *)

(** [f] reads, from what [text] writes, the value [v], with enough fuel. *)
Definition reads_back {A} (f : nat -> nat -> gostring -> option (A * gostring)) (depth : nat) (text : gostring) (v : A) : Prop :=
  forall rest fuel, ends rest -> (2 * length text <= fuel)%nat -> f fuel depth (text ++ rest) = Some (v, rest).

Lemma parse_elements_print depth vs : vs <> [] ->
  Forall (fun v => reads_back parse_value depth (print v) v /\ print v <> []) vs ->
  forall rest fuel, (2 * length (Join 44 (map print vs)) + 1 <= fuel)%nat ->
  parse_elements fuel depth (Join 44 (map print vs) ++ 93 :: rest) = Some (vs, rest).
Proof.
  intros Hne. induction vs as [|v vs IH]; [done|]. intros [[Hv Hvne] Hvs]%Forall_cons rest fuel Hf.
  destruct fuel as [|fuel]; [lia|]. destruct vs as [|w vs].
  - cbn [map Join] in *. cbn [parse_elements]. rewrite (Hv (93 :: rest)) by (cbn; auto || lia). cbn [mbind option_bind].
    rewrite skip_space_ends by (cbn; auto). by rewrite expect_other, expect_same.
  - change (map print (v :: w :: vs)) with (print v :: map print (w :: vs)) in *.
    rewrite Join_cons in Hf |- * by done. rewrite length_app in Hf. cbn [length] in Hf. rewrite <-app_assoc.
    cbn [app parse_elements]. rewrite (Hv (44 :: _)) by (cbn; auto || lia). cbn [mbind option_bind].
    rewrite skip_space_ends by (cbn; auto). rewrite expect_same.
    assert (length (print v) <> 0%nat) by by destruct (print v).
    rewrite IH by (done || lia). done.
Qed.

Definition print_member (kv : gostring * json) : gostring := marshal_string kv.1 ++ [58] ++ print kv.2.

Lemma parse_members_print depth kvs : kvs <> [] ->
  Forall (fun kv => valid_utf8 kv.1 /\ reads_back parse_value depth (print kv.2) kv.2) kvs ->
  forall rest fuel, (2 * length (Join 44 (map print_member kvs)) + 1 <= fuel)%nat ->
  parse_members fuel depth (Join 44 (map print_member kvs) ++ 125 :: rest) = Some (kvs, rest).
Proof.
  assert (Hone : forall k v rest, valid_utf8 k -> ends rest -> reads_back parse_value depth (print v) v ->
    exists raw s2, unquote 0 [] raw = k /\
      expect 34 (skip_space (print_member (k, v) ++ rest)) = Some (marshal_loop 0 k ++ 34 :: s2) /\
      scan_string (marshal_loop 0 k ++ 34 :: s2) = Some (raw, s2) /\ s2 = 58 :: print v ++ rest).
  { intros k v rest Hk Hr Hv. destruct (scan_marshal k (58 :: print v ++ rest) Hk) as (raw & Hs & Hu).
    exists raw, (58 :: print v ++ rest). split; [done|]. split; [|done]. unfold print_member, marshal_string. cbn [fst snd].
    rewrite <-!app_assoc. cbn [app]. rewrite skip_space_solid by (unfold solid; lia). by rewrite expect_same. }
  intros Hne. induction kvs as [|[k v] kvs IH]; [done|]. intros [[Hk Hv] Hkvs]%Forall_cons rest fuel Hf.
  destruct fuel as [|fuel]; [lia|]. cbn [fst snd] in Hk, Hv.
  assert (Hlen : (length (print v) + 3 <= length (print_member (k, v)))%nat).
  { unfold print_member, marshal_string. cbn [fst snd]. rewrite !length_app. simpl. lia. }
  destruct kvs as [|kv kvs].
  - cbn [map Join] in *. destruct (Hone k v (125 :: rest) Hk ltac:(cbn; auto) Hv) as (raw & s2 & Hu & E1 & E2 & ->).
    cbn [parse_members]. rewrite E1. cbn [mbind option_bind]. rewrite E2. cbn [mbind option_bind].
    rewrite skip_space_solid by (unfold solid; lia). rewrite expect_same. cbn [mbind option_bind].
    rewrite (Hv (125 :: rest)) by (cbn; auto || lia). cbn [mbind option_bind].
    rewrite skip_space_ends by (cbn; auto). rewrite expect_other, expect_same by lia. cbn. by rewrite Hu.
  - change (map print_member ((k, v) :: kv :: kvs)) with (print_member (k, v) :: map print_member (kv :: kvs)) in *.
    rewrite Join_cons in Hf |- * by done. rewrite length_app in Hf. cbn [length] in Hf. rewrite <-app_assoc. cbn [app].
    set (tail := 44 :: Join 44 (map print_member (kv :: kvs)) ++ 125 :: rest) in *.
    destruct (Hone k v tail Hk ltac:(cbn; auto) Hv) as (raw & s2 & Hu & E1 & E2 & ->).
    cbn [parse_members]. rewrite E1. cbn [mbind option_bind]. rewrite E2. cbn [mbind option_bind].
    rewrite skip_space_solid by (unfold solid; lia). rewrite expect_same. cbn [mbind option_bind].
    rewrite (Hv tail) by (cbn; auto || lia). cbn [mbind option_bind].
    rewrite skip_space_ends by (cbn; auto). unfold tail. rewrite expect_same. rewrite IH by (done || lia).
    cbn. by rewrite Hu.
Qed.

Lemma length_Join_elem c t ts : t ∈ ts -> (length t <= length (Join c ts))%nat.
Proof.
  induction ts as [|u ts IH]; [by intros ?%elem_of_nil|]. destruct ts as [|w ts].
  - intros ->%list_elem_of_singleton. done.
  - intros Ht. rewrite Join_cons, length_app by done. cbn [length]. apply elem_of_cons in Ht as [->|Ht]; [lia|]. specialize (IH Ht). lia.
Qed.

Lemma parse_print_size n : forall v depth, (length (print v) <= n)%nat -> json_ok depth v ->
  reads_back parse_value depth (print v) v.
Proof.
  induction n as [|n IH]; intros v depth Hn Hok rest fuel Hrest Hf.
  { destruct (print_head _ _ Hok) as (c & s & E & _). rewrite E in Hn. simpl in Hn. lia. }
  destruct (print_head _ _ Hok) as (c & s & E & Hsolid & H93 & H125).
  destruct fuel as [|fuel]; [rewrite E in Hf; simpl in Hf; lia|]. cbn [parse_value].
  assert (Esk : skip_space (print v ++ rest) = print v ++ rest) by (rewrite E; cbn [app]; by apply skip_space_solid).
  rewrite Esk. clear Esk E c s Hsolid H93 H125.
  destruct Hok as [d|d [|]|d l Hl|d s Hs|d vs Hvs|d kvs Hkvs].
  - done.
  - done.
  - done.
  - cbn [print]. destruct (number_head l Hl) as (c & l' & El & Hc).
    assert (Ex : lex_number (l ++ rest) = Some (l, rest)) by exact (lex_number_extends rest Hrest _ _ _ Hl).
    rewrite El in Ex |- *. cbn [app] in Ex |- *. rewrite !(proj2 (Z.eqb_neq c _)) by lia. by rewrite Ex.
  - cbn [print]. destruct (scan_marshal s rest Hs) as (raw & Esc & Eu). unfold marshal_string. rewrite <-!app_assoc. cbn [app].
    rewrite Z.eqb_refl, Esc. cbn. by rewrite Eu.
  - change (print (JArray vs)) with ([91] ++ Join 44 (map print vs) ++ [93]) in *.
    rewrite !length_app in Hn, Hf. rewrite <-!app_assoc. cbn [app length Z.eqb Pos.eqb] in *.
    destruct vs as [|v vs]; [done|].
    assert (Hall : Forall (fun v => reads_back parse_value d (print v) v /\ print v <> []) (v :: vs)).
    { apply Forall_forall. intros w Hw. rewrite Forall_forall in Hvs. specialize (Hvs w Hw). split.
      - apply IH; [|done]. pose proof (length_Join_elem 44 (print w) (map print (v :: vs)) ltac:(by apply list_elem_of_fmap_2)). lia.
      - destruct (print_head _ _ Hvs) as (c & s & E & _). by rewrite E. }
    assert (Eexp : expect 93 (skip_space (Join 44 (map print (v :: vs)) ++ 93 :: rest)) = None).
    { apply Forall_inv in Hvs. destruct (print_head _ _ Hvs) as (c & s & E & Hsolid & H93 & _).
      assert (exists t, Join 44 (map print (v :: vs)) = c :: t) as [t ->].
      { destruct vs; cbn [map]; [exists s; by cbn|]. rewrite Join_cons by done. rewrite E. by eexists. }
      cbn [app]. rewrite skip_space_solid by done. by apply expect_other. }
    rewrite Eexp. rewrite parse_elements_print by (done || lia). done.
  - change (print (JObject kvs)) with ([123] ++ Join 44 (map print_member kvs) ++ [125]) in *.
    rewrite !length_app in Hn, Hf. rewrite <-!app_assoc. cbn [app length Z.eqb Pos.eqb] in *.
    destruct kvs as [|kv kvs]; [done|].
    assert (Hall : Forall (fun kv => valid_utf8 kv.1 /\ reads_back parse_value d (print kv.2) kv.2) (kv :: kvs)).
    { apply Forall_forall. intros w Hw. rewrite Forall_forall in Hkvs. destruct (Hkvs w Hw) as [Hk Hv]. split; [done|].
      apply IH; [|done]. pose proof (length_Join_elem 44 (print_member w) (map print_member (kv :: kvs)) ltac:(by apply list_elem_of_fmap_2)) as Hl.
      unfold print_member at 1 in Hl. rewrite !length_app in Hl. lia. }
    assert (Eexp : expect 125 (skip_space (Join 44 (map print_member (kv :: kvs)) ++ 125 :: rest)) = None).
    { assert (exists t, Join 44 (map print_member (kv :: kvs)) = 34 :: t) as [t ->].
      { destruct kvs; cbn [map]; [by eexists|]. rewrite Join_cons by done. by eexists. }
      cbn [app]. rewrite skip_space_solid by (unfold solid; lia). by apply expect_other. }
    rewrite Eexp. rewrite parse_members_print by (done || lia). done.
Qed.

(** Every value that can be written is read back. *)
Lemma Parse_print v : json_ok maxNestingDepth v -> Parse (print v) = Some v.
Proof.
  intros Hok. unfold Parse. pose proof (parse_print_size _ v _ (le_n _) Hok [] (2 * length (print v) + 1)%nat I ltac:(lia)) as H.
  rewrite app_nil_r in H. rewrite H. done.
Qed.
