(* ===== verification/GoNet.v ===== *)
(** The part of Go's [net] package the repository uses on addresses: a [net.IP]
    is a byte slice, [None] standing for the nil slice. *)

From S2P Require Import Prelude.

Open Scope Z_scope.

Abbreviation IP := (option (list Z)).

(** [v4InV6Prefix]: the first twelve bytes of an IPv4-mapped IPv6 address. *)
Definition v4InV6Prefix : list Z := [0; 0; 0; 0; 0; 0; 0; 0; 0; 0; 255; 255].

(** [net.IP.To4] and [net.IP.To16]; [None] is Go's nil result. *)
Definition To4 (ip : IP) : IP :=
  match ip with
  | None => None
  | Some b =>
    if bool_decide (length b = 4%nat) then Some b
    else if bool_decide (length b = 16%nat) && bool_decide (take 12 b = v4InV6Prefix)
    then Some (drop 12 b) else None
  end.

Definition To16 (ip : IP) : IP :=
  match ip with
  | None => None
  | Some b =>
    if bool_decide (length b = 4%nat) then Some (v4InV6Prefix ++ b)
    else if bool_decide (length b = 16%nat) then Some b else None
  end.

Lemma To4_length ip b : To4 ip = Some b -> length b = 4%nat.
Proof.
  destruct ip as [c|]; [|done]. simpl. case_bool_decide; [by intros [= <-]|].
  case_bool_decide; simpl; [|done]. case_bool_decide; [|done].
  intros [= <-]. rewrite length_drop. lia.
Qed.

Lemma To16_length ip b : To16 ip = Some b -> length b = 16%nat.
Proof.
  destruct ip as [c|]; [|done]. simpl. case_bool_decide.
  - intros [= <-]. simpl. lia.
  - case_bool_decide; [by intros [= <-] | done].
Qed.

Lemma To4_Some b : length b = 4%nat -> To4 (Some b) = Some b.
Proof. intros H. unfold To4. by rewrite bool_decide_true. Qed.

Lemma To16_Some b : length b = 16%nat -> To16 (Some b) = Some b.
Proof.
  intros H. unfold To16. by rewrite bool_decide_false, bool_decide_true by lia.
Qed.

(** ** Address classes

    The methods [IsUnspecified], [IsLoopback], ... of [net.IP], as Go 1.22
    defines them on the bytes of the address. *)

Definition IPv6unspecified : list Z := replicate 16 0.
Definition IPv6loopback : list Z := replicate 15 0 ++ [1].
Definition IPv4zero : list Z := v4InV6Prefix ++ [0; 0; 0; 0].

(** [ip.Equal(x)]: an IPv4 address equals its IPv4-mapped form. *)
Definition ip_Equal (a b : list Z) : bool :=
  if bool_decide (length a = length b) then bool_decide (a = b)
  else if bool_decide (length a = 4%nat) && bool_decide (length b = 16%nat)
  then bool_decide (v4InV6Prefix ++ a = b)
  else if bool_decide (length a = 16%nat) && bool_decide (length b = 4%nat)
  then bool_decide (a = v4InV6Prefix ++ b)
  else false.

(** Byte [i] of an address long enough to have one. *)
Definition octet (b : list Z) (i : nat) : Z := nth i b 0.

Definition IsUnspecified (b : list Z) : bool := ip_Equal b IPv4zero || ip_Equal b IPv6unspecified.

(** The other tests look at the IPv4 form if there is one and at sixteen bytes
    otherwise. *)
Definition by_family (b : list Z) (v4 v6 : list Z -> bool) : bool :=
  match To4 (Some b) with
  | Some ip4 => v4 ip4
  | None => bool_decide (length b = 16%nat) && v6 b
  end.

Definition IsLoopback (b : list Z) : bool :=
  by_family b (fun a => octet a 0 =? 127) (fun a => ip_Equal a IPv6loopback).
Definition IsPrivate (b : list Z) : bool :=
  by_family b
    (fun a => (octet a 0 =? 10) || ((octet a 0 =? 172) && (Z.land (octet a 1) 240 =? 16)) ||
              ((octet a 0 =? 192) && (octet a 1 =? 168)))
    (fun a => Z.land (octet a 0) 254 =? 252).
Definition IsMulticast (b : list Z) : bool :=
  by_family b (fun a => Z.land (octet a 0) 240 =? 224) (fun a => octet a 0 =? 255).
Definition IsLinkLocalMulticast (b : list Z) : bool :=
  by_family b (fun a => (octet a 0 =? 224) && (octet a 1 =? 0) && (octet a 2 =? 0))
    (fun a => (octet a 0 =? 255) && (Z.land (octet a 1) 15 =? 2)).
Definition IsLinkLocalUnicast (b : list Z) : bool :=
  by_family b (fun a => (octet a 0 =? 169) && (octet a 1 =? 254))
    (fun a => (octet a 0 =? 254) && (Z.land (octet a 1) 192 =? 128)).

(** What [ip.String()] distinguishes: the text of an address determines its bytes
    up to the IPv4-mapped form, so these bytes serve as the key of the maps the
    code indexes by the text. *)
Definition ip_text (ip : IP) : list Z :=
  match To4 ip with
  | Some b => b
  | None => default [] ip
  end.
