(* ===== verification/DnsMsg.v ===== *)
(** The data of package [dnsmsg]: [message.go] (header, question, record and
    message types, [CloneRRs]) and [edns.go] (the OPT pseudo-record). *)

From S2P Require Import Prelude GoStrings GoNet.

Open Scope Z_scope.

(** ** Record types, classes and response codes *)

Definition TypeA : Z := 1.
Definition TypeNS : Z := 2.
Definition TypeCNAME : Z := 5.
Definition TypeSOA : Z := 6.
Definition TypePTR : Z := 12.
Definition TypeMX : Z := 15.
Definition TypeAAAA : Z := 28.
Definition TypeOPT : Z := 41.

Definition ClassIN : Z := 1.

Definition RCodeSuccess : Z := 0.
Definition RCodeFormatError : Z := 1.
Definition RCodeServerFailure : Z := 2.
Definition RCodeNameError : Z := 3.
Definition RCodeNotImplemented : Z := 4.
Definition RCodeRefused : Z := 5.

(** ** Messages *)

Record Header := MkHeader {
  h_ID : Z; h_QR : bool; h_Opcode : Z; h_AA : bool; h_TC : bool; h_RD : bool;
  h_RA : bool; h_AD : bool; h_CD : bool; h_RCode : Z;
  h_QDCount : Z; h_ANCount : Z; h_NSCount : Z; h_ARCount : Z }.

Record Question := MkQuestion { q_Name : gostring; q_Type : Z; q_Class : Z }.

Record SOA := MkSOA {
  soa_MName : gostring; soa_RName : gostring;
  soa_Serial : Z; soa_Refresh : Z; soa_Retry : Z; soa_Expire : Z; soa_Minimum : Z }.

(** The address fields are slices that the code compares with nil; [Raw] is only
    ever read for its bytes, so its nil and empty values are one. *)
Record RR := MkRR {
  rr_Name : gostring; rr_Type : Z; rr_Class : Z; rr_TTL : Z; rr_RDLength : Z;
  rr_A : IP; rr_AAAA : IP; rr_NS : gostring; rr_CNAME : gostring;
  rr_SOA : option SOA; rr_Raw : list Z }.

Record Message := MkMessage {
  m_Header : Header; m_Questions : list Question;
  m_Answers : list RR; m_Authorities : list RR; m_Additionals : list RR }.

#[global] Instance Header_eq_dec : EqDecision Header.
Proof. solve_decision. Defined.
#[global] Instance Question_eq_dec : EqDecision Question.
Proof. solve_decision. Defined.
#[global] Instance SOA_eq_dec : EqDecision SOA.
Proof. solve_decision. Defined.
#[global] Instance RR_eq_dec : EqDecision RR.
Proof. solve_decision. Defined.
#[global] Instance Message_eq_dec : EqDecision Message.
Proof. solve_decision. Defined.

(** The zero values of Go's struct types. *)
Definition zero_header : Header :=
  MkHeader 0 false 0 false false false false false false 0 0 0 0 0.
Definition zero_rr : RR := MkRR [] 0 0 0 0 None None [] [] None [].

(** A record with its owner, type, class and TTL set and no RDATA yet. *)
Definition rr_with (name : gostring) (typ class ttl rdlen : Z) : RR :=
  MkRR name typ class ttl rdlen None None [] [] None [].

Definition set_TTL (ttl : Z) (rr : RR) : RR :=
  MkRR (rr_Name rr) (rr_Type rr) (rr_Class rr) ttl (rr_RDLength rr) (rr_A rr) (rr_AAAA rr)
    (rr_NS rr) (rr_CNAME rr) (rr_SOA rr) (rr_Raw rr).

(** ** [CloneRRs]

    Values are immutable here, so the copy of a slice or of the SOA behind a
    pointer is the value itself. *)
Definition clone_bytes (b : list Z) : list Z := b.
Definition clone_soa (s : SOA) : SOA :=
  MkSOA (soa_MName s) (soa_RName s) (soa_Serial s) (soa_Refresh s) (soa_Retry s)
    (soa_Expire s) (soa_Minimum s).

Definition clone_rr (rr : RR) : RR :=
  MkRR (rr_Name rr) (rr_Type rr) (rr_Class rr) (rr_TTL rr) (rr_RDLength rr)
    (clone_bytes <$> rr_A rr) (clone_bytes <$> rr_AAAA rr) (rr_NS rr) (rr_CNAME rr)
    (clone_soa <$> rr_SOA rr) (clone_bytes (rr_Raw rr)).

Definition CloneRRs (rrs : list RR) : list RR := map clone_rr rrs.

Lemma clone_rr_id rr : clone_rr rr = rr.
Proof. destruct rr as [????? [] [] ?? [[]|] ?]; reflexivity. Qed.

Lemma CloneRRs_id rrs : CloneRRs rrs = rrs.
Proof.
  unfold CloneRRs. rewrite (map_ext _ id) by apply clone_rr_id. apply list_fmap_id.
Qed.

(** ** EDNS0: [edns.go] *)

Definition DefaultUDPSize : Z := 1232.
Definition ednsDOBit : Z := 32768.
Definition RCodeBadVers : Z := 16.
Definition RequestDNSSEC : bool := true.
Definition NoDNSSEC : bool := false.

Definition NewOPT (udpSize : Z) (do : bool) : RR :=
  let rr := rr_with [dot] TypeOPT udpSize 0 0 in
  if do then set_TTL ednsDOBit rr else rr.

Definition UDPSize (rr : RR) : Z := rr_Class rr.

Definition DO (rr : RR) : bool := negb (Z.land (rr_TTL rr) ednsDOBit =? 0).

(** The first OPT record of the additional section. *)
Definition OPT (m : Message) : option RR :=
  List.find (fun rr => rr_Type rr =? TypeOPT) (m_Additionals m).

Definition ExtendedRCode (m : Message) : Z :=
  let rcode := h_RCode (m_Header m) in
  match OPT m with
  | Some opt => u16 (Z.lor rcode (u16 (Z.shiftl (u16 (Z.shiftr (rr_TTL opt) 24)) 4)))
  | None => rcode
  end.
