(* ===== verification/Encoder.v ===== *)
(** The encoder of package [dnsmsg]: [encodeName] ([name.go]), the [encoder] type
    with its methods ([encode.go]), [Pack], [PackQuery] ([message.go]) and
    [PackQueryEDNS0] ([edns.go]). *)

From S2P Require Import Prelude GoStrings GoNet DnsMsg.

Open Scope Z_scope.

(** What went wrong in a codec function: one constructor per [fmt.Errorf] of
    [name.go], [encode.go], [decode.go] and [dnssec.go].  [EOutOfFuel] is no
    error of the code: it marks the recursion bound of the name decoder, which
    is proved never to be hit. *)
Inductive wire_error :=
  | EUnderrun | EPointerUnderrun | ETooManyJumps | EBadLabelByte | ELabelOverrun
  | ENameTooLong | EDotInLabel | EInvalidLabel | ENoIPv4 | ENoIPv6 | ENoSOA
  | EBadRDLength | ERDataMismatch | EShortRData | EOutOfFuel.

#[global] Instance wire_error_eq_dec : EqDecision wire_error.
Proof. solve_decision. Defined.

(** ** [name.go] *)

Definition maxNameLength : nat := 255.
Definition maxLabelLength : nat := 63.

Definition valid_label (label : gostring) : bool :=
  negb (bool_decide (length label = 0%nat)) && bool_decide (length label <= maxLabelLength)%nat.

(** One label in wire form: its length byte and its bytes. *)
Definition wire_label (label : gostring) : list Z := u8 (Z.of_nat (length label)) :: label.

Fixpoint encode_labels (labels : list gostring) : result wire_error (list Z) :=
  match labels with
  | [] => Ok [0]
  | label :: labels =>
    if valid_label label
    then rest ← encode_labels labels; Ok (wire_label label ++ rest)
    else Err EInvalidLabel
  end.

Definition encodeName (name : gostring) : result wire_error (list Z) :=
  if bool_decide (maxNameLength < length name)%nat then Err ENameTooLong
  else
    let name := trim_dot name in
    if bool_decide (name = []) then Ok [0] else encode_labels (Split dot name).

(** ** The encoder *)

Definition maxPointerOffset : Z := 16383.

Record encoder := MkEncoder { e_buf : list Z; e_names : gmap gostring nat }.

Definition newEncoder : encoder := MkEncoder [] ∅.

Definition encM (A : Type) : Type := stateR encoder wire_error A.

(** [e.buf = append(e.buf, bs...)]. *)
Definition append (bs : list Z) : encM unit :=
  modify (fun e => MkEncoder (e_buf e ++ bs) (e_names e)).

Definition writeUint16 (v : Z) : encM unit := append (be16 v).
Definition writeUint32 (v : Z) : encM unit := append (be32 v).

(** The first loop of [writeName]: the longest suffix of the name that [names]
    holds, with the labels in front of it. *)
Fixpoint find_suffix (names : gmap gostring nat) (labels : list gostring) :
    option (list gostring * nat) :=
  match labels with
  | [] => None
  | label :: labels' =>
    match names !! ToLower (Join dot labels) with
    | Some offset => Some ([], offset)
    | None =>
      match find_suffix names labels' with
      | Some (before, offset) => Some (label :: before, offset)
      | None => None
      end
    end
  end.

Definition writeLabel (label : gostring) : encM unit :=
  _ ← guard (valid_label label) EInvalidLabel;
  append (wire_label label).

(** [e.names[suffix] = len(e.buf)] unless the suffix is already known or the
    offset does not fit in a pointer. *)
Definition register (suffix : gostring) : encM unit :=
  modify (fun e =>
    if bool_decide (e_names e !! suffix = None) && (Z.of_nat (length (e_buf e)) <=? maxPointerOffset)
    then MkEncoder (e_buf e) (<[suffix := length (e_buf e)]> (e_names e))
    else e).

(** The second loop of [writeName]: the whole name, every suffix registered. *)
Fixpoint write_labels (labels : list gostring) : encM unit :=
  match labels with
  | [] => mret tt
  | label :: labels' =>
    _ ← guard (valid_label label) EInvalidLabel;
    _ ← register (ToLower (Join dot labels));
    _ ← append (wire_label label);
    write_labels labels'
  end.

Definition pointer_bytes (offset : nat) : list Z :=
  [u8 (Z.lor 192 (Z.shiftr (Z.of_nat offset) 8)); u8 (Z.of_nat offset)].

Definition writeName (name : gostring) : encM unit :=
  let name := trim_dot name in
  _ ← guard (bool_decide (length name <= maxNameLength)%nat) ENameTooLong;
  let labels := if bool_decide (name = []) then [] else Split dot name in
  e ← get;
  match find_suffix (e_names e) labels with
  | Some (before, offset) =>
    _ ← iterM writeLabel before;
    append (pointer_bytes offset)
  | None =>
    _ ← write_labels labels;
    append [0]
  end.

(** [binary.BigEndian.PutUint16(e.buf[off:off+2], v)]. *)
Definition put16 (off : nat) (v : Z) (buf : list Z) : list Z :=
  <[S off := u8 v]> (<[off := u8 (Z.shiftr v 8)]> buf).

(** The switch on the record type of [writeRR]. *)
Definition writeRData (rr : RR) : encM unit :=
  if rr_Type rr =? TypeA then
    match To4 (rr_A rr) with
    | Some ip => append ip
    | None => fail ENoIPv4
    end
  else if rr_Type rr =? TypeAAAA then
    match To16 (rr_AAAA rr) with
    | Some ip => append ip
    | None => fail ENoIPv6
    end
  else if rr_Type rr =? TypeNS then writeName (rr_NS rr)
  else if rr_Type rr =? TypeCNAME then writeName (rr_CNAME rr)
  else if rr_Type rr =? TypeSOA then
    match rr_SOA rr with
    | None => fail ENoSOA
    | Some soa =>
      _ ← writeName (soa_MName soa);
      _ ← writeName (soa_RName soa);
      _ ← writeUint32 (soa_Serial soa);
      _ ← writeUint32 (soa_Refresh soa);
      _ ← writeUint32 (soa_Retry soa);
      _ ← writeUint32 (soa_Expire soa);
      writeUint32 (soa_Minimum soa)
    end
  else append (rr_Raw rr).

Definition writeRR (rr : RR) : encM unit :=
  _ ← writeName (rr_Name rr);
  _ ← writeUint16 (rr_Type rr);
  _ ← writeUint16 (rr_Class rr);
  _ ← writeUint32 (rr_TTL rr);
  e ← get;
  let rdlenOffset := length (e_buf e) in
  _ ← writeUint16 0;
  e ← get;
  let rdataStart := length (e_buf e) in
  _ ← writeRData rr;
  e ← get;
  let rdlen := (length (e_buf e) - rdataStart)%nat in
  modify (fun e => MkEncoder (put16 rdlenOffset (u16 (Z.of_nat rdlen)) (e_buf e)) (e_names e)).

Definition writeQuestion (q : Question) : encM unit :=
  _ ← writeName (q_Name q);
  _ ← writeUint16 (q_Type q);
  writeUint16 (q_Class q).

(** ** [Pack] *)

Definition flag (b : bool) (bit : Z) : Z := if b then bit else 0.

Definition flags1 (h : Header) : Z :=
  Z.lor (Z.lor (Z.lor (Z.lor (flag (h_QR h) 128) (u8 (Z.shiftl (Z.land (h_Opcode h) 15) 3)))
    (flag (h_AA h) 4)) (flag (h_TC h) 2)) (flag (h_RD h) 1).
Definition flags2 (h : Header) : Z :=
  Z.lor (Z.lor (Z.lor (flag (h_RA h) 128) (flag (h_AD h) 32)) (flag (h_CD h) 16))
    (Z.land (h_RCode h) 15).

Definition count16 {A} (l : list A) : Z := u16 (Z.of_nat (length l)).

Definition header_bytes (m : Message) : list Z :=
  be16 (h_ID (m_Header m)) ++ [flags1 (m_Header m); flags2 (m_Header m)] ++
  be16 (count16 (m_Questions m)) ++ be16 (count16 (m_Answers m)) ++
  be16 (count16 (m_Authorities m)) ++ be16 (count16 (m_Additionals m)).

Definition pack_body (m : Message) : encM unit :=
  _ ← append (header_bytes m);
  _ ← iterM writeQuestion (m_Questions m);
  _ ← iterM writeRR (m_Answers m);
  _ ← iterM writeRR (m_Authorities m);
  iterM writeRR (m_Additionals m).

Definition Pack (m : Message) : result wire_error (list Z) :=
  match pack_body m newEncoder with
  | Ok (_, e) => Ok (e_buf e)
  | Err err => Err err
  end.

Definition PackQuery (id : Z) (name : gostring) (qtype : Z) : result wire_error (list Z) :=
  encodedName ← encodeName name;
  Ok (be16 id ++ [0; 0] ++ be16 1 ++ [0; 0; 0; 0; 0; 0] ++ encodedName ++ be16 qtype ++ be16 ClassIN).

Definition PackQueryEDNS0 (id : Z) (name : gostring) (qtype udpSize : Z) (do : bool) :
    result wire_error (list Z) :=
  Pack (MkMessage
    (MkHeader id false 0 false false false false false false 0 0 0 0 0)
    [MkQuestion name qtype ClassIN] [] [] [NewOPT udpSize do]).
