(* ===== verification/Decoder.v ===== *)
(** The decoder of package [dnsmsg]: the [decoder] type with its methods
    ([decode.go]) and [Unpack] ([message.go]). *)

From S2P Require Import Prelude GoStrings GoNet DnsMsg Encoder.

Open Scope Z_scope.

Definition maxCompressionPointerJumps : nat := 20.

Record decoder := MkDecoder { d_buf : list Z; d_off : nat }.

Definition decM (A : Type) : Type := stateR decoder wire_error A.

Definition seek (off : nat) : decM unit := modify (fun d => MkDecoder (d_buf d) off).

(** A read past the end of the buffer is an error, never a fault: [b ← at_ buf i]
    is [buf[i]], reported as [EUnderrun] when out of range (every use in the
    code is behind a bounds check). *)
Definition readUint8 : decM Z := fun d =>
  match d_buf d !! d_off d with
  | Some v => Ok (v, MkDecoder (d_buf d) (d_off d + 1))
  | None => Err EUnderrun
  end.

Definition readBytes (n : nat) : decM (list Z) := fun d =>
  if bool_decide (length (d_buf d) < d_off d + n)%nat then Err EUnderrun
  else Ok (take n (drop (d_off d) (d_buf d)), MkDecoder (d_buf d) (d_off d + n)).

Definition readUint16 : decM Z :=
  bs ← readBytes 2;
  match bs with
  | [b0; b1] => mret (from_be16 b0 b1)
  | _ => fail EUnderrun
  end.

Definition readUint32 : decM Z :=
  bs ← readBytes 4;
  match bs with
  | [b0; b1; b2; b3] => mret (from_be32 b0 b1 b2 b3)
  | _ => fail EUnderrun
  end.

(** ** Names *)

(** The loop of [readName].  [ret] is the new [d.off], set by the first pointer
    followed ([jumped]); [labels] are the labels read so far, in reverse. *)
Fixpoint readName_loop (fuel : nat) (buf : list Z) (pos : nat) (ret : option nat)
    (jumps nameLen : nat) (labels : list gostring) : result wire_error (list gostring * nat) :=
  match fuel with
  | O => Err EOutOfFuel
  | S fuel =>
    match buf !! pos with
    | None => Err EUnderrun
    | Some len =>
      if len =? 0 then Ok (reverse labels, default (pos + 1)%nat ret)
      else if Z.land len 192 =? 192 then
        match buf !! (pos + 1)%nat with
        | None => Err EPointerUnderrun
        | Some low =>
          let ptr := Z.to_nat (Z.land (from_be16 len low) 16383) in
          let ret := match ret with Some r => Some r | None => Some (pos + 2)%nat end in
          if bool_decide (maxCompressionPointerJumps < jumps + 1)%nat then Err ETooManyJumps
          else readName_loop fuel buf ptr ret (jumps + 1) nameLen labels
        end
      else if negb (Z.land len 192 =? 0) then Err EBadLabelByte
      else
        let length_ := Z.to_nat len in
        let pos := (pos + 1)%nat in
        if bool_decide (length buf < pos + length_)%nat then Err ELabelOverrun
        else
          let nameLen := (nameLen + (length_ + 1))%nat in
          if bool_decide (maxNameLength < nameLen)%nat then Err ENameTooLong
          else
            let label := take length_ (drop pos buf) in
            if Contains label dot then Err EDotInLabel
            else readName_loop fuel buf (pos + length_) ret jumps nameLen (label :: labels)
    end
  end.

(** Every round either follows a pointer (at most 20 of them) or adds at least
    two to the length of the name (at most 255). *)
Definition readName_fuel : nat := 160.

Definition join_name (labels : list gostring) : gostring :=
  if bool_decide (labels = []) then [dot] else Join dot labels.

Definition readName : decM gostring := fun d =>
  match readName_loop readName_fuel (d_buf d) (d_off d) None 0 0 [] with
  | Ok (labels, off) => Ok (join_name labels, MkDecoder (d_buf d) off)
  | Err e => Err e
  end.

(** Conversion should unfold the monad before the 160 rounds of the loop. *)
#[global] Strategy 1000 [readName_loop readName].

(** ** Header, questions and records *)

Definition has_bit (flags bit : Z) : bool := negb (Z.land flags bit =? 0).

Definition readHeader : decM Header :=
  id ← readUint16;
  flags1 ← readUint8;
  flags2 ← readUint8;
  qd ← readUint16;
  an ← readUint16;
  ns ← readUint16;
  ar ← readUint16;
  mret (MkHeader id (has_bit flags1 128) (Z.land (Z.shiftr flags1 3) 15)
    (has_bit flags1 4) (has_bit flags1 2) (has_bit flags1 1)
    (has_bit flags2 128) (has_bit flags2 32) (has_bit flags2 16) (Z.land flags2 15)
    qd an ns ar).

Definition readQuestion : decM Question :=
  name ← readName;
  typ ← readUint16;
  class ← readUint16;
  mret (MkQuestion name typ class).

Definition readSOA : decM SOA :=
  mname ← readName;
  rname ← readName;
  serial ← readUint32;
  refresh ← readUint32;
  retry ← readUint32;
  expire ← readUint32;
  minimum ← readUint32;
  mret (MkSOA mname rname serial refresh retry expire minimum).

Definition lift_enc {A} (r : result wire_error A) : decM A :=
  match r with Ok a => mret a | Err e => fail e end.

(** The switch on the record type of [readRR]; [rr] has its header fields set. *)
Definition readRData (rr : RR) : decM RR :=
  let with_fields a aaaa ns cname soa raw :=
    MkRR (rr_Name rr) (rr_Type rr) (rr_Class rr) (rr_TTL rr) (rr_RDLength rr)
      a aaaa ns cname soa raw in
  if rr_Type rr =? TypeA then
    if negb (rr_RDLength rr =? 4) then fail EBadRDLength
    else b ← readBytes 4; mret (with_fields (Some b) None [] [] None [])
  else if rr_Type rr =? TypeAAAA then
    if negb (rr_RDLength rr =? 16) then fail EBadRDLength
    else b ← readBytes 16; mret (with_fields None (Some b) [] [] None [])
  else if rr_Type rr =? TypeNS then
    n ← readName; mret (with_fields None None n [] None [])
  else if rr_Type rr =? TypeCNAME then
    n ← readName; mret (with_fields None None [] n None [])
  else if rr_Type rr =? TypeSOA then
    soa ← readSOA; mret (with_fields None None [] [] (Some soa) [])
  else if (rr_Type rr =? TypePTR) || (rr_Type rr =? TypeMX) then
    prefix ← (if rr_Type rr =? TypeMX then pref ← readUint16; mret (be16 pref) else mret []);
    n ← readName;
    encoded ← lift_enc (encodeName n);
    mret (with_fields None None [] [] None (prefix ++ encoded))
  else
    b ← readBytes (Z.to_nat (rr_RDLength rr));
    mret (with_fields None None [] [] None b).

Definition readRR : decM RR :=
  name ← readName;
  typ ← readUint16;
  class ← readUint16;
  ttl ← readUint32;
  rdlen ← readUint16;
  d ← get;
  let rdataStart := d_off d in
  rr ← readRData (rr_with name typ class ttl rdlen);
  d ← get;
  if bool_decide (d_off d = rdataStart + Z.to_nat rdlen)%nat then mret rr
  else fail ERDataMismatch.

Definition readRRs (count : Z) : decM (list RR) := repeatM (Z.to_nat count) readRR.

(** ** [Unpack] *)

Definition unpack_body : decM Message :=
  hdr ← readHeader;
  questions ← repeatM (Z.to_nat (h_QDCount hdr)) readQuestion;
  answers ← readRRs (h_ANCount hdr);
  authorities ← readRRs (h_NSCount hdr);
  additionals ← readRRs (h_ARCount hdr);
  mret (MkMessage hdr questions answers authorities additionals).

Definition Unpack (buf : list Z) : result wire_error Message :=
  match unpack_body (MkDecoder buf 0) with
  | Ok (m, _) => Ok m
  | Err e => Err e
  end.
