(* ===== verification/WireSpec.v ===== *)
(** What the wire codec promises: which messages it can carry, what "the same
    message" means after compression, and a small calculus for proving that a
    writer of the encoder is undone by a reader of the decoder. *)

From S2P Require Import Prelude GoStrings GoNet DnsMsg Encoder Decoder.

Open Scope Z_scope.

(** ** Messages the codec can carry *)

(** A name the encoder and the decoder agree on: ASCII, every label between 1
    and 63 bytes, and at most 254 bytes without the trailing dot, so that the
    decoder's count (one byte per label more) stays within 255. *)
Definition name_ok (name : gostring) : bool :=
  let t := trim_dot name in
  is_ascii name && bool_decide (length t < maxNameLength)%nat &&
  (bool_decide (t = []) || forallb valid_label (Split dot t)).

(** RDATA holding one uncompressed name, as the decoder stores PTR and MX. *)
Definition raw_name (raw : list Z) : Prop :=
  exists n, (length (trim_dot n) < maxNameLength)%nat /\ encodeName n = Ok raw.

Definition soa_ok (s : SOA) : Prop :=
  name_ok (soa_MName s) = true /\ name_ok (soa_RName s) = true /\
  is_u32 (soa_Serial s) /\ is_u32 (soa_Refresh s) /\ is_u32 (soa_Retry s) /\
  is_u32 (soa_Expire s) /\ is_u32 (soa_Minimum s).

Definition rdata_ok (rr : RR) : Prop :=
  if rr_Type rr =? TypeA then To4 (rr_A rr) <> None
  else if rr_Type rr =? TypeAAAA then To16 (rr_AAAA rr) <> None
  else if rr_Type rr =? TypeNS then name_ok (rr_NS rr) = true
  else if rr_Type rr =? TypeCNAME then name_ok (rr_CNAME rr) = true
  else if rr_Type rr =? TypeSOA then exists s, rr_SOA rr = Some s /\ soa_ok s
  else if rr_Type rr =? TypePTR then raw_name (rr_Raw rr)
  else if rr_Type rr =? TypeMX then
    exists p raw, is_u16 p /\ rr_Raw rr = be16 p ++ raw /\ raw_name raw
  else Z.of_nat (length (rr_Raw rr)) < 65536.

Definition rr_ok (rr : RR) : Prop :=
  name_ok (rr_Name rr) = true /\ is_u16 (rr_Type rr) /\ is_u16 (rr_Class rr) /\
  is_u32 (rr_TTL rr) /\ rdata_ok rr.

Definition question_ok (q : Question) : Prop :=
  name_ok (q_Name q) = true /\ is_u16 (q_Type q) /\ is_u16 (q_Class q).

Definition header_ok (h : Header) : Prop :=
  is_u16 (h_ID h) /\ 0 <= h_Opcode h < 16 /\ 0 <= h_RCode h < 16.

Definition section_ok {A} (P : A -> Prop) (l : list A) : Prop :=
  Z.of_nat (length l) < 65536 /\ Forall P l.

Definition message_ok (m : Message) : Prop :=
  header_ok (m_Header m) /\ section_ok question_ok (m_Questions m) /\
  section_ok rr_ok (m_Answers m) /\ section_ok rr_ok (m_Authorities m) /\
  section_ok rr_ok (m_Additionals m).

(** ** The same message

    Compression points a name at an earlier occurrence of its suffix, found
    without regard to case, so a name comes back equal up to case and a trailing
    dot.  Header counts come from the sections. *)
Definition name_sim (a b : gostring) : Prop := ToLower (trim_dot a) = ToLower (trim_dot b).

#[global] Instance name_sim_equiv : Equivalence name_sim.
Proof. unfold name_sim. split; congruence. Qed.

Definition soa_sim (s s' : SOA) : Prop :=
  name_sim (soa_MName s) (soa_MName s') /\ name_sim (soa_RName s) (soa_RName s') /\
  soa_Serial s' = soa_Serial s /\ soa_Refresh s' = soa_Refresh s /\
  soa_Retry s' = soa_Retry s /\ soa_Expire s' = soa_Expire s /\ soa_Minimum s' = soa_Minimum s.

Definition rdata_sim (rr rr' : RR) : Prop :=
  if rr_Type rr =? TypeA then rr_A rr' = To4 (rr_A rr)
  else if rr_Type rr =? TypeAAAA then rr_AAAA rr' = To16 (rr_AAAA rr)
  else if rr_Type rr =? TypeNS then name_sim (rr_NS rr) (rr_NS rr')
  else if rr_Type rr =? TypeCNAME then name_sim (rr_CNAME rr) (rr_CNAME rr')
  else if rr_Type rr =? TypeSOA then
    exists s s', rr_SOA rr = Some s /\ rr_SOA rr' = Some s' /\ soa_sim s s'
  else rr_Raw rr' = rr_Raw rr.

Definition rr_sim (rr rr' : RR) : Prop :=
  name_sim (rr_Name rr) (rr_Name rr') /\ rr_Type rr' = rr_Type rr /\
  rr_Class rr' = rr_Class rr /\ rr_TTL rr' = rr_TTL rr /\ rdata_sim rr rr'.

Definition question_sim (q q' : Question) : Prop :=
  name_sim (q_Name q) (q_Name q') /\ q_Type q' = q_Type q /\ q_Class q' = q_Class q.

(** The header with the counts of the sections. *)
Definition counted_header (m : Message) : Header :=
  let h := m_Header m in
  MkHeader (h_ID h) (h_QR h) (h_Opcode h) (h_AA h) (h_TC h) (h_RD h) (h_RA h) (h_AD h) (h_CD h)
    (h_RCode h) (Z.of_nat (length (m_Questions m))) (Z.of_nat (length (m_Answers m)))
    (Z.of_nat (length (m_Authorities m))) (Z.of_nat (length (m_Additionals m))).

Definition message_sim (m m' : Message) : Prop :=
  m_Header m' = counted_header m /\ Forall2 question_sim (m_Questions m) (m_Questions m') /\
  Forall2 rr_sim (m_Answers m) (m_Answers m') /\
  Forall2 rr_sim (m_Authorities m) (m_Authorities m') /\
  Forall2 rr_sim (m_Additionals m) (m_Additionals m').

(** ** Segments of a buffer *)

(** [bs] stands in [full] at offset [off]. *)
Definition seg (full : list Z) (off : nat) (bs : list Z) : Prop :=
  (off + length bs <= length full)%nat /\
  forall i x, bs !! i = Some x -> full !! (off + i)%nat = Some x.

Lemma seg_app full off a b :
  seg full off (a ++ b) <-> seg full off a /\ seg full (off + length a) b.
Proof.
  unfold seg. rewrite length_app. split.
  - intros [Hl H]. split; (split; [lia|]); intros i x Hi.
    + apply H. by apply lookup_app_l_Some.
    + rewrite <-Nat.add_assoc. apply H. rewrite lookup_app_r by lia.
      by replace (length a + i - length a)%nat with i by lia.
  - intros [[_ Ha] [Hl Hb]]. split; [lia|]. intros i x Hi.
    apply lookup_app_Some in Hi as [Hi|[Hge Hi]]; [by apply Ha|].
    specialize (Hb _ _ Hi). by replace (off + i)%nat with (off + length a + (i - length a))%nat by lia.
Qed.

Lemma seg_cons full off x bs :
  seg full off (x :: bs) <-> full !! off = Some x /\ seg full (S off) bs.
Proof.
  change (x :: bs) with ([x] ++ bs). rewrite seg_app. simpl.
  replace (off + 1)%nat with (S off) by lia. unfold seg. split; intros [H1 H2]; split; try done.
  - destruct H1 as [_ H1]. specialize (H1 0%nat x eq_refl). by rewrite Nat.add_0_r in H1.
  - split; [simpl; lia|]. intros [|i] y Hy; simplify_eq/=. by rewrite Nat.add_0_r.
Qed.

Lemma seg_take full off bs : seg full off bs -> take (length bs) (drop off full) = bs.
Proof.
  intros [_ H]. apply list_eq. intros i. destruct (bs !! i) as [x|] eqn:E.
  - rewrite lookup_take_lt, lookup_drop by (by eapply lookup_lt_Some). by apply H.
  - apply lookup_ge_None in E. by rewrite lookup_take_ge.
Qed.

Lemma seg_grow full more off bs : seg full off bs -> seg (full ++ more) off bs.
Proof.
  intros [Hl H]. split; [rewrite length_app; lia|]. intros i x Hi. by apply lookup_app_l_Some, H.
Qed.

Lemma seg_here pre bs post : seg (pre ++ bs ++ post) (length pre) bs.
Proof.
  split; [rewrite !length_app; lia|]. intros i x Hi. rewrite lookup_app_r by lia.
  replace (length pre + i - length pre)%nat with i by lia. by apply lookup_app_l_Some.
Qed.

(** Segments behind a patched field are untouched. *)
Lemma seg_patch pre a b post off bs :
  length a = length b -> (length pre + length a <= off)%nat ->
  seg (pre ++ a ++ post) off bs -> seg (pre ++ b ++ post) off bs.
Proof.
  intros Hl Hoff [Hlen H]. split; [rewrite !length_app in *; lia|].
  intros i x Hi. specialize (H i x Hi).
  rewrite !app_assoc in H |- *.
  rewrite lookup_app_r in H |- * by (rewrite length_app; lia).
  by rewrite !length_app, <-Hl in *.
Qed.

Lemma put16_app pre x y post v :
  put16 (length pre) v (pre ++ [x; y] ++ post) = pre ++ be16 v ++ post.
Proof.
  unfold put16. replace (length pre) with (length pre + 0)%nat at 2 by lia.
  rewrite insert_app_r. replace (S (length pre)) with (length pre + 1)%nat by lia.
  by rewrite insert_app_r.
Qed.
