(* ===== verification/WireCalculus.v ===== *)
(** The calculus behind the round trip: [emits n w r P] says that whatever the
    writer [w] of the encoder appends - at most [n] bytes - the reader [r] of the
    decoder consumes exactly, with a result satisfying [P] - in every later state of the buffer,
    since records written afterwards only append to it or fill in a length field.

    Compression makes the meaning of a pointer depend on earlier bytes, so the
    calculus carries the invariant [names_ok] of the encoder's table of names. *)

From S2P Require Import Prelude GoStrings GoNet DnsMsg Encoder Decoder WireSpec.

Open Scope Z_scope.

Definition wire_labels (ls : list gostring) : list Z := concat (map wire_label ls).

Lemma length_wire_labels ls : length (wire_labels ls) = wire_len ls.
Proof.
  unfold wire_labels, wire_len. induction ls as [|l ls IH]; simpl; [done|].
  rewrite length_app. lia.
Qed.

(** Labels of a name the codec accepts: valid, free of dots, short enough. *)
Definition labels_ok (ls : list gostring) : Prop :=
  Forall (fun l => valid_label l = true) ls /\ Forall (no_sep dot) ls /\
  (wire_len ls <= maxNameLength)%nat /\ is_ascii (Join dot ls) = true.

(** Every name of the table is spelled out, without pointers, at its offset. *)
Definition names_ok (full : list Z) (names : gmap gostring nat) : Prop :=
  forall k off, names !! k = Some off ->
    Z.of_nat off <= maxPointerOffset /\
    exists ls, ls <> [] /\ labels_ok ls /\ k = ToLower (Join dot ls) /\
      seg full off (wire_labels ls ++ [0]).

Lemma names_ok_mono full n n' : names_ok full n' -> n ⊆ n' -> names_ok full n.
Proof. intros H Hs k off Hk. apply H. by eapply lookup_weaken. Qed.

Lemma names_ok_grow full more n : names_ok full n -> names_ok (full ++ more) n.
Proof.
  intros H k off Hk. destruct (H k off Hk) as (Ho & ls & ? & ? & ? & ?).
  split; [done|]. exists ls. split_and!; try done. by apply seg_grow.
Qed.

(** New entries of the table lie behind [off]. *)
Definition fresh_from (off : nat) (n n' : gmap gostring nat) : Prop :=
  forall k o, n' !! k = Some o -> n !! k = Some o \/ (off <= o)%nat.

(** [w] takes [e] to [e'] appending [bs] and keeping the table sound. *)
Definition writes (w : encM unit) (e e' : encoder) (bs : list Z) : Prop :=
  w e = Ok (tt, e') /\ e_buf e' = e_buf e ++ bs /\ e_names e ⊆ e_names e' /\
  fresh_from (length (e_buf e)) (e_names e) (e_names e') /\ names_ok (e_buf e') (e_names e').

(** [r] reads [bs] back wherever it stands, given the table's names. *)
Definition reads {A} (full : list Z) (off : nat) (bs : list Z) (r : decM A) (P : A -> Prop) : Prop :=
  seg full off bs ->
  exists a, r (MkDecoder full off) = Ok (a, MkDecoder full (off + length bs)) /\ P a.

Definition emits {A} (n : Z) (w : encM unit) (r : decM A) (P : A -> Prop) : Prop :=
  forall e, names_ok (e_buf e) (e_names e) ->
    exists e' bs, writes w e e' bs /\ Z.of_nat (length bs) <= n /\
      forall full, names_ok full (e_names e') -> reads full (length (e_buf e)) bs r P.

(** ** Rules *)

Lemma writes_det w e e1 bs1 e2 bs2 :
  writes w e e1 bs1 -> writes w e e2 bs2 -> e1 = e2 /\ bs1 = bs2.
Proof.
  intros (H1 & Hb1 & _) (H2 & Hb2 & _). rewrite H1 in H2. injection H2 as <-.
  split; [done|]. rewrite Hb1 in Hb2. by apply app_inv_head in Hb2.
Qed.

Lemma fresh_from_trans a b n1 n2 n3 :
  fresh_from a n1 n2 -> fresh_from b n2 n3 -> (a <= b)%nat -> fresh_from a n1 n3.
Proof.
  intros H1 H2 Hab k o Ho. destruct (H2 k o Ho) as [H|H]; [by apply H1 | right; lia].
Qed.

Lemma writes_bind w1 w2 e1 e2 e3 bs1 bs2 :
  writes w1 e1 e2 bs1 -> writes w2 e2 e3 bs2 -> writes (_ ← w1; w2) e1 e3 (bs1 ++ bs2).
Proof.
  intros (H1 & Hb1 & Hs1 & Hf1 & _) (H2 & Hb2 & Hs2 & Hf2 & Hok).
  split; [|split; [|split; [|split]]]; try done.
  - unfold mbind, stateR_bind. by rewrite H1.
  - by rewrite Hb2, Hb1, app_assoc.
  - by etrans.
  - eapply fresh_from_trans; [done..|]. rewrite Hb1, length_app. lia.
Qed.

(** What has just been written can be read back from the buffer itself. *)
Lemma emits_inhabited {A} n w (r : decM A) P e :
  emits n w r P -> names_ok (e_buf e) (e_names e) -> exists a, P a.
Proof.
  intros H He. destruct (H e He) as (e' & bs & (_ & Hb & _ & _ & Hok) & _ & Hr).
  destruct (Hr _ Hok) as (a & _ & Ha); [|by exists a].
  rewrite Hb. rewrite <-(app_nil_r (e_buf e ++ bs)), <-app_assoc. apply seg_here.
Qed.

Lemma emits_bind {A B} n1 n2 n w1 w2 (r1 : decM A) (r2 : A -> decM B) P Q :
  n1 + n2 <= n -> emits n1 w1 r1 P -> (forall a, P a -> emits n2 w2 (r2 a) Q) ->
  emits n (_ ← w1; w2) (a ← r1; r2 a) Q.
Proof.
  intros Hn H1 H2 e He. destruct (H1 e He) as (e1 & bs1 & W1 & L1 & R1).
  pose proof W1 as (_ & Hb1 & _ & _ & Hok1).
  destruct (emits_inhabited _ _ _ _ _ H1 He) as [a0 Ha0].
  destruct (H2 a0 Ha0 e1 Hok1) as (e2 & bs2 & W2 & L2 & _).
  exists e2, (bs1 ++ bs2). split; [by eapply writes_bind|].
  split; [rewrite length_app; lia|].
  intros full Hfull Hseg. apply seg_app in Hseg as [Hseg1 Hseg2].
  pose proof W2 as (_ & _ & Hsub & _).
  destruct (R1 full (names_ok_mono _ _ _ Hfull Hsub) Hseg1) as (a & Ha & HP).
  destruct (H2 a HP e1 Hok1) as (e2' & bs2' & W2' & _ & R2).
  destruct (writes_det _ _ _ _ _ _ W2 W2') as [<- <-].
  rewrite Hb1, length_app in R2.
  destruct (R2 full Hfull Hseg2) as (b & Hb & HQ).
  exists b. split; [|done]. unfold mbind, stateR_bind. rewrite Ha.
  by rewrite length_app, Nat.add_assoc.
Qed.

Lemma emits_mono {A} n n' w (r : decM A) (P Q : A -> Prop) :
  emits n w r P -> n <= n' -> (forall a, P a -> Q a) -> emits n' w r Q.
Proof.
  intros H Hn HPQ e He. destruct (H e He) as (e' & bs & W & L & R).
  exists e', bs. split; [done|]. split; [lia|]. intros full Hf Hs.
  destruct (R full Hf Hs) as (a & ? & ?). eauto.
Qed.

Lemma emits_weaken {A} n n' w (r : decM A) P : emits n w r P -> n <= n' -> emits n' w r P.
Proof. intros H Hn. by eapply emits_mono. Qed.

(** A pure step at the end of a reader. *)
Lemma emits_ret {A B} n w (r : decM A) (f : A -> B) (P : A -> Prop) (Q : B -> Prop) :
  emits n w r P -> (forall a, P a -> Q (f a)) -> emits n w (a ← r; mret (f a)) Q.
Proof.
  intros H HPQ e He. destruct (H e He) as (e' & bs & W & L & R).
  exists e', bs. split; [done|]. split; [done|]. intros full Hf Hs.
  destruct (R full Hf Hs) as (a & Ha & HP). exists (f a).
  split; [|auto]. unfold mbind, stateR_bind. by rewrite Ha.
Qed.

Lemma emits_nil {A} (a : A) (P : A -> Prop) : P a -> emits 0 (mret tt) (mret a) P.
Proof.
  intros HP e He. exists e, []. split; [|split; [done|]].
  - unfold writes. rewrite app_nil_r. split_and!; try done. intros k o; auto.
  - intros full _ _. exists a. rewrite Nat.add_0_r. done.
Qed.

(** Bytes that mean the same wherever they stand. *)
Lemma emits_append {A} n bs (r : decM A) (P : A -> Prop) :
  Z.of_nat (length bs) <= n -> (forall full off, reads full off bs r P) ->
  emits n (append bs) r P.
Proof.
  intros Hn H e He. exists (MkEncoder (e_buf e ++ bs) (e_names e)), bs.
  split; [|split; [done|intros full _; apply H]].
  unfold writes. split_and!; try done; [intros k o; auto|]. by apply names_ok_grow.
Qed.

Lemma emits_iterM {A B} n (w : A -> encM unit) (r : decM B) (P : A -> B -> Prop) l :
  (forall x, x ∈ l -> emits n (w x) r (P x)) ->
  emits (n * Z.of_nat (length l)) (iterM w l) (repeatM (length l) r) (Forall2 P l).
Proof.
  induction l as [|x l IH]; intros H.
  - eapply emits_mono; [by apply (emits_nil [] (Forall2 P []))|simpl; lia|done].
  - cbn [length iterM repeatM]. eapply emits_bind; [|apply H; set_solver|].
    2: { intros b Hb. eapply emits_ret; [apply IH; set_solver|]. by constructor. }
    lia.
Qed.

(** ** Fixed-width fields *)

Lemma readBytes_seg full off bs :
  seg full off bs ->
  readBytes (length bs) (MkDecoder full off) = Ok (bs, MkDecoder full (off + length bs)).
Proof.
  intros H. unfold readBytes. simpl. rewrite bool_decide_false by (destruct H; lia).
  by rewrite (seg_take _ _ _ H).
Qed.

Lemma reads_uint16 full off v : is_u16 v -> reads full off (be16 v) readUint16 (fun x => x = v).
Proof.
  intros Hv Hs. pose proof (readBytes_seg _ _ _ Hs) as E.
  exists (u16 v). split; [|by apply u16_small].
  unfold readUint16, mbind, stateR_bind.
  change (readBytes 2) with (readBytes (length (be16 v))). rewrite E. simpl.
  unfold mret, stateR_ret. by rewrite be16_roundtrip.
Qed.

Lemma reads_uint32 full off v : is_u32 v -> reads full off (be32 v) readUint32 (fun x => x = v).
Proof.
  intros Hv Hs. pose proof (readBytes_seg _ _ _ Hs) as E.
  exists (u32 v). split; [|by apply u32_small].
  unfold readUint32, mbind, stateR_bind.
  change (readBytes 4) with (readBytes (length (be32 v))). rewrite E. simpl.
  unfold mret, stateR_ret. by rewrite be32_roundtrip.
Qed.

Lemma reads_uint8 full off v : reads full off [v] readUint8 (fun x => x = v).
Proof.
  intros Hs. apply seg_cons in Hs as [Hv _]. exists v. split; [|done].
  unfold readUint8. simpl. by rewrite Hv.
Qed.

Lemma emits_uint16 v : is_u16 v -> emits 2 (writeUint16 v) readUint16 (fun x => x = v).
Proof. intros. apply emits_append; [done|]. intros. by apply reads_uint16. Qed.

Lemma emits_uint32 v : is_u32 v -> emits 4 (writeUint32 v) readUint32 (fun x => x = v).
Proof. intros. apply emits_append; [done|]. intros. by apply reads_uint32. Qed.

Lemma reads_bind {A B} full off bs1 bs2 (r1 : decM A) (r2 : A -> decM B) P Q :
  reads full off bs1 r1 P ->
  (forall a, P a -> reads full (off + length bs1) bs2 (r2 a) Q) ->
  reads full off (bs1 ++ bs2) (a ← r1; r2 a) Q.
Proof.
  intros H1 H2 Hs. apply seg_app in Hs as [Hs1 Hs2].
  destruct (H1 Hs1) as (a & Ha & HP). destruct (H2 a HP Hs2) as (b & Hb & HQ).
  exists b. split; [|done]. unfold mbind, stateR_bind. rewrite Ha, Hb.
  by rewrite length_app, Nat.add_assoc.
Qed.
