(* ===== verification/WireNames.v ===== *)
(** Names on the wire: [writeName] undone by [readName], compression included. *)

From S2P Require Import Prelude GoStrings GoNet DnsMsg Encoder Decoder WireSpec WireCalculus.

Open Scope Z_scope.

(** ** Length bytes and pointers *)

Lemma label_length l :
  valid_label l = true -> (0 < length l <= 63)%nat.
Proof. unfold valid_label, maxLabelLength. intros H. do 2 case_bool_decide; simpl in H; lia. Qed.

Lemma land_192_small z : 0 <= z < 64 -> Z.land z 192 = 0.
Proof.
  intros Hz. change 192 with (Z.shiftl 3 6). apply Z.bits_inj'. intros k Hk.
  rewrite Z.land_spec, Z.bits_0. destruct (Z.lt_ge_cases k 6).
  - by rewrite Z.shiftl_spec_low, andb_false_r by lia.
  - rewrite Z.bits_above_log2; [done|lia|].
    destruct (Z.eq_dec z 0) as [->|]; [simpl; lia|].
    apply Z.log2_lt_pow2; [lia|]. apply Z.lt_le_trans with (2 ^ 6); [lia|].
    apply Z.pow_le_mono_r; lia.
Qed.

Lemma pointer_byte off :
  Z.of_nat off <= maxPointerOffset ->
  u8 (Z.lor 192 (Z.shiftr (Z.of_nat off) 8)) = 192 + Z.of_nat off / 256.
Proof.
  unfold maxPointerOffset. intros Ho. rewrite Z.shiftr_div_pow2 by lia. change (2 ^ 8) with 256.
  assert (0 <= Z.of_nat off / 256 < 64) by zlia.
  change 192 with (Z.shiftl 3 6) at 1. rewrite lor_shiftl_add by lia.
  change (3 * 2 ^ 6) with 192. rewrite u8_small by (unfold is_u8; lia). done.
Qed.

Lemma land_192_pointer z : 0 <= z < 64 -> Z.land (192 + z) 192 = 192.
Proof.
  intros Hz. change 192 with (3 * 2 ^ 6) at 1. rewrite <-lor_shiftl_add by lia.
  change 192 with (Z.shiftl 3 6). rewrite Z.land_lor_distr_l, Z.land_diag.
  change (Z.shiftl 3 6) with 192. by rewrite land_192_small, Z.lor_0_r.
Qed.

Lemma pointer_value off :
  Z.of_nat off <= maxPointerOffset ->
  Z.to_nat (Z.land (from_be16 (192 + Z.of_nat off / 256) (u8 (Z.of_nat off))) 16383) = off.
Proof.
  unfold maxPointerOffset. intros Ho. rewrite from_be16_add by auto with widths.
  change 16383 with (Z.ones 14). rewrite Z.land_ones by lia. unfold u8. zlia.
Qed.

(** ** The decoding loop on encoded labels *)

Lemma loop_zero fuel buf pos ret jumps n acc :
  buf !! pos = Some 0 ->
  readName_loop (S fuel) buf pos ret jumps n acc = Ok (reverse acc, default (pos + 1)%nat ret).
Proof. intros H. simpl. by rewrite H. Qed.

Lemma Contains_false l c : no_sep c l -> Contains l c = false.
Proof.
  intros H. apply not_true_is_false. intros E. apply existsb_exists in E as (x & Hx & E).
  apply Z.eqb_eq in E as <-. by apply H, list_elem_of_In.
Qed.

Lemma Contains_no_sep l c : Contains l c = false -> no_sep c l.
Proof.
  intros H Hin. assert (Contains l c = true); [|congruence].
  apply existsb_exists. exists c. split; [by apply list_elem_of_In | apply Z.eqb_refl].
Qed.

Lemma loop_label fuel buf pos ret jumps n acc l :
  seg buf pos (wire_label l) -> valid_label l = true -> no_sep dot l ->
  (n + S (length l) <= maxNameLength)%nat ->
  readName_loop (S fuel) buf pos ret jumps n acc =
  readName_loop fuel buf (pos + S (length l)) ret jumps (n + S (length l)) (l :: acc).
Proof.
  intros Hs Hv%label_length Hd Hn. pose proof Hs as [Hlen _].
  apply seg_cons in Hs as [Hb Hs]. simpl in Hlen. simpl.
  rewrite Hb, u8_small by (unfold is_u8; lia).
  rewrite (proj2 (Z.eqb_neq _ _)) by lia.
  rewrite land_192_small by lia. simpl.
  rewrite Nat2Z.id, !bool_decide_false by lia.
  rewrite Nat.add_1_r, (seg_take _ _ _ Hs), Contains_false by done.
  f_equal; lia.
Qed.

Lemma loop_labels ls : forall fuel buf pos ret jumps n acc,
  seg buf pos (wire_labels ls) -> Forall (fun l => valid_label l = true) ls ->
  Forall (no_sep dot) ls -> (n + wire_len ls <= maxNameLength)%nat ->
  readName_loop (length ls + fuel) buf pos ret jumps n acc =
  readName_loop fuel buf (pos + wire_len ls) ret jumps (n + wire_len ls) (reverse ls ++ acc).
Proof.
  induction ls as [|l ls IH]; intros fuel buf pos ret jumps n acc Hs Hv Hd Hn.
  - simpl. f_equal; lia.
  - apply Forall_cons in Hv as [Hl Hv], Hd as [Hdl Hd].
    change (wire_labels (l :: ls)) with (wire_label l ++ wire_labels ls) in Hs.
    apply seg_app in Hs as [Hs1 Hs2].
    change (length (l :: ls) + fuel)%nat with (S (length ls + fuel)).
    change (wire_len (l :: ls)) with (S (length l) + wire_len ls)%nat in *.
    change (length (wire_label l)) with (S (length l)) in Hs2.
    rewrite (loop_label _ _ _ _ _ _ _ l) by (done || lia).
    rewrite IH by (done || lia).
    rewrite reverse_cons, <-app_assoc. f_equal; lia.
Qed.

Lemma loop_pointer fuel buf pos ret n acc off :
  seg buf pos (pointer_bytes off) -> Z.of_nat off <= maxPointerOffset ->
  readName_loop (S fuel) buf pos ret 0 n acc =
  readName_loop fuel buf off (Some (default (pos + 2)%nat ret)) 1 n acc.
Proof.
  intros Hs Ho. unfold pointer_bytes in Hs. rewrite pointer_byte in Hs by done.
  apply seg_cons in Hs as [H1 Hs]. apply seg_cons in Hs as [H2 _].
  assert (0 <= Z.of_nat off / 256 < 64) by (unfold maxPointerOffset in Ho; zlia).
  cbn [readName_loop]. rewrite H1.
  rewrite (proj2 (Z.eqb_neq _ _)) by lia.
  rewrite land_192_pointer, Z.eqb_refl by done.
  rewrite Nat.add_1_r, H2, pointer_value by done.
  rewrite bool_decide_false by (unfold maxCompressionPointerJumps; lia).
  by destruct ret.
Qed.

(** ** Labels of a well-formed name *)

Definition labels_of (name : gostring) : list gostring :=
  let t := trim_dot name in if bool_decide (t = []) then [] else Split dot t.

Lemma Join_labels_of name : Join dot (labels_of name) = trim_dot name.
Proof.
  unfold labels_of. case_bool_decide as H; [by rewrite H|]. apply Join_Split.
Qed.

Lemma is_ascii_trim name : is_ascii name = true -> is_ascii (trim_dot name) = true.
Proof.
  destruct (trim_dot_cases name) as [(t & -> & ->) | ->]; [|done].
  rewrite is_ascii_app. by intros [? _]%andb_true_iff.
Qed.

Lemma labels_of_valid name :
  (length (trim_dot name) < maxNameLength)%nat ->
  (bool_decide (trim_dot name = []) || forallb valid_label (Split dot (trim_dot name))) = true ->
  Forall (fun l => valid_label l = true) (labels_of name) /\
  Forall (no_sep dot) (labels_of name) /\ (wire_len (labels_of name) <= maxNameLength)%nat.
Proof.
  intros Hl Hv. pose proof (Join_labels_of name) as HJ. unfold labels_of in *.
  case_bool_decide; simpl in Hv.
  - repeat split; try constructor. unfold wire_len, maxNameLength. simpl. lia.
  - repeat split.
    + apply Forall_forall. intros l Hin. rewrite forallb_forall in Hv.
      by apply Hv, list_elem_of_In.
    + apply Split_no_sep.
    + rewrite <-(length_Join dot) by apply Split_not_nil. rewrite HJ. lia.
Qed.

Lemma name_ok_labels name : name_ok name = true -> labels_ok (labels_of name).
Proof.
  unfold name_ok. intros [[Ha Hl%bool_decide_eq_true]%andb_true_iff Hv]%andb_true_iff.
  destruct (labels_of_valid name Hl Hv) as (? & ? & ?). unfold labels_ok.
  rewrite Join_labels_of. repeat split; try done. by apply is_ascii_trim.
Qed.

Lemma wire_len_app a b : wire_len (a ++ b) = (wire_len a + wire_len b)%nat.
Proof. apply sum_list_with_app. Qed.

Lemma wire_labels_app a b : wire_labels (a ++ b) = wire_labels a ++ wire_labels b.
Proof. unfold wire_labels. by rewrite map_app, concat_app. Qed.

Lemma is_ascii_Join_suffix pre suf :
  suf <> [] -> is_ascii (Join dot (pre ++ suf)) = true -> is_ascii (Join dot suf) = true.
Proof.
  intros Hs. destruct (decide (pre = [])) as [->|Hp]; [done|].
  rewrite Join_app, is_ascii_app by done. simpl.
  by intros [_ H]%andb_true_iff.
Qed.

Lemma labels_ok_suffix pre suf : suf <> [] -> labels_ok (pre ++ suf) -> labels_ok suf.
Proof.
  intros Hs ([_ ?]%Forall_app & [_ ?]%Forall_app & Hl & Ha). rewrite wire_len_app in Hl.
  repeat split; try done; [lia|]. by eapply is_ascii_Join_suffix.
Qed.

Lemma labels_count ls :
  Forall (fun l => valid_label l = true) ls -> (2 * length ls <= wire_len ls)%nat.
Proof.
  unfold wire_len. induction 1 as [|l ls Hl _ IH]; simpl; [lia|].
  apply label_length in Hl. lia.
Qed.

(** ** What [writeName] appends *)

Lemma find_suffix_spec names ls before off :
  find_suffix names ls = Some (before, off) ->
  exists suf, suf <> [] /\ ls = before ++ suf /\ names !! ToLower (Join dot suf) = Some off.
Proof.
  revert before. induction ls as [|l ls IH]; intros before; [done|].
  cbn [find_suffix]. destruct (names !! _) eqn:E.
  - intros [= <- <-]. by exists (l :: ls).
  - destruct (find_suffix names ls) as [[b o]|]; [|done]. intros [= <- <-].
    destruct (IH b eq_refl) as (suf & ? & -> & ?). by exists suf.
Qed.

Lemma writeLabels_spec ls e :
  Forall (fun l => valid_label l = true) ls ->
  iterM writeLabel ls e = Ok (tt, MkEncoder (e_buf e ++ wire_labels ls) (e_names e)).
Proof.
  intros H. revert e. induction H as [|l ls Hl _ IH]; intros [buf names].
  - simpl. by rewrite app_nil_r.
  - simpl. unfold mbind, stateR_bind, writeLabel, guard. rewrite Hl. simpl.
    unfold mbind, stateR_bind. simpl. rewrite IH. simpl.
    by rewrite <-app_assoc.
Qed.

(** The new entries [write_labels] makes for [ls], written at [base]. *)
Definition registered (base : nat) (ls : list gostring) (k : gostring) (o : nat) : Prop :=
  Z.of_nat o <= maxPointerOffset /\ exists pre suf, ls = pre ++ suf /\ suf <> [] /\
    k = ToLower (Join dot suf) /\ o = (base + wire_len pre)%nat.

Lemma registered_cons base l ls k o :
  registered (base + S (length l)) ls k o -> registered base (l :: ls) k o.
Proof.
  intros (Ho & pre & suf & -> & ? & ? & ->). split; [done|].
  exists (l :: pre), suf. repeat split; try done. unfold wire_len. simpl. lia.
Qed.

Lemma register_spec suffix e :
  exists names', register suffix e = Ok (tt, MkEncoder (e_buf e) names') /\
    e_names e ⊆ names' /\
    forall k o, names' !! k = Some o -> e_names e !! k = Some o \/
      (k = suffix /\ o = length (e_buf e) /\ Z.of_nat o <= maxPointerOffset).
Proof.
  destruct e as [buf names]. unfold register, modify. simpl.
  case_bool_decide; destruct (Z.leb_spec (Z.of_nat (length buf)) maxPointerOffset);
    simpl; eexists; (split; [reflexivity|]); simpl.
  - split; [by apply insert_subseteq|]. intros k o Hk.
    destruct (decide (suffix = k)) as [->|]; simplify_map_eq; auto.
  - split; [done|]. auto.
  - split; [done|]. auto.
  - split; [done|]. auto.
Qed.

Lemma write_labels_spec ls : forall e,
  Forall (fun l => valid_label l = true) ls ->
  exists names', write_labels ls e = Ok (tt, MkEncoder (e_buf e ++ wire_labels ls) names') /\
    e_names e ⊆ names' /\
    forall k o, names' !! k = Some o ->
      e_names e !! k = Some o \/ registered (length (e_buf e)) ls k o.
Proof.
  induction ls as [|l ls IH]; intros e Hv.
  - exists (e_names e). simpl. rewrite app_nil_r. destruct e. split_and!; try done. auto.
  - apply Forall_cons in Hv as [Hl Hv].
    destruct (register_spec (ToLower (Join dot (l :: ls))) e) as (n1 & E1 & Hs1 & Hn1).
    destruct (IH (MkEncoder (e_buf e ++ wire_label l) n1) Hv) as (n2 & E2 & Hs2 & Hn2).
    exists n2. split_and!.
    + cbn [write_labels]. unfold mbind, stateR_bind, guard. rewrite Hl. unfold mret, stateR_ret.
      rewrite E1. unfold append, modify. simpl in E2 |- *. rewrite E2. simpl.
      change (wire_labels (l :: ls)) with (wire_label l ++ wire_labels ls).
      by rewrite <-app_assoc.
    + by etrans.
    + intros k o Hk. destruct (Hn2 k o Hk) as [H|H].
      * destruct (Hn1 k o H) as [|(-> & -> & Ho)]; [by left|right].
        split; [done|]. exists [], (l :: ls). split_and!; try done;
          unfold wire_len; simpl; lia.
      * right. apply registered_cons. simpl in H.
        by rewrite length_app in H.
Qed.

Lemma registered_names_ok buf names names' ls :
  names_ok buf names -> labels_ok ls ->
  (forall k o, names' !! k = Some o -> names !! k = Some o \/ registered (length buf) ls k o) ->
  names_ok (buf ++ wire_labels ls ++ [0]) names'.
Proof.
  intros Hok Hls Hn k o Hk. destruct (Hn k o Hk) as [H|(Ho & pre & suf & -> & Hne & -> & ->)].
  - by apply (names_ok_grow _ (wire_labels ls ++ [0])) in Hok; apply Hok.
  - split; [done|]. exists suf. split_and!; try done; [by eapply labels_ok_suffix|].
    rewrite <-length_wire_labels, <-length_app.
    replace (buf ++ wire_labels (pre ++ suf) ++ [0])
      with ((buf ++ wire_labels pre) ++ (wire_labels suf ++ [0]) ++ [])
      by by rewrite wire_labels_app, app_nil_r, <-!app_assoc.
    apply seg_here.
Qed.

(** ** Reading the two forms back *)

Lemma labels_fuel ls : (wire_len ls <= maxNameLength)%nat ->
  Forall (fun l => valid_label l = true) ls -> (length ls <= 127)%nat.
Proof. intros Hw Hv%labels_count. unfold maxNameLength in Hw. lia. Qed.

Lemma readName_plain full off ls :
  Forall (fun l => valid_label l = true) ls -> Forall (no_sep dot) ls ->
  (wire_len ls <= maxNameLength)%nat -> seg full off (wire_labels ls ++ [0]) ->
  readName (MkDecoder full off) =
  Ok (join_name ls, MkDecoder full (off + length (wire_labels ls ++ [0]))).
Proof.
  intros Hv Hd Hw [Hs Hz]%seg_app. pose proof (labels_fuel _ Hw Hv) as Hf.
  apply seg_cons in Hz as [Hz _]. unfold readName. cbn [d_buf d_off].
  replace readName_fuel with (length ls + S (159 - length ls))%nat
    by (unfold readName_fuel; lia).
  rewrite loop_labels, loop_zero by (done || by rewrite <-length_wire_labels).
  rewrite app_nil_r, reverse_involutive, length_app, length_wire_labels. simpl.
  do 3 f_equal. lia.
Qed.

Lemma readName_pointer full off before target ls :
  Forall (fun l => valid_label l = true) (before ++ ls) -> Forall (no_sep dot) (before ++ ls) ->
  (wire_len (before ++ ls) <= maxNameLength)%nat -> Z.of_nat target <= maxPointerOffset ->
  seg full off (wire_labels before ++ pointer_bytes target) ->
  seg full target (wire_labels ls ++ [0]) ->
  readName (MkDecoder full off) =
  Ok (join_name (before ++ ls),
      MkDecoder full (off + length (wire_labels before ++ pointer_bytes target))).
Proof.
  intros [Hv1 Hv2]%Forall_app [Hd1 Hd2]%Forall_app Hw Ho [Hs Hp]%seg_app [Hs2 Hz]%seg_app.
  rewrite wire_len_app in Hw. apply seg_cons in Hz as [Hz _].
  assert (Hf : (length before + length ls <= 127)%nat).
  { rewrite <-length_app. apply labels_fuel; [by rewrite wire_len_app|].
    by apply Forall_app. }
  rewrite length_wire_labels in Hp, Hz.
  unfold readName. cbn [d_buf d_off].
  replace readName_fuel
    with (length before + S (length ls + S (158 - length before - length ls)))%nat
    by (unfold readName_fuel; lia).
  rewrite loop_labels by (done || lia).
  rewrite (loop_pointer _ _ _ _ _ _ target) by done.
  rewrite loop_labels, loop_zero by (done || lia).
  rewrite app_nil_r, reverse_app, !reverse_involutive, length_app, length_wire_labels. simpl.
  by rewrite <-Nat.add_assoc.
Qed.

Lemma trim_dot_join_name ls :
  Forall (fun l => valid_label l = true) ls -> Forall (no_sep dot) ls ->
  trim_dot (join_name ls) = Join dot ls.
Proof.
  intros Hv Hd. unfold join_name. case_bool_decide; [by subst|].
  apply trim_dot_Join; [|done]. eapply Forall_impl; [exact Hv|].
  intros l Hl%label_length ->. simpl in Hl. lia.
Qed.

Lemma ToLower_Join_suffix before suf ls :
  suf <> [] -> ls <> [] -> ToLower (Join dot suf) = ToLower (Join dot ls) ->
  ToLower (Join dot (before ++ suf)) = ToLower (Join dot (before ++ ls)).
Proof.
  intros Hs Hl E. destruct (decide (before = [])) as [->|Hb]; [done|].
  by rewrite !Join_app, !ToLower_app_dot, E by done.
Qed.

(** ASCII names keep their length when lowercased. *)
Lemma length_ToLower_ascii s : is_ascii s = true -> length (ToLower s) = length s.
Proof. intros H. unfold ToLower. rewrite H. apply length_map. Qed.

Lemma wire_len_same suf ls :
  suf <> [] -> ls <> [] -> is_ascii (Join dot suf) = true -> is_ascii (Join dot ls) = true ->
  ToLower (Join dot suf) = ToLower (Join dot ls) -> wire_len suf = wire_len ls.
Proof.
  intros ? ? Ha1 Ha2 E. rewrite <-!(length_Join dot) by done.
  by rewrite <-(length_ToLower_ascii (Join dot suf)), E, length_ToLower_ascii.
Qed.

(** ** The round trip of one name *)

Lemma writeName_pointer e name before target :
  labels_ok (labels_of name) -> find_suffix (e_names e) (labels_of name) = Some (before, target) ->
  bool_decide (length (trim_dot name) <= maxNameLength)%nat = true ->
  (forall l, l ∈ before -> valid_label l = true) ->
  writeName name e =
  Ok (tt, MkEncoder (e_buf e ++ wire_labels before ++ pointer_bytes target) (e_names e)).
Proof.
  intros Hok Hf Hl Hv. unfold writeName, mbind, stateR_bind, guard. rewrite Hl.
  unfold mret, stateR_ret, get. fold (labels_of name). rewrite Hf.
  rewrite writeLabels_spec by by apply Forall_forall.
  unfold append, modify. simpl. by rewrite <-app_assoc.
Qed.

Lemma name_ok_length name :
  labels_ok (labels_of name) -> (length (trim_dot name) <= maxNameLength)%nat.
Proof.
  intros (_ & _ & Hw & _). rewrite <-Join_labels_of.
  destruct (labels_of name) as [|l ls]; [simpl; lia|].
  rewrite <-(length_Join dot) in Hw by done. lia.
Qed.

Lemma writeName_plain e name :
  labels_ok (labels_of name) -> find_suffix (e_names e) (labels_of name) = None ->
  names_ok (e_buf e) (e_names e) ->
  exists e', writes (writeName name) e e' (wire_labels (labels_of name) ++ [0]).
Proof.
  intros Hok Hf He. pose proof (name_ok_length _ Hok) as Hl.
  pose proof Hok as (Hv & _).
  destruct (write_labels_spec (labels_of name) e Hv) as (n' & E & Hs & Hn).
  exists (MkEncoder (e_buf e ++ wire_labels (labels_of name) ++ [0]) n').
  unfold writes. split_and!; try done.
  - unfold writeName, mbind, stateR_bind, guard. rewrite bool_decide_true by done.
    unfold mret, stateR_ret, get. fold (labels_of name). rewrite Hf, E.
    unfold append, modify. simpl. by rewrite <-app_assoc.
  - intros k o Hk. destruct (Hn k o Hk) as [|(_ & pre & suf & _ & _ & _ & ->)]; [auto|lia].
  - by eapply registered_names_ok.
Qed.

Lemma emits_writeName name :
  name_ok name = true -> emits 257 (writeName name) readName (name_sim name).
Proof.
  intros Hname. pose proof (name_ok_labels _ Hname) as Hok.
  pose proof Hok as (Hv & Hd & Hw & Ha). intros e He.
  destruct (find_suffix (e_names e) (labels_of name)) as [[before target]|] eqn:Hf.
  - destruct (find_suffix_spec _ _ _ _ Hf) as (suf & Hne & Els & Hlk).
    exists (MkEncoder (e_buf e ++ wire_labels before ++ pointer_bytes target) (e_names e)).
    eexists. split.
    + unfold writes. split_and!; [|done|done|intros k o; auto|by apply names_ok_grow].
      apply writeName_pointer; try done.
      * by apply bool_decide_true, name_ok_length.
      * rewrite Els in Hv. apply Forall_app in Hv as [Hv _]. by apply Forall_forall.
    + split.
      { rewrite Els, wire_len_app in Hw. unfold maxNameLength in Hw.
        rewrite length_app, length_wire_labels. simpl. lia. }
      intros full Hfull Hseg. cbn [e_names] in Hfull.
      destruct (Hfull _ _ Hlk) as (Ho & ls & Hne' & Hls & Ek & Hs).
      pose proof Hls as (Hv' & Hd' & Hw' & Ha'). rewrite Els in Hv, Hd, Hw, Ha.
      apply Forall_app in Hv as [Hv1 Hv2], Hd as [Hd1 Hd2].
      assert (Hlen : wire_len suf = wire_len ls).
      { apply wire_len_same; try done. by eapply is_ascii_Join_suffix. }
      assert (Forall (fun l => valid_label l = true) (before ++ ls)) by by apply Forall_app.
      assert (Forall (no_sep dot) (before ++ ls)) by by apply Forall_app.
      exists (join_name (before ++ ls)). split.
      * apply readName_pointer; try done. rewrite wire_len_app in *. lia.
      * unfold name_sim. rewrite trim_dot_join_name by done.
        rewrite <-Join_labels_of, Els. by apply ToLower_Join_suffix.
  - destruct (writeName_plain e name Hok Hf He) as [e' W]. exists e'. eexists.
    split; [exact W|]. split.
    { unfold maxNameLength in Hw. rewrite length_app, length_wire_labels. simpl. lia. }
    intros full _ Hseg. exists (join_name (labels_of name)). split.
    + by apply readName_plain.
    + unfold name_sim. by rewrite trim_dot_join_name, Join_labels_of.
Qed.
