(* ===== verification/WireRoundTrip.v ===== *)
(** [Unpack] undoes [Pack]: headers, questions, records of every type and whole
    messages. *)

From S2P Require Import Prelude GoStrings GoNet DnsMsg Encoder Decoder WireSpec WireCalculus WireNames.

Open Scope Z_scope.

(** ** The header *)

Lemma flags1_bits qr aa tc rd op : 0 <= op < 16 ->
  let f := Z.lor (Z.lor (Z.lor (Z.lor (flag qr 128) (u8 (Z.shiftl (Z.land op 15) 3)))
    (flag aa 4)) (flag tc 2)) (flag rd 1) in
  has_bit f 128 = qr /\ has_bit f 4 = aa /\ has_bit f 2 = tc /\ has_bit f 1 = rd /\
  Z.land (Z.shiftr f 3) 15 = op.
Proof.
  intros Hop. assert (Hin : op ∈ seqZ 0 16) by (apply elem_of_seqZ; lia).
  clear Hop. revert op Hin. apply Forall_forall.
  destruct qr, aa, tc, rd; apply (bool_decide_unpack _); vm_compute; exact I.
Qed.

Lemma flags2_bits ra ad cd rc : 0 <= rc < 16 ->
  let f := Z.lor (Z.lor (Z.lor (flag ra 128) (flag ad 32)) (flag cd 16)) (Z.land rc 15) in
  has_bit f 128 = ra /\ has_bit f 32 = ad /\ has_bit f 16 = cd /\ Z.land f 15 = rc.
Proof.
  intros Hrc. assert (Hin : rc ∈ seqZ 0 16) by (apply elem_of_seqZ; lia).
  clear Hrc. revert rc Hin. apply Forall_forall.
  destruct ra, ad, cd; apply (bool_decide_unpack _); vm_compute; exact I.
Qed.

Lemma count16_small {A} (l : list A) :
  Z.of_nat (length l) < 65536 -> count16 l = Z.of_nat (length l) /\ is_u16 (count16 l).
Proof.
  intros H. unfold count16. rewrite u16_small by (unfold is_u16; lia).
  unfold is_u16. lia.
Qed.

Lemma reads_ret {A} full off (a : A) (P : A -> Prop) : P a -> reads full off [] (mret a) P.
Proof. intros HP _. exists a. by rewrite Nat.add_0_r. Qed.

Lemma emits_header m : message_ok m ->
  emits 12 (append (header_bytes m)) readHeader (fun h => h = counted_header m).
Proof.
  intros ((Hid & Hop & Hrc) & [Hq _] & [Han _] & [Hns _] & [Har _]).
  apply emits_append; [done|]. intros full off. unfold header_bytes, readHeader.
  destruct (flags1_bits (h_QR (m_Header m)) (h_AA (m_Header m)) (h_TC (m_Header m))
    (h_RD (m_Header m)) _ Hop) as (F1 & F2 & F3 & F4 & F5).
  destruct (flags2_bits (h_RA (m_Header m)) (h_AD (m_Header m)) (h_CD (m_Header m)) _ Hrc)
    as (G1 & G2 & G3 & G4).
  destruct (count16_small _ Hq) as [Eq Uq], (count16_small _ Han) as [Ean Uan],
    (count16_small _ Hns) as [Ens Uns], (count16_small _ Har) as [Ear Uar].
  eapply reads_bind; [by apply reads_uint16|]. intros ? ->.
  change [flags1 (m_Header m); flags2 (m_Header m)]
    with ([flags1 (m_Header m)] ++ [flags2 (m_Header m)]). rewrite <-app_assoc.
  eapply reads_bind; [apply reads_uint8|]. intros ? ->.
  eapply reads_bind; [apply reads_uint8|]. intros ? ->.
  do 3 (eapply reads_bind; [by apply reads_uint16|]; intros ? ->).
  rewrite <-(app_nil_r (be16 (count16 (m_Additionals m)))).
  eapply reads_bind; [by apply reads_uint16|]. intros ? ->.
  apply reads_ret. unfold flags1, flags2, counted_header.
  by rewrite F1, F2, F3, F4, F5, G1, G2, G3, G4, Eq, Ean, Ens, Ear.
Qed.

(** ** Names inside PTR and MX data *)

Lemma encode_labels_spec ls raw :
  encode_labels ls = Ok raw <->
  raw = wire_labels ls ++ [0] /\ Forall (fun l => valid_label l = true) ls.
Proof.
  revert raw. induction ls as [|l ls IH]; intros raw; simpl.
  - split; [by intros [= <-]|]. by intros [-> _].
  - destruct (valid_label l) eqn:Hl.
    + destruct (encode_labels ls) as [r|e] eqn:E; unfold mbind; simpl.
      * destruct (proj1 (IH r) eq_refl) as [-> Hv].
        change (wire_labels (l :: ls)) with (wire_label l ++ wire_labels ls).
        rewrite <-app_assoc. split; [by intros [= <-]; auto|]. by intros [-> _].
      * split; [done|]. intros [-> [_ Hv]%Forall_cons].
        by specialize (proj2 (IH _) (conj eq_refl Hv)).
    + split; [done|]. intros [_ [H _]%Forall_cons]. congruence.
Qed.

Lemma encodeName_labels n :
  (length n <= maxNameLength)%nat -> encodeName n = encode_labels (labels_of n).
Proof.
  intros H. unfold encodeName, labels_of. rewrite bool_decide_false by lia.
  by case_bool_decide.
Qed.

Lemma encodeName_spec n raw :
  encodeName n = Ok raw ->
  raw = wire_labels (labels_of n) ++ [0] /\ Forall (fun l => valid_label l = true) (labels_of n).
Proof.
  intros H. apply (proj1 (encode_labels_spec _ _)). rewrite <-encodeName_labels; [done|].
  unfold encodeName in H. case_bool_decide; [done|lia].
Qed.

Lemma labels_of_no_sep n : Forall (no_sep dot) (labels_of n).
Proof. unfold labels_of. case_bool_decide; [constructor|apply Split_no_sep]. Qed.

Lemma labels_of_wire_len n :
  (length (trim_dot n) < maxNameLength)%nat -> (wire_len (labels_of n) <= maxNameLength)%nat.
Proof.
  intros H. rewrite <-Join_labels_of in H.
  destruct (labels_of n) as [|l ls]; [unfold wire_len; simpl; lia|].
  rewrite <-(length_Join dot) by done. lia.
Qed.

Lemma labels_of_join_name ls :
  Forall (fun l => valid_label l = true) ls -> Forall (no_sep dot) ls ->
  labels_of (join_name ls) = ls.
Proof.
  intros Hv Hd. unfold labels_of. rewrite trim_dot_join_name by done.
  assert (Hne : Forall (fun l => l <> []) ls).
  { eapply Forall_impl; [exact Hv|]. intros l Hl%label_length ->. simpl in Hl. lia. }
  case_bool_decide as H; [by apply Join_nil_iff in H|].
  apply Split_Join; [|done]. by intros ->.
Qed.

Lemma length_join_name ls :
  (wire_len ls <= maxNameLength)%nat -> (length (join_name ls) <= maxNameLength)%nat.
Proof.
  intros H. unfold join_name. case_bool_decide; [unfold maxNameLength; simpl; lia|].
  rewrite <-(length_Join dot) in H by done. lia.
Qed.

(** A name read from the wire can be written again ([encodeName] on the result
    of [readName] does not fail). *)
Lemma encodeName_join_name ls :
  Forall (fun l => valid_label l = true) ls -> Forall (no_sep dot) ls ->
  (wire_len ls <= maxNameLength)%nat ->
  encodeName (join_name ls) = Ok (wire_labels ls ++ [0]).
Proof.
  intros Hv Hd Hw. rewrite encodeName_labels by by apply length_join_name.
  rewrite labels_of_join_name by done. by apply encode_labels_spec.
Qed.

Lemma reads_raw_name full off raw :
  raw_name raw ->
  reads full off raw (n ← readName; lift_enc (encodeName n)) (fun x => x = raw).
Proof.
  intros (n & Hl & Hn) Hs. destruct (encodeName_spec _ _ Hn) as [-> Hv].
  pose proof (labels_of_no_sep n) as Hd. pose proof (labels_of_wire_len n Hl) as Hw.
  eexists. split; [|reflexivity]. unfold mbind, stateR_bind.
  rewrite (readName_plain _ _ (labels_of n)) by done. by rewrite encodeName_join_name.
Qed.

Lemma raw_name_length raw : raw_name raw -> Z.of_nat (length raw) <= 256.
Proof.
  intros (n & Hl & Hn). destruct (encodeName_spec _ _ Hn) as [-> _].
  apply labels_of_wire_len in Hl. unfold maxNameLength in Hl.
  rewrite length_app, length_wire_labels. simpl. lia.
Qed.

Lemma reads_raw_then {A} full off raw (f : list Z -> A) (P : A -> Prop) :
  raw_name raw -> P (f raw) ->
  reads full off raw (n ← readName; encoded ← lift_enc (encodeName n); mret (f encoded)) P.
Proof.
  intros Hn HP Hs. destruct (reads_raw_name full off raw Hn Hs) as (x & Hx & ->).
  exists (f raw). split; [|done]. unfold mbind, stateR_bind, mret, stateR_ret in *.
  destruct (readName _) as [[y d]|e]; [|done]. by rewrite Hx.
Qed.

(** ** RDATA *)

(** What [readRData] returns for a record written as [rr]: the header fields it
    was given and the data of [rr]. *)
Definition rdata_read (rr : RR) (name : gostring) (class ttl n : Z) (rr' : RR) : Prop :=
  rr_Name rr' = name /\ rr_Type rr' = rr_Type rr /\ rr_Class rr' = class /\
  rr_TTL rr' = ttl /\ rr_RDLength rr' = n /\ rdata_sim rr rr'.

(** The lengths [readRData] insists on. *)
Definition rdlen_fits (rr : RR) (n : Z) : Prop :=
  if rr_Type rr =? TypeA then n = 4
  else if rr_Type rr =? TypeAAAA then n = 16
  else if (rr_Type rr =? TypeNS) || (rr_Type rr =? TypeCNAME) || (rr_Type rr =? TypeSOA)
       || (rr_Type rr =? TypePTR) || (rr_Type rr =? TypeMX) then True
  else n = Z.of_nat (length (rr_Raw rr)).

Lemma emits_bytes bs n (P : list Z -> Prop) :
  n = length bs -> P bs -> emits (Z.of_nat n) (append bs) (readBytes n) P.
Proof.
  intros -> HP. apply emits_append; [done|]. intros full off Hs. exists bs.
  by rewrite readBytes_seg.
Qed.

Lemma emits_soa s : soa_ok s ->
  emits 534 (_ ← writeName (soa_MName s); _ ← writeName (soa_RName s);
         _ ← writeUint32 (soa_Serial s); _ ← writeUint32 (soa_Refresh s);
         _ ← writeUint32 (soa_Retry s); _ ← writeUint32 (soa_Expire s);
         writeUint32 (soa_Minimum s)) readSOA (soa_sim s).
Proof.
  intros (Hm & Hr & H1 & H2 & H3 & H4 & H5). unfold readSOA.
  apply (emits_bind 257 277) with (name_sim (soa_MName s));
    [done|by apply emits_writeName|]. intros m Hsm.
  apply (emits_bind 257 20) with (name_sim (soa_RName s));
    [done|by apply emits_writeName|]. intros r Hsr.
  eapply (emits_bind 4 16); [done|by apply emits_uint32|]. intros ? ->.
  eapply (emits_bind 4 12); [done|by apply emits_uint32|]. intros ? ->.
  eapply (emits_bind 4 8); [done|by apply emits_uint32|]. intros ? ->.
  eapply (emits_bind 4 4); [done|by apply emits_uint32|]. intros ? ->.
  eapply emits_ret; [by apply emits_uint32|]. by intros ? ->.
Qed.

Lemma type_cases (P : Z -> Prop) t :
  P TypeA -> P TypeAAAA -> P TypeNS -> P TypeCNAME -> P TypeSOA -> P TypePTR -> P TypeMX ->
  ((t =? TypeA) = false -> (t =? TypeAAAA) = false -> (t =? TypeNS) = false ->
   (t =? TypeCNAME) = false -> (t =? TypeSOA) = false -> (t =? TypePTR) = false ->
   (t =? TypeMX) = false -> P t) -> P t.
Proof.
  intros. destruct (Z.eqb_spec t TypeA); [by subst|]. destruct (Z.eqb_spec t TypeAAAA); [by subst|].
  destruct (Z.eqb_spec t TypeNS); [by subst|]. destruct (Z.eqb_spec t TypeCNAME); [by subst|].
  destruct (Z.eqb_spec t TypeSOA); [by subst|]. destruct (Z.eqb_spec t TypePTR); [by subst|].
  destruct (Z.eqb_spec t TypeMX); [by subst|]. auto.
Qed.

Lemma emits_rdata rr name class ttl n :
  rdata_ok rr -> rdlen_fits rr n ->
  emits 65535 (writeRData rr) (readRData (rr_with name (rr_Type rr) class ttl n))
    (rdata_read rr name class ttl n).
Proof.
  destruct rr as [nm t cl tt rl a aaaa ns cn soa raw].
  unfold rdata_ok, rdlen_fits, writeRData, readRData, rdata_read, rdata_sim.
  cbn [rr_with rr_Name rr_Type rr_Class rr_TTL rr_RDLength rr_A rr_AAAA rr_NS rr_CNAME rr_SOA rr_Raw].
  pattern t. apply type_cases; simpl.
  - intros Ha ->. destruct (To4 a) as [ip|] eqn:E; [|done]. simpl.
    apply To4_length in E. apply (emits_weaken 4); [|done].
    eapply emits_ret; [by apply (emits_bytes ip 4 (fun x => x = ip))|by intros ? ->].
  - intros Ha ->. destruct (To16 aaaa) as [ip|] eqn:E; [|done]. simpl.
    apply To16_length in E. apply (emits_weaken 16); [|done].
    eapply emits_ret; [by apply (emits_bytes ip 16 (fun x => x = ip))|by intros ? ->].
  - intros Hn _. apply (emits_weaken 257); [|done].
    eapply emits_ret; [by apply emits_writeName|done].
  - intros Hn _. apply (emits_weaken 257); [|done].
    eapply emits_ret; [by apply emits_writeName|done].
  - intros (s & -> & Hs) _. apply (emits_weaken 534); [|done].
    eapply emits_ret; [by apply emits_soa|]. eauto 10.
  - intros Hn _. apply emits_append; [apply raw_name_length in Hn; lia|]. intros full off.
    apply reads_raw_then; [done|]. done.
  - intros (p & raw' & Hp & -> & Hn) _. apply emits_append.
    { apply raw_name_length in Hn. simpl. lia. }
    intros full off.
    match goal with |- reads _ _ _ ?r ?P => change (reads full off (be16 p ++ raw') r P) end.
    eapply (reads_bind _ _ _ _ _ _ (fun x => x = be16 p)).
    + rewrite <-(app_nil_r (be16 p)).
      eapply reads_bind; [by apply reads_uint16|]. intros ? ->. by apply reads_ret.
    + intros ? ->. apply reads_raw_then; [done|]. done.
  - intros -> -> -> -> -> -> ->. simpl. intros Hl ->. rewrite Nat2Z.id.
    apply (emits_weaken (Z.of_nat (length raw))); [|lia].
    eapply emits_ret; [by apply (emits_bytes raw _ (fun x => x = raw))|]. by intros ? ->.
Qed.

(** ** Records *)

(** The length field is filled in after the RDATA it counts. *)
Definition write_sized (rr : RR) : encM unit :=
  e ← get;
  let rdlenOffset := length (e_buf e) in
  _ ← writeUint16 0;
  e ← get;
  let rdataStart := length (e_buf e) in
  _ ← writeRData rr;
  e ← get;
  let rdlen := (length (e_buf e) - rdataStart)%nat in
  modify (fun e => MkEncoder (put16 rdlenOffset (u16 (Z.of_nat rdlen)) (e_buf e)) (e_names e)).

Definition read_sized (name : gostring) (typ class ttl : Z) : decM RR :=
  rdlen ← readUint16;
  d ← get;
  let rdataStart := d_off d in
  rr ← readRData (rr_with name typ class ttl rdlen);
  d ← get;
  if bool_decide (d_off d = rdataStart + Z.to_nat rdlen)%nat then mret rr
  else fail ERDataMismatch.

(** Filling in the field keeps the table sound: no name lies across it. *)
Lemma names_ok_patch buf n n' a b rd :
  length a = length b -> names_ok buf n -> fresh_from (length buf + length a) n n' ->
  names_ok (buf ++ a ++ rd) n' -> names_ok (buf ++ b ++ rd) n'.
Proof.
  intros Hl Hok Hf Hok' k o Hk. destruct (Hf k o Hk) as [H|H].
  - by apply (names_ok_grow _ (b ++ rd) _ Hok).
  - destruct (Hok' k o Hk) as (Ho & ls & ? & ? & ? & Hs).
    split; [done|]. exists ls. split_and!; try done. by eapply seg_patch.
Qed.

Lemma writeRR_sized rr :
  writeRR rr = (_ ← writeName (rr_Name rr); _ ← writeUint16 (rr_Type rr);
                _ ← writeUint16 (rr_Class rr); _ ← writeUint32 (rr_TTL rr); write_sized rr).
Proof. done. Qed.

Lemma readRR_sized :
  readRR = (name ← readName; typ ← readUint16; class ← readUint16; ttl ← readUint32;
            read_sized name typ class ttl).
Proof. done. Qed.

(** The record data has the length [readRData] expects of its type. *)
Lemma writes_rdlen_fits rr e e' bs :
  rdata_ok rr -> writes (writeRData rr) e e' bs -> rdlen_fits rr (Z.of_nat (length bs)).
Proof.
  intros Hok (E & Hb & _). unfold writeRData, rdata_ok, rdlen_fits in *.
  destruct (rr_Type rr =? TypeA).
  { destruct (To4 (rr_A rr)) as [ip|] eqn:Hip; [|done]. injection E as <-. simpl in Hb.
    apply app_inv_head in Hb as <-. apply To4_length in Hip. lia. }
  destruct (rr_Type rr =? TypeAAAA).
  { destruct (To16 (rr_AAAA rr)) as [ip|] eqn:Hip; [|done]. injection E as <-. simpl in Hb.
    apply app_inv_head in Hb as <-. apply To16_length in Hip. lia. }
  destruct (rr_Type rr =? TypeNS); [done|]. destruct (rr_Type rr =? TypeCNAME); [done|].
  destruct (rr_Type rr =? TypeSOA); [done|]. simpl.
  destruct (rr_Type rr =? TypePTR); [done|]. destruct (rr_Type rr =? TypeMX); [done|].
  injection E as <-. simpl in Hb. by apply app_inv_head in Hb as <-.
Qed.

Lemma rdata_some_len rr : rdata_ok rr -> exists n, rdlen_fits rr n.
Proof.
  intros _. unfold rdlen_fits. destruct (_ =? _); [eauto|]. destruct (_ =? _); [eauto|].
  destruct (_ || _); [by exists 0|eauto].
Qed.

(** Running [write_sized]: the placeholder, the data, then the length. *)
Lemma write_sized_run rr e e2 bs :
  names_ok (e_buf e) (e_names e) ->
  writes (writeRData rr) (MkEncoder (e_buf e ++ be16 0) (e_names e)) e2 bs ->
  writes (write_sized rr) e
    (MkEncoder (e_buf e ++ be16 (u16 (Z.of_nat (length bs))) ++ bs) (e_names e2))
    (be16 (u16 (Z.of_nat (length bs))) ++ bs).
Proof.
  intros He (E & Hb & Hs & Hf & Hok). simpl in Hb, Hs, Hf.
  rewrite <-app_assoc in Hb. rewrite length_app in Hf. unfold writes. split_and!; try done.
  - unfold write_sized, mbind, stateR_bind, get. unfold writeUint16 at 1, append, modify at 1.
    rewrite E. unfold modify. simpl. rewrite Hb. do 3 f_equal.
    replace (length (e_buf e ++ be16 0 ++ bs) - length (e_buf e ++ be16 0))%nat
      with (length bs) by (rewrite !length_app; lia).
    apply put16_app.
  - intros k o Hk. destruct (Hf k o Hk) as [|]; [auto|right; simpl; lia].
  - apply (names_ok_patch (e_buf e) (e_names e) (e_names e2) (be16 0)); [done..|].
    by rewrite <-Hb.
Qed.

Lemma emits_sized rr name class ttl :
  rdata_ok rr ->
  emits 65537 (write_sized rr) (read_sized name (rr_Type rr) class ttl)
    (fun rr' => exists n, rdata_read rr name class ttl n rr').
Proof.
  intros Hok e He.
  set (e1 := MkEncoder (e_buf e ++ be16 0) (e_names e)).
  assert (He1 : names_ok (e_buf e1) (e_names e1)) by by apply names_ok_grow.
  assert (Hex : exists e2 bs, writes (writeRData rr) e1 e2 bs).
  { destruct (rdata_some_len rr Hok) as [n0 Hn0].
    destruct (emits_rdata rr name class ttl n0 Hok Hn0 e1 He1) as (e2 & bs & W & _). eauto. }
  destruct Hex as (e2 & bs & W). pose proof (writes_rdlen_fits _ _ _ _ Hok W) as Hfit.
  destruct (emits_rdata rr name class ttl _ Hok Hfit e1 He1) as (e2' & bs' & W' & L & R).
  destruct (writes_det _ _ _ _ _ _ W W') as [<- <-].
  assert (Hu : is_u16 (Z.of_nat (length bs))) by (unfold is_u16; lia).
  eexists _, _. split; [by apply write_sized_run|]. rewrite u16_small by done.
  split; [rewrite length_app; simpl; lia|].
  intros full Hfull. unfold read_sized.
  eapply reads_bind; [by apply reads_uint16|]. intros ? -> Hs.
  simpl in R. rewrite length_app in R. destruct (R full Hfull Hs) as (rr' & Hr & HP).
  exists rr'. split; [|eauto]. unfold mbind, stateR_bind, get. cbn [d_off].
  change (length (be16 (Z.of_nat (length bs)))) with 2%nat in *.
  change (length (be16 0)) with 2%nat in Hr. rewrite Hr. simpl.
  by rewrite Nat2Z.id, bool_decide_true.
Qed.

Lemma emits_writeRR rr : rr_ok rr -> emits 65802 (writeRR rr) readRR (rr_sim rr).
Proof.
  intros (Hn & Ht & Hc & Hl & Hd). rewrite writeRR_sized, readRR_sized.
  apply (emits_bind 257 65545) with (name_sim (rr_Name rr));
    [done|by apply emits_writeName|]. intros name Hname.
  eapply (emits_bind 2 65543); [done|by apply emits_uint16|]. intros ? ->.
  eapply (emits_bind 2 65541); [done|by apply emits_uint16|]. intros ? ->.
  eapply (emits_bind 4 65537); [done|by apply emits_uint32|]. intros ? ->.
  eapply emits_mono; [by apply emits_sized|done|].
  intros rr' (n & H1 & H2 & H3 & H4 & _ & H6). unfold rr_sim. by rewrite H1.
Qed.

Lemma emits_writeQuestion q :
  question_ok q -> emits 261 (writeQuestion q) readQuestion (question_sim q).
Proof.
  intros (Hn & Ht & Hc). unfold writeQuestion, readQuestion.
  apply (emits_bind 257 4) with (name_sim (q_Name q));
    [done|by apply emits_writeName|]. intros name Hname.
  eapply (emits_bind 2 2); [done|by apply emits_uint16|]. intros ? ->.
  eapply emits_ret; [by apply emits_uint16|]. by intros ? ->.
Qed.

(** ** Messages *)

Lemma emits_section {A B} n (w : A -> encM unit) (r : decM B) (ok : A -> Prop) (P : A -> B -> Prop) l :
  (forall x, ok x -> emits n (w x) r (P x)) -> Forall ok l ->
  emits (n * Z.of_nat (length l)) (iterM w l) (repeatM (Z.to_nat (Z.of_nat (length l))) r)
    (Forall2 P l).
Proof.
  intros H Hok. rewrite Nat2Z.id. apply emits_iterM. intros x Hx.
  apply H. by eapply Forall_forall in Hok.
Qed.

Definition pack_bound (m : Message) : Z :=
  12 + 261 * Z.of_nat (length (m_Questions m)) + 65802 * Z.of_nat (length (m_Answers m)) +
  65802 * Z.of_nat (length (m_Authorities m)) + 65802 * Z.of_nat (length (m_Additionals m)).

Lemma emits_message m :
  message_ok m -> emits (pack_bound m) (pack_body m) unpack_body (message_sim m).
Proof.
  intros Hok. pose proof Hok as (_ & [_ Hq] & [_ Han] & [_ Hns] & [_ Har]).
  unfold pack_body, unpack_body, pack_bound.
  eapply emits_bind; [|by apply emits_header|]; cycle 1.
  { intros h ->. unfold readRRs, counted_header. cbn [h_QDCount h_ANCount h_NSCount h_ARCount].
    eapply emits_bind; [reflexivity|by apply (emits_section _ _ _ _ _ _ emits_writeQuestion)|].
    intros qs Hqs.
    eapply emits_bind; [reflexivity|by apply (emits_section _ _ _ _ _ _ emits_writeRR)|].
    intros ans Hans.
    eapply emits_bind; [reflexivity|by apply (emits_section _ _ _ _ _ _ emits_writeRR)|].
    intros nss Hnss.
    eapply emits_ret; [by apply (emits_section _ _ _ _ _ _ emits_writeRR)|].
    intros ars Hars. by split_and!. }
  lia.
Qed.

Lemma names_ok_empty buf : names_ok buf ∅.
Proof. by intros k off Hk. Qed.

(** Running the whole writer and the whole reader. *)
Lemma emits_Pack n m (P : Message -> Prop) :
  emits n (pack_body m) unpack_body P ->
  exists buf m', Pack m = Ok buf /\ Z.of_nat (length buf) <= n /\ Unpack buf = Ok m' /\ P m'.
Proof.
  intros H. destruct (H newEncoder (names_ok_empty _)) as (e & bs & (Hw & Hb & _ & _ & Hn) & Hlen & Hr).
  change (e_buf e = bs) in Hb. subst bs.
  destruct (Hr (e_buf e) Hn) as (m' & Hm' & HP).
  { rewrite <-(app_nil_r (e_buf e)) at 1. apply (seg_here [] (e_buf e) []). }
  exists (e_buf e), m'. unfold Pack, Unpack. rewrite Hw.
  change (length (e_buf newEncoder)) with 0%nat in Hm'. by rewrite Hm'.
Qed.

(** C25: Packing a well-formed message - every section, every record type, with
    name compression on - succeeds within a stated size, and unpacking the bytes
    gives the same message back: same header with the true counts, same records
    in the same order, names equal up to case and a trailing dot. *)
Theorem Unpack_Pack m :
  message_ok m ->
  exists buf m', Pack m = Ok buf /\ Z.of_nat (length buf) <= pack_bound m /\
    Unpack buf = Ok m' /\ message_sim m m'.
Proof. intros Hm. by apply emits_Pack, emits_message. Qed.

(** ** Queries *)

Definition query_message (id : Z) (name : gostring) (qtype : Z) : Message :=
  MkMessage (MkHeader id false 0 false false false false false false 0 0 0 0 0)
    [MkQuestion name qtype ClassIN] [] [] [].

Lemma find_suffix_empty ls : find_suffix ∅ ls = None.
Proof. induction ls as [|l ls IH]; [done|]. cbn [find_suffix]. by rewrite lookup_empty, IH. Qed.

Lemma name_ok_encode name :
  name_ok name = true -> encodeName name = Ok (wire_labels (labels_of name) ++ [0]).
Proof.
  intros H. pose proof (name_ok_labels _ H) as (Hv & _ & Hw & _).
  rewrite encodeName_labels; [by apply encode_labels_spec|].
  unfold name_ok in H. rewrite !andb_true_iff, bool_decide_eq_true in H.
  destruct H as [[_ Hl] _]. destruct (trim_dot_cases name) as [(t & -> & E)|E].
  - rewrite E in Hl. rewrite length_app. simpl. lia.
  - rewrite <-E. lia.
Qed.

(** The hand-written [PackQuery] is [Pack] of the one-question message: both
    write the same bytes for every name the codec can carry. *)
Theorem PackQuery_Pack id name qtype :
  is_u16 id -> name_ok name = true ->
  PackQuery id name qtype = Pack (query_message id name qtype).
Proof.
  intros Hid Hn. unfold PackQuery. rewrite name_ok_encode by done. cbn [mbind result_bind].
  pose proof (name_ok_labels _ Hn) as Hok.
  set (e0 := MkEncoder (header_bytes (query_message id name qtype)) ∅).
  destruct (writeName_plain e0 name Hok (find_suffix_empty _) (names_ok_empty _)) as (e1 & W & Hb & _).
  unfold Pack, pack_body, query_message. cbn [m_Questions m_Answers m_Authorities m_Additionals iterM].
  unfold mbind, stateR_bind. unfold append at 1, modify at 1. cbn [e_buf e_names newEncoder app].
  fold (query_message id name qtype). change (MkEncoder _ ∅) with e0.
  unfold writeQuestion, mbind, stateR_bind. cbn [q_Name q_Type q_Class]. rewrite W.
  unfold writeUint16, append, modify, mret, stateR_ret. cbn [e_buf]. rewrite Hb.
  f_equal. rewrite <-!app_assoc. reflexivity.
Qed.
