(* ===== verification/DecoderSafe.v ===== *)
(** What the decoder guarantees on an arbitrary buffer: it always terminates
    within its loop bound, never leaves the buffer, never goes backwards, and
    only ever returns messages the encoder can write again. *)

From S2P Require Import Prelude GoStrings GoNet DnsMsg Encoder Decoder WireSpec WireCalculus WireNames WireRoundTrip.

Open Scope Z_scope.

Definition bytes (buf : list Z) : Prop := Forall is_u8 buf.

(** [safe r P]: on a buffer of bytes, [r] either fails - with one of the code's
    errors - or returns a value satisfying [P] and has moved forward inside the
    same buffer. *)
Definition safe {A} (r : decM A) (P : A -> Prop) : Prop :=
  forall d, bytes (d_buf d) -> (d_off d <= length (d_buf d))%nat ->
    match r d with
    | Ok (a, d') =>
      d_buf d' = d_buf d /\ (d_off d <= d_off d' <= length (d_buf d))%nat /\ P a
    | Err e => e <> EOutOfFuel
    end.

(** ** Rules *)

Lemma safe_mret {A} (a : A) (P : A -> Prop) : P a -> safe (mret a) P.
Proof. intros HP d _ Hd. simpl. split_and!; done || lia. Qed.

Lemma safe_fail {A} e (P : A -> Prop) : e <> EOutOfFuel -> safe (fail e) P.
Proof. by intros He d _ _. Qed.

Lemma safe_bind {A B} (m : decM A) (k : A -> decM B) P Q :
  safe m P -> (forall a, P a -> safe (k a) Q) -> safe (a ← m; k a) Q.
Proof.
  intros Hm Hk d Hb Hd. specialize (Hm d Hb Hd). unfold mbind, stateR_bind.
  destruct (m d) as [[a d1]|e]; [|done]. destruct Hm as (Hb1 & Ho1 & HP).
  specialize (Hk a HP d1). rewrite Hb1 in Hk. specialize (Hk Hb ltac:(lia)).
  destruct (k a d1) as [[b d2]|e]; [|done]. destruct Hk as (Hb2 & Ho2 & HQ).
  split_and!; done || lia || congruence.
Qed.

Lemma safe_mono {A} (m : decM A) (P Q : A -> Prop) :
  safe m P -> (forall a, P a -> Q a) -> safe m Q.
Proof.
  intros H HPQ d Hb Hd. specialize (H d Hb Hd). destruct (m d) as [[a d']|e]; [|done].
  destruct H as (? & ? & ?). auto.
Qed.

Lemma safe_repeat {A} n (m : decM A) P :
  safe m P -> safe (repeatM n m) (fun l => length l = n /\ Forall P l).
Proof.
  intros H. induction n as [|n IH]; [by apply safe_mret|]. cbn [repeatM].
  eapply safe_bind; [exact H|]. intros a Ha. eapply safe_bind; [exact IH|].
  intros l [Hl HP]. apply safe_mret. simpl. auto.
Qed.

Lemma safe_get_off {A} (k : decoder -> decM A) P :
  (forall d, safe (k d) P) -> safe (d ← get; k d) P.
Proof. intros H d Hb Hd. exact (H d d Hb Hd). Qed.

Lemma safe_lift_enc {A} (r : result wire_error A) P :
  match r with Ok a => P a | Err e => e <> EOutOfFuel end -> safe (lift_enc r) P.
Proof. destruct r; [apply safe_mret|apply safe_fail]. Qed.

(** ** Fixed-width fields *)

Lemma bytes_lookup buf i x : bytes buf -> buf !! i = Some x -> is_u8 x.
Proof. intros H Hi. by eapply Forall_lookup_1 in H. Qed.

Lemma safe_readBytes n : safe (readBytes n) (fun bs => length bs = n /\ bytes bs).
Proof.
  intros d Hb Hd. unfold readBytes. case_bool_decide; [done|]. simpl.
  split_and!; [done|lia|lia| |].
  - rewrite length_take, length_drop. lia.
  - by apply Forall_take, Forall_drop.
Qed.

Lemma safe_readUint8 : safe readUint8 is_u8.
Proof.
  intros d Hb Hd. unfold readUint8. destruct (_ !! _) as [v|] eqn:E; [|done]. simpl.
  pose proof (lookup_lt_Some _ _ _ E). split_and!; [done|lia|lia|].
  by eapply bytes_lookup.
Qed.

Lemma safe_readUint16 : safe readUint16 is_u16.
Proof.
  eapply safe_bind; [apply safe_readBytes|]. intros [|b0 [|b1 [|]]] [Hl Hb]; try done.
  apply Forall_cons in Hb as [H0 [H1 _]%Forall_cons].
  apply safe_mret. by auto with widths.
Qed.

Lemma safe_readUint32 : safe readUint32 is_u32.
Proof.
  eapply safe_bind; [apply safe_readBytes|].
  intros [|b0 [|b1 [|b2 [|b3 [|]]]]] [Hl Hb]; try done.
  apply Forall_cons in Hb as [H0 [H1 [H2 [H3 _]%Forall_cons]%Forall_cons]%Forall_cons].
  apply safe_mret. by auto with widths.
Qed.

(** ** Names *)

(** The labels a decoded name is made of. *)
Definition decoded_labels (ls : list gostring) : Prop :=
  Forall (fun l => valid_label l = true) ls /\ Forall (no_sep dot) ls /\
  (wire_len ls <= maxNameLength)%nat /\ Forall bytes ls.

Definition decoded_name (n : gostring) : Prop :=
  exists ls, n = join_name ls /\ decoded_labels ls.

(** The top two bits of a length byte decide what it is; with both clear it is
    a length of at most 63. *)
Lemma label_byte len : is_u8 len -> Z.land len 192 = 0 -> 0 <= len < 64.
Proof.
  intros Hlen H. assert (Hin : len ∈ seqZ 0 256) by (apply elem_of_seqZ; unfold is_u8 in *; lia).
  assert (Hall : Forall (fun z => Z.land z 192 = 0 -> 0 <= z < 64) (seqZ 0 256))
    by (apply (bool_decide_unpack _); vm_compute; exact I).
  by apply (proj1 (Forall_forall _ _) Hall).
Qed.

Lemma wire_len_reverse ls : wire_len (reverse ls) = wire_len ls.
Proof.
  induction ls as [|l ls IH]; [done|]. rewrite reverse_cons, wire_len_app, IH.
  unfold wire_len. simpl. lia.
Qed.

Lemma decoded_labels_reverse ls : decoded_labels ls -> decoded_labels (reverse ls).
Proof.
  intros (? & ? & ? & ?). unfold decoded_labels. rewrite wire_len_reverse.
  split_and!; try done; by apply Forall_reverse.
Qed.

(** Fuel that is enough: one unit per pointer still allowed, one per two bytes
    still allowed in the name, one to stop. *)
Definition loop_measure (jumps nameLen : nat) : nat :=
  (maxCompressionPointerJumps - jumps + (maxNameLength - nameLen) / 2)%nat.

Lemma loop_measure_jump jumps n :
  (jumps + 1 <= maxCompressionPointerJumps)%nat ->
  (loop_measure (jumps + 1) n < loop_measure jumps n)%nat.
Proof. unfold loop_measure. lia. Qed.

Lemma loop_measure_label jumps n k :
  (0 < k)%nat -> (n + (k + 1) <= maxNameLength)%nat ->
  (loop_measure jumps (n + (k + 1)) < loop_measure jumps n)%nat.
Proof.
  unfold loop_measure. intros Hk Hn.
  assert (S ((maxNameLength - (n + (k + 1))) / 2) <= (maxNameLength - n) / 2)%nat; [|lia].
  rewrite <-Nat.add_1_r, <-(Nat.div_add _ 1 2) by done. apply Nat.Div0.div_le_mono. lia.
Qed.

Lemma readName_loop_safe fuel : forall buf pos ret jumps n acc start,
  bytes buf -> (loop_measure jumps n < fuel)%nat ->
  (start <= length buf)%nat -> (start <= pos)%nat \/ ret <> None ->
  (forall r, ret = Some r -> start <= r <= length buf)%nat ->
  decoded_labels acc -> n = wire_len acc ->
  match readName_loop fuel buf pos ret jumps n acc with
  | Ok (ls, off) => decoded_labels ls /\ (start <= off <= length buf)%nat
  | Err e => e <> EOutOfFuel
  end.
Proof.
  induction fuel as [|fuel IH];
    intros buf pos ret jumps n acc start Hb Hf Hstart Hpos Hret Hacc Hn; [lia|].
  cbn [readName_loop]. destruct (buf !! pos) as [len|] eqn:Hlen; [|done].
  pose proof (lookup_lt_Some _ _ _ Hlen) as Hlt. pose proof (bytes_lookup _ _ _ Hb Hlen) as Hu.
  destruct (Z.eqb_spec len 0) as [->|Hnz].
  { split; [by apply decoded_labels_reverse|]. destruct ret as [r|]; simpl; [by auto|].
    destruct Hpos; [lia|done]. }
  destruct (Z.eqb_spec (Z.land len 192) 192) as [_|_].
  - destruct (buf !! (pos + 1)%nat) as [low|] eqn:Hlow; [|done].
    apply lookup_lt_Some in Hlow. case_bool_decide as Hj; [done|].
    apply IH with (start := start); try done.
    + pose proof (loop_measure_jump jumps n). lia.
    + destruct ret; auto.
    + intros r Hr. destruct ret as [r'|]; simplify_eq; [by auto|]. destruct Hpos; [lia|done].
  - destruct (Z.eqb_spec (Z.land len 192) 0) as [H0|]; [|done]. simpl.
    case_bool_decide as Hl; [done|]. case_bool_decide as Hm; [done|].
    destruct (Contains _ dot) eqn:Hd; [done|]. apply Contains_no_sep in Hd.
    pose proof (label_byte _ Hu H0) as Hr64.
    assert (Hlen' : length (take (Z.to_nat len) (drop (pos + 1) buf)) = Z.to_nat len)
      by (rewrite length_take, length_drop; lia).
    apply IH with (start := start); try done.
    + pose proof (loop_measure_label jumps n (Z.to_nat len)). lia.
    + destruct Hpos; [left; lia|by right].
    + destruct Hacc as (? & ? & ? & ?). split_and!; try (constructor; [|done]); try done.
      * unfold valid_label, maxLabelLength. rewrite Hlen'.
        rewrite bool_decide_false, bool_decide_true by lia. done.
      * unfold wire_len in *. simpl. rewrite Hlen'. lia.
      * by apply Forall_take, Forall_drop.
    + subst n. unfold wire_len. simpl. rewrite Hlen'. lia.
Qed.

Lemma safe_readName : safe readName decoded_name.
Proof.
  intros d Hb Hd. unfold readName.
  pose proof (readName_loop_safe readName_fuel (d_buf d) (d_off d) None 0 0 [] (d_off d)) as H.
  destruct (readName_loop _ _ _ _ _ _ _) as [[ls off]|e].
  - destruct H as [Hls Hoff]; try done.
    + vm_compute. lia.
    + by left.
    + split_and!; try constructor; unfold wire_len, maxNameLength; simpl; lia.
    + split_and!; simpl; [done|lia|lia|]. by exists ls.
  - apply H; try done; [vm_compute; lia|by left|].
    split_and!; try constructor; unfold wire_len, maxNameLength; simpl; lia.
Qed.

(** ** Header, questions, records *)

(** A count bounds what a section can hold. *)
Definition decoded_header (h : Header) : Prop :=
  header_ok h /\ is_u16 (h_QDCount h) /\ is_u16 (h_ANCount h) /\ is_u16 (h_NSCount h) /\
  is_u16 (h_ARCount h).

Lemma land_15_small z : 0 <= Z.land z 15 < 16.
Proof. change 15 with (Z.ones 4). rewrite Z.land_ones by lia. by apply Z.mod_pos_bound. Qed.

Lemma safe_readHeader : safe readHeader decoded_header.
Proof.
  unfold readHeader.
  eapply safe_bind; [apply safe_readUint16|]. intros id Hid.
  do 2 (eapply safe_bind; [apply safe_readUint8|]; intros ? _).
  do 4 (eapply safe_bind; [apply safe_readUint16|]; intros ? ?).
  apply safe_mret. unfold decoded_header, header_ok. simpl.
  split_and!; done || apply land_15_small.
Qed.

Definition decoded_question (q : Question) : Prop :=
  decoded_name (q_Name q) /\ is_u16 (q_Type q) /\ is_u16 (q_Class q).

Lemma safe_readQuestion : safe readQuestion decoded_question.
Proof.
  eapply safe_bind; [apply safe_readName|]. intros name Hname.
  do 2 (eapply safe_bind; [apply safe_readUint16|]; intros ? ?). by apply safe_mret.
Qed.

Definition decoded_soa (s : SOA) : Prop :=
  decoded_name (soa_MName s) /\ decoded_name (soa_RName s) /\
  is_u32 (soa_Serial s) /\ is_u32 (soa_Refresh s) /\ is_u32 (soa_Retry s) /\
  is_u32 (soa_Expire s) /\ is_u32 (soa_Minimum s).

Lemma safe_readSOA : safe readSOA decoded_soa.
Proof.
  do 2 (eapply safe_bind; [apply safe_readName|]; intros ? ?).
  do 5 (eapply safe_bind; [apply safe_readUint32|]; intros ? ?). by apply safe_mret.
Qed.

(** The data of a decoded record, by its type. *)
Definition decoded_rdata (rr : RR) : Prop :=
  if rr_Type rr =? TypeA then exists b, rr_A rr = Some b /\ length b = 4%nat /\ bytes b
  else if rr_Type rr =? TypeAAAA then exists b, rr_AAAA rr = Some b /\ length b = 16%nat /\ bytes b
  else if rr_Type rr =? TypeNS then decoded_name (rr_NS rr)
  else if rr_Type rr =? TypeCNAME then decoded_name (rr_CNAME rr)
  else if rr_Type rr =? TypeSOA then exists s, rr_SOA rr = Some s /\ decoded_soa s
  else if rr_Type rr =? TypePTR then raw_name (rr_Raw rr)
  else if rr_Type rr =? TypeMX then
    exists p raw, is_u16 p /\ rr_Raw rr = be16 p ++ raw /\ raw_name raw
  else Z.of_nat (length (rr_Raw rr)) = rr_RDLength rr.

Definition decoded_rr (rr : RR) : Prop :=
  decoded_name (rr_Name rr) /\ is_u16 (rr_Type rr) /\ is_u16 (rr_Class rr) /\
  is_u32 (rr_TTL rr) /\ is_u16 (rr_RDLength rr) /\ decoded_rdata rr.

(** The names of PTR and MX data are re-encoded by the decoder: that cannot
    fail, because what [readName] returns is always encodable. *)
Lemma decoded_name_encodes n :
  decoded_name n -> exists raw, encodeName n = Ok raw /\ raw_name raw.
Proof.
  intros (ls & -> & Hv & Hd & Hw & _). exists (wire_labels ls ++ [0]).
  pose proof (encodeName_join_name ls Hv Hd Hw) as E. split; [done|].
  exists (join_name ls). split; [|done]. rewrite trim_dot_join_name by done.
  destruct ls as [|l ls]; [vm_compute; lia|].
  rewrite <-(length_Join dot) in Hw by done. lia.
Qed.

Lemma safe_reencode {A} (f : list Z -> A) (P : A -> Prop) :
  (forall raw, raw_name raw -> P (f raw)) ->
  safe (n ← readName; encoded ← lift_enc (encodeName n); mret (f encoded)) P.
Proof.
  intros H. eapply safe_bind; [apply safe_readName|]. intros n Hn.
  destruct (decoded_name_encodes n Hn) as (raw & E & Hraw).
  apply (safe_bind _ _ raw_name); [apply safe_lift_enc; by rewrite E|].
  intros r Hr. apply safe_mret. auto.
Qed.

Definition same_head (rr rr' : RR) : Prop :=
  rr_Name rr' = rr_Name rr /\ rr_Type rr' = rr_Type rr /\ rr_Class rr' = rr_Class rr /\
  rr_TTL rr' = rr_TTL rr /\ rr_RDLength rr' = rr_RDLength rr.

Lemma safe_readRData rr :
  is_u16 (rr_RDLength rr) ->
  safe (readRData rr) (fun rr' => same_head rr rr' /\ decoded_rdata rr').
Proof.
  destruct rr as [nm t cl tt rl a aaaa ns cn soa raw]. unfold readRData, same_head, decoded_rdata.
  cbn [rr_Name rr_Type rr_Class rr_TTL rr_RDLength]. intros Hrl.
  pattern t. apply type_cases; simpl.
  - destruct (rl =? 4); [|by apply safe_fail]. eapply safe_bind; [apply safe_readBytes|].
    intros b [Hb ?]. apply safe_mret. simpl. eauto 10.
  - destruct (rl =? 16); [|by apply safe_fail]. eapply safe_bind; [apply safe_readBytes|].
    intros b [Hb ?]. apply safe_mret. simpl. eauto 10.
  - eapply safe_bind; [apply safe_readName|]. intros n Hn. apply safe_mret. simpl. auto 10.
  - eapply safe_bind; [apply safe_readName|]. intros n Hn. apply safe_mret. simpl. auto 10.
  - eapply safe_bind; [apply safe_readSOA|]. intros s Hs. apply safe_mret. simpl. eauto 10.
  - eapply (safe_bind _ _ (fun x => x = [])); [by apply safe_mret|]. intros ? ->.
    apply safe_reencode. intros r Hr. simpl. auto 10.
  - apply (safe_bind _ _ (fun x => exists p, is_u16 p /\ x = be16 p)).
    { eapply safe_bind; [apply safe_readUint16|]. intros p Hp. apply safe_mret. eauto. }
    intros ? (p & Hp & ->). apply safe_reencode. intros r Hr. simpl. split; [done|]. eauto.
  - intros E1 E2 E3 E4 E5 E6 E7. rewrite E1, E2, E3, E4, E5, E6, E7. simpl.
    eapply safe_bind; [apply safe_readBytes|]. intros b [Hb _]. apply safe_mret. simpl.
    rewrite E1, E2, E3, E4, E5, E6, E7, Hb. split; [done|].
    unfold is_u16 in Hrl. lia.
Qed.

Lemma safe_readRR : safe readRR decoded_rr.
Proof.
  unfold readRR. eapply safe_bind; [apply safe_readName|]. intros name Hname.
  do 2 (eapply safe_bind; [apply safe_readUint16|]; intros ? ?).
  eapply safe_bind; [apply safe_readUint32|]. intros ttl Httl.
  eapply safe_bind; [apply safe_readUint16|]. intros rdlen Hrdlen.
  apply safe_get_off. intros d0.
  eapply safe_bind; [by apply safe_readRData|]. intros rr ((H1 & H2 & H3 & H4 & H5) & Hd).
  simpl in *. apply safe_get_off. intros d1. case_bool_decide; [|by apply safe_fail].
  apply safe_mret. unfold decoded_rr. by rewrite H1, H2, H3, H4, H5.
Qed.

(** ** Messages *)

Definition decoded_section {A} (P : A -> Prop) (count : Z) (l : list A) : Prop :=
  Z.of_nat (length l) = count /\ Forall P l.

Definition decoded_message (m : Message) : Prop :=
  decoded_header (m_Header m) /\
  decoded_section decoded_question (h_QDCount (m_Header m)) (m_Questions m) /\
  decoded_section decoded_rr (h_ANCount (m_Header m)) (m_Answers m) /\
  decoded_section decoded_rr (h_NSCount (m_Header m)) (m_Authorities m) /\
  decoded_section decoded_rr (h_ARCount (m_Header m)) (m_Additionals m).

Lemma safe_section {A} count (m : decM A) P :
  is_u16 count -> safe m P -> safe (repeatM (Z.to_nat count) m) (decoded_section P count).
Proof.
  unfold is_u16. intros Hc H. eapply safe_mono; [by apply safe_repeat|].
  intros l [Hl HP]. split; [lia|done].
Qed.

Lemma safe_unpack_body : safe unpack_body decoded_message.
Proof.
  unfold unpack_body. eapply safe_bind; [apply safe_readHeader|].
  intros h (Hh & Hq & Han & Hns & Har).
  eapply safe_bind; [apply safe_section; [done|apply safe_readQuestion]|]. intros qs Hqs.
  do 3 (eapply safe_bind; [apply safe_section; [done|apply safe_readRR]|]; intros ? ?).
  apply safe_mret. by split_and!.
Qed.

(** C26: Whatever bytes arrive, [Unpack] terminates within its loop bound -
    however compression pointers loop - and either reports one of its errors or
    returns a message whose sections have exactly the announced lengths, whose
    integers fit their fields and whose names are made of at most 255 bytes of
    valid labels without a dot inside. *)
Theorem Unpack_total buf :
  bytes buf ->
  match Unpack buf with
  | Ok m => decoded_message m
  | Err e => e <> EOutOfFuel
  end.
Proof.
  intros Hb. pose proof (safe_unpack_body (MkDecoder buf 0) Hb ltac:(simpl; lia)) as H.
  unfold Unpack. destruct (unpack_body _) as [[m d]|e]; [by destruct H as (_ & _ & ?)|done].
Qed.

Lemma Unpack_decoded buf m : bytes buf -> Unpack buf = Ok m -> decoded_message m.
Proof.
  intros Hb E. pose proof (safe_unpack_body (MkDecoder buf 0) Hb ltac:(simpl; lia)) as H.
  unfold Unpack in E. destruct (unpack_body _) as [[m' d]|e]; simplify_eq.
  by destruct H as (_ & _ & ?).
Qed.

(** ** What was decoded can be sent on *)

Definition ascii_rdata (rr : RR) : Prop :=
  is_ascii (rr_NS rr) = true /\ is_ascii (rr_CNAME rr) = true /\
  forall s, rr_SOA rr = Some s -> is_ascii (soa_MName s) = true /\ is_ascii (soa_RName s) = true.

Definition ascii_rr (rr : RR) : Prop := is_ascii (rr_Name rr) = true /\ ascii_rdata rr.

Definition ascii_message (m : Message) : Prop :=
  Forall (fun q => is_ascii (q_Name q) = true) (m_Questions m) /\
  Forall ascii_rr (m_Answers m) /\ Forall ascii_rr (m_Authorities m) /\
  Forall ascii_rr (m_Additionals m).

Lemma decoded_name_ok n : decoded_name n -> is_ascii n = true -> name_ok n = true.
Proof.
  intros (ls & -> & Hv & Hd & Hw & _) Ha. unfold name_ok. rewrite Ha, trim_dot_join_name by done.
  assert (Hl : (length (Join dot ls) < maxNameLength)%nat).
  { destruct ls as [|l ls]; [vm_compute; lia|]. rewrite <-(length_Join dot) in Hw by done. lia. }
  rewrite bool_decide_true by done. simpl.
  destruct ls as [|l ls]; [done|]. rewrite Split_Join by done.
  apply orb_true_iff. right. apply forallb_forall. intros x Hx.
  apply list_elem_of_In in Hx. by apply (proj1 (Forall_forall _ _) Hv).
Qed.

Lemma decoded_soa_ok s :
  decoded_soa s -> is_ascii (soa_MName s) = true -> is_ascii (soa_RName s) = true -> soa_ok s.
Proof. intros (? & ? & ?) ? ?. split; [|split]; [by apply decoded_name_ok..|done]. Qed.

Lemma decoded_rdata_ok rr :
  is_u16 (rr_RDLength rr) -> decoded_rdata rr -> ascii_rdata rr -> rdata_ok rr.
Proof.
  unfold is_u16, decoded_rdata, ascii_rdata, rdata_ok. intros Hl Hd (Hns & Hcn & Hsoa).
  destruct (_ =? _).
  { destruct Hd as (b & -> & Hb & _). by rewrite To4_Some. }
  destruct (_ =? _).
  { destruct Hd as (b & -> & Hb & _). by rewrite To16_Some. }
  destruct (_ =? _); [by apply decoded_name_ok|].
  destruct (_ =? _); [by apply decoded_name_ok|].
  destruct (_ =? _).
  { destruct Hd as (s & Hs & Hd). exists s. split; [done|].
    destruct (Hsoa s Hs). by apply decoded_soa_ok. }
  destruct (_ =? _); [done|]. destruct (_ =? _); [done|]. lia.
Qed.

Lemma decoded_rr_ok rr : decoded_rr rr -> ascii_rr rr -> rr_ok rr.
Proof.
  intros (Hn & ? & ? & ? & ? & ?) [? ?].
  split_and!; try done; [by apply decoded_name_ok|by apply decoded_rdata_ok].
Qed.

Lemma decoded_section_ok {A} (P Q R : A -> Prop) count l :
  is_u16 count -> decoded_section P count l -> Forall Q l ->
  (forall x, P x -> Q x -> R x) -> section_ok R l.
Proof.
  unfold is_u16. intros Hc [Hl HP] HQ H. split; [lia|].
  apply Forall_forall. intros x Hx.
  apply H; [by apply (proj1 (Forall_forall _ _) HP)|by apply (proj1 (Forall_forall _ _) HQ)].
Qed.

Lemma decoded_message_ok m : decoded_message m -> ascii_message m -> message_ok m.
Proof.
  intros ((Hh & Hq & Han & Hns & Har) & Dq & Dan & Dns & Dar) (Aq & Aan & Ans & Aar).
  split; [done|]. split_and!.
  - eapply decoded_section_ok; [exact Hq|exact Dq|exact Aq|]. intros q (? & ? & ?) ?.
    split_and!; try done. by apply decoded_name_ok.
  - eapply decoded_section_ok; [exact Han|exact Dan|exact Aan|apply decoded_rr_ok].
  - eapply decoded_section_ok; [exact Hns|exact Dns|exact Ans|apply decoded_rr_ok].
  - eapply decoded_section_ok; [exact Har|exact Dar|exact Aar|apply decoded_rr_ok].
Qed.

(** The counts of a decoded message are already those of its sections. *)
Lemma decoded_counted m : decoded_message m -> counted_header m = m_Header m.
Proof.
  intros (_ & [Hq _] & [Han _] & [Hns _] & [Har _]). unfold counted_header.
  rewrite Hq, Han, Hns, Har. by destruct (m_Header m).
Qed.

(** C34: A message that arrived can be sent on: if [Unpack] accepts a buffer and
    the names in it are ASCII, [Pack] accepts the message, and unpacking again
    gives the same header, the same records in order and the same names up to
    case. *)
Theorem Pack_Unpack buf m :
  bytes buf -> Unpack buf = Ok m -> ascii_message m ->
  exists buf' m', Pack m = Ok buf' /\ Unpack buf' = Ok m' /\
    m_Header m' = m_Header m /\ message_sim m m'.
Proof.
  intros Hb Hu Ha. pose proof (Unpack_decoded _ _ Hb Hu) as Hd.
  destruct (emits_Pack _ _ _ (emits_message m (decoded_message_ok _ Hd Ha)))
    as (buf' & m' & Hp & _ & Hu' & Hs).
  exists buf', m'. split_and!; try done. destruct Hs as [-> _]. by apply decoded_counted.
Qed.
