(* ===== verification/DnssecRecords.v ===== *)
(** DNSSEC records ([dnsmsg/dnssec.go]): parsing the RDATA of DNSKEY, DS, RRSIG,
    NSEC and NSEC3 records, key tags and type bitmaps. *)

From S2P Require Import Prelude GoStrings GoNet DnsMsg Encoder Decoder WireSpec WireCalculus WireNames WireRoundTrip DecoderSafe.

Open Scope Z_scope.

Definition TypeDS : Z := 43.
Definition TypeRRSIG : Z := 46.
Definition TypeNSEC : Z := 47.
Definition TypeDNSKEY : Z := 48.
Definition TypeNSEC3 : Z := 50.

Definition DNSKEYFlagZoneKey : Z := 256.
Definition DNSKEYFlagSEP : Z := 1.
Definition NSEC3FlagOptOut : Z := 1.

Record DNSKEY := MkDNSKEY {
  dk_Flags : Z; dk_Protocol : Z; dk_Algorithm : Z; dk_PublicKey : list Z }.

Record RRSIG := MkRRSIG {
  sig_TypeCovered : Z; sig_Algorithm : Z; sig_Labels : Z; sig_OriginalTTL : Z;
  sig_Expiration : Z; sig_Inception : Z; sig_KeyTag : Z; sig_SignerName : gostring;
  sig_Signature : list Z }.

Record DS := MkDS { ds_KeyTag : Z; ds_Algorithm : Z; ds_DigestType : Z; ds_Digest : list Z }.

Record NSEC := MkNSEC { ns_NextDomain : gostring; ns_TypeBitmap : list Z }.

Record NSEC3 := MkNSEC3 {
  n3_Algorithm : Z; n3_Flags : Z; n3_Iterations : Z; n3_Salt : list Z;
  n3_NextHashed : list Z; n3_TypeBitmap : list Z }.

#[global] Instance DNSKEY_eq_dec : EqDecision DNSKEY.
Proof. solve_decision. Defined.
#[global] Instance DS_eq_dec : EqDecision DS.
Proof. solve_decision. Defined.
#[global] Instance RRSIG_eq_dec : EqDecision RRSIG.
Proof. solve_decision. Defined.
#[global] Instance NSEC_eq_dec : EqDecision NSEC.
Proof. solve_decision. Defined.
#[global] Instance NSEC3_eq_dec : EqDecision NSEC3.
Proof. solve_decision. Defined.

Definition OptOut (n : NSEC3) : bool := negb (Z.land (n3_Flags n) NSEC3FlagOptOut =? 0).

(** ** Parsers *)

Definition parseDNSKEY (raw : list Z) : result wire_error DNSKEY :=
  match raw with
  | f0 :: f1 :: proto :: alg :: key => Ok (MkDNSKEY (from_be16 f0 f1) proto alg key)
  | _ => Err EShortRData
  end.

Definition parseDS (raw : list Z) : result wire_error DS :=
  match raw with
  | t0 :: t1 :: alg :: dt :: digest => Ok (MkDS (from_be16 t0 t1) alg dt digest)
  | _ => Err EShortRData
  end.

(** The loop of [readUncompressedName]: [buf] is what is left of the RDATA, [off]
    what has been consumed.  Every round consumes a byte, so the length of the
    RDATA is fuel enough. *)
Fixpoint uncompressed_loop (fuel : nat) (buf : list Z) (off : nat) (labels : list gostring) :
    result wire_error (list gostring * nat) :=
  match fuel with
  | O => Err EOutOfFuel
  | S fuel =>
    match buf with
    | [] => Err EUnderrun
    | len :: buf =>
      if len =? 0 then Ok (reverse labels, S off)
      else if negb (Z.land len 192 =? 0) then Err EBadLabelByte
      else
        let length_ := Z.to_nat len in
        if bool_decide (length buf < length_)%nat then Err ELabelOverrun
        else uncompressed_loop fuel (drop length_ buf) (S off + length_) (take length_ buf :: labels)
    end
  end.

Definition readUncompressedName (buf : list Z) : result wire_error (gostring * nat) :=
  match uncompressed_loop (S (length buf)) buf 0 [] with
  | Ok (labels, off) => Ok (join_name labels, off)
  | Err e => Err e
  end.

Definition parseRRSIG (raw : list Z) : result wire_error RRSIG :=
  match raw with
  | c0 :: c1 :: alg :: labels :: o0 :: o1 :: o2 :: o3 :: e0 :: e1 :: e2 :: e3
    :: i0 :: i1 :: i2 :: i3 :: k0 :: k1 :: rest =>
    match readUncompressedName rest with
    | Ok (name, n) =>
      Ok (MkRRSIG (from_be16 c0 c1) alg labels (from_be32 o0 o1 o2 o3) (from_be32 e0 e1 e2 e3)
        (from_be32 i0 i1 i2 i3) (from_be16 k0 k1) name (drop n rest))
    | Err e => Err e
    end
  | _ => Err EShortRData
  end.

Definition parseNSEC (raw : list Z) : result wire_error NSEC :=
  match readUncompressedName raw with
  | Ok (name, n) => Ok (MkNSEC name (drop n raw))
  | Err e => Err e
  end.

Definition parseNSEC3 (raw : list Z) : result wire_error NSEC3 :=
  match raw with
  | alg :: flags :: i0 :: i1 :: saltLen :: body =>
    let saltLen := Z.to_nat saltLen in
    if bool_decide (length body < saltLen + 1)%nat then Err EShortRData
    else
      match drop saltLen body with
      | [] => Err EShortRData
      | hashLen :: rest =>
        let hashLen := Z.to_nat hashLen in
        if bool_decide (length rest < hashLen)%nat then Err EShortRData
        else Ok (MkNSEC3 alg flags (from_be16 i0 i1) (take saltLen body)
                   (take hashLen rest) (drop hashLen rest))
      end
  | _ => Err EShortRData
  end.

Definition ok_value {E A} (r : result E A) : option A :=
  match r with Ok a => Some a | Err _ => None end.

Definition AsDNSKEY (rr : RR) : option DNSKEY :=
  if rr_Type rr =? TypeDNSKEY then ok_value (parseDNSKEY (rr_Raw rr)) else None.
Definition AsDS (rr : RR) : option DS :=
  if rr_Type rr =? TypeDS then ok_value (parseDS (rr_Raw rr)) else None.
Definition AsRRSIG (rr : RR) : option RRSIG :=
  if rr_Type rr =? TypeRRSIG then ok_value (parseRRSIG (rr_Raw rr)) else None.
Definition AsNSEC (rr : RR) : option NSEC :=
  if rr_Type rr =? TypeNSEC then ok_value (parseNSEC (rr_Raw rr)) else None.
Definition AsNSEC3 (rr : RR) : option NSEC3 :=
  if rr_Type rr =? TypeNSEC3 then ok_value (parseNSEC3 (rr_Raw rr)) else None.

(** ** Keys *)

Definition key_rdata (k : DNSKEY) : list Z :=
  be16 (dk_Flags k) ++ [dk_Protocol k; dk_Algorithm k] ++ dk_PublicKey k.

(** The loop of [KeyTag]: [even] says that the index of the next byte is even;
    [sum] is a [uint32]. *)
Fixpoint tag_sum (even : bool) (sum : Z) (rdata : list Z) : Z :=
  match rdata with
  | [] => sum
  | b :: rdata => tag_sum (negb even) (u32 (sum + (if even then u32 (Z.shiftl b 8) else b))) rdata
  end.

Definition KeyTag (k : DNSKEY) : Z :=
  let sum := tag_sum true 0 (key_rdata k) in
  let sum := u32 (sum + Z.land (Z.shiftr sum 16) 65535) in
  u16 (Z.land sum 65535).

Definition IsZoneKey (k : DNSKEY) : bool := negb (Z.land (dk_Flags k) DNSKEYFlagZoneKey =? 0).

(** ** Type bitmaps *)

Fixpoint bitmap_loop (fuel : nat) (buf : list Z) (t : Z) : bool :=
  match fuel with
  | O => false
  | S fuel =>
    match buf with
    | window :: len :: rest =>
      let len := Z.to_nat len in
      if bool_decide (length rest < len)%nat then false
      else if window =? Z.shiftr t 8 then
        let offset := Z.land t 255 in
        match take len rest !! Z.to_nat (offset / 8) with
        | Some b => negb (Z.land b (Z.shiftr 128 (offset mod 8)) =? 0)
        | None => false
        end
      else bitmap_loop fuel (drop len rest) t
    | _ => false
    end
  end.

(** Every round drops at least the two header bytes of a window. *)
Definition typeInBitmap (buf : list Z) (t : Z) : bool := bitmap_loop (S (length buf)) buf t.

Definition NSEC_TypeInBitmap (n : NSEC) (t : Z) : bool := typeInBitmap (ns_TypeBitmap n) t.
Definition NSEC3_TypeInBitmap (n : NSEC3) (t : Z) : bool := typeInBitmap (n3_TypeBitmap n) t.

(** ** Parsing terminates and stays inside the RDATA *)

Lemma uncompressed_loop_total fuel : forall buf off acc,
  bytes buf -> (length buf < fuel)%nat ->
  match uncompressed_loop fuel buf off acc with
  | Ok (ls, n) => (off < n <= off + length buf)%nat /\
      exists ls', ls = reverse acc ++ ls' /\ Forall (fun l => valid_label l = true) ls' /\
        take (n - off) buf = wire_labels ls' ++ [0]
  | Err e => e <> EOutOfFuel
  end.
Proof.
  induction fuel as [|fuel IH]; intros buf off acc Hb Hf; [lia|].
  cbn [uncompressed_loop]. destruct buf as [|len buf]; [done|].
  apply Forall_cons in Hb as [Hlen Hb]. simpl length in Hf.
  destruct (Z.eqb_spec len 0) as [->|Hnz].
  { simpl length. split; [lia|]. exists []. rewrite app_nil_r. split_and!; [done|constructor|].
    by replace (S off - off)%nat with 1%nat by lia. }
  destruct (Z.eqb_spec (Z.land len 192) 0) as [H0|]; [|done]. simpl negb. cbv iota.
  case_bool_decide as Hl; [done|]. pose proof (label_byte _ Hlen H0) as H64.
  set (k := Z.to_nat len) in *.
  specialize (IH (drop k buf) (S off + k)%nat (take k buf :: acc)).
  destruct (uncompressed_loop _ _ _ _) as [[ls n]|e].
  - destruct IH as (Hn & ls' & -> & Hv & Ht); [by apply Forall_drop|rewrite length_drop; lia|].
    rewrite length_drop in Hn. simpl length. split; [lia|].
    exists (take k buf :: ls'). rewrite reverse_cons, <-app_assoc. split_and!; [done| |].
    + constructor; [|done]. unfold valid_label, maxLabelLength. rewrite length_take.
      rewrite bool_decide_false, bool_decide_true by lia. done.
    + change (wire_labels (take k buf :: ls')) with (wire_label (take k buf) ++ wire_labels ls').
      rewrite <-app_assoc, <-Ht. unfold wire_label.
      assert (Hk : length (take k buf) = k) by (rewrite length_take; lia). rewrite Hk.
      replace (n - off)%nat with (S (k + (n - (S off + k))))%nat by lia. cbn [take app].
      rewrite u8_small by (unfold is_u8, k; lia).
      replace (Z.of_nat k) with len by (unfold k; lia). f_equal.
      rewrite <-(take_drop k buf) at 1. rewrite take_app, Hk, take_ge by lia.
      by replace (k + (n - (S off + k)) - k)%nat with (n - (S off + k))%nat by lia.
  - apply IH; [by apply Forall_drop|rewrite length_drop; lia].
Qed.

(** What was consumed is exactly the uncompressed wire form of the name. *)
Lemma readUncompressedName_spec buf :
  bytes buf ->
  match readUncompressedName buf with
  | Ok (name, n) => (0 < n <= length buf)%nat /\
      exists ls, name = join_name ls /\ Forall (fun l => valid_label l = true) ls /\
        buf = wire_labels ls ++ [0] ++ drop n buf
  | Err e => e <> EOutOfFuel
  end.
Proof.
  intros Hb. pose proof (uncompressed_loop_total (S (length buf)) buf 0 [] Hb ltac:(lia)) as H.
  unfold readUncompressedName. destruct (uncompressed_loop _ _ _ _) as [[ls n]|e]; [|done].
  destruct H as (Hn & ls' & -> & Hv & Ht). split; [lia|]. exists ls'. split_and!; [done..|].
  rewrite app_assoc, <-Ht, Nat.sub_0_r. by rewrite take_drop.
Qed.

Lemma uncompressed_loop_labels ls : forall fuel off acc rest,
  Forall (fun l => valid_label l = true) ls ->
  (length (wire_labels ls ++ [0%Z] ++ rest) < fuel)%nat ->
  uncompressed_loop fuel (wire_labels ls ++ [0] ++ rest) off acc =
  Ok (reverse acc ++ ls, (off + length (wire_labels ls ++ [0%Z]))%nat).
Proof.
  induction ls as [|l ls IH]; intros fuel off acc rest Hv Hf.
  - destruct fuel as [|fuel]; [lia|]. simpl. by rewrite app_nil_r, Nat.add_1_r.
  - apply Forall_cons in Hv as [Hl Hv]. pose proof (label_length _ Hl) as H63.
    change (wire_labels (l :: ls)) with (wire_label l ++ wire_labels ls) in *.
    rewrite <-!app_assoc in *. destruct fuel as [|fuel]; [lia|].
    unfold wire_label in *. rewrite u8_small in * by (unfold is_u8; lia). simpl app in *.
    cbn [uncompressed_loop].
    destruct (Z.eqb_spec (Z.of_nat (length l)) 0); [lia|].
    rewrite land_192_small by lia. cbn [negb Z.eqb]. rewrite Nat2Z.id.
    change (0 =? 0) with true. cbn [negb]. cbv iota.
    rewrite bool_decide_false by (rewrite length_app; lia).
    rewrite drop_app_length, take_app_length.
    rewrite IH; [|done|simpl in Hf; rewrite length_app in Hf; lia].
    rewrite reverse_cons, <-app_assoc. f_equal. f_equal.
    simpl. rewrite !length_app. lia.
Qed.

(** Reading an uncompressed name back. *)
Lemma readUncompressedName_wire ls rest :
  Forall (fun l => valid_label l = true) ls ->
  readUncompressedName (wire_labels ls ++ [0] ++ rest) =
  Ok (join_name ls, length (wire_labels ls ++ [0])).
Proof.
  intros Hv. unfold readUncompressedName.
  rewrite uncompressed_loop_labels by (done || lia). done.
Qed.

(** ** RDATA round trips *)

(** The RDATA of a signature, as RFC 4034 3.1 lays it out around the wire form
    [signer] of the signer's name. *)
Definition rrsig_rdata (s : RRSIG) (signer : list Z) : list Z :=
  be16 (sig_TypeCovered s) ++ [sig_Algorithm s; sig_Labels s] ++ be32 (sig_OriginalTTL s) ++
  be32 (sig_Expiration s) ++ be32 (sig_Inception s) ++ be16 (sig_KeyTag s) ++ signer ++
  sig_Signature s.

Definition rrsig_ok (s : RRSIG) : Prop :=
  is_u16 (sig_TypeCovered s) /\ is_u8 (sig_Algorithm s) /\ is_u8 (sig_Labels s) /\
  is_u32 (sig_OriginalTTL s) /\ is_u32 (sig_Expiration s) /\ is_u32 (sig_Inception s) /\
  is_u16 (sig_KeyTag s).

Lemma parseRRSIG_build s ls :
  rrsig_ok s -> Forall (fun l => valid_label l = true) ls -> sig_SignerName s = join_name ls ->
  parseRRSIG (rrsig_rdata s (wire_labels ls ++ [0])) = Ok s.
Proof.
  intros (H1 & H2 & H3 & H4 & H5 & H6 & H7) Hv Hn. unfold rrsig_rdata, be16, be32. simpl app.
  unfold parseRRSIG. rewrite <-app_assoc, readUncompressedName_wire by done.
  rewrite (app_assoc _ [0]), drop_app_length.
  rewrite !be16_roundtrip, !be32_roundtrip, !u16_small, !u32_small by done.
  rewrite <-Hn. by destruct s.
Qed.

(** [parseRRSIG] reads exactly the RRSIG wire format: bytes parse to a
    signature if and only if they are the encoding of its fields around an
    uncompressed signer name made of valid labels; nothing is lost and no other
    bytes are accepted. *)
Theorem parseRRSIG_exact raw s :
  bytes raw ->
  parseRRSIG raw = Ok s <->
  exists ls, rrsig_ok s /\ Forall (fun l => valid_label l = true) ls /\
    sig_SignerName s = join_name ls /\ raw = rrsig_rdata s (wire_labels ls ++ [0]).
Proof.
  intros Hb. split; [|intros (ls & Hok & Hv & Hn & ->); by apply parseRRSIG_build].
  intros H. unfold parseRRSIG in H. do 18 (destruct raw as [|? raw]; [done|]).
  do 18 (apply Forall_cons in Hb as [? Hb]).
  pose proof (readUncompressedName_spec raw Hb) as Hr.
  destruct (readUncompressedName raw) as [[name n]|e]; [|done].
  destruct Hr as (_ & ls & -> & Hv & Hraw). injection H as <-.
  exists ls. unfold rrsig_ok, rrsig_rdata. cbn [sig_TypeCovered sig_Algorithm sig_Labels
    sig_OriginalTTL sig_Expiration sig_Inception sig_KeyTag sig_SignerName sig_Signature].
  split_and!; try done; try (by auto with widths).
  rewrite !be16_from_be16, !be32_from_be32 by done. simpl. do 18 f_equal.
  by rewrite <-app_assoc.
Qed.

Lemma parseDNSKEY_rdata raw k :
  bytes raw -> parseDNSKEY raw = Ok k -> key_rdata k = raw.
Proof.
  intros Hb H. unfold parseDNSKEY in H. do 4 (destruct raw as [|? raw]; [done|]).
  apply Forall_cons in Hb as [H0 [H1 _]%Forall_cons]. injection H as <-.
  unfold key_rdata. cbn [dk_Flags dk_Protocol dk_Algorithm dk_PublicKey]. by rewrite be16_from_be16.
Qed.

(** The RDATA of an NSEC3 record (RFC 5155 3.2). *)
Definition nsec3_rdata (n : NSEC3) : list Z :=
  [n3_Algorithm n; n3_Flags n] ++ be16 (n3_Iterations n) ++
  [Z.of_nat (length (n3_Salt n))] ++ n3_Salt n ++
  [Z.of_nat (length (n3_NextHashed n))] ++ n3_NextHashed n ++ n3_TypeBitmap n.

(** [parseNSEC3] reads exactly the NSEC3 wire format: every slice it takes is
    inside the RDATA, and rebuilding the parsed record gives the bytes back. *)
Theorem parseNSEC3_exact raw n :
  bytes raw -> parseNSEC3 raw = Ok n -> nsec3_rdata n = raw.
Proof.
  intros Hb H. unfold parseNSEC3 in H. do 5 (destruct raw as [|? raw]; [done|]).
  do 5 (apply Forall_cons in Hb as [? Hb]).
  case_bool_decide as Hl; [done|]. set (k := Z.to_nat z3) in *.
  destruct (drop k raw) as [|h rest] eqn:Hd; [done|]. case_bool_decide as Hl2; [done|].
  injection H as <-. unfold nsec3_rdata. cbn [n3_Algorithm n3_Flags n3_Iterations n3_Salt
    n3_NextHashed n3_TypeBitmap]. rewrite be16_from_be16 by done.
  assert (Hh : is_u8 h).
  { eapply bytes_lookup; [exact Hb|]. instantiate (1 := k). rewrite <-(Nat.add_0_r k).
    by rewrite <-lookup_drop, Hd. }
  unfold is_u8 in *. rewrite !length_take, !Nat.min_l by lia. unfold k. rewrite !Z2Nat.id by lia.
  simpl. do 5 f_equal. rewrite take_drop. fold k. rewrite <-Hd. apply take_drop.
Qed.

(** ** Key tags *)

(** The checksum of RFC 4034 appendix B in unbounded arithmetic. *)
Fixpoint tag_total (even : bool) (rdata : list Z) : Z :=
  match rdata with
  | [] => 0
  | b :: rdata => (if even then b * 256 else b) + tag_total (negb even) rdata
  end.

Lemma tag_total_bound even rdata :
  bytes rdata -> 0 <= tag_total even rdata <= 65280 * Z.of_nat (length rdata).
Proof.
  intros Hb. revert even. induction Hb as [|b l Hb _ IH]; intros even; [simpl; lia|].
  unfold is_u8 in Hb. cbn [tag_total length]. specialize (IH (negb even)). destruct even; lia.
Qed.

Lemma tag_total_pairs rdata :
  bytes rdata -> tag_total true rdata <= 32768 * (Z.of_nat (length rdata) + 1).
Proof.
  remember (length rdata) as n eqn:Hn. revert rdata Hn.
  induction (lt_wf n) as [n _ IH]. intros [|a [|b l]] Hn Hb; simpl in Hn; subst n; simpl; [lia| |].
  - apply Forall_cons in Hb as [Ha _]. unfold is_u8 in Ha. lia.
  - apply Forall_cons in Hb as [Ha [Hb Hl]%Forall_cons]. unfold is_u8 in Ha, Hb.
    assert (Hlt : (length l < S (S (length l)))%nat) by lia.
    pose proof (IH (length l) Hlt l eq_refl Hl). lia.
Qed.

Lemma tag_sum_total even sum rdata :
  bytes rdata -> 0 <= sum -> sum + tag_total even rdata < 2 ^ 32 ->
  tag_sum even sum rdata = sum + tag_total even rdata.
Proof.
  intros Hb. revert even sum. induction Hb as [|b l Hb Hl IH]; intros even sum H0 Hlt; [simpl; lia|].
  cbn [tag_sum tag_total] in *. pose proof (tag_total_bound (negb even) l Hl).
  unfold is_u8 in Hb. rewrite Z.shiftl_mul_pow2 by lia.
  rewrite (u32_small (b * _)) by (unfold is_u32; lia).
  rewrite u32_small by (unfold is_u32; destruct even; lia).
  rewrite IH by (destruct even; lia). destruct even; lia.
Qed.

(** The key tag is the checksum of RFC 4034: for any key whose RDATA fits in
    a record the 32-bit accumulator never overflows, so the tag is the folded
    sum of the RDATA's 16-bit words. *)
Theorem KeyTag_sum k :
  bytes (key_rdata k) -> Z.of_nat (length (key_rdata k)) <= 65535 ->
  KeyTag k = (tag_total true (key_rdata k) + tag_total true (key_rdata k) / 65536) mod 65536.
Proof.
  intros Hb Hl. unfold KeyTag. pose proof (tag_total_bound true _ Hb) as [H0 _].
  pose proof (tag_total_pairs _ Hb) as H1.
  rewrite tag_sum_total by (done || lia). rewrite Z.add_0_l.
  set (s := tag_total true (key_rdata k)) in *.
  change 65535 with (Z.ones 16). rewrite !Z.land_ones, Z.shiftr_div_pow2 by lia.
  change (2 ^ 16) with 65536. unfold u16. change (2 ^ 16) with 65536. rewrite Z.mod_mod by lia.
  rewrite (Z.mod_small (s / 65536)) by zlia.
  by rewrite u32_small by (unfold is_u32; zlia).
Qed.

(** ** Type bitmaps *)

(** A bitmap field (RFC 4034 4.1.2): windows of up to 32 bytes, one bit per type,
    the high-order bit first. *)
Definition bit_at (bs : list Z) (i : Z) : bool :=
  match bs !! Z.to_nat (i / 8) with
  | Some b => Z.testbit b (7 - i mod 8)
  | None => false
  end.

Definition block : Type := Z * list Z.
Definition encode_block (b : block) : list Z := b.1 :: Z.of_nat (length b.2) :: b.2.
Definition encode_bitmap (bl : list block) : list Z := concat (map encode_block bl).

(** The types a bitmap lists; of two windows with one number the first counts. *)
Fixpoint lists_type (bl : list block) (t : Z) : bool :=
  match bl with
  | [] => false
  | (w, bs) :: bl => if w =? t / 256 then bit_at bs (t mod 256) else lists_type bl t
  end.

Lemma land_pow2 b n : 0 <= n -> negb (Z.land b (2 ^ n) =? 0) = Z.testbit b n.
Proof.
  intros Hn. destruct (Z.eqb_spec (Z.land b (2 ^ n)) 0) as [H|H]; simpl.
  - apply (f_equal (fun z => Z.testbit z n)) in H.
    rewrite Z.land_spec, Z.pow2_bits_true, Z.bits_0, andb_true_r in H by done. done.
  - destruct (Z.testbit b n) eqn:E; [done|]. exfalso. apply H. apply Z.bits_inj'. intros k Hk.
    rewrite Z.land_spec, Z.bits_0, Z.pow2_bits_eqb by done.
    destruct (Z.eqb_spec n k) as [<-|]; [by rewrite E|by rewrite andb_false_r].
Qed.

Lemma shiftr_128 k : 0 <= k < 8 -> Z.shiftr 128 k = 2 ^ (7 - k).
Proof.
  intros Hk. change 128 with (2 ^ 7). rewrite Z.shiftr_div_pow2 by lia.
  replace (2 ^ 7) with (2 ^ (7 - k) * 2 ^ k) by (rewrite <-Z.pow_add_r by lia; f_equal; lia).
  apply Z.div_mul. lia.
Qed.

Lemma bitmap_loop_blocks bl : forall fuel t,
  is_u16 t -> (length (encode_bitmap bl) < fuel)%nat ->
  bitmap_loop fuel (encode_bitmap bl) t = lists_type bl t.
Proof.
  unfold is_u16. induction bl as [|[w bs] bl IH]; intros fuel t Ht Hf.
  { destruct fuel; [lia|done]. }
  destruct fuel as [|fuel]; [lia|].
  change (encode_bitmap ((w, bs) :: bl)) with (w :: Z.of_nat (length bs) :: bs ++ encode_bitmap bl) in *.
  cbn [bitmap_loop lists_type]. rewrite Nat2Z.id, Z.shiftr_div_pow2 by lia. change (2 ^ 8) with 256.
  rewrite bool_decide_false by (rewrite length_app; lia).
  rewrite take_app_length, drop_app_length. destruct (w =? t / 256).
  - change 255 with (Z.ones 8). rewrite Z.land_ones by lia. change (2 ^ 8) with 256.
    unfold bit_at. destruct (bs !! _) as [b|]; [|done].
    rewrite shiftr_128 by (apply Z.mod_pos_bound; lia). apply land_pow2.
    pose proof (Z.mod_pos_bound (t mod 256) 8). lia.
  - apply IH; [done|]. simpl in Hf. rewrite length_app in Hf. lia.
Qed.

(** [TypeInBitmap] answers for every well-formed bitmap field: the type is in
    it exactly if its bit is set in its window, whatever windows and lengths the
    field has. *)
Theorem typeInBitmap_spec bl t :
  is_u16 t -> typeInBitmap (encode_bitmap bl) t = lists_type bl t.
Proof. intros Ht. apply bitmap_loop_blocks; [done|lia]. Qed.
