(* ===== verification/DnssecNames.v ===== *)
(** Domain names as package [dnssec] sees them: the name helpers of [verify.go]
    and the canonical ordering of [denial.go].

    A name's position in the tree is its [key]: its lower-cased labels, top of the
    tree first.  Ancestors are prefixes of the key, and the canonical order of
    RFC 4034 6.1 is the lexicographic order on keys. *)

From S2P Require Import Prelude GoUnicode GoStrings GoNet DnsMsg Encoder Decoder WireSpec WireCalculus WireNames WireRoundTrip.

Open Scope Z_scope.

(** ** The code *)

Definition splitName (name : gostring) : list gostring :=
  let name := trim_dot name in
  if bool_decide (name = []) then [] else Split dot name.

Definition equalName (a b : gostring) : bool := EqualFold (trim_dot a) (trim_dot b).

Definition isSubdomainOrEqual (name zone : gostring) : bool :=
  let name := ToLower (trim_dot name) in
  let zone := ToLower (trim_dot zone) in
  if bool_decide (zone = []) || bool_decide (name = zone) then true
  else HasSuffix name (dot :: zone).

Definition isProperSubdomain (name zone : gostring) : bool :=
  negb (equalName name zone) && isSubdomainOrEqual name zone.

(** The loop of [CompareNames], from the last labels on: its arguments are the
    label lists reversed. *)
Fixpoint compare_labels (al bl : list gostring) : comparison :=
  match al, bl with
  | [], [] => Eq
  | [], _ :: _ => Lt
  | _ :: _, [] => Gt
  | a :: al, b :: bl =>
    match Compare a b with Eq => compare_labels al bl | c => c end
  end.

(** [Lt], [Eq] and [Gt] stand for the results -1, 0 and 1. *)
Definition CompareNames (a b : gostring) : comparison :=
  compare_labels (reverse (splitName (ToLower a))) (reverse (splitName (ToLower b))).

(** The loop of [commonSuffix]: the number of labels shared at the end. *)
Fixpoint shared_labels (al bl : list gostring) : nat :=
  match al, bl with
  | a :: al, b :: bl => if bool_decide (a = b) then S (shared_labels al bl) else 0%nat
  | _, _ => 0%nat
  end.

Definition commonSuffix (a b : gostring) : gostring :=
  let al := splitName (ToLower a) in
  let bl := splitName (ToLower b) in
  let shared := shared_labels (reverse al) (reverse bl) in
  if bool_decide (shared = 0%nat) then []
  else Join dot (drop (length al - shared) al).

(** ** Keys *)

Definition key (name : gostring) : list gostring := reverse (splitName (ToLower name)).

Lemma splitName_labels_of name : splitName name = labels_of name.
Proof. done. Qed.

Lemma Join_splitName name : Join dot (splitName name) = trim_dot name.
Proof. apply Join_labels_of. Qed.

Lemma last_ToLower_dot s : last s <> Some dot -> last (ToLower s) <> Some dot.
Proof.
  intros Hs [t Ht]%last_Some. apply Hs.
  pose proof (Split_ToLower s) as E. rewrite Ht, Split_app in E. symmetry in E.
  apply map_eq_app in E as (pre & suf & Hsp & Hpre & Hsuf).
  destruct suf as [|l [|]]; [done| |done]. injection Hsuf as Hl. apply ToLower_nil_iff in Hl as ->.
  assert (Hne : pre <> []) by (intros ->; by apply (Split_not_nil dot t)).
  rewrite <-(Join_Split dot s), Hsp, Join_app by done. simpl. apply last_snoc.
Qed.

(** Lower-casing and dropping the root dot commute. *)
Lemma trim_dot_ToLower s : trim_dot (ToLower s) = ToLower (trim_dot s).
Proof.
  destruct (decide (last s = Some dot)) as [[t ->]%last_Some|H].
  - rewrite trim_dot_snoc. change [dot] with (dot :: []). rewrite ToLower_app_dot.
    apply trim_dot_snoc.
  - by rewrite !trim_dot_id by (try apply last_ToLower_dot; done).
Qed.

Lemma splitName_ToLower s : splitName (ToLower s) = map ToLower (splitName s).
Proof.
  unfold splitName. rewrite trim_dot_ToLower.
  destruct (decide (trim_dot s = [])) as [->|H]; [done|].
  rewrite !bool_decide_false; [apply Split_ToLower|done|by rewrite ToLower_nil_iff].
Qed.

Lemma key_map s : key s = reverse (map ToLower (splitName s)).
Proof. unfold key. by rewrite splitName_ToLower. Qed.

Lemma Join_key s : Join dot (reverse (key s)) = ToLower (trim_dot s).
Proof. unfold key. by rewrite reverse_involutive, Join_splitName, trim_dot_ToLower. Qed.

(** Two names have one key exactly if they are the same up to case and the root
    dot. *)
Lemma key_eq_iff a b : key a = key b <-> ToLower (trim_dot a) = ToLower (trim_dot b).
Proof.
  split; intros H; [by rewrite <-!Join_key, H|].
  unfold key, splitName. by rewrite !trim_dot_ToLower, H.
Qed.

Lemma key_nil_iff s : key s = [] <-> trim_dot s = [].
Proof.
  rewrite <-(ToLower_nil_iff (trim_dot s)). change [] with (key []) at 1.
  rewrite key_eq_iff. done.
Qed.

Lemma EqualFold_ascii a b :
  is_ascii a = true -> is_ascii b = true -> EqualFold a b = bool_decide (ToLower a = ToLower b).
Proof.
  assert (Hm : forall s, is_ascii s = true -> map fold_rune (runes s) = ToLower s).
  { intros s Hs. unfold ToLower. rewrite Hs, runes_ascii by done. apply map_ext_in.
    intros x Hx. unfold is_ascii in Hs. rewrite forallb_forall in Hs.
    unfold fold_rune. by rewrite (Hs x Hx). }
  intros Ha Hb. unfold EqualFold. by rewrite !Hm.
Qed.

Lemma equalName_ascii a b :
  is_ascii a = true -> is_ascii b = true -> equalName a b = bool_decide (key a = key b).
Proof.
  intros Ha Hb. unfold equalName. rewrite EqualFold_ascii by by apply is_ascii_trim.
  apply bool_decide_ext. by rewrite key_eq_iff.
Qed.

(** ** Subdomains are prefixes of keys *)

Lemma HasSuffix_spec s suf : HasSuffix s suf = true <-> exists pre, s = pre ++ suf.
Proof.
  unfold HasSuffix. rewrite andb_true_iff, !bool_decide_eq_true. split.
  - intros [Hl Hd]. exists (take (length s - length suf) s). rewrite <-Hd at 2. by rewrite take_drop.
  - intros [pre ->]. rewrite length_app. split; [lia|].
    by replace (length pre + length suf - length suf)%nat with (length pre) by lia;
      rewrite drop_app_length.
Qed.

Lemma prefix_reverse {A} (a b : list A) : reverse a `prefix_of` reverse b <-> a `suffix_of` b.
Proof. by rewrite <-suffix_prefix_reverse. Qed.

(** For names in their final form: a dot and the zone behind it, or all of it. *)
Lemma suffix_Split a b :
  Split dot a `suffix_of` Split dot b <-> a = b \/ exists pre, b = pre ++ dot :: a.
Proof.
  split.
  - intros [pre Hp]. destruct (decide (pre = [])) as [->|Hne].
    + left. by rewrite <-(Join_Split dot b), Hp, app_nil_l, Join_Split.
    + right. exists (Join dot pre).
      rewrite <-(Join_Split dot b), Hp, Join_app by (done || apply Split_not_nil).
      by rewrite Join_Split.
  - intros [->|[pre ->]]; [done|]. rewrite Split_app. by apply suffix_app_r.
Qed.

Lemma isSubdomainOrEqual_suffix name zone :
  isSubdomainOrEqual name zone = true <->
  map ToLower (splitName zone) `suffix_of` map ToLower (splitName name).
Proof.
  rewrite <-!splitName_ToLower. unfold isSubdomainOrEqual, splitName. rewrite !trim_dot_ToLower.
  set (n := ToLower (trim_dot name)). set (z := ToLower (trim_dot zone)).
  destruct (decide (z = [])) as [->|Hz].
  { simpl. split; [|done]. intros _. apply suffix_nil. }
  rewrite (bool_decide_false (z = [])) by done. simpl.
  destruct (decide (n = [])) as [->|Hn].
  { rewrite bool_decide_false by done. split; [by intros (pre & ?%eq_sym%app_nil)%HasSuffix_spec; naive_solver|].
    intros H%suffix_nil_inv. by apply Split_not_nil in H. }
  rewrite (bool_decide_false (n = [])) by done. rewrite suffix_Split.
  case_bool_decide as E; [naive_solver|]. rewrite HasSuffix_spec. naive_solver.
Qed.

(** The suffix test on strings is the test on labels: [isSubdomainOrEqual]
    holds exactly if the zone's labels, lower-cased, are the last labels of the
    name - never across a label boundary, always for the root. *)
Theorem isSubdomainOrEqual_labels name zone :
  isSubdomainOrEqual name zone = true <->
  map ToLower (splitName zone) `suffix_of` map ToLower (splitName name).
Proof. apply isSubdomainOrEqual_suffix. Qed.

(** ** Canonical order *)

(** Comparison functions that decide a total order. *)
Class TotalOrder {A} (cmp : A -> A -> comparison) : Prop := {
  cmp_eq a b : cmp a b = Eq <-> a = b;
  cmp_opp a b : cmp b a = CompOpp (cmp a b);
  cmp_trans a b c : cmp a b = Lt -> cmp b c = Lt -> cmp a c = Lt }.

Section lexicographic.
Context {A} (cmp : A -> A -> comparison) `{TotalOrder A cmp}.

Fixpoint lex (l1 l2 : list A) : comparison :=
  match l1, l2 with
  | [], [] => Eq
  | [], _ :: _ => Lt
  | _ :: _, [] => Gt
  | a :: l1, b :: l2 => match cmp a b with Eq => lex l1 l2 | c => c end
  end.

Lemma cmp_refl a : cmp a a = Eq.
Proof. by apply cmp_eq. Qed.

#[export] Instance lex_order : TotalOrder lex.
Proof.
  split.
  - induction a as [|x a IH]; intros [|y b]; simpl; try done.
    destruct (cmp x y) eqn:E; [apply cmp_eq in E as ->; rewrite IH; naive_solver|..];
      (split; [done|]); intros [= -> ->]; by rewrite cmp_refl in E.
  - induction a as [|x a IH]; intros [|y b]; simpl; try done.
    rewrite cmp_opp. by destruct (cmp x y); simpl.
  - induction a as [|x a IH]; intros [|y b] [|z c]; simpl; try done.
    destruct (cmp x y) eqn:E1; [apply cmp_eq in E1 as ->| |done].
    + destruct (cmp y z); [by apply IH|done..].
    + intros _. destruct (cmp y z) eqn:E2; [apply cmp_eq in E2 as ->| |done].
      * by rewrite E1.
      * by rewrite (cmp_trans _ _ _ E1 E2).
Qed.

(** A prefix never comes after what extends it... *)
Lemma lex_prefix p l : p `prefix_of` l -> lex p l <> Gt.
Proof.
  intros [s ->]. induction p as [|x p IH]; simpl; [by destruct s|]. by rewrite cmp_refl.
Qed.

(** ... and the extensions of a prefix are an interval starting at it. *)
Lemma lex_interval p m l :
  p `prefix_of` l -> lex p m <> Gt -> lex m l <> Gt -> p `prefix_of` m.
Proof.
  intros [s ->]. revert m. induction p as [|x p IH]; intros [|y m]; simpl;
    [intros; apply prefix_nil..|congruence|].
  rewrite (cmp_opp (cmp := cmp) x y). destruct (cmp x y) eqn:E; simpl; [|congruence..].
  pose proof (proj1 (cmp_eq (cmp := cmp) x y) E) as ->. intros. apply prefix_cons. by apply IH.
Qed.
End lexicographic.

#[export] Instance Z_order : TotalOrder Z.compare.
Proof.
  split; intros a b; [apply Z.compare_eq_iff|apply Z.compare_antisym|].
  intros c. rewrite !Z.compare_lt_iff. lia.
Qed.

Lemma Compare_lex a b : Compare a b = lex Z.compare a b.
Proof. revert b. induction a as [|x a IH]; intros [|y b]; simpl; [done..|]. by rewrite IH. Qed.

#[export] Instance Compare_order : TotalOrder Compare.
Proof.
  split; intros a b; rewrite ?Compare_lex; [apply cmp_eq|apply cmp_opp|].
  intros c. rewrite ?Compare_lex. apply cmp_trans.
Qed.

Lemma compare_labels_lex a b : compare_labels a b = lex Compare a b.
Proof. revert b. induction a as [|x a IH]; intros [|y b]; simpl; [done..|]. by rewrite IH. Qed.

Lemma CompareNames_key a b : CompareNames a b = lex Compare (key a) (key b).
Proof. apply compare_labels_lex. Qed.

Lemma isSubdomainOrEqual_key name zone :
  isSubdomainOrEqual name zone = true <-> key zone `prefix_of` key name.
Proof.
  rewrite isSubdomainOrEqual_suffix, !key_map. symmetry. apply prefix_reverse.
Qed.

(** [CompareNames] is the canonical order of RFC 4034: a total order on names
    up to case and the root dot, in which every name comes after its ancestors
    and the descendants of a name are an interval. *)
Theorem CompareNames_canonical a b c :
  (CompareNames a b = Eq <-> ToLower (trim_dot a) = ToLower (trim_dot b)) /\
  CompareNames b a = CompOpp (CompareNames a b) /\
  (CompareNames a b = Lt -> CompareNames b c = Lt -> CompareNames a c = Lt) /\
  (isSubdomainOrEqual b a = true -> CompareNames a b <> Gt) /\
  (isSubdomainOrEqual c a = true -> CompareNames a b <> Gt -> CompareNames b c <> Gt ->
   isSubdomainOrEqual b a = true).
Proof.
  rewrite !CompareNames_key, <-key_eq_iff.
  rewrite !isSubdomainOrEqual_key. split_and!.
  - apply cmp_eq.
  - apply cmp_opp.
  - apply cmp_trans.
  - apply lex_prefix, _.
  - apply lex_interval, _.
Qed.

(** ** Common ancestors *)

(** Names as the decoder produces them for ASCII zones: no empty label. *)
Definition name_wf (name : gostring) : bool :=
  is_ascii name && forallb (fun l => negb (bool_decide (l = []))) (splitName name).

Lemma name_wf_spec name :
  name_wf name = true -> is_ascii name = true /\ Forall (fun l => l <> []) (splitName name).
Proof.
  unfold name_wf. intros [Ha Hl]%andb_true_iff. split; [done|].
  apply Forall_forall. intros l Hin%list_elem_of_In. rewrite forallb_forall in Hl.
  specialize (Hl l Hin). by case_bool_decide.
Qed.

Lemma is_ascii_ToLower s : is_ascii s = true -> is_ascii (ToLower s) = true.
Proof.
  intros Ha. unfold ToLower. rewrite Ha. unfold is_ascii in *. rewrite forallb_forall in *.
  intros x (y & <- & Hy)%in_map_iff. specialize (Ha y Hy). pose proof (lower_ascii_bound y). lia.
Qed.

Lemma ToLower_idem s : is_ascii s = true -> ToLower (ToLower s) = ToLower s.
Proof.
  intros Ha. pose proof (is_ascii_ToLower s Ha) as Hl. unfold ToLower at 1. rewrite Hl. unfold ToLower. rewrite Ha, map_map. apply map_ext.
  intros x. unfold lower_ascii. repeat case_match; lia.
Qed.

(** A list of labels is the key of a name. *)
Definition labels_wf (ls : list gostring) : Prop :=
  Forall (fun l => l <> [] /\ no_sep dot l /\ ToLower l = l /\ is_ascii l = true) ls.

Lemma key_Join ls : labels_wf ls -> key (Join dot ls) = reverse ls.
Proof.
  intros H. rewrite key_map. assert (Hs : splitName (Join dot ls) = ls).
  { assert (Hne : Forall (fun l => l <> []) ls) by (eapply Forall_impl; [exact H|naive_solver]).
    assert (Hns : Forall (no_sep dot) ls) by (eapply Forall_impl; [exact H|naive_solver]).
    unfold splitName. rewrite trim_dot_Join by done. case_bool_decide as E.
    - by apply Join_nil_iff in E.
    - apply Split_Join; [|done]. by intros ->. }
  rewrite Hs. f_equal. clear Hs. induction H as [|l ls (_ & _ & Hl & _) _ IH]; [done|].
  simpl. by rewrite Hl, IH.
Qed.

Lemma is_ascii_Split s : is_ascii s = true -> Forall (fun l => is_ascii l = true) (Split dot s).
Proof.
  induction s as [|x s IH]; simpl; [by repeat constructor|].
  intros [Hx Hs]%andb_true_iff. specialize (IH Hs). destruct (x =? dot); [by constructor|].
  destruct (Split dot s) as [|l ls]; [constructor; [|done]; simpl; by rewrite Hx|].
  apply Forall_cons in IH as [Hl Hls]. constructor; [|done]. simpl. by rewrite Hx.
Qed.

Lemma splitName_no_sep name : Forall (no_sep dot) (splitName name).
Proof. apply labels_of_no_sep. Qed.

Lemma key_labels_wf name : name_wf name = true -> labels_wf (key name).
Proof.
  intros [Ha Hne]%name_wf_spec. unfold labels_wf. rewrite key_map. apply Forall_reverse.
  apply Forall_forall. intros l' (l & <- & Hl)%list_elem_of_In%in_map_iff.
  apply list_elem_of_In in Hl. rewrite Forall_forall in Hne. pose proof (splitName_no_sep name) as Hns.
  rewrite Forall_forall in Hns.
  assert (Hasc : forall l, l ∈ splitName name -> is_ascii l = true).
  { unfold splitName. intros x Hx. case_bool_decide; [by apply elem_of_nil in Hx|].
    pose proof (is_ascii_Split (trim_dot name) (is_ascii_trim _ Ha)) as H'.
    rewrite Forall_forall in H'. auto. }
  split_and!.
  - rewrite ToLower_nil_iff. auto.
  - apply ToLower_no_dot. auto.
  - by apply ToLower_idem, Hasc.
  - by apply is_ascii_ToLower, Hasc.
Qed.

Lemma is_ascii_Join ls : labels_wf ls -> is_ascii (Join dot ls) = true.
Proof.
  induction 1 as [|l ls (_ & _ & _ & Hl) _ IH]; [done|]. destruct ls as [|l' ls]; [done|].
  rewrite Join_cons by done. rewrite is_ascii_app, Hl. done.
Qed.

(** The longest common prefix. *)
Definition lcp (a b : list gostring) : list gostring := take (shared_labels a b) a.

Lemma lcp_prefix a b : lcp a b `prefix_of` a /\ lcp a b `prefix_of` b.
Proof.
  unfold lcp. split; [apply prefix_take|].
  revert b. induction a as [|x a IH]; intros [|y b]; simpl; try apply prefix_nil.
  case_bool_decide; [subst; by apply prefix_cons|apply prefix_nil].
Qed.

Lemma lcp_longest p a b : p `prefix_of` a -> p `prefix_of` b -> p `prefix_of` lcp a b.
Proof.
  unfold lcp. intros [s ->] [s' ->]. induction p as [|x p IH]; simpl; [apply prefix_nil|].
  rewrite bool_decide_true by done. simpl. by apply prefix_cons.
Qed.

Lemma commonSuffix_key a b :
  name_wf a = true -> name_wf b = true -> key (commonSuffix a b) = lcp (key a) (key b).
Proof.
  intros Ha Hb. unfold commonSuffix. change (reverse (splitName (ToLower a))) with (key a).
  change (reverse (splitName (ToLower b))) with (key b). unfold lcp.
  replace (splitName (ToLower a)) with (reverse (key a)) by (unfold key; by rewrite reverse_involutive).
  set (n := shared_labels (key a) (key b)). case_bool_decide as E; [by rewrite E|].
  assert (Hd : drop (length (reverse (key a)) - n) (reverse (key a)) = reverse (take n (key a))).
  { rewrite length_reverse. rewrite <-(take_drop n (key a)) at 2.
    rewrite reverse_app, drop_app_length'; [done|]. rewrite length_reverse, length_drop. lia. }
  rewrite Hd, key_Join; [by rewrite reverse_involutive|].
  apply Forall_reverse, Forall_take. by apply key_labels_wf.
Qed.

Lemma isProperSubdomain_key name zone :
  is_ascii name = true -> is_ascii zone = true ->
  isProperSubdomain name zone = true <-> key zone <> key name /\ key zone `prefix_of` key name.
Proof.
  intros Hn Hz. unfold isProperSubdomain. rewrite andb_true_iff, isSubdomainOrEqual_key.
  rewrite equalName_ascii by done. case_bool_decide; naive_solver.
Qed.
