(* ===== verification/Verify.v ===== *)
(** Signature verification ([dnssec/verify.go]): canonical forms, the data a
    signature covers, validity periods, and the checks of [VerifyRRSet] and
    [VerifyDS].  The cryptographic primitives of Go's standard library are the
    operations of the class [Crypto]. *)

From S2P Require Import Prelude GoUnicode GoStrings GoNet DnsMsg Encoder Decoder WireSpec WireCalculus WireNames WireRoundTrip DecoderSafe DnssecRecords DnssecNames.

Open Scope Z_scope.

(** ** Errors: one constructor per [errors.New] or [fmt.Errorf] of the file *)
Inductive sig_error :=
  | ENoRecords | EMixedSet | EAlgorithmMismatch | EKeyTagMismatch | ENotZoneKey
  | ESignerNotAuthoritative | ENotYetValid | EExpired | ETooManyLabels
  | ENoAddress | ENoSOAData | EShortMX | EMalformedName | EUnterminatedName | EInvalidName
  | EBadKey | EBadSignature | EDSOtherKey | EDSDigest
  | ErrUnsupportedAlgorithm.

#[global] Instance sig_error_eq_dec : EqDecision sig_error.
Proof. solve_decision. Defined.

Definition algRSASHA256 : Z := 8.
Definition algRSASHA512 : Z := 10.
Definition algECDSAP256SHA256 : Z := 13.
Definition algECDSAP384SHA384 : Z := 14.
Definition algEd25519 : Z := 15.
Definition digestSHA256 : Z := 2.
Definition digestSHA384 : Z := 4.

(** ** Canonical names and RDATA *)

Definition lowerByte (b : Z) : Z := if (65 <=? b) && (b <=? 90) then b + 32 else b.

Fixpoint canonical_labels (labels : list gostring) : result sig_error (list Z) :=
  match labels with
  | [] => Ok [0]
  | label :: labels =>
    if bool_decide (length label = 0%nat) || bool_decide (63 < length label)%nat
    then Err EInvalidName
    else rest ← canonical_labels labels;
         Ok (u8 (Z.of_nat (length label)) :: map lowerByte label ++ rest)
  end.

Definition canonicalName (name : gostring) : result sig_error (list Z) :=
  let name := trim_dot name in
  if bool_decide (name = []) then Ok [0] else canonical_labels (Split dot name).

(** The loop of [lowercaseWireName] over what is left of the name; every round
    consumes a byte, so the length is fuel enough. *)
Fixpoint lower_wire (fuel : nat) (buf : list Z) : result sig_error (list Z) :=
  match fuel with
  | O => Err EUnterminatedName
  | S fuel =>
    match buf with
    | [] => Err EUnterminatedName
    | len :: rest =>
      if len =? 0 then Ok [0]
      else if negb (Z.land len 192 =? 0) || bool_decide (length rest < Z.to_nat len)%nat
      then Err EMalformedName
      else
        tail ← lower_wire fuel (drop (Z.to_nat len) rest);
        Ok (len :: map lowerByte (take (Z.to_nat len) rest) ++ tail)
    end
  end.

Definition lowercaseWireName (buf : list Z) : result sig_error (list Z) :=
  lower_wire (S (length buf)) buf.

Definition canonicalRDATA (rr : RR) : result sig_error (list Z) :=
  if rr_Type rr =? TypeA then
    match To4 (rr_A rr) with Some ip => Ok ip | None => Err ENoAddress end
  else if rr_Type rr =? TypeAAAA then
    match To16 (rr_AAAA rr) with Some ip => Ok ip | None => Err ENoAddress end
  else if rr_Type rr =? TypeNS then canonicalName (rr_NS rr)
  else if rr_Type rr =? TypeCNAME then canonicalName (rr_CNAME rr)
  else if rr_Type rr =? TypeSOA then
    match rr_SOA rr with
    | None => Err ENoSOAData
    | Some soa =>
      mname ← canonicalName (soa_MName soa);
      rname ← canonicalName (soa_RName soa);
      Ok (mname ++ rname ++ be32 (soa_Serial soa) ++ be32 (soa_Refresh soa) ++
          be32 (soa_Retry soa) ++ be32 (soa_Expire soa) ++ be32 (soa_Minimum soa))
    end
  else if rr_Type rr =? TypeMX then
    if bool_decide (length (rr_Raw rr) < 2)%nat then Err EShortMX
    else
      name ← lowercaseWireName (drop 2 (rr_Raw rr));
      Ok (take 2 (rr_Raw rr) ++ name)
  else if rr_Type rr =? TypePTR then lowercaseWireName (rr_Raw rr)
  else Ok (rr_Raw rr).

(** ** The signed data *)

(** [slices.SortFunc] with [bytes.Compare]: byte strings that compare equal are
    equal, so the sorted list is unique and any sorting function is this one. *)
Fixpoint insert_sorted (x : list Z) (l : list (list Z)) : list (list Z) :=
  match l with
  | [] => [x]
  | y :: l => match Compare x y with Gt => y :: insert_sorted x l | _ => x :: y :: l end
  end.
Definition sort_rdata (l : list (list Z)) : list (list Z) := foldr insert_sorted [] l.

(** The output loop skips a record equal to the one before it. *)
Fixpoint drop_repeats (prev : option (list Z)) (l : list (list Z)) : list (list Z) :=
  match l with
  | [] => []
  | x :: l => if bool_decide (prev = Some x) then drop_repeats (Some x) l
              else x :: drop_repeats (Some x) l
  end.

(** The label "*". *)
Definition star : gostring := [42].

Definition signedOwnerName (owner : gostring) (sig : RRSIG) : result sig_error (list Z) :=
  let labels := splitName owner in
  let signed := Z.to_nat (sig_Labels sig) in
  if bool_decide (length labels < signed)%nat then Err ETooManyLabels
  else if bool_decide (signed < length labels)%nat
  then canonicalName (Join dot (star :: drop (length labels - signed) labels))
  else canonicalName owner.

Definition record_bytes (owner : list Z) (sig : RRSIG) (rdata : list Z) : list Z :=
  owner ++ be16 (sig_TypeCovered sig) ++ be16 ClassIN ++ be32 (sig_OriginalTTL sig) ++
  be16 (u16 (Z.of_nat (length rdata))) ++ rdata.

Fixpoint canonical_rdatas (rrset : list RR) : result sig_error (list (list Z)) :=
  match rrset with
  | [] => Ok []
  | rr :: rrset =>
    rdata ← canonicalRDATA rr;
    rest ← canonical_rdatas rrset;
    Ok (rdata :: rest)
  end.

Definition sig_prefix (sig : RRSIG) (signer : list Z) : list Z :=
  be16 (sig_TypeCovered sig) ++ [sig_Algorithm sig; sig_Labels sig] ++
  be32 (sig_OriginalTTL sig) ++ be32 (sig_Expiration sig) ++ be32 (sig_Inception sig) ++
  be16 (sig_KeyTag sig) ++ signer.

Definition signedData (rrset : list RR) (sig : RRSIG) : result sig_error (list Z) :=
  match rrset with
  | [] => Err ENoRecords
  | first :: _ =>
    signer ← canonicalName (sig_SignerName sig);
    owner ← signedOwnerName (rr_Name first) sig;
    rdatas ← canonical_rdatas rrset;
    Ok (sig_prefix sig signer ++
        concat (map (record_bytes owner sig) (drop_repeats None (sort_rdata rdatas))))
  end.

(** ** Validity periods *)

(** Subtraction of [uint32]s wraps around. *)
Definition serialBefore (a b : Z) : bool := negb (a =? b) && (u32 (b - a) <? 2 ^ 31).

Definition checkValidityPeriod (sig : RRSIG) (now : Z) : result sig_error unit :=
  let t := u32 now in
  if serialBefore t (sig_Inception sig) then Err ENotYetValid
  else if serialBefore (sig_Expiration sig) t then Err EExpired
  else Ok tt.

(** ** Keys and signatures *)

Inductive curve := P256 | P384.
Inductive hash := crypto256 | crypto384 | crypto512.

(** [(curve.Params().BitSize + 7) / 8]. *)
Definition curve_size (c : curve) : nat := match c with P256 => 32 | P384 => 48 end.

(** Go's [crypto] packages: hash functions, and signature checks taking the
    parsed key, the digest (for Ed25519 the data) and the signature. *)
Class Crypto := {
  sha1 : list Z -> list Z;
  sha256 : list Z -> list Z;
  sha384 : list Z -> list Z;
  sha512 : list Z -> list Z;
  rsa_VerifyPKCS1v15 : forall (n e : Z) (h : hash) (digest sig : list Z), bool;
  ed25519_Verify : forall (key data sig : list Z), bool;
  IsOnCurve : curve -> Z -> Z -> bool;
  ecdsa_Verify : forall (c : curve) (x y : Z) (digest : list Z) (r s : Z), bool }.

(** [new(big.Int).SetBytes(b)]. *)
Definition SetBytes (b : list Z) : Z := fold_left (fun acc x => acc * 256 + x) b 0.

(** [big.Int.Int64] of a natural number: its low 64 bits as a signed integer. *)
Definition Int64 (z : Z) : Z :=
  let low := z mod 2 ^ 64 in if low <? 2 ^ 63 then low else low - 2 ^ 64.

Section crypto.
Context `{Crypto}.

Definition hash_sum (h : hash) (data : list Z) : list Z :=
  match h with
  | crypto384 => sha384 data
  | crypto512 => sha512 data
  | crypto256 => sha256 data
  end.

(** The exponent length of an RSA key and where the exponent starts. *)
Definition rsa_exponent (publicKey : list Z) : nat * nat :=
  match publicKey with
  | 0 :: b1 :: b2 :: _ => (Z.to_nat (Z.lor (Z.shiftl b1 8) b2), 3%nat)
  | b0 :: _ => (Z.to_nat b0, 1%nat)
  | [] => (0%nat, 0%nat)
  end.

Definition verifyRSA (publicKey data sig : list Z) (h : hash) : result sig_error unit :=
  if bool_decide (length publicKey < 3)%nat then Err EBadKey
  else
    let '(expLen, offset) := rsa_exponent publicKey in
    if bool_decide (expLen = 0%nat) || bool_decide (length publicKey <= offset + expLen)%nat
    then Err EBadKey
    else
      let N := SetBytes (drop (offset + expLen) publicKey) in
      let E := Int64 (SetBytes (take expLen (drop offset publicKey))) in
      if (E =? 0) || (N =? 0) then Err EBadKey
      else
        let h' := match h with crypto512 => crypto512 | _ => crypto256 end in
        if rsa_VerifyPKCS1v15 N E h' (hash_sum h data) sig then Ok tt else Err EBadSignature.

Definition verifyECDSA (c : curve) (publicKey data sig : list Z) (h : hash) :
    result sig_error unit :=
  let size := curve_size c in
  if negb (bool_decide (length publicKey = 2 * size)%nat) then Err EBadKey
  else if negb (bool_decide (length sig = 2 * size)%nat) then Err EBadSignature
  else
    let X := SetBytes (take size publicKey) in
    let Y := SetBytes (drop size publicKey) in
    if negb (IsOnCurve c X Y) then Err EBadKey
    else
      let r := SetBytes (take size sig) in
      let s := SetBytes (drop size sig) in
      if negb (ecdsa_Verify c X Y (hash_sum h data) r s) then Err EBadSignature else Ok tt.

Definition verifySignature (algorithm : Z) (publicKey data sig : list Z) :
    result sig_error unit :=
  if algorithm =? algRSASHA256 then verifyRSA publicKey data sig crypto256
  else if algorithm =? algRSASHA512 then verifyRSA publicKey data sig crypto512
  else if algorithm =? algECDSAP256SHA256 then verifyECDSA P256 publicKey data sig crypto256
  else if algorithm =? algECDSAP384SHA384 then verifyECDSA P384 publicKey data sig crypto384
  else if algorithm =? algEd25519 then
    if negb (bool_decide (length publicKey = 32%nat)) then Err EBadKey
    else if negb (ed25519_Verify publicKey data sig) then Err EBadSignature
    else Ok tt
  else Err ErrUnsupportedAlgorithm.

Definition VerifyRRSet (rrset : list RR) (sig : RRSIG) (key : DNSKEY) (now : Z) :
    result sig_error unit :=
  match rrset with
  | [] => Err ENoRecords
  | first :: _ =>
    let owner := rr_Name first in
    if existsb (fun rr => negb (rr_Type rr =? sig_TypeCovered sig) || negb (equalName (rr_Name rr) owner))
         rrset then Err EMixedSet
    else if negb (sig_Algorithm sig =? dk_Algorithm key) then Err EAlgorithmMismatch
    else if negb (sig_KeyTag sig =? KeyTag key) then Err EKeyTagMismatch
    else if negb (IsZoneKey key) then Err ENotZoneKey
    else if negb (isSubdomainOrEqual owner (sig_SignerName sig)) then Err ESignerNotAuthoritative
    else
      _ ← checkValidityPeriod sig now;
      signed ← signedData rrset sig;
      verifySignature (sig_Algorithm sig) (dk_PublicKey key) signed (sig_Signature sig)
  end.

(** [keyRDATA], package [dnssec]'s copy of [DNSKEY.rdata]. *)
Definition keyRDATA (k : DNSKEY) : list Z :=
  [u8 (Z.shiftr (dk_Flags k) 8); u8 (dk_Flags k); dk_Protocol k; dk_Algorithm k] ++ dk_PublicKey k.

Definition VerifyDS (owner : gostring) (key : DNSKEY) (ds : DS) : result sig_error unit :=
  if negb (ds_KeyTag ds =? KeyTag key) || negb (ds_Algorithm ds =? dk_Algorithm key)
  then Err EDSOtherKey
  else
    name ← canonicalName owner;
    let material := name ++ keyRDATA key in
    if ds_DigestType ds =? digestSHA256 then
      if bool_decide (sha256 material = ds_Digest ds) then Ok tt else Err EDSDigest
    else if ds_DigestType ds =? digestSHA384 then
      if bool_decide (sha384 material = ds_Digest ds) then Ok tt else Err EDSDigest
    else Err ErrUnsupportedAlgorithm.
End crypto.
