(* ===== verification/VerifySpec.v ===== *)
(** What signature verification guarantees: the signed data depends on the record
    set only, and determines it; the validity window; what an accepted signature
    implies. *)

From Stdlib Require Import Sorting.Sorted.
From S2P Require Import Prelude GoUnicode GoStrings GoNet DnsMsg Encoder Decoder WireSpec WireCalculus WireNames WireRoundTrip DecoderSafe DnssecRecords DnssecNames Verify.

Open Scope Z_scope.

(** ** Canonical order of the records *)

Definition rdata_lt (a b : list Z) : Prop := Compare a b = Lt.

#[export] Instance rdata_lt_trans : Transitive rdata_lt.
Proof. intros a b c. apply cmp_trans. Qed.

#[export] Instance rdata_lt_irrefl : Irreflexive rdata_lt.
Proof. intros a H. unfold rdata_lt in H. by rewrite (cmp_refl Compare) in H. Qed.

Definition rdata_le (a b : list Z) : Prop := a = b \/ rdata_lt a b.

Lemma elem_of_insert_sorted x y l : x ∈ insert_sorted y l <-> x = y \/ x ∈ l.
Proof.
  induction l as [|z l IH]; simpl; [set_solver|]. destruct (Compare y z); set_solver.
Qed.

Lemma elem_of_sort_rdata x l : x ∈ sort_rdata l <-> x ∈ l.
Proof.
  induction l as [|y l IH]; simpl; [done|]. rewrite elem_of_insert_sorted, IH. set_solver.
Qed.

Lemma rdata_le_lt a b c : rdata_le a b -> rdata_lt b c -> rdata_lt a c.
Proof. intros [->|H] ?; [done|by etrans]. Qed.

Lemma rdata_le_trans a b c : rdata_le a b -> rdata_le b c -> rdata_le a c.
Proof. intros ? [<-|?]; [done|right; by eapply rdata_le_lt]. Qed.

Lemma insert_sorted_sorted x l :
  StronglySorted rdata_le l -> StronglySorted rdata_le (insert_sorted x l).
Proof.
  induction 1 as [|y l Hs IH Hall]; simpl; [by repeat constructor|].
  destruct (Compare x y) eqn:E.
  - apply (cmp_eq (cmp := Compare)) in E as ->. constructor; [by constructor|].
    constructor; [by left|done].
  - constructor; [by constructor|]. constructor; [by right|].
    eapply List.Forall_impl; [|exact Hall]. intros z Hz. eapply rdata_le_trans; [by right|done].
  - constructor; [done|]. apply Forall_forall. intros z [->|Hz]%elem_of_insert_sorted.
    + right. unfold rdata_lt. rewrite (cmp_opp (cmp := Compare) x y), E. done.
    + by apply (proj1 (Forall_forall _ _) Hall).
Qed.

Lemma sort_rdata_sorted l : StronglySorted rdata_le (sort_rdata l).
Proof. induction l; simpl; [constructor|by apply insert_sorted_sorted]. Qed.

(** Without repetitions the order is strict. *)
Lemma drop_repeats_spec l : forall prev,
  StronglySorted rdata_le l -> (forall p, prev = Some p -> Forall (rdata_le p) l) ->
  StronglySorted rdata_lt (drop_repeats prev l) /\
  (forall p, prev = Some p -> Forall (rdata_lt p) (drop_repeats prev l)) /\
  (forall x, prev <> Some x -> x ∈ drop_repeats prev l <-> x ∈ l).
Proof.
  induction l as [|y l IH]; intros prev Hs Hp; simpl.
  { split_and!; [constructor|constructor|done]. }
  apply StronglySorted_inv in Hs as [Hs Hall].
  destruct (IH (Some y) Hs) as (IH1 & IH2 & IH3); [by intros ? [= <-]|].
  case_bool_decide as E.
  - subst prev. split_and!; [done|done|]. intros x Hx. rewrite IH3 by done. set_solver.
  - split_and!.
    + constructor; [done|by apply IH2].
    + intros p ->. specialize (Hp p eq_refl). apply Forall_cons in Hp as [Hpy _].
      assert (Hlt : rdata_lt p y) by (destruct Hpy as [->|]; [done|done]).
      constructor; [done|]. eapply Forall_impl; [by apply (IH2 y)|]. intros z Hz. by etrans.
    + intros x Hx. rewrite !elem_of_cons. destruct (decide (x = y)) as [->|Hne]; [naive_solver|].
      rewrite IH3 by congruence. done.
Qed.

Definition canonical_set (l : list (list Z)) : list (list Z) := drop_repeats None (sort_rdata l).

Lemma canonical_set_sorted l : StronglySorted rdata_lt (canonical_set l).
Proof. by apply (drop_repeats_spec _ None (sort_rdata_sorted l)). Qed.

Lemma elem_of_canonical_set x l : x ∈ canonical_set l <-> x ∈ l.
Proof.
  unfold canonical_set.
  destruct (drop_repeats_spec (sort_rdata l) None (sort_rdata_sorted l)) as (_ & _ & H); [done|].
  rewrite H by done. apply elem_of_sort_rdata.
Qed.

Lemma strictly_sorted_unique l1 l2 :
  StronglySorted rdata_lt l1 -> StronglySorted rdata_lt l2 -> (forall x, x ∈ l1 <-> x ∈ l2) ->
  l1 = l2.
Proof.
  intros H1. revert l2. induction H1 as [|x l1 Hs1 IH Hall1]; intros l2 H2 Hel.
  - destruct l2 as [|y l2]; [done|]. specialize (Hel y). set_solver.
  - destruct H2 as [|y l2 Hs2 Hall2]; [specialize (Hel x); set_solver|].
    rewrite Forall_forall in Hall1, Hall2.
    assert (x = y) as ->.
    { destruct (decide (x = y)) as [|Hne]; [done|]. exfalso.
      assert (Hx : x ∈ l2) by (specialize (Hel x); set_solver).
      assert (Hy : y ∈ l1) by (specialize (Hel y); set_solver).
      apply (rdata_lt_irrefl x). etrans; [by apply Hall1|by apply Hall2]. }
    f_equal. apply IH; [done|]. intros z. split; intros Hz.
    + assert (Hzy : z <> y) by (intros ->; by apply (rdata_lt_irrefl y), Hall1).
      specialize (Hel z). set_solver.
    + assert (Hzy : z <> y) by (intros ->; by apply (rdata_lt_irrefl y), Hall2).
      specialize (Hel z). set_solver.
Qed.

Lemma canonical_set_ext l1 l2 :
  (forall x, x ∈ l1 <-> x ∈ l2) -> canonical_set l1 = canonical_set l2.
Proof.
  intros H. apply strictly_sorted_unique; [apply canonical_set_sorted..|].
  intros x. by rewrite !elem_of_canonical_set.
Qed.

(** ** Canonical names *)

(** The same name up to the case of ASCII letters and the root dot. *)
Definition ascii_sim (a b : gostring) : Prop :=
  map lowerByte (trim_dot a) = map lowerByte (trim_dot b).

#[global] Instance ascii_sim_equiv : Equivalence ascii_sim.
Proof. unfold ascii_sim. split; congruence. Qed.

Lemma lowerByte_dot x : (lowerByte x =? dot) = (x =? dot).
Proof. unfold lowerByte, dot. case_match; lia. Qed.

Lemma lowerByte_idem x : lowerByte (lowerByte x) = lowerByte x.
Proof. unfold lowerByte. repeat case_match; lia. Qed.

Lemma map_lowerByte_idem l : map lowerByte (map lowerByte l) = map lowerByte l.
Proof. rewrite map_map. apply map_ext, lowerByte_idem. Qed.

Lemma Split_lowerByte s : Split dot (map lowerByte s) = map (map lowerByte) (Split dot s).
Proof.
  induction s as [|x s IH]; simpl; [done|]. rewrite lowerByte_dot, IH.
  destruct (x =? dot); [done|]. by destruct (Split dot s).
Qed.

Lemma Join_lowerByte ls : map lowerByte (Join dot ls) = Join dot (map (map lowerByte) ls).
Proof.
  induction ls as [|l ls IH]; [done|]. destruct ls as [|l' ls]; [done|].
  cbn [map]. rewrite !Join_cons by done. by rewrite map_app; cbn [map]; rewrite IH.
Qed.

Lemma last_lowerByte s : last (map lowerByte s) = Some dot <-> last s = Some dot.
Proof.
  change (map lowerByte s) with (lowerByte <$> s). rewrite fmap_last.
  destruct (last s) as [x|]; simpl; [|naive_solver].
  pose proof (lowerByte_dot x). split; intros [= E]; f_equal; [|subst; done].
  apply Z.eqb_eq. rewrite E in H. by rewrite <-H.
Qed.

Lemma trim_dot_lowerByte s : trim_dot (map lowerByte s) = map lowerByte (trim_dot s).
Proof.
  destruct (decide (last s = Some dot)) as [[t ->]%last_Some|Hs].
  - rewrite map_app, trim_dot_snoc. change (map lowerByte [dot]) with [dot]. by rewrite trim_dot_snoc.
  - by rewrite !trim_dot_id by (rewrite ?last_lowerByte; done).
Qed.

Lemma splitName_sim a b :
  ascii_sim a b -> map (map lowerByte) (splitName a) = map (map lowerByte) (splitName b).
Proof.
  unfold ascii_sim, splitName. intros H.
  assert (Hnil : trim_dot a = [] <-> trim_dot b = []).
  { split; intros E; rewrite E in H; [by destruct (trim_dot b)|by destruct (trim_dot a)]. }
  do 2 case_bool_decide; try naive_solver. by rewrite <-!Split_lowerByte, H.
Qed.

Lemma canonical_labels_lower ls : canonical_labels ls = canonical_labels (map (map lowerByte) ls).
Proof.
  induction ls as [|l ls IH]; [done|]. cbn [map canonical_labels].
  rewrite !length_map, map_lowerByte_idem. by rewrite IH.
Qed.

Lemma canonicalName_splitName n : canonicalName n = canonical_labels (splitName n).
Proof. unfold canonicalName, splitName. by case_bool_decide. Qed.

Lemma canonicalName_sim a b : ascii_sim a b -> canonicalName a = canonicalName b.
Proof.
  intros H%splitName_sim. rewrite !canonicalName_splitName, canonical_labels_lower, H.
  by rewrite <-canonical_labels_lower.
Qed.

Lemma canonical_labels_spec ls w :
  canonical_labels ls = Ok w ->
  w = wire_labels (map (map lowerByte) ls) ++ [0] /\
  Forall (fun l => valid_label l = true) (map (map lowerByte) ls).
Proof.
  revert w. induction ls as [|l ls IH]; intros w; cbn [canonical_labels].
  - intros [= <-]. split; [done|constructor].
  - destruct (bool_decide _) eqn:E1; [done|]. destruct (bool_decide (63 < _)%nat) eqn:E2; [done|].
    apply bool_decide_eq_false in E1, E2. simpl.
    destruct (canonical_labels ls) as [r|e]; [|done]. destruct (IH r eq_refl) as [-> Hv].
    intros [= <-]. split.
    + unfold wire_labels. simpl. unfold wire_label. by rewrite length_map, <-app_assoc.
    + constructor; [|done]. unfold valid_label, maxLabelLength. rewrite length_map.
      by rewrite bool_decide_false, bool_decide_true by lia.
Qed.

Lemma canonicalName_spec n w :
  canonicalName n = Ok w ->
  exists ls, w = wire_labels ls ++ [0] /\ Forall (fun l => valid_label l = true) ls /\
    ls = map (map lowerByte) (splitName n).
Proof.
  rewrite canonicalName_splitName. intros [-> Hv]%canonical_labels_spec. eauto.
Qed.

(** Wire names are self-delimiting. *)
Lemma canonicalName_prefix_free a b wa wb ra rb :
  canonicalName a = Ok wa -> canonicalName b = Ok wb -> wa ++ ra = wb ++ rb ->
  wa = wb /\ ra = rb.
Proof.
  intros (la & -> & Ha & _)%canonicalName_spec (lb & -> & Hb & _)%canonicalName_spec E.
  pose proof (readUncompressedName_wire la ra Ha) as Ra.
  pose proof (readUncompressedName_wire lb rb Hb) as Rb.
  rewrite <-!app_assoc in E. rewrite E, Rb in Ra. injection Ra as _ Hlen.
  apply (app_inj_1 (wire_labels la ++ [0]) (wire_labels lb ++ [0])); [done|].
  by rewrite <-!app_assoc.
Qed.

(** [canonicalName] is the lower-cased form of what the encoder writes. *)
Lemma canonicalName_encodeName n :
  is_ascii n = true -> (length n <= maxNameLength)%nat ->
  match canonicalName n, encodeName (ToLower n) with
  | Ok w, Ok w' => w = w'
  | Err _, Err _ => True
  | _, _ => False
  end.
Proof.
  intros Ha Hl. rewrite encodeName_labels by (by rewrite length_ToLower_ascii).
  change (labels_of (ToLower n)) with (splitName (ToLower n)).
  rewrite splitName_ToLower, canonicalName_splitName.
  assert (Hs : Forall (fun l => is_ascii l = true) (splitName n)).
  { unfold splitName. case_bool_decide; [constructor|]. by apply is_ascii_Split, is_ascii_trim. }
  induction Hs as [|l ls Hls _ IH]; [done|]. cbn [canonical_labels map encode_labels].
  unfold valid_label, maxLabelLength. rewrite length_ToLower_ascii by done.
  repeat case_bool_decide; try lia; simpl; [done..|].
  destruct (canonical_labels ls), (encode_labels (map ToLower ls)); try done.
  subst. simpl. unfold wire_label. rewrite length_ToLower_ascii by done. f_equal. f_equal.
  unfold ToLower. by rewrite Hls.
Qed.

(** ** The signed data depends on the record set only *)

Lemma canonical_rdatas_spec l rs :
  canonical_rdatas l = Ok rs -> Forall2 (fun rr x => canonicalRDATA rr = Ok x) l rs.
Proof.
  revert rs. induction l as [|rr l IH]; intros rs; cbn [canonical_rdatas]; [by intros [= <-]|].
  destruct (canonicalRDATA rr) as [x|] eqn:E; [|done]. simpl.
  destruct (canonical_rdatas l) as [r|]; [|done]. simpl. intros [= <-]. constructor; auto.
Qed.

Lemma canonical_rdatas_total l :
  (forall rr, rr ∈ l -> exists x, canonicalRDATA rr = Ok x) -> exists rs, canonical_rdatas l = Ok rs.
Proof.
  induction l as [|rr l IH]; intros H; [by eexists|]. cbn [canonical_rdatas].
  destruct (H rr) as [x ->]; [set_solver|]. destruct IH as [rs ->]; [set_solver|]. by eexists.
Qed.

Lemma elem_of_canonical_rdatas l rs x :
  canonical_rdatas l = Ok rs -> x ∈ rs <-> exists rr, rr ∈ l /\ canonicalRDATA rr = Ok x.
Proof.
  intros H%canonical_rdatas_spec. induction H as [|rr y l rs Hy _ IH]; [set_solver|].
  rewrite elem_of_cons, IH. split.
  - intros [->|(rr' & ? & ?)]; [exists rr|exists rr']; set_solver.
  - intros (rr' & [->|?]%elem_of_cons & E); [left; congruence|right; eauto].
Qed.

(** Every record of [l] has one with the same canonical RDATA in [l']. *)
Definition covered_by (l l' : list RR) : Prop :=
  forall rr, rr ∈ l -> exists rr', rr' ∈ l' /\ canonicalRDATA rr' = canonicalRDATA rr.

Lemma signedOwnerName_sim a b sig :
  ascii_sim a b -> signedOwnerName a sig = signedOwnerName b sig.
Proof.
  intros H. pose proof (splitName_sim _ _ H) as Hs. unfold signedOwnerName.
  assert (Hl : length (splitName a) = length (splitName b))
    by (rewrite <-(length_map (map lowerByte)), Hs; apply length_map).
  rewrite Hl. case_bool_decide; [done|]. case_bool_decide; [|by apply canonicalName_sim].
  apply canonicalName_sim. unfold ascii_sim.
  rewrite <-!trim_dot_lowerByte, !Join_lowerByte. cbn [map]. do 3 f_equal.
  change (map (map lowerByte) (drop ?k ?l)) with (map lowerByte <$> drop k l).
  rewrite !fmap_drop. change (map lowerByte <$> ?l) with (map (map lowerByte) l). by rewrite Hs.
Qed.

(** C33: The data a signature is checked against is a function of the record set:
    it does not change when the records are reordered, repeated, arrive with
    another TTL, or under a name or with names in their data written in another
    case. *)
Theorem signedData_set l l' rr rr' sig d :
  head l = Some rr -> head l' = Some rr' -> ascii_sim (rr_Name rr) (rr_Name rr') ->
  covered_by l l' -> covered_by l' l ->
  signedData l sig = Ok d -> signedData l' sig = Ok d.
Proof.
  intros Hh Hh' Hn Hc Hc' H. destruct l as [|r l]; [done|]. destruct l' as [|r' l']; [done|].
  injection Hh as ->. injection Hh' as ->. unfold signedData in *.
  rewrite <-(signedOwnerName_sim _ _ _ Hn).
  destruct (canonicalName _) as [signer|]; [|done]. cbn [mbind result_bind] in H |- *.
  destruct (signedOwnerName _ _) as [owner|]; [|done]. cbn [mbind result_bind] in H |- *.
  destruct (canonical_rdatas (rr :: l)) as [rs|] eqn:Hrs; [|done].
  destruct (canonical_rdatas_total (rr' :: l')) as [rs' Hrs'].
  { intros x (y & Hy & <-)%Hc'. pose proof (canonical_rdatas_spec _ _ Hrs) as Hf.
    apply list_elem_of_lookup in Hy as [i Hi]. by destruct (Forall2_lookup_l _ _ _ _ _ Hf Hi) as (z & _ & ?); exists z. }
  assert (Hset : canonical_set rs = canonical_set rs').
  { apply canonical_set_ext. intros x.
    rewrite (elem_of_canonical_rdatas _ _ _ Hrs), (elem_of_canonical_rdatas _ _ _ Hrs').
    split; intros (y & Hy & E); [apply Hc in Hy as (z & ? & ?)|apply Hc' in Hy as (z & ? & ?)];
      exists z; (split; [done|congruence]). }
  unfold canonical_set in Hset. rewrite Hrs'. cbn [mbind result_bind] in H |- *.
  by rewrite <-Hset.
Qed.

(** ** ... and determines it *)

Lemma be16_inj a b : is_u16 a -> is_u16 b -> be16 a = be16 b -> a = b.
Proof.
  intros Ha Hb [= E1 E2]. rewrite <-(u16_small a), <-(u16_small b) by done.
  by rewrite <-(be16_roundtrip a), <-(be16_roundtrip b), E1, E2.
Qed.

Lemma be32_inj a b : is_u32 a -> is_u32 b -> be32 a = be32 b -> a = b.
Proof.
  intros Ha Hb [= E1 E2 E3 E4]. rewrite <-(u32_small a), <-(u32_small b) by done.
  by rewrite <-(be32_roundtrip a), <-(be32_roundtrip b), E1, E2, E3, E4.
Qed.

Lemma app_inj_len {A} (a b c d : list A) :
  length a = length b -> a ++ c = b ++ d -> a = b /\ c = d.
Proof. intros. by apply app_inj_1. Qed.

(** The records of one signature have one length of head, so the list of RDATA
    can be read off the bytes. *)
Lemma records_inj owner sig l1 : forall l2,
  Forall (fun x => Z.of_nat (length x) < 65536) l1 ->
  Forall (fun x => Z.of_nat (length x) < 65536) l2 ->
  concat (map (record_bytes owner sig) l1) = concat (map (record_bytes owner sig) l2) -> l1 = l2.
Proof.
  induction l1 as [|x l1 IH]; intros [|y l2] H1 H2 E; [done| | |].
  1, 2: apply (f_equal length) in E; cbn [map concat] in E; unfold record_bytes at 1 in E;
    rewrite !length_app in E; simpl in E; lia.
  - apply Forall_cons in H1 as [Hx H1]. apply Forall_cons in H2 as [Hy H2].
    cbn [map concat] in E. unfold record_bytes in E at 1 3. rewrite <-!app_assoc in E.
    apply app_inv_head in E. do 3 apply app_inv_head in E.
    apply app_inj_len in E as [El E]; [|done].
    apply be16_inj in El; [|auto with widths..].
    rewrite !u16_small in El by (unfold is_u16; lia).
    apply app_inj_len in E as [-> E]; [|lia]. f_equal. by apply IH.
Qed.

Lemma records_owner wa wb sig sig' ra rb na nb :
  canonicalName na = Ok wa -> canonicalName nb = Ok wb -> ra <> [] -> rb <> [] ->
  concat (map (record_bytes wa sig) ra) = concat (map (record_bytes wb sig') rb) -> wa = wb.
Proof.
  intros Ha Hb Hra Hrb E. destruct ra as [|x ra]; [done|]. destruct rb as [|y rb]; [done|].
  cbn [map concat] in E. unfold record_bytes in E at 1 3. rewrite <-!app_assoc in E.
  by eapply canonicalName_prefix_free in E as [-> _].
Qed.

Lemma sig_prefix_inj s s' n n' w w' r r' :
  rrsig_ok s -> rrsig_ok s' -> canonicalName n = Ok w -> canonicalName n' = Ok w' ->
  sig_prefix s w ++ r = sig_prefix s' w' ++ r' ->
  (sig_TypeCovered s = sig_TypeCovered s' /\ sig_Algorithm s = sig_Algorithm s' /\
   sig_Labels s = sig_Labels s' /\ sig_OriginalTTL s = sig_OriginalTTL s' /\
   sig_Expiration s = sig_Expiration s' /\ sig_Inception s = sig_Inception s' /\
   sig_KeyTag s = sig_KeyTag s') /\ w = w' /\ r = r'.
Proof.
  intros (?&?&?&?&?&?&?) (?&?&?&?&?&?&?) Hn Hn' E. unfold sig_prefix in E. rewrite <-!app_assoc in E.
  apply app_inj_len in E as [E1 E]; [|done]. apply app_inj_len in E as [E2 E]; [|done].
  do 3 (apply app_inj_len in E as [?E E]; [|done]). apply app_inj_len in E as [E6 E]; [|done].
  destruct (canonicalName_prefix_free _ _ _ _ _ _ Hn Hn' E) as [-> ->].
  injection E2 as E2a E2b. split_and!; try done; try (by apply be16_inj); by apply be32_inj.
Qed.

Lemma signedOwnerName_wire owner sig w :
  signedOwnerName owner sig = Ok w -> exists n, canonicalName n = Ok w.
Proof. unfold signedOwnerName. repeat case_bool_decide; [done|eauto..]. Qed.

(** The records' canonical RDATA fits in a length field. *)
Definition rdata_fits (l : list RR) : Prop :=
  forall rr x, rr ∈ l -> canonicalRDATA rr = Ok x -> Z.of_nat (length x) < 65536.

Lemma canonical_set_fits l rs :
  rdata_fits l -> canonical_rdatas l = Ok rs ->
  Forall (fun x => Z.of_nat (length x) < 65536) (canonical_set rs).
Proof.
  intros Hf Hrs. apply Forall_forall. intros x.
  rewrite elem_of_canonical_set, (elem_of_canonical_rdatas _ _ _ Hrs). intros (rr & ? & ?).
  by eapply Hf.
Qed.

Lemma canonical_set_nil rs : canonical_set rs = [] -> rs = [].
Proof.
  intros H. destruct rs as [|x rs]; [done|]. exfalso.
  assert (Hx : x ∈ canonical_set (x :: rs)) by (apply elem_of_canonical_set; set_solver).
  rewrite H in Hx. by apply elem_of_nil in Hx.
Qed.

Lemma covered_by_sets l l' rs rs' :
  canonical_rdatas l = Ok rs -> canonical_rdatas l' = Ok rs' ->
  (forall x, x ∈ rs -> x ∈ rs') -> covered_by l l'.
Proof.
  intros H H' Hsub rr Hrr. pose proof (canonical_rdatas_spec _ _ H) as Hf.
  apply list_elem_of_lookup in Hrr as [i Hi].
  destruct (Forall2_lookup_l _ _ _ _ _ Hf Hi) as (x & Hx & E).
  assert (Hin : x ∈ rs') by (apply Hsub; by eapply list_elem_of_lookup_2).
  rewrite (elem_of_canonical_rdatas _ _ _ H') in Hin. destruct Hin as (rr' & ? & ?).
  exists rr'. split; [done|congruence].
Qed.

(** C32: The bytes that are hashed determine what was signed: if two record sets,
    each RDATA of less than 65536 bytes, give the same signed data, the signatures
    agree on every field they cover, the owner names were signed as one name - two
    names under one wildcard are, if the signature counts the labels of the
    wildcard only -, and the two sets have the same records up to canonical form.
    A signature cannot be moved to other data.  The class is not among what is
    fixed: the code signs every set as one of class IN. *)
Theorem signedData_injective l l' rr rr' sig sig' d :
  rrsig_ok sig -> rrsig_ok sig' -> rdata_fits l -> rdata_fits l' ->
  head l = Some rr -> head l' = Some rr' ->
  signedData l sig = Ok d -> signedData l' sig' = Ok d ->
  (sig_TypeCovered sig = sig_TypeCovered sig' /\ sig_Algorithm sig = sig_Algorithm sig' /\
   sig_Labels sig = sig_Labels sig' /\ sig_OriginalTTL sig = sig_OriginalTTL sig' /\
   sig_Expiration sig = sig_Expiration sig' /\ sig_Inception sig = sig_Inception sig' /\
   sig_KeyTag sig = sig_KeyTag sig') /\
  canonicalName (sig_SignerName sig) = canonicalName (sig_SignerName sig') /\
  signedOwnerName (rr_Name rr) sig = signedOwnerName (rr_Name rr') sig' /\
  covered_by l l' /\ covered_by l' l.
Proof.
  intros Hok Hok' Hfit Hfit' Hh Hh' H H'. destruct l as [|r l]; [done|]. destruct l' as [|r' l']; [done|].
  injection Hh as ->. injection Hh' as ->. unfold signedData in *.
  destruct (canonicalName (sig_SignerName sig)) as [w|] eqn:Hw; [|done].
  destruct (canonicalName (sig_SignerName sig')) as [w'|] eqn:Hw'; [|done].
  cbn [mbind result_bind] in H, H'.
  destruct (signedOwnerName (rr_Name rr) sig) as [ow|] eqn:How; [|done].
  destruct (signedOwnerName (rr_Name rr') sig') as [ow'|] eqn:How'; [|done].
  cbn [mbind result_bind] in H, H'.
  destruct (canonical_rdatas (rr :: l)) as [rs|] eqn:Hrs; [|done].
  destruct (canonical_rdatas (rr' :: l')) as [rs'|] eqn:Hrs'; [|done].
  cbn [mbind result_bind] in H, H'. change (drop_repeats None (sort_rdata ?x)) with (canonical_set x) in H, H'.
  assert (Hne : forall x y q qs, canonical_rdatas (x :: y) = Ok q -> canonical_set q = qs -> qs <> []).
  { intros x y q qs Hq <- ->%canonical_set_nil. apply canonical_rdatas_spec in Hq. inversion Hq. }
  assert (E : sig_prefix sig w ++ concat (map (record_bytes ow sig) (canonical_set rs)) =
              sig_prefix sig' w' ++ concat (map (record_bytes ow' sig') (canonical_set rs')))
    by congruence.
  destruct (sig_prefix_inj _ _ _ _ _ _ _ _ Hok Hok' Hw Hw' E) as (Hsame & -> & Erec).
  destruct (signedOwnerName_wire _ _ _ How) as [n Hn].
  destruct (signedOwnerName_wire _ _ _ How') as [n' Hn'].
  pose proof (records_owner _ _ _ _ _ _ _ _ Hn Hn' (Hne _ _ _ _ Hrs eq_refl)
    (Hne _ _ _ _ Hrs' eq_refl) Erec) as ->.
  assert (Hrb : record_bytes ow' sig' = record_bytes ow' sig).
  { unfold record_bytes. by destruct Hsame as (-> & _ & _ & -> & _). }
  rewrite Hrb in Erec.
  apply records_inj in Erec; 
    [|by apply (canonical_set_fits (rr :: l))|by apply (canonical_set_fits (rr' :: l'))].
  split_and!; try done; try apply Hsame.
  - eapply covered_by_sets; [done..|]. intros x.
    rewrite <-(elem_of_canonical_set x rs), <-(elem_of_canonical_set x rs'). by rewrite Erec.
  - eapply covered_by_sets; [done..|]. intros x.
    rewrite <-(elem_of_canonical_set x rs), <-(elem_of_canonical_set x rs'). by rewrite Erec.
Qed.

(** ** Validity periods *)

Lemma u32_sub_sub a b : is_u32 a -> is_u32 b -> u32 (b - a) = if a <=? b then b - a else b - a + 2 ^ 32.
Proof.
  unfold is_u32, u32. intros. destruct (Z.leb_spec a b); [apply Z.mod_small; lia|].
  rewrite <-(Z.mod_add _ 1) by lia. apply Z.mod_small. lia.
Qed.

(** The validity check is a window on the 32-bit clock circle: a signature
    whose lifetime is positive and shorter than 2^31 seconds is accepted exactly
    from its inception to its expiration, wrap-around in 2106 included. *)
Theorem checkValidityPeriod_window sig now life :
  is_u32 (sig_Inception sig) -> 0 < life < 2 ^ 31 ->
  sig_Expiration sig = u32 (sig_Inception sig + life) ->
  checkValidityPeriod sig now = Ok tt <-> u32 (now - sig_Inception sig) <= life.
Proof.
  intros Hi Hl He. unfold checkValidityPeriod, serialBefore. rewrite He.
  set (i := sig_Inception sig) in *. set (d := u32 (now - i)).
  assert (Hd : 0 <= d < 2 ^ 32) by apply is_u32_u32.
  assert (Ht : u32 now = u32 (i + d)).
  { unfold u32, d, u32. rewrite Zplus_mod_idemp_r. f_equal. lia. }
  rewrite Ht.
  assert (H1 : u32 (i - u32 (i + d)) = u32 (- d)).
  { unfold u32. rewrite Zminus_mod_idemp_r. f_equal. lia. }
  assert (H2 : u32 (u32 (i + d) - u32 (i + life)) = u32 (d - life)).
  { unfold u32. rewrite <-Zminus_mod. f_equal. lia. }
  assert (E1 : (u32 (i + d) =? i) = (d =? 0)).
  { unfold u32, is_u32 in *. destruct (Z.eqb_spec d 0) as [->|]; apply Z.eqb_eq || apply Z.eqb_neq; zlia. }
  assert (E2 : (u32 (i + life) =? u32 (i + d)) = (d =? life)).
  { unfold u32, is_u32 in *. destruct (Z.eqb_spec d life) as [->|];
      apply Z.eqb_eq || apply Z.eqb_neq; zlia. }
  rewrite H1, H2, E1, E2. unfold u32 at 1 2.
  destruct (Z.eqb_spec d 0) as [->|]; cbn [negb andb].
  { destruct (Z.eqb_spec 0 life); [lia|]. cbn [negb andb].
    destruct (Z.ltb_spec ((0 - life) mod 2 ^ 32) (2 ^ 31)); [zlia|]. split; [lia|done]. }
  destruct (Z.ltb_spec (- d mod 2 ^ 32) (2 ^ 31)).
  { split; [done|]. zlia. }
  destruct (Z.eqb_spec d life) as [->|]; cbn [negb andb]; [split; [lia|done]|].
  destruct (Z.ltb_spec ((d - life) mod 2 ^ 32) (2 ^ 31)).
  - split; [done|]. zlia.
  - split; [|done]. zlia.
Qed.

(** On the unwrapped line of time: there are moments within 2^31 seconds of [now], one
    before and one after it, whose 32-bit forms are the signature's inception and
    expiration. *)
Definition current (sig : RRSIG) (now : Z) : Prop :=
  exists start stop, u32 start = sig_Inception sig /\ u32 stop = sig_Expiration sig /\
    now - 2 ^ 31 <= start <= now /\ now <= stop <= now + 2 ^ 31.

Lemma serialBefore_distance a b : is_u32 a -> is_u32 b -> serialBefore a b = true <-> 0 < u32 (b - a) < 2 ^ 31.
Proof.
  unfold serialBefore, is_u32. intros Ha Hb. rewrite andb_true_iff, negb_true_iff, Z.eqb_neq, Z.ltb_lt.
  unfold u32. split; intros [H1 H2]; (split; [|done]); [zlia|]. intros ->. rewrite Z.sub_diag in H1. done.
Qed.

Lemma u32_distance a b : u32 (u32 a - u32 b) = u32 (a - b).
Proof. unfold u32. by rewrite <-Zminus_mod. Qed.

Lemma not_before_start a now : is_u32 a ->
  serialBefore (u32 now) a = false <-> exists start, u32 start = a /\ now - 2 ^ 31 <= start <= now.
Proof.
  intros Ha. rewrite <-not_true_iff_false, serialBefore_distance by auto with widths.
  rewrite <-(u32_small a), u32_distance by done. split.
  - intros Hd. exists (if u32 (a - now) =? 0 then now else now + u32 (a - now) - 2 ^ 32).
    unfold u32 in *. unfold is_u32 in Ha. destruct (Z.eqb_spec ((a - now) mod 2 ^ 32) 0); zlia.
  - intros (start & E & Hs). unfold is_u32, u32 in *. zlia.
Qed.

Lemma not_before_stop a now : is_u32 a ->
  serialBefore a (u32 now) = false <-> exists stop, u32 stop = a /\ now <= stop <= now + 2 ^ 31.
Proof.
  intros Ha. rewrite <-not_true_iff_false, serialBefore_distance by auto with widths.
  rewrite <-(u32_small a), u32_distance by done. split.
  - intros Hd. exists (if u32 (now - a) =? 0 then now else now - u32 (now - a) + 2 ^ 32).
    unfold u32 in *. unfold is_u32 in Ha. destruct (Z.eqb_spec ((now - a) mod 2 ^ 32) 0); zlia.
  - intros (stop & E & Hs). unfold is_u32, u32 in *. zlia.
Qed.

Lemma checkValidityPeriod_current sig now : is_u32 (sig_Inception sig) -> is_u32 (sig_Expiration sig) ->
  checkValidityPeriod sig now = Ok tt <-> current sig now.
Proof.
  intros Hi He. unfold checkValidityPeriod, current.
  pose proof (not_before_start _ now Hi) as H1. pose proof (not_before_stop _ now He) as H2.
  destruct (serialBefore (u32 now) _).
  { split; [done|]. intros (start & stop & ? & _ & ? & _). enough (true = false) by done. apply H1. by exists start. }
  destruct (serialBefore _ (u32 now)).
  { split; [done|]. intros (start & stop & _ & ? & _ & ?). enough (true = false) by done. apply H2. by exists stop. }
  split; [intros _|done]. destruct (proj1 H1 eq_refl) as (start & ? & ?), (proj1 H2 eq_refl) as (stop & ? & ?).
  by exists start, stop.
Qed.

(** ** What an accepted signature means *)

Section accepted.
Context `{Crypto}.

(** An RSA key in the form of RFC 3110: the length of the exponent in one byte, or in
    two behind a zero, the exponent, and the modulus. *)
Inductive rsa_key : list Z -> list Z -> list Z -> Prop :=
  | rsa_short exponent modulus : (length exponent <= 255)%nat ->
      rsa_key (Z.of_nat (length exponent) :: exponent ++ modulus) exponent modulus
  | rsa_long b1 b2 exponent modulus : Z.of_nat (length exponent) = b1 * 256 + b2 ->
      rsa_key (0 :: b1 :: b2 :: exponent ++ modulus) exponent modulus.

(** RSA with PKCS 1 padding, for the low 64 bits of the exponent. *)
Definition rsa_accepts (h : hash) (digest key sig : list Z) : Prop :=
  exists exponent modulus, rsa_key key exponent modulus /\ exponent <> [] /\ modulus <> [] /\
    Int64 (SetBytes exponent) <> 0 /\ SetBytes modulus <> 0 /\
    rsa_VerifyPKCS1v15 (SetBytes modulus) (Int64 (SetBytes exponent)) h digest sig = true.

(** ECDSA with a point and a pair of numbers of [n] bytes each. *)
Definition ecdsa_accepts (c : curve) (n : nat) (digest key sig : list Z) : Prop :=
  exists x y r s, key = x ++ y /\ sig = r ++ s /\ length x = n /\ length y = n /\ length r = n /\ length s = n /\
    IsOnCurve c (SetBytes x) (SetBytes y) = true /\
    ecdsa_Verify c (SetBytes x) (SetBytes y) digest (SetBytes r) (SetBytes s) = true.

(** The algorithms of RFC 8624 that are implemented, and when each accepts a signature
    over [data]. *)
Definition implemented : list Z := [8; 10; 13; 14; 15].

Definition accepts (algorithm : Z) (key data sig : list Z) : Prop :=
  (algorithm = 8 /\ rsa_accepts crypto256 (sha256 data) key sig) \/
  (algorithm = 10 /\ rsa_accepts crypto512 (sha512 data) key sig) \/
  (algorithm = 13 /\ ecdsa_accepts P256 32 (sha256 data) key sig) \/
  (algorithm = 14 /\ ecdsa_accepts P384 48 (sha384 data) key sig) \/
  (algorithm = 15 /\ length key = 32%nat /\ ed25519_Verify key data sig = true).

(** Everything RFC 4035 5.3 asks of a signature over [rrset] except the
    cryptographic check itself: one type and one name, the key's algorithm and tag,
    its zone key flag, a signer at the owner or above it, label by label, and a time
    of validity. *)
Definition entitled (rrset : list RR) (sig : RRSIG) (k : DNSKEY) (now : Z) (d : list Z) : Prop :=
  exists first rest, rrset = first :: rest /\
    (forall rr, rr ∈ rrset -> rr_Type rr = sig_TypeCovered sig /\
                  EqualFold (trim_dot (rr_Name rr)) (trim_dot (rr_Name first)) = true) /\
    sig_Algorithm sig = dk_Algorithm k /\ sig_KeyTag sig = KeyTag k /\
    Z.testbit (dk_Flags k) 8 = true /\ key (sig_SignerName sig) `prefix_of` key (rr_Name first) /\
    current sig now /\ signedData rrset sig = Ok d.

Lemma IsZoneKey_flag k : IsZoneKey k = Z.testbit (dk_Flags k) 8.
Proof.
  unfold IsZoneKey, DNSKEYFlagZoneKey. apply eq_true_iff_eq. rewrite negb_true_iff, Z.eqb_neq. split.
  - intros Hne. apply not_false_iff_true. intros Hf. apply Hne, Z.bits_inj'. intros n Hn.
    rewrite Z.land_spec, Z.bits_0. change 256 with (2 ^ 8). rewrite Z.pow2_bits_eqb by lia.
    destruct (Z.eqb_spec 8 n) as [<-|]; [by rewrite Hf|apply andb_false_r].
  - intros Ht E. apply (f_equal (fun z => Z.testbit z 8)) in E. by rewrite Z.land_spec, Ht in E.
Qed.

(** *** The keys on the wire *)

Lemma rsa_exponent_read key : bytes key -> (3 <= length key)%nat ->
  (rsa_exponent key).1 <> 0%nat -> 
  rsa_key key (take (rsa_exponent key).1 (drop (rsa_exponent key).2 key))
    (drop ((rsa_exponent key).2 + (rsa_exponent key).1) key) \/
  (length key < (rsa_exponent key).2 + (rsa_exponent key).1)%nat.
Proof.
  intros Hb Hl. destruct key as [|b0 [|b1 [|b2 rest]]]; [simpl in Hl; lia..|].
  apply Forall_cons in Hb as [H0 Hb]. apply Forall_cons in Hb as [H1 Hb]. apply Forall_cons in Hb as [H2 _].
  destruct (decide (b0 = 0)) as [->|Hne].
  - cbn [rsa_exponent fst snd]. fold (from_be16 b1 b2). rewrite from_be16_add by done. set (n := Z.to_nat _). intros Hn.
    destruct (decide (n <= length rest)%nat) as [Hle|]; [left|right; simpl; lia].
    rewrite <-drop_drop. cbn [drop]. rewrite drop_0. rewrite <-(take_drop n rest) at 1. apply rsa_long.
    rewrite length_take. unfold n, is_u8 in *. lia.
  - set (l := b1 :: b2 :: rest). assert (E : rsa_exponent (b0 :: l) = (Z.to_nat b0, 1%nat)) by by destruct b0.
    rewrite E. cbn [fst snd]. set (n := Z.to_nat b0). intros Hn.
    destruct (decide (n <= length l)%nat) as [Hle|]; [left|right; simpl in *; lia].
    rewrite <-drop_drop. cbn [drop]. rewrite drop_0. rewrite <-(take_drop n l) at 1.
    replace b0 with (Z.of_nat (length (take n l))) by (rewrite length_take; unfold n, is_u8 in *; lia).
    apply rsa_short. rewrite length_take. unfold n, is_u8 in *. lia.
Qed.

Lemma rsa_key_read key exponent modulus : bytes key -> rsa_key key exponent modulus -> exponent <> [] ->
  exists off, rsa_exponent key = (length exponent, S off) /\ take (length exponent) (drop (S off) key) = exponent /\
    drop (S off + length exponent) key = modulus /\ length key = (S off + length exponent + length modulus)%nat.
Proof.
  intros Hb Hk He. destruct Hk as [exponent modulus Hl|b1 b2 exponent modulus Hl].
  - exists 0%nat. rewrite <-drop_drop. cbn [drop]. rewrite drop_0. rewrite take_app_length, drop_app_length.
    split_and!; [|done|done|simpl; rewrite length_app; lia]. destruct exponent as [|x exponent]; [done|].
    change (rsa_exponent (?b :: ?l)) with (rsa_exponent (b :: l)).
    transitivity (Z.to_nat (Z.of_nat (length (x :: exponent))), 1%nat); [done|by rewrite Nat2Z.id].
  - exists 2%nat. rewrite <-drop_drop. cbn [drop]. rewrite drop_0. rewrite take_app_length, drop_app_length.
    split_and!; [|done|done|simpl; rewrite length_app; lia]. cbn [rsa_exponent]. fold (from_be16 b1 b2).
    do 2 apply Forall_cons in Hb as [? Hb]. apply Forall_cons in Hb as [? _].
    rewrite from_be16_add by done. by rewrite <-Hl, Nat2Z.id.
Qed.

Lemma verifyRSA_accepts key d s h h' : bytes key -> h' = (match h with crypto512 => crypto512 | _ => crypto256 end) ->
  is_ok (verifyRSA key d s h) = true <-> rsa_accepts h' (hash_sum h d) key s.
Proof.
  intros Hb ->. unfold verifyRSA, rsa_accepts. split.
  - case_bool_decide as Hl; [done|]. pose proof (rsa_exponent_read key Hb ltac:(lia)) as Hr.
    destruct (rsa_exponent key) as [n off]. cbn [fst snd] in Hr.
    destruct (bool_decide (n = 0%nat)) eqn:E1; [done|]. destruct (bool_decide (length key <= _)%nat) eqn:E2; [done|].
    apply bool_decide_eq_false in E1, E2. cbn [orb]. destruct (Int64 _ =? 0) eqn:EE; [done|].
    destruct (SetBytes _ =? 0) eqn:EN; [done|]. apply Z.eqb_neq in EE, EN. cbn [orb]. destruct (rsa_VerifyPKCS1v15 _ _ _ _ _) eqn:Ev; [|done].
    intros _. destruct (Hr E1) as [Hk|]; [|lia]. exists (take n (drop off key)), (drop (off + n) key). split_and!; try done.
    + intros E%(f_equal length). rewrite length_take, length_drop in E. simpl in E. lia.
    + intros E%(f_equal length). rewrite length_drop in E. simpl in E. lia.
  - intros (e & m & Hk & He & Hm & HE & HN & Hv).
    destruct (rsa_key_read key e m Hb Hk He) as (off & -> & -> & -> & Hlen).
    assert (length e <> 0%nat /\ length m <> 0%nat) as [? ?] by (by destruct e, m).
    rewrite !bool_decide_false by lia. cbn [orb]. rewrite !(proj2 (Z.eqb_neq _ _)) by done. cbn [orb]. by rewrite Hv.
Qed.

Lemma verifyECDSA_accepts c n key d s h : curve_size c = n ->
  is_ok (verifyECDSA c key d s h) = true <-> ecdsa_accepts c n (hash_sum h d) key s.
Proof.
  intros <-. unfold verifyECDSA, ecdsa_accepts. split.
  - case_bool_decide as Hk; [|done]. case_bool_decide as Hs; [|done]. cbn [negb].
    destruct (IsOnCurve _ _ _) eqn:Ec; [|done]. destruct (ecdsa_Verify _ _ _ _ _ _) eqn:Ev; [|done]. intros _.
    exists (take (curve_size c) key), (drop (curve_size c) key), (take (curve_size c) s), (drop (curve_size c) s).
    rewrite !take_drop, !length_take, !length_drop. split_and!; (done || lia).
  - intros (x & y & r & t & -> & -> & <- & Hy & Hr & Ht & Hc & Hv). rewrite !length_app.
    rewrite !bool_decide_true by lia. cbn [negb].
    rewrite take_app_length, drop_app_length, Hc. cbn [negb]. rewrite <-Hr, take_app_length, drop_app_length. by rewrite Hv.
Qed.

(** [verifySignature] decides [accepts], and names the algorithms it lacks. *)
Lemma verifySignature_accepts algorithm key d s : bytes key ->
  (is_ok (verifySignature algorithm key d s) = true <-> accepts algorithm key d s) /\
  (verifySignature algorithm key d s = Err ErrUnsupportedAlgorithm <-> algorithm ∉ implemented).
Proof.
  intros Hb. unfold verifySignature, accepts, algRSASHA256, algRSASHA512, algECDSAP256SHA256, algECDSAP384SHA384, algEd25519.
  pose proof (fun h h' E => verifyRSA_accepts key d s h h' Hb E) as HR.
  pose proof (fun c n h E => verifyECDSA_accepts c n key d s h E) as HE.
  assert (Hr : forall h, verifyRSA key d s h <> Err ErrUnsupportedAlgorithm).
  { intros h. unfold verifyRSA. destruct (rsa_exponent key) as [a b]. repeat case_match; congruence. }
  assert (He : forall c h, verifyECDSA c key d s h <> Err ErrUnsupportedAlgorithm).
  { intros c h. unfold verifyECDSA. repeat case_match; congruence. }
  assert (Hi : forall x, x ∈ implemented <-> x = 8 \/ x = 10 \/ x = 13 \/ x = 14 \/ x = 15) by (intros x; unfold implemented; set_solver).
  rewrite Hi.
  destruct (Z.eqb_spec algorithm 8) as [->|]; [rewrite (HR _ _ eq_refl); split; [naive_solver|split; [by intros ?%Hr|naive_solver]]|].
  destruct (Z.eqb_spec algorithm 10) as [->|]; [rewrite (HR _ _ eq_refl); split; [naive_solver|split; [by intros ?%Hr|naive_solver]]|].
  destruct (Z.eqb_spec algorithm 13) as [->|]; [rewrite (HE _ _ _ eq_refl); split; [naive_solver|split; [by intros ?%He|naive_solver]]|].
  destruct (Z.eqb_spec algorithm 14) as [->|]; [rewrite (HE _ _ _ eq_refl); split; [naive_solver|split; [by intros ?%He|naive_solver]]|].
  destruct (Z.eqb_spec algorithm 15) as [->|]; [|split; [split; [done|naive_solver]|split; [naive_solver|done]]].
  case_bool_decide as Hl; cbn [negb]; [|split; [split; [done|naive_solver]|split; [done|naive_solver]]].
  destruct (ed25519_Verify key d s); cbn [negb]; (split; [split; [naive_solver|naive_solver]|split; [done|naive_solver]]).
Qed.

Lemma one_set_spec rrset t owner :
  existsb (fun rr => negb (rr_Type rr =? t) || negb (equalName (rr_Name rr) owner)) rrset = false <->
  forall rr, rr ∈ rrset -> rr_Type rr = t /\ equalName (rr_Name rr) owner = true.
Proof.
  induction rrset as [|rr l IH]; simpl; [set_solver|].
  rewrite orb_false_iff, IH, orb_false_iff, !negb_false_iff, Z.eqb_eq. set_solver.
Qed.

(** [f ← g] fails only with an error of one of its parts. *)
Definition supported {A} (r : result sig_error A) : Prop := r <> Err ErrUnsupportedAlgorithm.

Lemma supported_bind {A B} (r : result sig_error A) (f : A -> result sig_error B) :
  supported r -> (forall a, supported (f a)) -> supported (a ← r; f a).
Proof. unfold supported. destruct r; simpl; [auto|congruence]. Qed.

Lemma supported_ok {A} (a : A) : supported (Ok a).
Proof. done. Qed.

Lemma canonical_labels_supported ls : supported (canonical_labels ls).
Proof.
  induction ls as [|l ls IH]; cbn [canonical_labels]; [done|].
  destruct (_ || _); [done|]. by apply supported_bind.
Qed.

Lemma canonicalName_supported n : supported (canonicalName n).
Proof. rewrite canonicalName_splitName. apply canonical_labels_supported. Qed.

Lemma lowercaseWireName_supported buf : supported (lowercaseWireName buf).
Proof.
  unfold lowercaseWireName. generalize (S (length buf)) as fuel. intros fuel.
  revert buf. induction fuel as [|fuel IH]; intros buf; cbn [lower_wire]; [done|].
  destruct buf as [|b buf]; [done|]. destruct (b =? 0); [done|]. destruct (_ || _); [done|].
  by apply supported_bind.
Qed.

Lemma canonicalRDATA_supported rr : supported (canonicalRDATA rr).
Proof.
  unfold canonicalRDATA.
  destruct (_ =? _); [by destruct (To4 _)|]. destruct (_ =? _); [by destruct (To16 _)|].
  do 2 (destruct (_ =? _); [apply canonicalName_supported|]).
  destruct (_ =? _).
  { destruct (rr_SOA rr); [|done]. do 2 (apply supported_bind; [apply canonicalName_supported|];
      intros ?). done. }
  destruct (_ =? _).
  { case_bool_decide; [done|]. by apply supported_bind; [apply lowercaseWireName_supported|]. }
  destruct (_ =? _); [apply lowercaseWireName_supported|done].
Qed.

Lemma signedData_supported rrset sig : supported (signedData rrset sig).
Proof.
  unfold signedData. destruct rrset as [|rr rrset]; [done|].
  apply supported_bind; [apply canonicalName_supported|]. intros w.
  apply supported_bind.
  { unfold signedOwnerName. repeat case_bool_decide; [done|apply canonicalName_supported..]. }
  intros ow. apply supported_bind; [|done].
  generalize (rr :: rrset). intros l. induction l as [|x l IH]; cbn [canonical_rdatas]; [done|].
  apply supported_bind; [apply canonicalRDATA_supported|]. intros d. by apply supported_bind.
Qed.

Lemma checkValidityPeriod_supported sig now : supported (checkValidityPeriod sig now).
Proof. unfold checkValidityPeriod. by repeat case_match. Qed.

(** Up to the cryptographic check, [VerifyRRSet] decides [entitled]. *)
Lemma VerifyRRSet_entitled rrset sig k now : is_u32 (sig_Inception sig) -> is_u32 (sig_Expiration sig) ->
  (exists d, entitled rrset sig k now d /\
     VerifyRRSet rrset sig k now =
     verifySignature (sig_Algorithm sig) (dk_PublicKey k) d (sig_Signature sig)) \/
  ((forall d, ~ entitled rrset sig k now d) /\
   exists e, VerifyRRSet rrset sig k now = Err e /\ e <> ErrUnsupportedAlgorithm).
Proof.
  intros Hi He. unfold VerifyRRSet, entitled. destruct rrset as [|first rest].
  { right. split; [by intros d (? & ? & ? & _)|eauto]. }
  set (rrset := first :: rest).
  destruct (existsb _ _) eqn:E1.
  { right. split; [|eauto]. intros d (f & r & [= <- <-] & Hset & _).
    apply one_set_spec in Hset. exact (eq_true_false_abs _ E1 Hset). }
  pose proof (proj1 (one_set_spec _ _ _) E1) as E1'. clear E1.
  destruct (Z.eqb_spec (sig_Algorithm sig) (dk_Algorithm k)) as [E2|E2]; cbn [negb].
  2: { right. split; [|eauto]. by intros d (f & r & [= <- <-] & _ & ? & _). }
  destruct (Z.eqb_spec (sig_KeyTag sig) (KeyTag k)) as [E3|E3]; cbn [negb].
  2: { right. split; [|eauto]. by intros d (f & r & [= <- <-] & _ & _ & ? & _). }
  rewrite IsZoneKey_flag. destruct (Z.testbit (dk_Flags k) 8) eqn:E4; cbn [negb].
  2: { right. split; [|eauto]. by intros d (f & r & [= <- <-] & _ & _ & _ & ? & _). }
  pose proof (isSubdomainOrEqual_key (rr_Name first) (sig_SignerName sig)) as H5.
  destruct (isSubdomainOrEqual _ _) eqn:E5; cbn [negb].
  2: { right. split; [|eauto]. intros d (f & r & [= <- <-] & _ & _ & _ & _ & ?%H5 & _). done. }
  pose proof (checkValidityPeriod_supported sig now) as Hs6. pose proof (checkValidityPeriod_current sig now Hi He) as H6.
  destruct (checkValidityPeriod sig now) as [[]|e] eqn:E6; cbn [mbind result_bind].
  2: { right. split; [|exists e; split; [done|]; by intros ->].
       by intros d (f & r & [= <- <-] & _ & _ & _ & _ & _ & ?%H6 & _). }
  pose proof (signedData_supported rrset sig) as Hs7.
  destruct (signedData rrset sig) as [d|e] eqn:E7; cbn [mbind result_bind].
  2: { right. split; [|exists e; split; [done|]; by intros ->].
       by intros d (f & r & [= <- <-] & _ & _ & _ & _ & _ & _ & ?). }
  left. exists d. split; [|done]. exists first, rest. split_and!; try done; [by apply H5|by apply H6].
Qed.

Lemma entitled_unique rrset sig k now d d' : entitled rrset sig k now d -> entitled rrset sig k now d' -> d = d'.
Proof. intros (? & ? & _ & _ & _ & _ & _ & _ & _ & E) (? & ? & _ & _ & _ & _ & _ & _ & _ & E'). congruence. Qed.

(** C27: [VerifyRRSet] accepts a signature exactly if the records are one set of one
    name and type, the key is the one the signature names and has the zone key flag,
    the signer's labels end the owner's, now lies between two moments that the
    signature's 32-bit times stand for, and the public key, read as RFC 3110, 6605 or
    8080 lay it out, accepts the canonical signed data under the primitive of the
    algorithm.  It calls the algorithm unsupported only when all but the last hold
    and the algorithm is none of the five that are implemented, so no other failure
    can pass for an unsigned zone. *)
Theorem VerifyRRSet_spec rrset sig k now :
  rrsig_ok sig -> bytes (dk_PublicKey k) ->
  match VerifyRRSet rrset sig k now with
  | Ok _ => exists d, entitled rrset sig k now d /\ accepts (sig_Algorithm sig) (dk_PublicKey k) d (sig_Signature sig)
  | Err ErrUnsupportedAlgorithm => exists d, entitled rrset sig k now d /\ sig_Algorithm sig ∉ implemented
  | Err _ => forall d, entitled rrset sig k now d ->
      sig_Algorithm sig ∈ implemented /\ ~ accepts (sig_Algorithm sig) (dk_PublicKey k) d (sig_Signature sig)
  end.
Proof.
  intros (_ & _ & _ & _ & He & Hi & _) Hb.
  destruct (VerifyRRSet_entitled rrset sig k now Hi He) as [(d & Hd & ->)|(Hno & e & -> & Hne)].
  - destruct (verifySignature_accepts (sig_Algorithm sig) (dk_PublicKey k) d (sig_Signature sig) Hb) as [Ha Hu].
    destruct (verifySignature _ _ _ _) as [[]|e]; [exists d; split; [done|by apply Ha]|].
    assert (Hrest : e <> ErrUnsupportedAlgorithm -> forall d', entitled rrset sig k now d' ->
      sig_Algorithm sig ∈ implemented /\ ~ accepts (sig_Algorithm sig) (dk_PublicKey k) d' (sig_Signature sig)).
    { intros Hne d' Hd'. rewrite <-(entitled_unique _ _ _ _ _ _ Hd Hd'). split; [|by intros ?%Ha].
      apply dec_stable. intros Hn. apply Hu in Hn. congruence. }
    destruct e; try by apply Hrest. exists d. split; [done|by apply Hu].
  - destruct e; try done; intros d Hd; by destruct (Hno d).
Qed.

Lemma keyRDATA_rdata k : keyRDATA k = key_rdata k.
Proof. done. Qed.

(** [VerifyDS] accepts a key exactly if the DS names its tag and algorithm
    and holds the SHA-256 or SHA-384 digest of the owner's canonical name and
    the key's RDATA - the same RDATA the key tag is computed over. *)
Theorem VerifyDS_spec owner key ds :
  VerifyDS owner key ds = Ok tt <->
  ds_KeyTag ds = KeyTag key /\ ds_Algorithm ds = dk_Algorithm key /\
  exists name, canonicalName owner = Ok name /\
    ((ds_DigestType ds = 2 /\ ds_Digest ds = sha256 (name ++ key_rdata key)) \/
     (ds_DigestType ds = 4 /\ ds_Digest ds = sha384 (name ++ key_rdata key))).
Proof.
  unfold VerifyDS, digestSHA256, digestSHA384. rewrite keyRDATA_rdata.
  destruct (Z.eqb_spec (ds_KeyTag ds) (KeyTag key)); simpl; [|naive_solver].
  destruct (Z.eqb_spec (ds_Algorithm ds) (dk_Algorithm key)); simpl; [|naive_solver].
  destruct (canonicalName owner) as [name|]; cbn [mbind result_bind]; [|naive_solver].
  destruct (Z.eqb_spec (ds_DigestType ds) 2) as [->|]; [case_bool_decide; naive_solver|].
  destruct (Z.eqb_spec (ds_DigestType ds) 4) as [->|]; [case_bool_decide; naive_solver|].
  naive_solver.
Qed.
End accepted.
