(* ===== verification/Denial.v ===== *)
(** Denial of existence: NSEC ([dnssec/denial.go]) and NSEC3 ([dnssec/nsec3.go]). *)

From S2P Require Import Prelude GoUnicode GoStrings GoNet DnsMsg Encoder Decoder WireSpec WireCalculus WireNames WireRoundTrip DecoderSafe DnssecRecords DnssecNames Verify.

Open Scope Z_scope.

(** The errors of the package's proofs; [EHashName] wraps a name that has no
    canonical form. *)
Inductive denial_error := ErrNoDenial | ErrUnsupportedDenial | EHashName (e : sig_error).

#[global] Instance denial_error_eq_dec : EqDecision denial_error.
Proof. solve_decision. Defined.

(** The name ["*." ++ encloser]. *)
Definition wildcard_of (encloser : gostring) : gostring := star ++ dot :: encloser.

(** ** [encoding/base32] with the extended hex alphabet, unpadded *)

Definition byte_bits (b : Z) : list bool :=
  map (fun i => Z.testbit b i) [7; 6; 5; 4; 3; 2; 1; 0].

Definition digit (b4 b3 b2 b1 b0 : bool) : Z :=
  Z.b2z b4 * 16 + Z.b2z b3 * 8 + Z.b2z b2 * 4 + Z.b2z b1 * 2 + Z.b2z b0.

(** The alphabet [0-9A-V]. *)
Definition hex_char (d : Z) : Z := if d <? 10 then 48 + d else 55 + d.

Fixpoint base32_digits (bits : list bool) : list Z :=
  match bits with
  | b4 :: b3 :: b2 :: b1 :: b0 :: bits => hex_char (digit b4 b3 b2 b1 b0) :: base32_digits bits
  | [] => []
  | [b4] => [hex_char (digit b4 false false false false)]
  | [b4; b3] => [hex_char (digit b4 b3 false false false)]
  | [b4; b3; b2] => [hex_char (digit b4 b3 b2 false false)]
  | [b4; b3; b2; b1] => [hex_char (digit b4 b3 b2 b1 false)]
  end.

Definition base32Hex (bs : list Z) : gostring := base32_digits (flat_map byte_bits bs).

(** ** NSEC3 *)

Module Nsec3.

Definition nsec3HashSHA1 : Z := 1.
Definition maxNSEC3Iterations : Z := 100.

Record nsec3Record := MkNsec3Record { owner : gostring; zone : gostring; rr : NSEC3 }.

(** [a < b] on strings. *)
Definition str_lt (a b : gostring) : bool :=
  match Compare a b with Lt => true | _ => false end.

Definition covers (n : nsec3Record) (hash : gostring) : bool :=
  let next := ToUpper (base32Hex (n3_NextHashed (rr n))) in
  let afterOwner := str_lt (owner n) hash in
  let beforeNext := str_lt hash next in
  if negb (str_lt (owner n) next) then afterOwner || beforeNext
  else afterOwner && beforeNext.

Definition matches (n : nsec3Record) (hash : gostring) : bool := bool_decide (hash = owner n).

Section hashing.
Context `{Crypto}.

Definition iterated_hash (iterations : nat) (salt wire : list Z) : list Z :=
  Nat.iter iterations (fun sum => sha1 (sum ++ salt)) (sha1 (wire ++ salt)).

Definition hashName (n : nsec3Record) (name : gostring) : result denial_error gostring :=
  if negb (n3_Algorithm (rr n) =? nsec3HashSHA1) then Err ErrUnsupportedDenial
  else if maxNSEC3Iterations <? n3_Iterations (rr n) then Err ErrUnsupportedDenial
  else
    match canonicalName name with
    | Err e => Err (EHashName e)
    | Ok wire =>
      Ok (ToUpper (base32Hex
        (iterated_hash (Z.to_nat (n3_Iterations (rr n))) (n3_Salt (rr n)) wire)))
    end.

Fixpoint findMatch (nsec3s : list nsec3Record) (name : gostring) :
    result denial_error (option nsec3Record) :=
  match nsec3s with
  | [] => Ok None
  | n :: nsec3s =>
    hash ← hashName n name;
    if matches n hash then Ok (Some n) else findMatch nsec3s name
  end.

Fixpoint findCover (nsec3s : list nsec3Record) (name : gostring) :
    result denial_error (option nsec3Record) :=
  match nsec3s with
  | [] => Ok None
  | n :: nsec3s =>
    hash ← hashName n name;
    if covers n hash then Ok (Some n) else findCover nsec3s name
  end.

(** The loop of [closestEncloser]; [labels] is [labels[i-1:]]. *)
Fixpoint encloser_loop (nsec3s : list nsec3Record) (zoneLabels : nat)
    (labels : list gostring) : result denial_error (gostring * gostring) :=
  match labels with
  | [] => Err ErrNoDenial
  | _ :: above =>
    if bool_decide (length above < zoneLabels)%nat then Err ErrNoDenial
    else
      match_ ← findMatch nsec3s (Join dot above);
      match match_ with
      | Some _ => Ok (Join dot above, Join dot labels)
      | None => encloser_loop nsec3s zoneLabels above
      end
  end.

Definition closestEncloser (nsec3s : list nsec3Record) (name zone : gostring) :
    result denial_error (gostring * gostring) :=
  let labels := splitName name in
  let zoneLabels := length (splitName zone) in
  if bool_decide (length labels < zoneLabels)%nat then Err ErrNoDenial
  else encloser_loop nsec3s zoneLabels labels.

Definition proveNoDSNSEC3 (nsec3s : list nsec3Record) (zone : gostring) :
    result denial_error unit :=
  match_ ← findMatch nsec3s zone;
  match match_ with
  | Some m =>
    if NSEC3_TypeInBitmap (rr m) TypeSOA then Err ErrNoDenial
    else if NSEC3_TypeInBitmap (rr m) TypeDS then Err ErrNoDenial
    else Ok tt
  | None =>
    cover ← findCover nsec3s zone;
    match cover with
    | Some c => if OptOut (rr c) then Ok tt else Err ErrNoDenial
    | None => Err ErrNoDenial
    end
  end.

Definition proveNameErrorNSEC3 (nsec3s : list nsec3Record) (qname zone : gostring) :
    result denial_error unit :=
  '(encloser, nextCloser) ← closestEncloser nsec3s qname zone;
  cover ← findCover nsec3s nextCloser;
  match cover with
  | None => Err ErrNoDenial
  | Some _ =>
    wildcard ← findCover nsec3s (wildcard_of encloser);
    match wildcard with
    | None => Err ErrNoDenial
    | Some _ => Ok tt
    end
  end.

Definition proveNoDataNSEC3 (nsec3s : list nsec3Record) (qname : gostring) (qtype : Z)
    (zone : gostring) : result denial_error unit :=
  match_ ← findMatch nsec3s qname;
  match match_ with
  | Some m =>
    if NSEC3_TypeInBitmap (rr m) qtype then Err ErrNoDenial
    else if NSEC3_TypeInBitmap (rr m) TypeCNAME then Err ErrNoDenial
    else if negb (qtype =? TypeDS) && NSEC3_TypeInBitmap (rr m) TypeNS &&
            negb (NSEC3_TypeInBitmap (rr m) TypeSOA) then Err ErrNoDenial
    else Ok tt
  | None =>
    '(encloser, nextCloser) ← closestEncloser nsec3s qname zone;
    cover ← findCover nsec3s nextCloser;
    match cover with
    | None => Err ErrNoDenial
    | Some c =>
      if (qtype =? TypeDS) && OptOut (rr c) then Ok tt
      else
        wildcard ← findMatch nsec3s (wildcard_of encloser);
        match wildcard with
        | Some w => if negb (NSEC3_TypeInBitmap (rr w) qtype) then Ok tt else Err ErrNoDenial
        | None => Err ErrNoDenial
        end
    end
  end.

Definition proveNoCloserMatchNSEC3 (nsec3s : list nsec3Record) (qname zone : gostring) :
    result denial_error unit :=
  '(_, nextCloser) ← closestEncloser nsec3s qname zone;
  cover ← findCover nsec3s nextCloser;
  match cover with
  | None => Err ErrNoDenial
  | Some _ => Ok tt
  end.
End hashing.

Definition sameParameters (a b : NSEC3) : bool :=
  (n3_Algorithm a =? n3_Algorithm b) && (n3_Iterations a =? n3_Iterations b) &&
  bool_decide (n3_Salt a = n3_Salt b).

(** The loop of [nsec3Records]: [out] and [zone] are its variables. *)
Fixpoint collect (records : list RR) (out : list nsec3Record) (zone : gostring) :
    result denial_error (list nsec3Record * gostring) :=
  match records with
  | [] => Ok (out, zone)
  | r :: records =>
    match AsNSEC3 r with
    | None => collect records out zone
    | Some n =>
      let '(label, rest, found) :=
        match Cut (trim_dot (rr_Name r)) dot with
        | Some (before, after) => (before, after, true)
        | None => (trim_dot (rr_Name r), [], false)
        end in
      if bool_decide (label = []) then Err ErrNoDenial
      else
        let rest := if found then rest else [dot] in
        if negb (bool_decide (zone = [])) && negb (equalName rest zone) then Err ErrNoDenial
        else
          let zone := if bool_decide (zone = []) then rest else zone in
          if match out with
             | first :: _ => negb (sameParameters (rr first) n)
             | [] => false
             end then Err ErrNoDenial
          else collect records (out ++ [MkNsec3Record (ToUpper label) rest n]) zone
    end
  end.

Definition nsec3Records (records : list RR) : result denial_error (list nsec3Record * gostring) :=
  collect records [] [].
End Nsec3.

Export Nsec3 (nsec3Record, nsec3Records, closestEncloser, proveNoDSNSEC3, proveNameErrorNSEC3,
  proveNoDataNSEC3, proveNoCloserMatchNSEC3).

(** ** NSEC *)

Record nsecRecord := MkNsecRecord { nr_owner : gostring; nr_rr : NSEC }.

Definition nsec_covers (n : nsecRecord) (name : gostring) : bool :=
  let afterOwner := bool_decide (CompareNames name (nr_owner n) = Gt) in
  let beforeNext := bool_decide (CompareNames name (ns_NextDomain (nr_rr n)) = Lt) in
  if negb (bool_decide (CompareNames (nr_owner n) (ns_NextDomain (nr_rr n)) = Lt))
  then afterOwner || beforeNext
  else afterOwner && beforeNext.

Definition nsec_closestEncloser (n : nsecRecord) (name : gostring) : gostring :=
  let a := commonSuffix name (nr_owner n) in
  let b := commonSuffix name (ns_NextDomain (nr_rr n)) in
  if bool_decide (length (splitName b) <= length (splitName a))%nat then a else b.

Definition findCovering (nsecs : list nsecRecord) (name : gostring) : option nsecRecord :=
  List.find (fun n => nsec_covers n name) nsecs.

Record denial := MkDenial { d_nsec : list nsecRecord; d_nsec3 : list nsec3Record; d_zone : gostring }.

Definition nsec_records (records : list RR) : list nsecRecord :=
  omap (fun r => MkNsecRecord (rr_Name r) <$> AsNSEC r) records.

Definition collectDenial (records : list RR) : result denial_error denial :=
  let nsec := nsec_records records in
  if negb (bool_decide (nsec = [])) then Ok (MkDenial nsec [] [])
  else
    '(nsec3s, zone) ← nsec3Records records;
    if bool_decide (nsec3s = []) then Err ErrNoDenial
    else Ok (MkDenial [] nsec3s zone).

Section denial.
Context `{Crypto}.

Definition ProveNoDS (records : list RR) (zone : gostring) : result denial_error unit :=
  d ← collectDenial records;
  if negb (bool_decide (d_nsec3 d = [])) then proveNoDSNSEC3 (d_nsec3 d) zone
  else
    match List.find (fun n => equalName (nr_owner n) zone) (d_nsec d) with
    | Some n =>
      if NSEC_TypeInBitmap (nr_rr n) TypeSOA then Err ErrNoDenial
      else if NSEC_TypeInBitmap (nr_rr n) TypeDS then Err ErrNoDenial
      else Ok tt
    | None =>
      if existsb (fun n => nsec_covers n zone) (d_nsec d) then Ok tt else Err ErrNoDenial
    end.

Definition ProveNameError (records : list RR) (qname : gostring) : result denial_error unit :=
  d ← collectDenial records;
  if negb (bool_decide (d_nsec3 d = [])) then proveNameErrorNSEC3 (d_nsec3 d) qname (d_zone d)
  else
    match findCovering (d_nsec d) qname with
    | None => Err ErrNoDenial
    | Some covering =>
      let wildcard := wildcard_of (nsec_closestEncloser covering qname) in
      match findCovering (d_nsec d) wildcard with
      | None => Err ErrNoDenial
      | Some _ => Ok tt
      end
    end.

Definition ProveNoData (records : list RR) (qname : gostring) (qtype : Z) :
    result denial_error unit :=
  d ← collectDenial records;
  if negb (bool_decide (d_nsec3 d = [])) then proveNoDataNSEC3 (d_nsec3 d) qname qtype (d_zone d)
  else
    match List.find (fun n => equalName (nr_owner n) qname) (d_nsec d) with
    | Some n =>
      if NSEC_TypeInBitmap (nr_rr n) qtype then Err ErrNoDenial
      else if NSEC_TypeInBitmap (nr_rr n) TypeCNAME then Err ErrNoDenial
      else if negb (qtype =? TypeDS) && NSEC_TypeInBitmap (nr_rr n) TypeNS &&
              negb (NSEC_TypeInBitmap (nr_rr n) TypeSOA) then Err ErrNoDenial
      else Ok tt
    | None =>
      match findCovering (d_nsec d) qname with
      | None => Err ErrNoDenial
      | Some covering =>
        if isProperSubdomain (ns_NextDomain (nr_rr covering)) qname then Ok tt
        else
          let wildcard := wildcard_of (nsec_closestEncloser covering qname) in
          if existsb (fun n => equalName (nr_owner n) wildcard &&
                               negb (NSEC_TypeInBitmap (nr_rr n) qtype)) (d_nsec d)
          then Ok tt else Err ErrNoDenial
      end
    end.

Definition ProveNoCloserMatch (records : list RR) (qname : gostring) : result denial_error unit :=
  d ← collectDenial records;
  if negb (bool_decide (d_nsec3 d = [])) then proveNoCloserMatchNSEC3 (d_nsec3 d) qname (d_zone d)
  else
    match findCovering (d_nsec d) qname with
    | None => Err ErrNoDenial
    | Some _ => Ok tt
    end.
End denial.

Definition IsWildcardExpansion (owner : gostring) (sig : RRSIG) : bool :=
  sig_Labels sig <? Z.of_nat (length (splitName owner)).
