(* ===== verification/DenialSpec.v ===== *)
(** Soundness of denial of existence.  A signed zone is described by the names
    that own records and the types they have; a denial record is truthful when
    it says nothing false about that zone.  The theorems show that what the code
    accepts as a proof from truthful records is true of the zone. *)

From S2P Require Import Prelude GoUnicode GoStrings GoNet DnsMsg Encoder Decoder WireSpec WireCalculus WireNames WireRoundTrip DecoderSafe DnssecRecords DnssecNames Verify Denial.

Open Scope Z_scope.

(** ** Gaps *)

(** [k] lies strictly between [o] and [n] on the circle of a total order. *)
Definition in_gap {A} (cmp : A -> A -> comparison) (o n k : A) : Prop :=
  if decide (cmp o n = Lt) then cmp o k = Lt /\ cmp k n = Lt else cmp o k = Lt \/ cmp k n = Lt.

Abbreviation name_cmp := (lex Compare).

Lemma CompOpp_Gt c : CompOpp c = Gt <-> c = Lt.
Proof. by destruct c. Qed.

Lemma nsec_covers_gap n name :
  nsec_covers n name = true <->
  in_gap name_cmp (key (nr_owner n)) (key (ns_NextDomain (nr_rr n))) (key name).
Proof.
  unfold nsec_covers, in_gap. rewrite !CompareNames_key.
  rewrite (bool_decide_ext (name_cmp (key name) (key (nr_owner n)) = Gt)
    (name_cmp (key (nr_owner n)) (key name) = Lt)).
  2: { by rewrite (cmp_opp (cmp := name_cmp) (key (nr_owner n)) (key name)), CompOpp_Gt. }
  case_decide; [rewrite bool_decide_true by done|rewrite bool_decide_false by done]; simpl.
  - by rewrite andb_true_iff, !bool_decide_eq_true.
  - by rewrite orb_true_iff, !bool_decide_eq_true.
Qed.

Lemma not_Gt_trans_Lt a b c : name_cmp a b <> Gt -> name_cmp b c = Lt -> name_cmp a c = Lt.
Proof.
  intros H1 H2. destruct (name_cmp a b) eqn:E; [|by eapply cmp_trans|done].
  by apply (cmp_eq (cmp := name_cmp)) in E as ->.
Qed.

Lemma Lt_not_Gt_trans a b c : name_cmp b c <> Gt -> name_cmp a b = Lt -> name_cmp a c = Lt.
Proof.
  intros H1 H2. destruct (name_cmp b c) eqn:E; [|by eapply cmp_trans|done].
  by apply (cmp_eq (cmp := name_cmp)) in E as <-.
Qed.

Lemma not_Lt_not_Gt a b : name_cmp a b <> Lt -> name_cmp b a <> Gt.
Proof. rewrite (cmp_opp (cmp := name_cmp) a b). by destruct (name_cmp a b). Qed.

Lemma prefix_snoc_cases {A} (p a : list A) x :
  p `prefix_of` a ++ [x] -> p = a ++ [x] \/ p `prefix_of` a.
Proof.
  intros [s Hs]. destruct s as [|y s _] using rev_ind; [left; by rewrite app_nil_r in Hs|].
  right. rewrite app_assoc in Hs. apply app_inj_tail in Hs as [-> _]. by apply prefix_app_r.
Qed.

(** The step that makes NSEC proofs work: an ancestor of a name in the gap that is
    not an ancestor of either end is in the gap itself. *)
Lemma gap_ancestor o n k p :
  in_gap name_cmp o n k -> p `prefix_of` k -> ~ p `prefix_of` o -> in_gap name_cmp o n p.
Proof.
  intros Hg Hp Ho. pose proof (lex_prefix Compare _ _ Hp) as Hle.
  assert (Hafter : name_cmp o k = Lt -> name_cmp o p = Lt).
  { intros H. destruct (name_cmp o p) eqn:E; [|done|]; exfalso; apply Ho.
    - by apply (cmp_eq (cmp := name_cmp)) in E as ->.
    - apply (lex_interval Compare p o k Hp); [|by rewrite H].
      rewrite (cmp_opp (cmp := name_cmp) o p), E. done. }
  assert (Hbefore : name_cmp k n = Lt -> name_cmp p n = Lt) by by apply not_Gt_trans_Lt.
  unfold in_gap in *. case_decide; naive_solver.
Qed.

(** ** Signed zones *)

Section zone.
(** The names that own records in the zone, by key, and the types they have. *)
Context (owns : list gostring -> Prop) (types : list gostring -> Z -> Prop).

(** A name exists in the tree if it or a name below it owns records. *)
Definition in_tree (k : list gostring) : Prop := exists k', k `prefix_of` k' /\ owns k'.

(** [ce] is the deepest existing ancestor of [k]. *)
Definition closest_encloser (k ce : list gostring) : Prop :=
  ce `prefix_of` k /\ in_tree ce /\ forall p, p `prefix_of` k -> in_tree p -> p `prefix_of` ce.

(** The zone has an answer of type [t] for [k]: at the name itself, or from the
    wildcard below the closest encloser of a name that does not exist. *)
Definition zone_has (k : list gostring) (t : Z) : Prop :=
  types k t \/
  (~ in_tree k /\ exists ce, closest_encloser k ce /\ types (ce ++ [star]) t).

(** What an authentic NSEC record says: both ends own records, nothing between
    them does, and the owner has no type the bitmap does not list. *)
Definition truthful (n : nsecRecord) : Prop :=
  owns (key (nr_owner n)) /\ owns (key (ns_NextDomain (nr_rr n))) /\
  (forall k, in_gap name_cmp (key (nr_owner n)) (key (ns_NextDomain (nr_rr n))) k -> ~ owns k) /\
  (forall t, NSEC_TypeInBitmap (nr_rr n) t = false -> ~ types (key (nr_owner n)) t).

Definition nsec_wf (n : nsecRecord) : Prop :=
  name_wf (nr_owner n) = true /\ name_wf (ns_NextDomain (nr_rr n)) = true.

Lemma in_tree_prefix p k : p `prefix_of` k -> in_tree k -> in_tree p.
Proof. intros Hp (k' & Hk & Ho). exists k'. split; [by etrans|done]. Qed.

Lemma owns_in_tree k : owns k -> in_tree k.
Proof. by exists k. Qed.

Lemma closest_encloser_unique k c1 c2 :
  closest_encloser k c1 -> closest_encloser k c2 -> c1 = c2.
Proof.
  intros (P1 & T1 & M1) (P2 & T2 & M2). apply (anti_symm prefix); auto.
Qed.

(** *** Wildcards and common ancestors *)

Lemma commonSuffix_Join a b : commonSuffix a b = Join dot (reverse (lcp (key a) (key b))).
Proof.
  unfold commonSuffix. change (reverse (splitName (ToLower a))) with (key a).
  change (reverse (splitName (ToLower b))) with (key b). unfold lcp.
  replace (splitName (ToLower a)) with (reverse (key a)) by (unfold key; by rewrite reverse_involutive).
  set (n := shared_labels (key a) (key b)). case_bool_decide as E; [by rewrite E|].
  f_equal. rewrite length_reverse. rewrite <-(take_drop n (key a)) at 2.
  rewrite reverse_app, drop_app_length'; [done|]. rewrite length_reverse, length_drop. lia.
Qed.

Lemma star_wf : star <> [] /\ no_sep dot star /\ ToLower star = star /\ is_ascii star = true.
Proof. split; [done|]. split; [unfold no_sep, star, dot; set_solver|by vm_compute]. Qed.

Lemma key_wildcard ls : labels_wf ls -> key (wildcard_of (Join dot (reverse ls))) = ls ++ [star].
Proof.
  intros H. destruct (decide (ls = [])) as [->|Hne]; [by vm_compute|].
  assert (Hr : reverse ls <> []) by (by intros E%(f_equal reverse); rewrite reverse_involutive in E).
  replace (wildcard_of (Join dot (reverse ls))) with (Join dot (star :: reverse ls))
    by by rewrite Join_cons.
  rewrite key_Join.
  - by rewrite reverse_cons, reverse_involutive.
  - constructor; [apply star_wf|by apply Forall_reverse].
Qed.

(** *** The closest encloser of an NSEC gap *)

Lemma nsec_closestEncloser_spec n name :
  name_wf name = true -> nsec_wf n ->
  exists ce, nsec_closestEncloser n name = Join dot (reverse ce) /\ labels_wf ce /\
    ce `prefix_of` key name /\
    (ce `prefix_of` key (nr_owner n) \/ ce `prefix_of` key (ns_NextDomain (nr_rr n))) /\
    forall p, p `prefix_of` key name ->
      p `prefix_of` key (nr_owner n) \/ p `prefix_of` key (ns_NextDomain (nr_rr n)) ->
      p `prefix_of` ce.
Proof.
  intros Hn [Ho Hx]. unfold nsec_closestEncloser.
  assert (Hlen : forall b, name_wf b = true ->
    length (splitName (commonSuffix name b)) = length (lcp (key name) (key b))).
  { intros b Hb. rewrite <-(commonSuffix_key name b) by done. rewrite key_map.
    by rewrite length_reverse, length_map. }
  rewrite !Hlen, !commonSuffix_Join by done.
  set (o := key (nr_owner n)). set (x := key (ns_NextDomain (nr_rr n))). set (k := key name).
  assert (Hwf : forall b, labels_wf (lcp k b)) by (intros b; by apply Forall_take, key_labels_wf).
  destruct (lcp_prefix k o) as [Lo1 Lo2], (lcp_prefix k x) as [Lx1 Lx2].
  assert (Hcmp : forall a b, a `prefix_of` k -> b `prefix_of` k ->
    (length a <= length b)%nat -> a `prefix_of` b).
  { intros a b Ha Hb Hl. destruct (prefix_weak_total a b k Ha Hb) as [|Hba]; [done|].
    rewrite (prefix_length_eq b a Hba); [done|lia]. }
  case_bool_decide as Hl; [exists (lcp k o)|exists (lcp k x)]; split_and!; auto.
  - intros p Hp [H|H]; [by apply lcp_longest|].
    transitivity (lcp k x); [by apply lcp_longest|]. by apply Hcmp.
  - intros p Hp [H|H]; [|by apply lcp_longest].
    transitivity (lcp k o); [by apply lcp_longest|]. apply Hcmp; [done..|lia].
Qed.

Lemma covers_not_owned n name : truthful n -> nsec_covers n name = true -> ~ owns (key name).
Proof. intros (_ & _ & Hg & _) Hc%nsec_covers_gap. by apply Hg. Qed.

(** Both ends of the gap exist, so the code's closest encloser is the true one:
    nothing longer exists, not even as a branch of the tree. *)
Lemma nsec_closestEncloser_closest n name :
  name_wf name = true -> nsec_wf n -> truthful n -> nsec_covers n name = true ->
  exists ce, nsec_closestEncloser n name = Join dot (reverse ce) /\ labels_wf ce /\
    closest_encloser (key name) ce.
Proof.
  intros Hn Hwf Ht Hc. destruct (nsec_closestEncloser_spec n name Hn Hwf)
    as (ce & E & Hce & Hp & Hends & Hmax).
  exists ce. split_and!; [done|done|]. pose proof Ht as (Ho & Hx & Hg & _).
  split_and!; [done| |].
  - destruct Hends; [by exists (key (nr_owner n))|by exists (key (ns_NextDomain (nr_rr n)))].
  - intros p Hpk (q & Hpq & Hq). apply Hmax; [done|].
    destruct (decide (p `prefix_of` key (nr_owner n))) as [|Hno]; [by left|right].
    apply nsec_covers_gap in Hc. pose proof (gap_ancestor _ _ _ _ Hc Hpk Hno) as Hgp.
    set (o := key (nr_owner n)) in *. set (x := key (ns_NextDomain (nr_rr n))) in *.
    pose proof (lex_prefix Compare _ _ Hpq) as Hle.
    assert (Hnq : ~ in_gap name_cmp o x q) by (intros H; by apply (Hg q H)).
    assert (Hoq : name_cmp o p = Lt -> name_cmp o q = Lt) by by apply Lt_not_Gt_trans.
    assert (Hx' : name_cmp p x = Lt /\ name_cmp q x <> Lt).
    { unfold in_gap in *. case_decide; [naive_solver|]. destruct Hgp; naive_solver. }
    destruct Hx' as [H1 H2]. apply (lex_interval Compare p x q Hpq); [by rewrite H1|].
    by apply not_Lt_not_Gt.
Qed.

(** ** NSEC proofs are sound *)

Context (types_owns : forall k t, types k t -> owns k).
Context `{Crypto}.

Definition nsecs_truthful (records : list RR) : Prop :=
  nsec_records records <> [] /\ forall n, n ∈ nsec_records records -> nsec_wf n /\ truthful n.

Lemma collectDenial_nsec records :
  nsec_records records <> [] -> collectDenial records = Ok (MkDenial (nsec_records records) [] []).
Proof. intros Hne. unfold collectDenial. by rewrite bool_decide_false. Qed.

Lemma findCovering_spec nsecs name n :
  findCovering nsecs name = Some n -> n ∈ nsecs /\ nsec_covers n name = true.
Proof. intros [Hin Hc]%List.find_some. split; [by apply list_elem_of_In|done]. Qed.

Lemma find_owner_spec nsecs name n :
  List.find (fun n => equalName (nr_owner n) name) nsecs = Some n ->
  name_wf name = true -> nsec_wf n -> n ∈ nsecs /\ key (nr_owner n) = key name.
Proof.
  intros [Hin Hc]%List.find_some [Ha _]%name_wf_spec [[Hb _]%name_wf_spec _].
  split; [by apply list_elem_of_In|]. rewrite equalName_ascii in Hc by done.
  by apply bool_decide_eq_true in Hc.
Qed.

Lemma closest_wildcard k ce t :
  closest_encloser k ce -> ~ types k t -> ~ types (ce ++ [star]) t -> ~ zone_has k t.
Proof.
  intros Hce Hk Hw [Ht|(_ & ce' & Hce' & Ht)]; [done|].
  by rewrite (closest_encloser_unique _ _ _ Hce' Hce) in Ht.
Qed.

(** C28: An NSEC proof of a name error is sound: if [ProveNameError] accepts
    truthful records, the zone has no answer of any type for the name - no
    records at the name, and none at the wildcard that could have answered
    for it, which is the one below the name's true closest encloser. *)
Theorem ProveNameError_sound records qname t :
  nsecs_truthful records -> name_wf qname = true ->
  ProveNameError records qname = Ok tt -> ~ zone_has (key qname) t.
Proof.
  intros [Hne Hall] Hq. unfold ProveNameError. rewrite collectDenial_nsec by done.
  cbn [mbind result_bind d_nsec d_nsec3].
  rewrite (bool_decide_true (@nil nsec3Record = [])) by done. cbn [negb].
  destruct (findCovering _ qname) as [n|] eqn:E; [|done].
  apply findCovering_spec in E as [Hn Hc]. destruct (Hall n Hn) as [Hwf Ht].
  destruct (nsec_closestEncloser_closest n qname Hq Hwf Ht Hc) as (ce & -> & Hce & Hclose).
  destruct (findCovering _ (wildcard_of _)) as [w|] eqn:Ew; [|done]. intros _.
  apply findCovering_spec in Ew as [Hw Hcw]. destruct (Hall w Hw) as [_ Htw].
  apply (closest_wildcard _ ce _ Hclose).
  - intros Hty. exact (covers_not_owned _ _ Ht Hc (types_owns _ _ Hty)).
  - intros Hty. apply (covers_not_owned _ _ Htw Hcw). rewrite key_wildcard by done.
    by eapply types_owns.
Qed.

(** C29: An NSEC proof of an empty answer is sound: if [ProveNoData] accepts
    truthful records, the zone has no answer of that type for the name,
    whether the name owns records, is only a branch of the tree, or does not
    exist and would be answered by a wildcard. *)
Theorem ProveNoData_sound records qname qtype :
  nsecs_truthful records -> name_wf qname = true ->
  ProveNoData records qname qtype = Ok tt -> ~ zone_has (key qname) qtype.
Proof.
  intros [Hne Hall] Hq. unfold ProveNoData. rewrite collectDenial_nsec by done.
  cbn [mbind result_bind d_nsec d_nsec3].
  rewrite (bool_decide_true (@nil nsec3Record = [])) by done. cbn [negb].
  destruct (List.find _ _) as [n|] eqn:E.
  { pose proof E as [Hin%list_elem_of_In _]%List.find_some. destruct (Hall n Hin) as [Hwf Ht].
    apply find_owner_spec in E as [_ Hk]; [|done..].
    destruct (NSEC_TypeInBitmap (nr_rr n) qtype) eqn:Hb; [done|]. intros _.
    destruct Ht as (Ho & _ & _ & Hno). specialize (Hno _ Hb). rewrite Hk in *.
    intros [?|[Hnt _]]; [done|]. by apply Hnt, owns_in_tree. }
  destruct (findCovering _ qname) as [n|] eqn:Ec; [|done].
  apply findCovering_spec in Ec as [Hn Hc]. destruct (Hall n Hn) as [Hwf Ht].
  assert (Hqt : ~ types (key qname) qtype)
    by (intros Hty; exact (covers_not_owned _ _ Ht Hc (types_owns _ _ Hty))).
  destruct (isProperSubdomain _ _) eqn:Es.
  { intros _ [?|[Hnt _]]; [done|]. apply Hnt. destruct Hwf as [_ [Hx _]%name_wf_spec].
    apply isProperSubdomain_key in Es as [_ Hp]; [|done|by apply name_wf_spec].
    exists (key (ns_NextDomain (nr_rr n))). split; [done|]. apply Ht. }
  destruct (nsec_closestEncloser_closest n qname Hq Hwf Ht Hc) as (ce & -> & Hce & Hclose).
  destruct (existsb _ _) eqn:Ew; [|done]. intros _.
  apply existsb_exists in Ew as (w & Hw%list_elem_of_In & [Hown Hb]%andb_true_iff).
  apply negb_true_iff in Hb. destruct (Hall w Hw) as [[[Hwa _]%name_wf_spec _] Htw].
  apply (closest_wildcard _ ce _ Hclose); [done|].
  rewrite equalName_ascii, key_wildcard in Hown; [|done|done|].
  - apply bool_decide_eq_true in Hown. rewrite <-Hown. destruct Htw as (_ & _ & _ & Hno). by apply Hno.
  - apply (is_ascii_Join (reverse ce)). by apply Forall_reverse.
Qed.

(** The records of a referral may hold the child's own NSEC for its apex, which
    lists an SOA and is about another zone; only the others have to be
    truthful about the parent. *)
Definition parent_nsecs_truthful (records : list RR) (zone : gostring) : Prop :=
  nsec_records records <> [] /\ forall n, n ∈ nsec_records records -> nsec_wf n /\
    (key (nr_owner n) <> key zone \/ NSEC_TypeInBitmap (nr_rr n) TypeSOA = false -> truthful n).

(** An NSEC proof that a delegation is unsigned is sound: if [ProveNoDS]
    accepts, the parent has no DS record at the delegated name; a record from
    the child's side of the cut is never what it rests on. *)
Theorem ProveNoDS_sound records zone :
  parent_nsecs_truthful records zone -> name_wf zone = true ->
  ProveNoDS records zone = Ok tt -> ~ types (key zone) TypeDS.
Proof.
  intros [Hne Hall] Hz. unfold ProveNoDS. rewrite collectDenial_nsec by done.
  cbn [mbind result_bind d_nsec d_nsec3].
  rewrite (bool_decide_true (@nil nsec3Record = [])) by done. cbn [negb].
  destruct (List.find _ _) as [n|] eqn:E.
  - pose proof E as [Hin%list_elem_of_In _]%List.find_some. destruct (Hall n Hin) as [Hwf Ht].
    apply find_owner_spec in E as [_ Hk]; [|done..].
    destruct (NSEC_TypeInBitmap (nr_rr n) TypeSOA) eqn:Hsoa; [done|].
    destruct (NSEC_TypeInBitmap (nr_rr n) TypeDS) eqn:Hds; [done|]. intros _.
    destruct (Ht (or_intror eq_refl)) as (_ & _ & _ & Hno). rewrite <-Hk. by apply Hno.
  - destruct (existsb _ _) eqn:Ex; [|done]. intros _ Hty.
    apply existsb_exists in Ex as (n & Hin & Hc).
    pose proof (List.find_none _ _ E n Hin) as Hneq. apply list_elem_of_In in Hin.
    destruct (Hall n Hin) as [Hwf Ht]. apply (covers_not_owned n zone); [|done|by eapply types_owns].
    apply Ht. left. cbn in Hneq. destruct Hwf as [[Ha _]%name_wf_spec _].
    apply name_wf_spec in Hz as [Hb _]. rewrite equalName_ascii in Hneq by done.
    by apply bool_decide_eq_false in Hneq.
Qed.

(** ** NSEC3 proofs are sound *)

(** An unsigned delegation: a name that owns nothing a signed answer could
    hold, its own or a wildcard's.  Opt-out gaps may hide such names. *)
Definition unsigned_delegation (k : list gostring) : Prop := forall t, types k t -> t = TypeNS.

(** The zone's own name: NSEC3 records speak of the names at or below it only. *)
Context (apex : list gostring).

(** What an authentic NSEC3 record says about the zone: the name hashing to its
    owner exists in the zone and has no type the bitmap does not list; no
    existing name of the zone hashes into the gap, unless the record opts out,
    and then only unsigned delegations and the names leading to them. *)
Definition truthful3 (n : nsec3Record) : Prop :=
  (forall name h, Nsec3.hashName n name = Ok h -> Nsec3.matches n h = true ->
     apex `prefix_of` key name /\ in_tree (key name) /\
     forall t, NSEC3_TypeInBitmap (Nsec3.rr n) t = false -> ~ types (key name) t) /\
  (forall name h, Nsec3.hashName n name = Ok h -> Nsec3.covers n h = true ->
     apex `prefix_of` key name ->
     if OptOut (Nsec3.rr n)
     then forall k, key name `prefix_of` k -> unsigned_delegation k
     else ~ in_tree (key name)).

Lemma findMatch_spec nsec3s name n :
  Nsec3.findMatch nsec3s name = Ok (Some n) ->
  n ∈ nsec3s /\ exists h, Nsec3.hashName n name = Ok h /\ Nsec3.matches n h = true.
Proof.
  induction nsec3s as [|m l IH]; cbn [Nsec3.findMatch]; [done|].
  destruct (Nsec3.hashName m name) as [h|] eqn:E; [|done]. cbn [mbind result_bind].
  destruct (Nsec3.matches m h) eqn:Em; [intros [= <-]; set_solver|].
  intros (? & ?)%IH. set_solver.
Qed.

Lemma findCover_spec nsec3s name n :
  Nsec3.findCover nsec3s name = Ok (Some n) ->
  n ∈ nsec3s /\ exists h, Nsec3.hashName n name = Ok h /\ Nsec3.covers n h = true.
Proof.
  induction nsec3s as [|m l IH]; cbn [Nsec3.findCover]; [done|].
  destruct (Nsec3.hashName m name) as [h|] eqn:E; [|done]. cbn [mbind result_bind].
  destruct (Nsec3.covers m h) eqn:Em; [intros [= <-]; set_solver|].
  intros (? & ?)%IH. set_solver.
Qed.

(** *** The names the encloser loop tries *)

Definition name_labels (ls : list gostring) : Prop :=
  Forall (fun l => l <> []) ls /\ Forall (no_sep dot) ls /\ Forall (fun l => is_ascii l = true) ls.

Lemma splitName_Join ls : name_labels ls -> splitName (Join dot ls) = ls.
Proof.
  intros (Hne & Hns & _). unfold splitName. rewrite trim_dot_Join by done.
  case_bool_decide as E; [by apply Join_nil_iff in E|]. apply Split_Join; [by intros ->|done].
Qed.

Lemma key_labels ls : name_labels ls -> key (Join dot ls) = reverse (map ToLower ls).
Proof. intros Hl. by rewrite key_map, splitName_Join. Qed.

Lemma name_labels_splitName name : name_wf name = true -> name_labels (splitName name).
Proof.
  intros [Ha Hne]%name_wf_spec. split_and!; [done|apply splitName_no_sep|].
  unfold splitName. case_bool_decide; [constructor|]. by apply is_ascii_Split, is_ascii_trim.
Qed.

Lemma name_labels_tail l ls : name_labels (l :: ls) -> name_labels ls.
Proof. intros ([_ ?]%Forall_cons & [_ ?]%Forall_cons & [_ ?]%Forall_cons). by split_and!. Qed.

Lemma reverse_suffix_prefix (pre ls : list gostring) :
  reverse (map ToLower ls) `prefix_of` reverse (map ToLower (pre ++ ls)).
Proof. rewrite map_app, reverse_app. by apply prefix_app_r. Qed.

(** The encloser the loop stops at is shown by a record, and the next closer
    name is one label longer. *)
Lemma encloser_loop_spec nsec3s zl labels enc next :
  name_labels labels -> Nsec3.encloser_loop nsec3s zl labels = Ok (enc, next) ->
  exists pre l above, labels = pre ++ l :: above /\ enc = Join dot above /\
    next = Join dot (l :: above) /\ exists m, Nsec3.findMatch nsec3s enc = Ok (Some m).
Proof.
  induction labels as [|l above IH]; intros Hl; cbn [Nsec3.encloser_loop]; [done|].
  case_bool_decide; [done|].
  destruct (Nsec3.findMatch nsec3s (Join dot above)) as [[m|]|] eqn:E; cbn [mbind result_bind]; [| |done].
  - intros [= <- <-]. exists [], l, above. split_and!; eauto.
  - intros H'. destruct (IH (name_labels_tail _ _ Hl) H') as (pre & l' & ab & -> & ? & ? & ?).
    exists (l :: pre), l', ab. by split_and!.
Qed.

Definition nsec3s_truthful (nsec3s : list nsec3Record) : Prop :=
  forall n, n ∈ nsec3s -> truthful3 n.

Lemma key_wildcard_labels ls :
  name_labels ls -> key (wildcard_of (Join dot ls)) = key (Join dot ls) ++ [star].
Proof.
  intros Hl. destruct (decide (ls = [])) as [->|Hne]; [by vm_compute|].
  replace (wildcard_of (Join dot ls)) with (Join dot (star :: ls)) by by rewrite Join_cons.
  rewrite !key_labels; [cbn [map]; by rewrite reverse_cons|done|].
  destruct Hl as (? & ? & ?), star_wf as (? & ? & _ & ?). by split_and!; constructor.
Qed.

(** A name in a gap, opting out or not, has no signed record, nor has any below it. *)
Lemma covered_unsigned n name h k :
  truthful3 n -> Nsec3.hashName n name = Ok h -> Nsec3.covers n h = true ->
  apex `prefix_of` key name -> key name `prefix_of` k -> unsigned_delegation k.
Proof.
  intros [_ Hgap] Hh Hc Ha Hk. specialize (Hgap _ _ Hh Hc Ha). destruct (OptOut (Nsec3.rr n)); [by apply Hgap|].
  intros t Hty. exfalso. by eapply Hgap, in_tree_prefix, owns_in_tree, types_owns.
Qed.

(** The closest encloser proof, with a record whose gap holds the next closer
    name: the encloser exists, nothing at or below the next closer name has a signed
    record, and unless the record opts out nothing there exists. *)
Lemma closest_encloser_proof nsec3s qname zone enc next c :
  nsec3s_truthful nsec3s -> name_wf qname = true ->
  closestEncloser nsec3s qname zone = Ok (enc, next) ->
  Nsec3.findCover nsec3s next = Ok (Some c) ->
  key (wildcard_of enc) = key enc ++ [star] /\ apex `prefix_of` key enc /\ in_tree (key enc) /\
  (exists x, key next = key enc ++ [x]) /\ key next `prefix_of` key qname /\
  (forall k, key next `prefix_of` k -> unsigned_delegation k) /\
  (OptOut (Nsec3.rr c) = false -> closest_encloser (key qname) (key enc) /\ ~ in_tree (key qname)).
Proof.
  intros Ht Hq Hce Hcov. unfold Nsec3.closestEncloser in Hce. case_bool_decide; [done|].
  pose proof (name_labels_splitName _ Hq) as Hnl.
  destruct (encloser_loop_spec _ _ _ _ _ Hnl Hce) as (pre & l & above & Hs & -> & -> & m & Hm).
  assert (Hla : name_labels (l :: above)).
  { rewrite Hs in Hnl. clear -Hnl. induction pre; [done|]. by eapply IHpre, name_labels_tail. }
  assert (Hla' : name_labels above) by by eapply name_labels_tail.
  apply findMatch_spec in Hm as (Hin & h & Hh & Hmm).
  destruct (Ht m Hin) as [Hmatch _]. destruct (Hmatch _ _ Hh Hmm) as (Hapex & Htree & _).
  assert (Hlast : key (Join dot (l :: above)) = key (Join dot above) ++ [ToLower l])
    by (rewrite !key_labels by done; cbn [map]; by rewrite reverse_cons).
  assert (Hnext : key (Join dot (l :: above)) `prefix_of` key qname).
  { rewrite key_labels, (key_map qname), Hs by done. apply reverse_suffix_prefix. }
  apply findCover_spec in Hcov as (Hinc & h' & Hh' & Hcc).
  assert (Hup : apex `prefix_of` key (Join dot (l :: above))) by (rewrite Hlast; by apply prefix_app_r).
  split_and!; [by apply key_wildcard_labels|done|done|by eexists|done|intros k; by apply (covered_unsigned c _ h' k (Ht c Hinc) Hh' Hcc Hup)|].
  intros Hopt. destruct (Ht c Hinc) as [_ Hgap]. specialize (Hgap _ _ Hh' Hcc Hup). rewrite Hopt in Hgap.
  assert (Hnot : ~ in_tree (key qname)) by (intros Hi; by apply Hgap, (in_tree_prefix _ _ Hnext)).
  split; [|done]. split_and!; [etrans; [|exact Hnext]; rewrite Hlast; by apply prefix_app_r|done|].
  intros p Hp Hip. destruct (prefix_weak_total p _ _ Hp Hnext) as [Hpn|Hnp].
  - rewrite Hlast in Hpn. apply prefix_snoc_cases in Hpn as [->|?]; [|done]. by rewrite <-Hlast in Hip.
  - exfalso. by apply Hgap, (in_tree_prefix _ _ Hnp).
Qed.

(** C35: An NSEC3 proof of a name error is sound: whether its records opt out or not,
    the zone has no signed answer for the name, its own or from a wildcard, of any
    type but NS - so the name can at most be, or lead to, an unsigned delegation in
    an opt-out gap - and when none opts out it has no answer of any type at all. *)
Theorem proveNameErrorNSEC3_sound nsec3s qname zone t :
  nsec3s_truthful nsec3s -> name_wf qname = true ->
  proveNameErrorNSEC3 nsec3s qname zone = Ok tt ->
  (t <> TypeNS -> ~ zone_has (key qname) t) /\
  ((forall n, n ∈ nsec3s -> OptOut (Nsec3.rr n) = false) -> ~ zone_has (key qname) t).
Proof.
  intros Ht Hq Hp. unfold Nsec3.proveNameErrorNSEC3 in Hp.
  destruct (closestEncloser _ _ _) as [[enc next]|] eqn:Ece; [|done]. cbn [mbind result_bind] in Hp.
  destruct (Nsec3.findCover nsec3s next) as [[c|]|] eqn:Ec; [|done..].
  cbn [mbind result_bind] in Hp.
  destruct (Nsec3.findCover nsec3s (wildcard_of enc)) as [[w|]|] eqn:Ew; [|done..].
  destruct (closest_encloser_proof _ _ _ _ _ _ Ht Hq Ece Ec) as (Hw & Hapex & Htree & [x Hx] & Hnext & Hbelow & Hrest).
  apply findCover_spec in Ec as [Hc _]. apply findCover_spec in Ew as (Hwin & h & Hh & Hcov).
  assert (Hwa : apex `prefix_of` key (wildcard_of enc)) by (rewrite Hw; by apply prefix_app_r).
  split.
  - intros Hns [Hty|(_ & ce & (Hce & _ & Hmax) & Hty)]; [by apply Hns, (Hbelow _ Hnext)|].
    destruct (prefix_weak_total ce _ _ Hce Hnext) as [Hn|Hn]; [rewrite Hx in Hn; apply prefix_snoc_cases in Hn as [->|Hn]|].
    + apply Hns, (Hbelow ((key enc ++ [x]) ++ [star])); [rewrite Hx; by apply prefix_app_r|done].
    + assert (ce = key enc) as ->.
      { apply (anti_symm prefix); [done|]. apply Hmax; [|done]. etrans; [|exact Hnext]. rewrite Hx. by apply prefix_app_r. }
      rewrite <-Hw in Hty. by apply Hns, (covered_unsigned w (wildcard_of enc) h (key (wildcard_of enc)) (Ht w Hwin)).
    + apply Hns, (Hbelow (ce ++ [star])); [by apply prefix_app_r|done].
  - intros Hopt. destruct (Hrest (Hopt c Hc)) as [Hclose Hnot].
    destruct (Ht w Hwin) as [_ Hgap]. specialize (Hgap _ _ Hh Hcov Hwa). rewrite (Hopt w Hwin), Hw in Hgap.
    apply (closest_wildcard _ _ _ Hclose); intros Hty; [by eapply Hnot, owns_in_tree, types_owns|].
    by eapply Hgap, owns_in_tree, types_owns.
Qed.

(** C36: An NSEC3 proof of an empty answer is sound: whatever combination of
    matching, covering, opt-out and wildcard records [proveNoDataNSEC3] accepts,
    the name itself has no signed record of that type; and without opt-out the
    zone has no answer of that type for it, from a wildcard neither. *)
Theorem proveNoDataNSEC3_sound nsec3s qname qtype zone :
  nsec3s_truthful nsec3s -> name_wf qname = true ->
  proveNoDataNSEC3 nsec3s qname qtype zone = Ok tt ->
  (qtype <> TypeNS -> ~ types (key qname) qtype) /\
  ((forall n, n ∈ nsec3s -> OptOut (Nsec3.rr n) = false) -> ~ zone_has (key qname) qtype).
Proof.
  intros Ht Hq Hp. unfold Nsec3.proveNoDataNSEC3 in Hp.
  destruct (Nsec3.findMatch nsec3s qname) as [[m|]|] eqn:Em; cbn [mbind result_bind] in Hp; [| |done].
  { destruct (NSEC3_TypeInBitmap (Nsec3.rr m) qtype) eqn:Hb; [done|].
    apply findMatch_spec in Em as (Hin & h & Hh & Hm). destruct (Ht m Hin) as [Hmatch _].
    destruct (Hmatch _ _ Hh Hm) as (_ & Htree & Hno). split; [by auto|]. intros _.
    intros [?|[Hnt _]]; [by eapply Hno|done]. }
  destruct (closestEncloser _ _ _) as [[enc next]|] eqn:Ece; [|done]. cbn [mbind result_bind] in Hp.
  destruct (Nsec3.findCover nsec3s next) as [[c|]|] eqn:Ec; cbn [mbind result_bind] in Hp; [|done..].
  destruct (closest_encloser_proof _ _ _ _ _ _ Ht Hq Ece Ec) as (Hw & _ & _ & _ & Hnext & Hbelow & Hrest).
  apply findCover_spec in Ec as [Hc _]. split.
  - intros Hns Hty. by apply Hns, (Hbelow _ Hnext).
  - intros Hopt. rewrite (Hopt c Hc) in *. rewrite andb_false_r in Hp.
    destruct (Hrest eq_refl) as [Hclose Hnot].
    destruct (Nsec3.findMatch nsec3s (wildcard_of enc)) as [[w|]|] eqn:Ew;
      cbn [mbind result_bind] in Hp; [|done..].
    destruct (NSEC3_TypeInBitmap (Nsec3.rr w) qtype) eqn:Hb; [done|].
    apply findMatch_spec in Ew as (Hwin & h & Hh & Hm). destruct (Ht w Hwin) as [Hmatch _].
    destruct (Hmatch _ _ Hh Hm) as (_ & _ & Hno). rewrite Hw in Hno.
    apply (closest_wildcard _ _ _ Hclose); [|by apply Hno].
    intros Hty. by eapply Hnot, owns_in_tree, types_owns.
Qed.

(** An NSEC3 proof that a delegation is unsigned is sound: the parent has no
    DS record at the name, whether its own record says so or an opt-out gap
    does. *)
Theorem proveNoDSNSEC3_sound nsec3s zone :
  nsec3s_truthful nsec3s -> apex `prefix_of` key zone ->
  proveNoDSNSEC3 nsec3s zone = Ok tt -> ~ types (key zone) TypeDS.
Proof.
  intros Ht Hz Hp. unfold Nsec3.proveNoDSNSEC3 in Hp.
  destruct (Nsec3.findMatch nsec3s zone) as [[m|]|] eqn:Em; cbn [mbind result_bind] in Hp; [| |done].
  - destruct (NSEC3_TypeInBitmap _ TypeSOA); [done|].
    destruct (NSEC3_TypeInBitmap _ TypeDS) eqn:Hb; [done|].
    apply findMatch_spec in Em as (Hin & h & Hh & Hm). destruct (Ht m Hin) as [Hmatch _].
    destruct (Hmatch _ _ Hh Hm) as (_ & _ & Hno). by apply Hno.
  - destruct (Nsec3.findCover nsec3s zone) as [[c|]|] eqn:Ec; cbn [mbind result_bind] in Hp; [|done..].
    destruct (OptOut (Nsec3.rr c)) eqn:Ho; [|done].
    apply findCover_spec in Ec as (Hin & h & Hh & Hc). destruct (Ht c Hin) as [_ Hgap].
    specialize (Hgap _ _ Hh Hc Hz). rewrite Ho in Hgap. by intros Hty%(Hgap (key zone)).
Qed.

(** A wildcard answer needs the name itself to be missing. *)
Lemma ProveNoCloserMatch_sound records qname :
  nsecs_truthful records -> ProveNoCloserMatch records qname = Ok tt -> ~ owns (key qname).
Proof.
  intros [Hne Hall]. unfold ProveNoCloserMatch. rewrite collectDenial_nsec by done.
  cbn [mbind result_bind d_nsec d_nsec3].
  rewrite (bool_decide_true (@nil nsec3Record = [])) by done. cbn [negb].
  destruct (findCovering _ qname) as [n|] eqn:E; [|done].
  apply findCovering_spec in E as [Hn Hc]. intros _. destruct (Hall n Hn) as [_ Ht].
  by apply (covers_not_owned n).
Qed.
End zone.

(** ** The order of encoded hashes *)

Lemma lex_app {A} (cmp : A -> A -> comparison) a1 : forall a2 b1 b2,
  length a1 = length a2 ->
  lex cmp (a1 ++ b1) (a2 ++ b2) = match lex cmp a1 a2 with Eq => lex cmp b1 b2 | c => c end.
Proof.
  induction a1 as [|x a1 IH]; intros [|y a2] b1 b2 Hl; try done. simpl.
  destruct (cmp x y); [apply IH; by injection Hl|done..].
Qed.

Definition bool_cmp (a b : bool) : comparison :=
  match a, b with false, true => Lt | true, false => Gt | _, _ => Eq end.

#[export] Instance bool_order : TotalOrder bool_cmp.
Proof. split; [intros [] []; simpl; naive_solver|by intros [] []|by intros [] [] []]. Qed.

Lemma byte_bits_cmp x y : is_u8 x -> is_u8 y -> lex bool_cmp (byte_bits x) (byte_bits y) = Z.compare x y.
Proof.
  unfold is_u8. intros Hx Hy.
  assert (Hall : forallb (fun x => forallb (fun y =>
    bool_decide (lex bool_cmp (byte_bits x) (byte_bits y) = Z.compare x y)) (seqZ 0 256)) (seqZ 0 256) = true)
    by (vm_compute; reflexivity).
  rewrite forallb_forall in Hall. specialize (Hall x). rewrite forallb_forall in Hall.
  eapply bool_decide_eq_true, Hall; apply list_elem_of_In, elem_of_seqZ; lia.
Qed.

Lemma lex_bits a : forall b, bytes a -> bytes b ->
  lex bool_cmp (flat_map byte_bits a) (flat_map byte_bits b) = lex Z.compare a b.
Proof.
  induction a as [|x a IH]; intros [|y b] Ha Hb; [reflexivity..|].
  apply Forall_cons in Ha as [Hx Ha]. apply Forall_cons in Hb as [Hy Hb].
  cbn [flat_map]. rewrite lex_app by done. rewrite byte_bits_cmp by done. cbn [lex].
  destruct (x ?= y); [by apply IH|done..].
Qed.

Lemma digit_cmp a4 a3 a2 a1 a0 b4 b3 b2 b1 b0 :
  Z.compare (hex_char (digit a4 a3 a2 a1 a0)) (hex_char (digit b4 b3 b2 b1 b0)) =
  lex bool_cmp [a4; a3; a2; a1; a0] [b4; b3; b2; b1; b0].
Proof. destruct a4, a3, a2, a1, a0, b4, b3, b2, b1, b0; vm_compute; reflexivity. Qed.

Lemma lex_digits n : forall a b, (length a <= n)%nat -> length a = length b ->
  lex Z.compare (base32_digits a) (base32_digits b) = lex bool_cmp a b.
Proof.
  induction n as [|n IH]; intros a b Hn Hl.
  { destruct a, b; done || (simpl in Hn; lia). }
  destruct a as [|a4 [|a3 [|a2 [|a1 [|a0 a]]]]], b as [|b4 [|b3 [|b2 [|b1 [|b0 b]]]]]; try done.
  1-4: cbn [base32_digits lex]; rewrite digit_cmp; cbn [lex];
    repeat match goal with |- context [bool_cmp ?x ?y] => destruct x, y; cbn end; done.
  symmetry. etrans; [apply (lex_app bool_cmp [a4; a3; a2; a1; a0] [b4; b3; b2; b1; b0] a b eq_refl)|].
  rewrite <-digit_cmp, <-(IH a b) by (simpl in *; lia). reflexivity.
Qed.

(** The text form of NSEC3 hashes sorts like the hashes: comparing base32hex
    strings of hashes of one length is comparing the hashes byte by byte, so
    the string comparisons of [covers] find the right gap. *)
Theorem base32Hex_order a b :
  bytes a -> bytes b -> length a = length b ->
  Compare (base32Hex a) (base32Hex b) = Compare a b.
Proof.
  intros Ha Hb Hl. rewrite !Compare_lex. unfold base32Hex.
  rewrite (lex_digits _ _ _ (Nat.le_refl _)); [by apply lex_bits|].
  clear Ha Hb. revert b Hl. induction a as [|x a IH]; intros [|y b] Hl; try done.
  cbn [flat_map]. rewrite !length_app. by rewrite (IH b) by by injection Hl.
Qed.
