(* ===== verification/Privacy.v ===== *)
(** What a server is told of a name ([resolver/privacy.go]): QNAME minimisation
    and the random case of 0x20 encoding. *)

From S2P Require Import Prelude GoUnicode GoStrings GoNet DnsMsg Encoder Decoder WireSpec WireCalculus WireNames WireRoundTrip DnssecNames.

Open Scope Z_scope.

Definition labelsOf (name : gostring) : list gostring :=
  let name := trim_dot name in
  if bool_decide (name = []) then [] else Split dot name.

Definition minimizedQName (qname zone : gostring) : gostring :=
  let full := labelsOf qname in
  let inZone := labelsOf zone in
  if bool_decide (length full <= length inZone)%nat then qname
  else Join dot (drop (length full - length inZone - 1) full).

Definition isASCIILetter (b : Z) : bool :=
  ((97 <=? b) && (b <=? 122)) || ((65 <=? b) && (b <=? 90)).
Definition toUpper (b : Z) : Z := if (97 <=? b) && (b <=? 122) then b - 32 else b.
Definition toLower (b : Z) : Z := if (65 <=? b) && (b <=? 90) then b + 32 else b.

(** The second loop of [randomizeCase]; [n] counts the letters passed. *)
Fixpoint scatter (bits : list Z) (n : nat) (name : gostring) : gostring :=
  match name with
  | [] => []
  | b :: name =>
    if isASCIILetter b then
      (if Z.testbit (nth (n / 8) bits 0) (Z.of_nat (n mod 8)) then toUpper b else toLower b)
      :: scatter bits (S n) name
    else b :: scatter bits n name
  end.

(** [rand] is [rand.Read]: the bytes asked for, or an error. *)
Definition randomizeCase (rand : nat -> option (list Z)) (name : gostring) : gostring :=
  let letters := length (filter (fun b => isASCIILetter b = true) name) in
  if bool_decide (letters = 0%nat) then name
  else match rand ((letters + 7) / 8)%nat with
       | None => name
       | Some bits => scatter bits 0 name
       end.

(** ** The case of letters *)

(** One byte is the other, or the same ASCII letter. *)
Definition same_letter (x y : Z) : Prop :=
  x = y \/ x < 128 /\ y < 128 /\ lower_ascii x = lower_ascii y.

#[export] Instance same_letter_refl : Reflexive same_letter.
Proof. by left. Qed.

Lemma same_letter_low x y : same_letter x y -> (x <? 128) = (y <? 128).
Proof. intros [->|(? & ? & _)]; [done|lia]. Qed.

(** A byte above ASCII is unchanged. *)
Lemma same_letter_high x y : same_letter x y -> 128 <= x -> x = y.
Proof. intros [->|(? & _)]; [done|lia]. Qed.

(** A byte that differs is no part of a multi-byte sequence. *)
Lemma same_letter_cont b0 x y : same_letter x y -> x = y \/
  (accept b0 x = false /\ accept b0 y = false /\ is_cont x = false /\ is_cont y = false).
Proof.
  intros [->|(Hx & Hy & _)]; [by left|right]. unfold accept, is_cont.
  split_and!; repeat case_match; lia.
Qed.

Lemma same_letter_runes a b : Forall2 same_letter a b -> Forall2 same_letter (runes a) (runes b).
Proof.
  remember (length a) as n eqn:Hn.
  induction (lt_wf n) as [n _ IH] in a, b, Hn |- *. subst n. intros H.
  destruct H as [|x y a b Hxy Ht]; [constructor|].
  assert (IH' : forall a', (length a' < S (length a))%nat -> forall b', Forall2 same_letter a' b' ->
    Forall2 same_letter (runes a') (runes b')) by (intros; by eapply IH).
  clear IH. cbn [runes]. rewrite <-(same_letter_low _ _ Hxy).
  destruct (Z.ltb_spec x 128) as [Hx|Hx].
  { constructor; [done|]. apply IH'; [lia|done]. }
  apply same_letter_high in Hxy as <-; [|done].
  assert (Herr : Forall2 same_letter (RuneError :: runes a) (RuneError :: runes b)).
  { constructor; [done|]. apply IH'; [lia|done]. }
  inversion Ht as [|x1 y1 a1 b1 H1 Ht1]; subst; [done|].
  destruct (same_letter_cont x _ _ H1) as [->|(E1 & E2 & _)].
  2: { rewrite E1, E2, !andb_false_r. cbn [andb].
       destruct a1 as [|x2 a2], b1 as [|y2 b2]; try done; try by inversion Ht1.
       destruct a2, b2; try done; by inversion Ht1 as [|? ? ? ? _ Hi]; inversion Hi. }
  destruct (lead2 x && accept x y1).
  { constructor; [done|]. apply IH'; [simpl; lia|done]. }
  inversion Ht1 as [|x2 y2 a2 b2 H2 Ht2]; subst; [done|].
  destruct (same_letter_cont x _ _ H2) as [->|(_ & _ & E1 & E2)].
  2: { rewrite E1, E2, !andb_false_r. cbn [andb].
       destruct a2, b2; try done; by inversion Ht2. }
  destruct (lead3 x && _ && _).
  { constructor; [done|]. apply IH'; [simpl; lia|done]. }
  inversion Ht2 as [|x3 y3 a3 b3 H3 Ht3]; subst; [done|].
  destruct (same_letter_cont x _ _ H3) as [->|(_ & _ & E1 & E2)].
  2: { by rewrite E1, E2, !andb_false_r. }
  destruct (lead4 x && _ && _ && _); [|done].
  constructor; [done|]. apply IH'; [simpl; lia|done].
Qed.

Lemma same_letter_fold a b : Forall2 same_letter a b -> EqualFold a b = true.
Proof.
  intros H%same_letter_runes. unfold EqualFold. apply bool_decide_eq_true.
  induction H as [|x y l l' Hxy _ IH]; [done|]. cbn [map]. f_equal; [|done].
  destruct Hxy as [->|(Hx & Hy & E)]; [done|]. unfold fold_rune.
  by rewrite (proj2 (Z.ltb_lt _ _) Hx), (proj2 (Z.ltb_lt _ _) Hy).
Qed.

Lemma same_letter_trim a b : Forall2 same_letter a b -> Forall2 same_letter (trim_dot a) (trim_dot b).
Proof.
  intros H. destruct (decide (last a = Some dot)) as [[t ->]%last_Some|Ha].
  - apply Forall2_app_inv_l in H as (t' & d & Ht & Hd & ->).
    inversion Hd as [|? y ? ? Hy Hn]; subst. inversion Hn; subst.
    assert (y = dot) as ->.
    { destruct Hy as [<-|(_ & ? & E)]; [done|]. unfold lower_ascii, dot in *. revert E. repeat case_match; lia. }
    by rewrite !trim_dot_snoc.
  - rewrite !trim_dot_id; [done| |done]. intros [t ->]%last_Some. apply Ha.
    apply Forall2_app_inv_r in H as (t' & d & Ht & Hd & ->).
    inversion Hd as [|y ? ? ? Hy Hn]; subst. inversion Hn; subst.
    rewrite last_snoc. f_equal.
    destruct Hy as [->|(? & _ & E)]; [done|]. unfold lower_ascii, dot in *. revert E. repeat case_match; lia.
Qed.

Lemma scatter_letters bits name : forall n, Forall2 same_letter name (scatter bits n name).
Proof.
  induction name as [|b name IH]; intros n; cbn [scatter]; [constructor|].
  destruct (isASCIILetter b) eqn:E; [|by constructor].
  constructor; [|done]. unfold isASCIILetter in E.
  destruct (Z.testbit _ _); right; unfold toUpper, toLower, lower_ascii; split_and!; repeat case_match; lia.
Qed.

Lemma randomizeCase_letters rand name : Forall2 same_letter name (randomizeCase rand name).
Proof.
  unfold randomizeCase. case_bool_decide; [by apply Forall_Forall2_diag, Forall_true|].
  destruct (rand _); [apply scatter_letters|by apply Forall_Forall2_diag, Forall_true].
Qed.

(** What is sent is the name asked for: 0x20 encoding changes the case of ASCII
    letters only, so the packet has the same length and the answer's question
    passes the comparison of names. *)
Lemma randomizeCase_equal rand name :
  length (randomizeCase rand name) = length name /\ equalName (randomizeCase rand name) name = true.
Proof.
  pose proof (randomizeCase_letters rand name) as H. split.
  - symmetry. by eapply Forall2_length.
  - unfold equalName. rewrite (same_letter_fold (trim_dot _) (trim_dot name)); [done|].
    apply same_letter_trim. apply Forall2_flip. eapply Forall2_impl; [done|].
    intros x y [->|(? & ? & ?)]; [by left|by right].
Qed.

(** ** Minimised names *)

Lemma labelsOf_splitName name : labelsOf name = splitName name.
Proof. done. Qed.

(** A name without empty labels, as every name of a message is. *)
Definition labels_full (name : gostring) : Prop := Forall (fun l => l <> []) (labelsOf name).

#[export] Instance labels_full_dec name : Decision (labels_full name).
Proof. unfold labels_full. apply _. Defined.

Lemma labelsOf_Join ls :
  ls <> [] -> Forall (fun l => l <> []) ls -> Forall (no_sep dot) ls -> labelsOf (Join dot ls) = ls.
Proof.
  intros Hne Hf Hs. unfold labelsOf. rewrite trim_dot_Join by done.
  rewrite bool_decide_false by by rewrite Join_nil_iff. by apply Split_Join.
Qed.

(** The last labels of a name, as a name. *)
Lemma labelsOf_tail name k :
  labels_full name -> (k < length (labelsOf name))%nat ->
  labelsOf (Join dot (drop k (labelsOf name))) = drop k (labelsOf name).
Proof.
  intros Hf Hk. apply labelsOf_Join.
  - intros E%(f_equal length). rewrite length_drop in E. simpl in E. lia.
  - by apply Forall_drop.
  - apply Forall_drop, splitName_no_sep.
Qed.

Lemma tail_subdomain name k :
  labels_full name -> (k < length (labelsOf name))%nat ->
  isSubdomainOrEqual name (Join dot (drop k (labelsOf name))) = true.
Proof.
  intros Hf Hk. apply isSubdomainOrEqual_suffix. rewrite <-!labelsOf_splitName, labelsOf_tail by done.
  exists (map ToLower (take k (labelsOf name))). by rewrite <-map_app, take_drop.
Qed.

(** The name asked, in labels. *)
Lemma minimizedQName_tail qname zone :
  labels_full qname ->
  let m := minimizedQName qname zone in
  (length (labelsOf qname) <= length (labelsOf zone) -> m = qname)%nat /\
  (length (labelsOf zone) < length (labelsOf qname) ->
    labelsOf m = drop (length (labelsOf qname) - S (length (labelsOf zone))) (labelsOf qname) /\
    length (labelsOf m) = S (length (labelsOf zone)))%nat /\
  isSubdomainOrEqual qname m = true.
Proof.
  intros Hf m. unfold m, minimizedQName. case_bool_decide as H.
  { split_and!; [done|lia|]. by apply isSubdomainOrEqual_suffix. }
  replace (length (labelsOf qname) - length (labelsOf zone) - 1)%nat
    with (length (labelsOf qname) - S (length (labelsOf zone)))%nat by lia.
  rewrite labelsOf_tail by (done || lia). split_and!; [lia| |apply tail_subdomain; [done|lia]].
  intros _. split; [done|]. rewrite length_drop. lia.
Qed.

(** QNAME minimisation reveals one label more than the server's own zone: the
    name asked is the tail of the name with exactly one label more than the zone
    - an ancestor of the name or the name itself - and it is the whole name once
    the zone has as many labels.  Asked again for the zone it named, it moves
    down by one label, which is what ends the descent. *)
Theorem minimizedQName_label qname zone :
  labels_full qname ->
  let m := minimizedQName qname zone in
  (length (labelsOf qname) <= length (labelsOf zone) -> m = qname)%nat /\
  (length (labelsOf zone) < length (labelsOf qname) ->
    labelsOf m = drop (length (labelsOf qname) - S (length (labelsOf zone))) (labelsOf qname) /\
    length (labelsOf m) = S (length (labelsOf zone)))%nat /\
  isSubdomainOrEqual qname m = true.
Proof. apply minimizedQName_tail. Qed.
