(* ===== verification/Interface.v ===== *)
(** The interface of the middleware chain ([dnsserver/handler.go]).

    The server calls [ServeDNS] in a goroutine for every query, so a handler is a
    program (see [Prog]) on the state it shares with its other calls.  The deadline
    and the cancellation a [context.Context] carries show in the events of the
    outside world; its one value, the mark of [WithoutValidation], is an argument
    where it is used. *)

From S2P Require Import Prelude Prog GoUnicode GoStrings GoNet DnsMsg Encoder Decoder WireSpec WireCalculus WireNames WireRoundTrip DecoderSafe DnssecNames Privacy.

Open Scope Z_scope.

(** ** The interface *)

(** A [net.Addr]: the two kinds the listeners report, and any other. *)
Inductive net_Addr := UDPAddr (ip : IP) | TCPAddr (ip : IP) | OtherAddr.

(** A handler on a state [S]: for a client's address and a query the program that
    serves it, which ends with the messages written, first to last. *)
Definition Handler (S : Type) : Type := net_Addr -> Message -> prog S (list Message).

(** A message that is a reply to the query: its identifier and question, marked as
    a response, recursion desired as asked, and nothing in the additional section,
    which is the server's. *)
Definition replies (req msg : Message) : Prop :=
  h_ID (m_Header msg) = h_ID (m_Header req) /\ h_QR (m_Header msg) = true /\
  h_RD (m_Header msg) = h_RD (m_Header req) /\ m_Questions msg = m_Questions req /\
  m_Additionals msg = [].

(** A query as the decoder delivers it: its opcode has four bits, and every name has
    proper labels. *)
Definition proper_query (req : Message) : Prop :=
  0 <= h_Opcode (m_Header req) < 16 /\ Forall (fun q => labels_full (q_Name q)) (m_Questions req).

(** A message whose codes fit their fields and whose records are such as the decoder
    returns: the encoder can write it. *)
Definition formed (msg : Message) : Prop :=
  0 <= h_Opcode (m_Header msg) < 16 /\ 0 <= h_RCode (m_Header msg) < 16 /\
  Forall decoded_rr (m_Answers msg) /\ Forall decoded_rr (m_Authorities msg).

(** At most one message, a reply, and a good one. *)
Definition answered (good : Message -> Message -> Prop) (req : Message) (out : list Message) : Prop :=
  (length out <= 1)%nat /\ Forall (fun msg => replies req msg /\ good req msg) out.

(** What one handler promises to the handlers around it: whatever queries it serves
    at the same time, each of its actions keeps the invariant [P] and only changes
    the state as [G] allows; it writes at most one message for a query and only
    replies, which satisfy [good].  [W] says whether it may wait for the goroutines
    of other queries. *)
Class Serves {S} (W : Prop) (h : Handler S) (P : S -> Prop) (G : S -> S -> Prop) (good : Message -> Message -> Prop) : Prop := {
  serves_order : PreOrder G;
  serves_obeys : forall addr req s, proper_query req -> obeys W P G s (h addr req) (fun _ => answered good req) }.

Lemma Serves_impl {S} W (h : Handler S) P G good good' :
  Serves W h P G good -> (forall req msg, good req msg -> good' req msg) -> Serves W h P G good'.
Proof.
  intros [HG H] Hg. split; [done|]. intros addr req s Hp. eapply obeys_mono; [by apply H|].
  intros _ out [Hl Hout]. split; [done|]. eapply Forall_impl; [exact Hout|]. intros msg [? ?]. auto.
Qed.

Lemma Serves_wait {S} (W W' : Prop) (h : Handler S) P G good : (W -> W') -> Serves W h P G good -> Serves W' h P G good.
Proof. intros HW [HG H]. split; [done|]. intros addr req s Hp. eapply obeys_wait; [exact HW|by apply H]. Qed.

(** Alone, from a state with the invariant. *)
Lemma serves_exec {S} W (h : Handler S) P G good addr req s s' out :
  Serves W h P G good -> P s -> proper_query req -> exec (h addr req) s = Some (s', out) ->
  P s' /\ answered good req out.
Proof.
  intros [HG H] Hs Hp E. by destruct (obeys_exec W P G (h addr req) _ s s' out (H addr req s Hp) Hs E) as (? & _ & ?).
Qed.

(** A reply that no handler behind had a part in. *)
Lemma obeys_reply {S} W (P : S -> Prop) G (good : Message -> Message -> Prop) req s msg :
  replies req msg -> good req msg ->
  obeys W P G s (Ret [msg]) (fun _ => answered good req).
Proof. intros. split; [done|]. by constructor. Qed.
