(* ===== verification/Lru.v ===== *)
(** The size-bounded, least-recently-used map that both the message cache
    ([middleware/cache/cache.go]) and the delegation cache
    ([resolver/delegationcache.go]) are built on: a Go map from keys to entries,
    and a [container/list] of keys whose elements the entries point to.

    List elements are pointers, so they are modelled with identities: an entry
    holds the identity of its element, [Remove] and [MoveToFront] act on it. *)

From S2P Require Import Prelude.

Section lru.
Context {K V : Type} `{Countable K}.

(** [l_order] is the list, front first, each element with its identity; [l_next]
    is the identity of the next element to be made. *)
Record lru := MkLru {
  l_entries : gmap K (nat * V); l_order : list (nat * K); l_next : nat }.

Definition empty_lru : lru := MkLru ∅ [] 0.

(** [order.Remove(elem)]. *)
Definition list_remove (id : nat) (order : list (nat * K)) : list (nat * K) :=
  filter (fun x => x.1 <> id) order.

(** [order.MoveToFront(elem)]. *)
Definition list_front (id : nat) (order : list (nat * K)) : list (nat * K) :=
  filter (fun x => x.1 = id) order ++ list_remove id order.

(** [order.Remove(e.elem); delete(entries, k)]. *)
Definition drop_entry (k : K) (id : nat) (c : lru) : lru :=
  MkLru (delete k (l_entries c)) (list_remove id (l_order c)) (l_next c).

(** [order.MoveToFront(e.elem)]. *)
Definition touch (id : nat) (c : lru) : lru :=
  MkLru (l_entries c) (list_front id (l_order c)) (l_next c).

(** [if old, found := entries[k]; found { ... }]. *)
Definition drop_key (k : K) (c : lru) : lru :=
  match l_entries c !! k with
  | Some (id, _) => drop_entry k id c
  | None => c
  end.

(** [e.elem = order.PushFront(k); entries[k] = e]. *)
Definition push (k : K) (v : V) (c : lru) : lru :=
  MkLru (<[k := (l_next c, v)]> (l_entries c)) ((l_next c, k) :: l_order c) (S (l_next c)).

(** [for len(entries) > maxEntries { oldest := order.Back(); if oldest == nil
    { break }; ... }].  Every round removes an element, so the length of the list
    is fuel enough. *)
Fixpoint evict (fuel max : nat) (c : lru) : lru :=
  match fuel with
  | O => c
  | S fuel =>
    if bool_decide (max < size (l_entries c))%nat then
      match last (l_order c) with
      | None => c
      | Some (id, k) => evict fuel max (drop_entry k id c)
      end
    else c
  end.

Definition evict_to (max : nat) (c : lru) : lru := evict (length (l_order c)) max c.

(** Storing a value: replace what was there, then evict. *)
Definition store_entry (max : nat) (k : K) (v : V) (c : lru) : lru :=
  evict_to max (push k v (drop_key k c)).

(** ** The invariant *)

Record lru_ok (c : lru) : Prop := {
  ok_ids : NoDup (l_order c).*1;
  ok_keys : NoDup (l_order c).*2;
  ok_fresh : forall id k, (id, k) ∈ l_order c -> (id < l_next c)%nat;
  ok_elem : forall id k, (id, k) ∈ l_order c <-> exists v, l_entries c !! k = Some (id, v) }.

(** ** The abstract cache: bindings from the most to the least recently used *)

Definition value_of (c : lru) (x : nat * K) : option (K * V) :=
  match l_entries c !! x.2 with Some (_, v) => Some (x.2, v) | None => None end.

Definition recency (c : lru) : list (K * V) := omap (value_of c) (l_order c).

Definition without (k : K) (l : list (K * V)) : list (K * V) := filter (fun x => x.1 <> k) l.

Lemma empty_lru_ok : lru_ok empty_lru.
Proof.
  split; simpl; [constructor|constructor|set_solver|].
  intros id k. split; [set_solver|]. by intros [v Hv].
Qed.

Lemma recency_elem c k v :
  lru_ok c -> (k, v) ∈ recency c <-> exists id, l_entries c !! k = Some (id, v).
Proof.
  intros [_ _ _ Hel]. unfold recency, value_of. rewrite list_elem_of_omap. split.
  - intros ([id k'] & Hin & Hv). simpl in Hv.
    destruct (l_entries c !! k') as [[id' v']|] eqn:E; simplify_eq. eauto.
  - intros [id Hv]. exists (id, k). split; [by apply Hel; eauto|]. simpl. by rewrite Hv.
Qed.

(** In a sound cache the list and the abstract list have the same keys. *)
Lemma recency_keys c : lru_ok c -> (recency c).*1 = (l_order c).*2.
Proof.
  intros [_ _ _ Hel]. unfold recency.
  assert (Hall : forall x, x ∈ l_order c -> exists v, value_of c x = Some (x.2, v)).
  { intros [id k] [v Hv]%Hel. exists v. unfold value_of. simpl. by rewrite Hv. }
  clear Hel. induction (l_order c) as [|x l IH]; [done|].
  simpl. destruct (Hall x) as [v Hv]; [set_solver|]. rewrite Hv. simpl. f_equal.
  apply IH. set_solver.
Qed.

Lemma length_recency c : lru_ok c -> length (recency c) = length (l_order c).
Proof.
  intros Hok. rewrite <-(length_fmap fst), recency_keys by done. apply length_fmap.
Qed.

Lemma size_entries c : lru_ok c -> size (l_entries c) = length (l_order c).
Proof.
  intros [_ Hk _ Hel]. rewrite <-size_dom, <-(length_fmap snd (l_order c)).
  rewrite <-(size_list_to_set (C := gset K)) by done. f_equal.
  apply set_eq. intros k. rewrite elem_of_dom, elem_of_list_to_set, list_elem_of_fmap. split.
  - intros [[id v] Hv]. exists (id, k). split; [done|]. apply Hel. eauto.
  - intros ([id k'] & -> & Hin). apply Hel in Hin as [v Hv]. by eexists.
Qed.

(** *** One entry removed *)

(** An element and its key stand for each other. *)
Lemma ok_same c id k v x :
  lru_ok c -> l_entries c !! k = Some (id, v) -> x ∈ l_order c -> x.1 = id <-> x.2 = k.
Proof.
  intros [Hids _ _ Hel] Hk Hx. destruct x as [id' k']. simpl. split; intros ->.
  - assert (Hin : (id, k) ∈ l_order c) by (apply Hel; eauto).
    apply list_elem_of_lookup in Hx as [i Hi]. apply list_elem_of_lookup in Hin as [j Hj].
    assert (i = j) as ->.
    { eapply NoDup_lookup; [exact Hids|by rewrite list_lookup_fmap, Hi|by rewrite list_lookup_fmap, Hj]. }
    congruence.
  - apply Hel in Hx as [v' Hv']. congruence.
Qed.

Lemma filter_ext_elem {A} (P Q : A -> Prop) `{forall x, Decision (P x)} `{forall x, Decision (Q x)}
    (l : list A) :
  (forall x, x ∈ l -> P x <-> Q x) -> filter P l = filter Q l.
Proof.
  intros Hpq. induction l as [|x l IH]; [done|]. rewrite !filter_cons, IH by set_solver.
  assert (Hx : P x <-> Q x) by set_solver. repeat case_decide; tauto.
Qed.

Lemma list_remove_key c id k v :
  lru_ok c -> l_entries c !! k = Some (id, v) ->
  list_remove id (l_order c) = filter (fun x => x.2 <> k) (l_order c).
Proof.
  intros Hok Hk. apply filter_ext_elem. intros x Hx.
  pose proof (ok_same c id k v x Hok Hk Hx). tauto.
Qed.

Lemma sublist_NoDup_fmap {A B} (f : A -> B) (P : A -> Prop) `{forall x, Decision (P x)} l :
  NoDup (f <$> l) -> NoDup (f <$> filter P l).
Proof.
  induction l as [|x l IH]; [done|]. intros [Hx Hl]%NoDup_cons. rewrite filter_cons.
  case_decide; [|auto]. cbn. apply NoDup_cons. split; [|auto]. intros Hin. apply Hx.
  apply list_elem_of_fmap in Hin as (y & -> & [_ Hy]%list_elem_of_filter).
  by apply list_elem_of_fmap_2.
Qed.

Lemma drop_entry_ok c k id v :
  lru_ok c -> l_entries c !! k = Some (id, v) -> lru_ok (drop_entry k id c).
Proof.
  intros Hok Hk. pose proof Hok as [Hids Hkeys Hfresh Hel]. split; simpl.
  - by apply sublist_NoDup_fmap.
  - by apply sublist_NoDup_fmap.
  - intros i k' [_ Hin]%list_elem_of_filter. by eapply Hfresh.
  - intros i k'. unfold list_remove. rewrite list_elem_of_filter, Hel. simpl. split.
    + intros [Hne [v' Hv']]. exists v'. rewrite lookup_delete_ne; [done|]. intros <-. congruence.
    + intros [v' [Hne Hv']%lookup_delete_Some]. split; [|eauto]. intros ->. apply Hne.
      assert (Hin : (id, k') ∈ l_order c) by (apply Hel; eauto).
      symmetry. by apply (ok_same c id k v (id, k') Hok Hk Hin).
Qed.

Lemma drop_entry_recency c k id v :
  lru_ok c -> l_entries c !! k = Some (id, v) ->
  recency (drop_entry k id c) = without k (recency c).
Proof.
  intros Hok Hk. unfold recency, without. cbn [l_order drop_entry].
  rewrite (list_remove_key c id k v Hok Hk).
  assert (Hval : forall x, value_of (drop_entry k id c) x =
    if decide (x.2 = k) then None else value_of c x).
  { intros x. unfold value_of. cbn [l_entries drop_entry]. case_decide as Hx.
    - by rewrite Hx, lookup_delete_eq.
    - by rewrite lookup_delete_ne. }
  induction (l_order c) as [|x l IH]; [done|]. rewrite filter_cons. cbn [omap list_omap].
  assert (Hfst : forall y, value_of c x = Some y -> y.1 = x.2).
  { unfold value_of. intros y. by destruct (l_entries c !! x.2) as [[]|]; intros; simplify_eq. }
  destruct (decide (x.2 <> k)) as [Hx|Hx].
  - cbn [omap list_omap]. rewrite Hval. rewrite decide_False by done.
    destruct (value_of c x) as [y|] eqn:Hy; [|done]. rewrite filter_cons_True; [by f_equal|].
    by rewrite (Hfst y eq_refl).
  - rewrite IH. destruct (value_of c x) as [y|] eqn:Hy; [|done].
    rewrite filter_cons_False; [done|]. rewrite (Hfst y eq_refl). tauto.
Qed.

Lemma without_not_elem k (l : list (K * V)) : k ∉ l.*1 -> without k l = l.
Proof.
  unfold without. induction l as [|x l IH]; [done|]. rewrite fmap_cons, not_elem_of_cons.
  intros [Hx Hl]. rewrite filter_cons_True by congruence. by rewrite IH.
Qed.

Lemma drop_key_ok c k : lru_ok c -> lru_ok (drop_key k c).
Proof.
  intros Hok. unfold drop_key. destruct (l_entries c !! k) as [[id v]|] eqn:E; [|done].
  by eapply drop_entry_ok.
Qed.

Lemma not_in_recency c k : lru_ok c -> l_entries c !! k = None -> k ∉ (recency c).*1.
Proof.
  intros Hok Hk ([k' v] & -> & Hin)%list_elem_of_fmap.
  apply recency_elem in Hin as [id Hin]; [|done]. simpl in Hk. congruence.
Qed.

Lemma drop_key_recency c k : lru_ok c -> recency (drop_key k c) = without k (recency c).
Proof.
  intros Hok. unfold drop_key. destruct (l_entries c !! k) as [[id v]|] eqn:E.
  - by eapply drop_entry_recency.
  - symmetry. by apply without_not_elem, not_in_recency.
Qed.

Lemma drop_key_none c k : lru_ok c -> l_entries (drop_key k c) !! k = None.
Proof.
  intros Hok. unfold drop_key. destruct (l_entries c !! k) as [[id v]|] eqn:E; [|done].
  apply lookup_delete_eq.
Qed.

(** *** One entry added or moved to the front *)

Lemma push_ok c k v : lru_ok c -> l_entries c !! k = None -> lru_ok (push k v c).
Proof.
  intros Hok Hk. pose proof Hok as [Hids Hkeys Hfresh Hel]. split; simpl.
  - apply NoDup_cons. split; [|done]. intros ([i k'] & Heq & Hin)%list_elem_of_fmap.
    simpl in Heq. apply Hfresh in Hin. lia.
  - apply NoDup_cons. split; [|done]. rewrite <-recency_keys by done. by apply not_in_recency.
  - intros i k' [[= -> ->]|Hin]%elem_of_cons; [lia|]. apply Hfresh in Hin. lia.
  - intros i k'. rewrite elem_of_cons, Hel. split.
    + intros [[= -> ->]|[v' Hv']]; [exists v; apply lookup_insert_eq|].
      exists v'. rewrite lookup_insert_ne; [done|]. intros ->. congruence.
    + intros [v' [[<- [= -> ->]]|[Hne Hv']]%lookup_insert_Some]; [by left|right; eauto].
Qed.

Lemma push_recency c k v :
  lru_ok c -> l_entries c !! k = None -> recency (push k v c) = (k, v) :: recency c.
Proof.
  intros Hok Hk. unfold recency. cbn [l_order push omap list_omap].
  unfold value_of at 1. cbn [snd l_entries push]. rewrite lookup_insert_eq. f_equal.
  apply list_omap_ext, Forall_Forall2_diag, Forall_forall. intros [i k'] Hin.
  unfold value_of. cbn [snd l_entries push]. rewrite lookup_insert_ne; [done|].
  intros <-. destruct Hok as [_ _ _ Hel]. apply Hel in Hin as [v' Hv']. congruence.
Qed.

Lemma list_front_spec c id k v :
  lru_ok c -> l_entries c !! k = Some (id, v) ->
  list_front id (l_order c) = (id, k) :: list_remove id (l_order c).
Proof.
  intros Hok Hk. unfold list_front. change ((id, k) :: ?l) with ([(id, k)] ++ l). f_equal.
  pose proof Hok as [Hids _ _ Hel]. assert (Hin : (id, k) ∈ l_order c) by (apply Hel; eauto).
  assert (Hsame : forall x, x ∈ l_order c -> x.1 = id -> x = (id, k)).
  { intros [i k'] Hx E. pose proof (ok_same c id k v _ Hok Hk Hx) as [H1 _]. simpl in *.
    by rewrite E, H1. }
  clear Hel Hk. apply list_elem_of_split in Hin as (l1 & l2 & E). rewrite E in *.
  rewrite fmap_app, fmap_cons in Hids. apply NoDup_app in Hids as (_ & Hd & [Hn _]%NoDup_cons).
  assert (Hnone : forall l, id ∉ l.*1 -> filter (fun x : nat * K => x.1 = id) l = []).
  { clear. intros l Hl. induction l as [|x l IH]; [done|].
    rewrite fmap_cons, not_elem_of_cons in Hl. destruct Hl as [Hx Hl].
    rewrite filter_cons_False; [by apply IH|congruence]. }
  rewrite filter_app, filter_cons_True by done. rewrite !Hnone; [done|done|].
  intros Hl. apply (Hd id Hl). set_solver.
Qed.

Lemma touch_recency c k id v :
  lru_ok c -> l_entries c !! k = Some (id, v) ->
  recency (touch id c) = (k, v) :: without k (recency c).
Proof.
  intros Hok Hk. rewrite <-(drop_entry_recency c k id v) by done.
  unfold recency. cbn [l_order touch drop_entry]. rewrite (list_front_spec c id k v) by done.
  cbn [omap list_omap]. unfold value_of at 1. cbn [snd l_entries touch]. rewrite Hk. f_equal.
  apply list_omap_ext, Forall_Forall2_diag, Forall_forall. intros [i k'] Hin.
  unfold value_of. cbn [snd l_entries touch drop_entry].
  unfold list_remove in Hin. apply list_elem_of_filter in Hin as [Hne Hin].
  rewrite lookup_delete_ne; [done|]. intros <-. apply Hne.
  by apply (ok_same c id k v (i, k) Hok Hk Hin).
Qed.

Lemma touch_ok c k id v : lru_ok c -> l_entries c !! k = Some (id, v) -> lru_ok (touch id c).
Proof.
  intros Hok Hk. pose proof Hok as [Hids Hkeys Hfresh Hel].
  assert (Hperm : l_order (touch id c) ≡ₚ l_order c) by apply filter_app_complement.
  split.
  - by rewrite Hperm.
  - by rewrite Hperm.
  - intros i k'. rewrite Hperm. apply Hfresh.
  - intros i k'. rewrite Hperm. apply Hel.
Qed.

(** *** Eviction *)

Lemma without_last k v (l : list (K * V)) :
  NoDup (l ++ [(k, v)]).*1 -> without k (l ++ [(k, v)]) = l.
Proof.
  rewrite fmap_app. intros (_ & Hd & _)%NoDup_app. unfold without. rewrite filter_app.
  rewrite (filter_cons_False _ (k, v)) by (simpl; tauto). rewrite filter_nil, app_nil_r.
  apply without_not_elem. intros Hin. apply (Hd k Hin). set_solver.
Qed.

Lemma evict_spec fuel : forall max c,
  lru_ok c -> (length (l_order c) <= fuel + max)%nat ->
  lru_ok (evict fuel max c) /\ recency (evict fuel max c) = take max (recency c).
Proof.
  induction fuel as [|fuel IH]; intros max c Hok Hf; cbn [evict].
  { split; [done|]. by rewrite take_ge by (rewrite length_recency; [lia|done]). }
  rewrite size_entries by done. case_bool_decide as Hm.
  2: { split; [done|]. by rewrite take_ge by (rewrite length_recency; [lia|done]). }
  destruct (last (l_order c)) as [[id k]|] eqn:El.
  2: { apply last_None in El. rewrite El in Hm. simpl in Hm. lia. }
  apply last_Some in El as [l El].
  assert (Hin : (id, k) ∈ l_order c) by (rewrite El; set_solver).
  pose proof Hok as [_ Hkeys _ Hel]. apply Hel in Hin as [v Hv].
  destruct (IH max (drop_entry k id c)) as [IH1 IH2].
  { by eapply drop_entry_ok. }
  { rewrite <-length_recency by by eapply drop_entry_ok. rewrite (drop_entry_recency c k id v) by done.
    rewrite <-length_recency in Hf by done. unfold without.
    assert (length (filter (fun x : K * V => x.1 <> k) (recency c)) < length (recency c))%nat; [|lia].
    apply length_filter_lt with (k, v); [apply recency_elem; eauto|]. simpl. tauto. }
  split; [done|]. rewrite IH2, (drop_entry_recency c k id v) by done.
  (* the evicted binding is the last one *)
  assert (Hr : exists r, recency c = r ++ [(k, v)]).
  { unfold recency. rewrite El, omap_app. eexists. f_equal. cbn. unfold value_of. simpl. by rewrite Hv. }
  destruct Hr as [r Hr]. pose proof (recency_keys c Hok) as Hrk. rewrite Hr in *.
  rewrite without_last by (by rewrite Hrk).
  rewrite take_app_le; [done|].
  rewrite <-(length_recency c Hok), Hr, length_app in Hm. simpl in Hm. lia.
Qed.

(** Storing refines the abstract cache: the new binding in front, the old one for
    the key gone, the least recently used ones dropped. *)
Lemma store_entry_spec (max : nat) (k : K) (v : V) (c : lru) :
  lru_ok c ->
  lru_ok (store_entry max k v c) /\
  recency (store_entry max k v c) = take max ((k, v) :: without k (recency c)).
Proof.
  intros Hok. pose proof (drop_key_ok c k Hok) as H1. pose proof (drop_key_none c k Hok) as H2.
  destruct (evict_spec (length (l_order (push k v (drop_key k c)))) max (push k v (drop_key k c)))
    as [H3 H4]; [by apply push_ok|lia|].
  split; [done|]. unfold store_entry, evict_to.
  by rewrite H4, push_recency, drop_key_recency.
Qed.

(** What the map holds for a key is what the abstract cache holds. *)
Lemma lookup_recency c k v :
  lru_ok c -> snd <$> l_entries c !! k = Some v <-> (k, v) ∈ recency c.
Proof.
  intros Hok. rewrite recency_elem by done. split.
  - intros ([id v'] & Hv & E)%fmap_Some. simpl in E. subst. eauto.
  - intros [id Hv]. by rewrite Hv.
Qed.
End lru.
Arguments lru K V {_ _}.
