(* ===== verification/Cache.v ===== *)
(** The message cache ([middleware/cache/cache.go]): the [store] with its
    operations, and the handler that answers from it. *)

From S2P Require Import Prelude Prog GoUnicode GoStrings GoNet DnsMsg Encoder Decoder WireSpec WireCalculus WireNames WireRoundTrip DnssecNames Privacy Interface Lru.

Open Scope Z_scope.

Definition defaultMaxEntries : Z := 10000.
Definition negativeCacheFallbackTTL : Z := 60.
Definition maxCacheTTL : Z := 86400.
Definition minCacheTTL : Z := 5.
Definition serverFailureTTL : Z := 5.

Definition anyType : Z := 0.

(** Times and durations are in nanoseconds. *)
Definition Second : Z := 1000000000.

(** [uint32(d.Seconds())] for a duration that is not negative. *)
Definition seconds (d : Z) : Z := u32 (d / Second).

Definition cache_key : Type := gostring * Z.

Record entry := MkEntry {
  en_key : cache_key; en_rcode : Z; en_answers : list RR; en_authorities : list RR;
  en_authentic : bool; en_expiry : Z }.

Record Config := MkConfig { cf_MaxEntries : Z; cf_MinTTL : Z; cf_MaxTTL : Z }.

Definition ttlBounds (c : Config) : Z * Z :=
  (if 0 <? cf_MinTTL c then seconds (cf_MinTTL c) else minCacheTTL,
   if 0 <? cf_MaxTTL c then seconds (cf_MaxTTL c) else maxCacheTTL).

Record store := MkStore {
  s_maxEntries : nat; s_minTTL : Z; s_maxTTL : Z; s_lru : lru cache_key entry }.

Definition newStore (cfg : Config) : store :=
  let maxEntries := if cf_MaxEntries cfg <=? 0 then defaultMaxEntries else cf_MaxEntries cfg in
  let '(minTTL, maxTTL) := ttlBounds cfg in
  MkStore (Z.to_nat maxEntries) minTTL maxTTL empty_lru.

Definition with_lru (s : store) (c : lru cache_key entry) : store :=
  MkStore (s_maxEntries s) (s_minTTL s) (s_maxTTL s) c.

Definition normalizeKey (name : gostring) (qtype : Z) : cache_key :=
  (ToLower (trim_dot name), qtype).

Definition clampTTL (s : store) (ttl : Z) : Z := Z.min (Z.max ttl (s_minTTL s)) (s_maxTTL s).

Definition withTTL (rrs : list RR) (ttl : Z) : list RR := map (set_TTL ttl) (CloneRRs rrs).

Definition minTTL (first : RR) (rest : list RR) : Z :=
  fold_left (fun m rr => if rr_TTL rr <? m then rr_TTL rr else m) rest (rr_TTL first).

Fixpoint negativeTTLFromSOA (authorities : list RR) (fallback : Z) : Z :=
  match authorities with
  | [] => fallback
  | rr :: authorities =>
    match rr_SOA rr with
    | Some soa =>
      if rr_Type rr =? TypeSOA
      then if soa_Minimum soa <? rr_TTL rr then soa_Minimum soa else rr_TTL rr
      else negativeTTLFromSOA authorities fallback
    | None => negativeTTLFromSOA authorities fallback
    end
  end.

(** The loop of [enclosingNXDOMAIN]: the name itself, then what is left behind each
    dot. *)
Fixpoint enclosing (entries : gmap cache_key (nat * entry)) (rest : gostring) : option (nat * entry) :=
  match rest with
  | [] => None
  | x :: rest =>
    if x =? dot then
      match entries !! (rest, anyType) with
      | Some e => Some e
      | None => enclosing entries rest
      end
    else enclosing entries rest
  end.

Definition enclosingNXDOMAIN (s : store) (name : gostring) : option (nat * entry) :=
  let rest := (normalizeKey name anyType).1 in
  match l_entries (s_lru s) !! (rest, anyType) with
  | Some e => Some e
  | None => enclosing (l_entries (s_lru s)) rest
  end.

Record hit := MkHit {
  hit_rcode : Z; hit_answers : list RR; hit_authorities : list RR; hit_authentic : bool }.

(** [lookup]: the new store and the response, if there is one. *)
Definition lookup (s : store) (now : Z) (name : gostring) (qtype : Z) : store * option hit :=
  let found :=
    match l_entries (s_lru s) !! normalizeKey name qtype with
    | Some e => Some e
    | None => enclosingNXDOMAIN s name
    end in
  match found with
  | None => (s, None)
  | Some (elem, e) =>
    let k := en_key e in
    let remaining := en_expiry e - now in
    if remaining <=? 0 then (with_lru s (drop_entry k elem (s_lru s)), None)
    else
      let ttl := seconds remaining in
      let ttl := if ttl =? 0 then 1 else ttl in
      (with_lru s (touch elem (s_lru s)),
       Some (MkHit (en_rcode e) (withTTL (en_answers e) ttl) (withTTL (en_authorities e) ttl)
               (en_authentic e)))
  end.

(** The switch of [put]: the type and the TTL to store a response under, or
    [None] when it is not stored at all. *)
Definition put_ttl (qtype rcode : Z) (answers authorities : list RR) : option (Z * Z) :=
  if rcode =? RCodeNameError then
    Some (anyType, negativeTTLFromSOA authorities negativeCacheFallbackTTL)
  else if rcode =? RCodeSuccess then
    match answers with
    | first :: rest => Some (qtype, minTTL first rest)
    | [] => Some (qtype, negativeTTLFromSOA authorities negativeCacheFallbackTTL)
    end
  else if rcode =? RCodeServerFailure then Some (qtype, serverFailureTTL)
  else None.

Definition put (s : store) (now : Z) (name : gostring) (qtype rcode : Z)
    (answers authorities : list RR) (authentic : bool) : store :=
  match put_ttl qtype rcode answers authorities with
  | None => s
  | Some (qtype, ttl) =>
    if ttl =? 0 then s
    else
      let ttl := clampTTL s ttl in
      let k := normalizeKey name qtype in
      let e := MkEntry k rcode (CloneRRs answers) (CloneRRs authorities) authentic
                 (now + ttl * Second) in
      with_lru s (store_entry (s_maxEntries s) k e (s_lru s))
  end.

(** ** The handler *)

Definition capTTLs (maxTTL : Z) (rrs : list RR) : list RR :=
  if existsb (fun rr => maxTTL <? rr_TTL rr) rrs
  then map (fun rr => set_TTL (Z.min (rr_TTL rr) maxTTL) rr) (CloneRRs rrs)
  else rrs.

Definition cap_message (maxTTL : Z) (m : Message) : Message :=
  MkMessage (m_Header m) (m_Questions m) (capTTLs maxTTL (m_Answers m))
    (capTTLs maxTTL (m_Authorities m)) (m_Additionals m).

Definition cached_response (req : Message) (h : hit) : Message :=
  MkMessage
    (MkHeader (h_ID (m_Header req)) true 0 false false (h_RD (m_Header req)) true
       (hit_authentic h) false (hit_rcode h) 0 0 0 0)
    (m_Questions req) (hit_answers h) (hit_authorities h) [].

Section handler.
(** The handler behind, and where its state says what time it is. *)
Context {S : Type} (clock : S -> Z) (next : Handler S).

(** [h.store.lookup], with the field [maxTTL] that never changes. *)
Definition consult (q : Question) (cs : store * S) : (store * S) * (option hit * Z) :=
  let (c, h) := lookup cs.1 (clock cs.2) (q_Name q) (q_Type q) in ((c, cs.2), (h, s_maxTTL c)).

(** [h.store.put] of what the [recordingWriter] has captured. *)
Definition record (q : Question) (msg : Message) (cs : store * S) : (store * S) * unit :=
  ((put cs.1 (clock cs.2) (q_Name q) (q_Type q) (h_RCode (m_Header msg)) (m_Answers msg) (m_Authorities msg)
      (h_AD (m_Header msg)), cs.2), tt).

Definition ServeDNS : Handler (store * S) := fun addr req =>
  match m_Questions req with
  | [q] =>
    if h_CD (m_Header req) then zoom_snd (next addr req)
    else
      atomic (consult q) ≫= fun x : option hit * Z =>
      match x.1 with
      | Some h => Ret [cached_response req h]
      | None =>
        written ← zoom_snd (next addr req);
        match last written with
        | Some msg =>
          atomic (record q msg) ≫= fun _ : unit =>
          Ret (map (cap_message x.2) written)
        | None => Ret []
        end
      end
  | _ => zoom_snd (next addr req)
  end.
End handler.
