(* ===== verification/CacheSpec.v ===== *)
(** What the message cache guarantees: its size bound and bookkeeping, what a
    lookup returns and when, the TTLs clients see. *)

From S2P Require Import Prelude Prog GoUnicode GoStrings GoNet DnsMsg Encoder Decoder WireSpec WireCalculus WireNames WireRoundTrip DnssecNames Privacy Interface Lru Cache.

Open Scope Z_scope.

(** ** The invariant

    [clock] is a time no later than any the operations see from now on. *)
Record store_ok (clock : Z) (s : store) : Prop := {
  so_lru : lru_ok (s_lru s);
  so_max : (0 < s_maxEntries s)%nat;
  so_size : (length (recency (s_lru s)) <= s_maxEntries s)%nat;
  so_ttl : is_u32 (s_maxTTL s) /\ is_u32 (s_minTTL s);
  so_entry : forall k e, (k, e) ∈ recency (s_lru s) ->
    en_key e = k /\ en_expiry e <= clock + s_maxTTL s * Second }.

Lemma store_ok_later clock clock' s : clock <= clock' -> store_ok clock s -> store_ok clock' s.
Proof.
  intros Hc [H1 H2 H3 H4 H5]. split; try done. intros k e Hin. destruct (H5 k e Hin).
  split; [done|lia].
Qed.

Lemma seconds_u32 d : is_u32 (seconds d).
Proof. apply is_u32_u32. Qed.

Lemma newStore_ok clock cfg : store_ok clock (newStore cfg).
Proof.
  unfold newStore, ttlBounds. split; cbn [s_lru s_maxEntries s_maxTTL s_minTTL].
  - apply empty_lru_ok.
  - unfold defaultMaxEntries. destruct (Z.leb_spec (cf_MaxEntries cfg) 0); lia.
  - simpl. lia.
  - unfold maxCacheTTL, minCacheTTL.
    destruct (0 <? cf_MaxTTL cfg), (0 <? cf_MinTTL cfg); split; try apply seconds_u32; done.
  - intros k e Hin. by apply elem_of_nil in Hin.
Qed.

(** A store whose bindings are among those of a sound one. *)
Lemma with_lru_ok clock s c :
  store_ok clock s -> lru_ok c -> (length (recency c) <= s_maxEntries s)%nat ->
  (forall k e, (k, e) ∈ recency c -> (k, e) ∈ recency (s_lru s)) -> store_ok clock (with_lru s c).
Proof.
  intros [H1 H2 H3 H4 H5] Hc Hl Hin. split; try done. intros k e Hk. by apply H5, Hin.
Qed.

Lemma length_without {V} (k : cache_key) (l : list (cache_key * V)) :
  (length (without k l) <= length l)%nat.
Proof. apply length_filter. Qed.

Lemma entry_in_recency s k id e :
  lru_ok (s_lru s) -> l_entries (s_lru s) !! k = Some (id, e) -> (k, e) ∈ recency (s_lru s).
Proof. intros Hok Hk. apply recency_elem; eauto. Qed.

Lemma enclosing_spec entries rest x :
  enclosing entries rest = Some x ->
  exists pre suf, rest = pre ++ dot :: suf /\ entries !! (suf, anyType) = Some x.
Proof.
  induction rest as [|c rest IH]; [done|]. cbn [enclosing].
  destruct (Z.eqb_spec c dot) as [->|].
  - destruct (entries !! (rest, anyType)) eqn:E.
    + intros [= ->]. by exists [], rest.
    + intros (pre & suf & -> & ?)%IH. by exists (dot :: pre), suf.
  - intros (pre & suf & -> & ?)%IH. by exists (c :: pre), suf.
Qed.

(** The nearest ancestor with an entry is the one found. *)
Lemma enclosing_nearest entries pre suf x :
  entries !! (suf, anyType) = Some x ->
  (forall p s, pre ++ dot :: suf = p ++ dot :: s -> (length suf < length s)%nat ->
     entries !! (s, anyType) = None) ->
  enclosing entries (pre ++ dot :: suf) = Some x.
Proof.
  intros Hx. induction pre as [|c pre IH]; intros Hn; cbn [enclosing app].
  - by rewrite Z.eqb_refl, Hx.
  - assert (IH' : enclosing entries (pre ++ dot :: suf) = Some x).
    { apply IH. intros p s E. apply (Hn (c :: p)). simpl. by rewrite E. }
    destruct (Z.eqb_spec c dot) as [->|]; [|done].
    rewrite (Hn [] (pre ++ dot :: suf)); [done|done|]. rewrite length_app. simpl. lia.
Qed.

(** The entry [lookup] consults. *)
Definition consulted (s : store) (name : gostring) (qtype : Z) : option (nat * entry) :=
  match l_entries (s_lru s) !! normalizeKey name qtype with
  | Some e => Some e
  | None => enclosingNXDOMAIN s name
  end.

Lemma consulted_spec s name qtype id e :
  consulted s name qtype = Some (id, e) ->
  exists k, l_entries (s_lru s) !! k = Some (id, e) /\
    (k = normalizeKey name qtype \/
     exists anc, k = (anc, anyType) /\
       (anc = ToLower (trim_dot name) \/ exists pre, ToLower (trim_dot name) = pre ++ dot :: anc)).
Proof.
  unfold consulted, enclosingNXDOMAIN. cbn [normalizeKey fst].
  destruct (l_entries (s_lru s) !! normalizeKey name qtype) eqn:E1.
  { intros [= ->]. eauto. }
  destruct (l_entries (s_lru s) !! (ToLower (trim_dot name), anyType)) eqn:E2.
  { intros [= ->]. eexists. split; [exact E2|]. right. eauto. }
  intros (pre & suf & Hs & Hx)%enclosing_spec. eexists. split; [exact Hx|]. right. eauto.
Qed.

Lemma lookup_consulted s now name qtype :
  lookup s now name qtype =
  match consulted s name qtype with
  | None => (s, None)
  | Some (elem, e) =>
    if en_expiry e - now <=? 0 then (with_lru s (drop_entry (en_key e) elem (s_lru s)), None)
    else
      let ttl := if seconds (en_expiry e - now) =? 0 then 1 else seconds (en_expiry e - now) in
      (with_lru s (touch elem (s_lru s)),
       Some (MkHit (en_rcode e) (withTTL (en_answers e) ttl) (withTTL (en_authorities e) ttl)
               (en_authentic e)))
  end.
Proof. done. Qed.

Lemma lookup_ok clock s now name qtype :
  store_ok clock s -> store_ok clock (lookup s now name qtype).1.
Proof.
  intros Hok. pose proof Hok as [H1 H2 H3 H4 H5]. rewrite lookup_consulted.
  destruct (consulted s name qtype) as [[id e]|] eqn:E; [|done].
  apply consulted_spec in E as (k & Hk & _).
  destruct (H5 k e) as [Hkey _]; [by eapply entry_in_recency|]. subst k.
  destruct (_ <=? 0); cbn [fst].
  - apply with_lru_ok; [done|by eapply drop_entry_ok| |];
      rewrite (drop_entry_recency _ _ _ _ H1 Hk).
    + pose proof (length_without (en_key e) (recency (s_lru s))). lia.
    + intros k' e' [_ Hin]%list_elem_of_filter. done.
  - apply with_lru_ok; [done|by eapply touch_ok| |];
      rewrite (touch_recency _ _ _ _ H1 Hk).
    + cbn [length]. assert (length (without (en_key e) (recency (s_lru s))) <
        length (recency (s_lru s)))%nat; [|lia].
      apply length_filter_lt with (en_key e, e); [by eapply entry_in_recency|]. simpl. tauto.
    + intros k' e' [[= -> ->]|[_ Hin]%list_elem_of_filter]%elem_of_cons; [|done].
      by eapply entry_in_recency.
Qed.

Lemma clampTTL_bound s ttl :
  is_u32 (s_maxTTL s) -> is_u32 (s_minTTL s) -> 0 <= ttl -> 0 <= clampTTL s ttl <= s_maxTTL s.
Proof. unfold clampTTL, is_u32. lia. Qed.

(** What is bound after [put]: what was before, and the response under its key. *)
Lemma put_recency s now name qtype rcode answers authorities authentic k e :
  lru_ok (s_lru s) ->
  (k, e) ∈ recency (s_lru (put s now name qtype rcode answers authorities authentic)) ->
  (k, e) ∈ recency (s_lru s) \/
  exists qt ttl, put_ttl qtype rcode answers authorities = Some (qt, ttl) /\ k = normalizeKey name qt /\
    e = MkEntry k rcode answers authorities authentic (now + clampTTL s ttl * Second).
Proof.
  intros H1. unfold put. destruct (put_ttl _ _ _ _) as [[qt ttl]|]; [|by left].
  destruct (ttl =? 0); [by left|]. rewrite !CloneRRs_id. set (e' := MkEntry _ _ _ _ _ _). set (k' := normalizeKey name qt) in *.
  destruct (store_entry_spec (s_maxEntries s) k' e' (s_lru s) H1) as [_ Hr]. cbn [with_lru s_lru]. rewrite Hr.
  intros Hin%elem_of_take_in. apply elem_of_cons in Hin as [[= -> ->]|[_ Hin]%list_elem_of_filter]; [right|by left].
  by exists qt, ttl.
Qed.

Lemma put_max_ok clock s now name qtype rcode answers authorities authentic :
  store_ok clock s -> store_ok (Z.max clock now) (put s now name qtype rcode answers authorities authentic).
Proof.
  intros Hok. apply (store_ok_later _ (Z.max clock now)) in Hok; [|lia]. pose proof Hok as [H1 H2 H3 H4 H5].
  pose proof (fun k e => put_recency s now name qtype rcode answers authorities authentic k e H1) as Hrec.
  assert (Hent : forall k e, (k, e) ∈ recency (s_lru (put s now name qtype rcode answers authorities authentic)) ->
    en_key e = k /\ en_expiry e <= Z.max clock now + s_maxTTL s * Second).
  { intros k e Hin. apply Hrec in Hin as [Hin|(qt & ttl & _ & -> & ->)]; [by apply H5|]. split; [done|]. cbn [en_expiry].
    assert (clampTTL s ttl <= s_maxTTL s) by (unfold clampTTL; lia). unfold Second in *. lia. }
  clear Hrec. unfold put in *. destruct (put_ttl _ _ _ _) as [[qt ttl]|]; [|done]. destruct (ttl =? 0); [done|].
  cbn zeta in *. set (e := MkEntry _ _ _ _ _ _) in *. set (k := normalizeKey name qt) in *.
  destruct (store_entry_spec (s_maxEntries s) k e (s_lru s) H1) as [Hl Hr].
  split; cbn [with_lru s_lru s_maxEntries s_maxTTL s_minTTL] in *; [done|done| |done|done].
  rewrite Hr, length_take. lia.
Qed.

Lemma put_ok clock s now name qtype rcode answers authorities authentic :
  store_ok clock s -> clock <= now ->
  store_ok now (put s now name qtype rcode answers authorities authentic).
Proof.
  intros Hok Hnow. replace now with (Z.max clock now) at 1 by lia. by apply put_max_ok.
Qed.

(** ** What a lookup returns *)

(** The keys whose entries may answer a question: its own, and the any-type keys
    of the name and of its ancestors. *)
Definition answers_for (k : cache_key) (name : gostring) (qtype : Z) : Prop :=
  k = normalizeKey name qtype \/
  exists anc, k = (anc, anyType) /\
    (anc = ToLower (trim_dot name) \/ exists pre, ToLower (trim_dot name) = pre ++ dot :: anc).

(** The TTL an entry is served with when [remaining] nanoseconds are left. *)
Definition served_ttl (remaining : Z) : Z := Z.max 1 (seconds remaining).

Definition hit_of (e : entry) (now : Z) : hit :=
  let ttl := served_ttl (en_expiry e - now) in
  MkHit (en_rcode e) (withTTL (en_answers e) ttl) (withTTL (en_authorities e) ttl) (en_authentic e).

Lemma served_ttl_code d : (if seconds d =? 0 then 1 else seconds d) = served_ttl d.
Proof.
  unfold served_ttl. pose proof (seconds_u32 d) as H. unfold is_u32 in H.
  destruct (Z.eqb_spec (seconds d) 0); lia.
Qed.

Lemma served_ttl_u32 d : is_u32 (served_ttl d).
Proof.
  rewrite <-served_ttl_code. pose proof (seconds_u32 d) as H. unfold is_u32 in *. destruct (Z.eqb_spec (seconds d) 0); lia.
Qed.

Lemma lookup_spec s now name qtype :
  lookup s now name qtype =
  match consulted s name qtype with
  | None => (s, None)
  | Some (elem, e) =>
    if en_expiry e - now <=? 0 then (with_lru s (drop_entry (en_key e) elem (s_lru s)), None)
    else (with_lru s (touch elem (s_lru s)), Some (hit_of e now))
  end.
Proof.
  rewrite lookup_consulted. destruct (consulted s name qtype) as [[id e]|]; [|done].
  destruct (_ <=? 0); [done|]. cbv zeta. by rewrite served_ttl_code.
Qed.

(** What [lookup] finds, in terms of the bindings from the most to the least recently used. *)
Lemma lookup_bindings clock s now name qtype :
  store_ok clock s ->
  match (lookup s now name qtype).2 with
  | Some h => exists k e, (k, e) ∈ recency (s_lru s) /\ answers_for k name qtype /\
      now < en_expiry e /\ h = hit_of e now /\
      recency (s_lru (lookup s now name qtype).1) = (k, e) :: without k (recency (s_lru s))
  | None =>
      (lookup s now name qtype).1 = s \/
      exists k e, (k, e) ∈ recency (s_lru s) /\ answers_for k name qtype /\ en_expiry e <= now /\
        recency (s_lru (lookup s now name qtype).1) = without k (recency (s_lru s))
  end.
Proof.
  intros [H1 H2 H3 H4 H5]. rewrite lookup_spec.
  destruct (consulted s name qtype) as [[id e]|] eqn:E; [|by left].
  apply consulted_spec in E as (k & Hk & Hfor).
  assert (Hin : (k, e) ∈ recency (s_lru s)) by by eapply entry_in_recency.
  destruct (H5 k e Hin) as [Hkey _]. subst k.
  destruct (Z.leb_spec (en_expiry e - now) 0); cbn [fst snd].
  - right. exists (en_key e), e. split_and!; [done|done|lia|]. by apply drop_entry_recency with e.
  - exists (en_key e), e. split_and!; [done|done|lia|done|]. by apply touch_recency.
Qed.

(** C30: A cached answer is never stale and never foreign: what [lookup] returns
    was stored for the same name and type - or is an any-type entry of the name
    or an ancestor - and has not expired; it becomes the most recently used
    entry and nothing else changes.  An expired entry is a miss and is removed. *)
Theorem lookup_sound clock s now name qtype :
  store_ok clock s ->
  match (lookup s now name qtype).2 with
  | Some h => exists k e, (k, e) ∈ recency (s_lru s) /\ answers_for k name qtype /\
      now < en_expiry e /\ h = hit_of e now /\
      recency (s_lru (lookup s now name qtype).1) = (k, e) :: without k (recency (s_lru s))
  | None =>
      (lookup s now name qtype).1 = s \/
      exists k e, (k, e) ∈ recency (s_lru s) /\ answers_for k name qtype /\ en_expiry e <= now /\
        recency (s_lru (lookup s now name qtype).1) = without k (recency (s_lru s))
  end.
Proof. apply lookup_bindings. Qed.

Lemma put_front clock s now name qtype rcode answers authorities authentic qt ttl :
  store_ok clock s -> put_ttl qtype rcode answers authorities = Some (qt, ttl) -> ttl <> 0 ->
  exists id, l_entries (s_lru (put s now name qtype rcode answers authorities authentic)) !!
      normalizeKey name qt =
    Some (id, MkEntry (normalizeKey name qt) rcode answers authorities authentic
                (now + clampTTL s ttl * Second)).
Proof.
  intros [H1 H2 _ _ _] Hp Ht. unfold put. rewrite Hp. destruct (Z.eqb_spec ttl 0); [done|].
  rewrite !CloneRRs_id. set (e := MkEntry _ _ _ _ _ _). set (k := normalizeKey name qt).
  destruct (store_entry_spec (s_maxEntries s) k e (s_lru s) H1) as [Hl Hr].
  apply recency_elem; [done|]. cbn [with_lru s_lru]. rewrite Hr.
  destruct (s_maxEntries s); [lia|]. simpl. set_solver.
Qed.

(** C37: What was stored is found again: after [put] of a cacheable response, a
    lookup of the same name in any spelling and the same type, before the clamped
    TTL has run out, returns the response with its records, its rcode and its AD
    bit, every TTL replaced by the time left - at least one second, at most the
    configured maximum. *)
Theorem lookup_put clock s now t name name' qtype rcode answers authorities authentic qt ttl :
  store_ok clock s -> put_ttl qtype rcode answers authorities = Some (qt, ttl) -> 0 < ttl ->
  now <= t < now + clampTTL s ttl * Second ->
  ToLower (trim_dot name') = ToLower (trim_dot name) ->
  exists left, (lookup (put s now name qtype rcode answers authorities authentic) t name' qt).2 =
      Some (MkHit rcode (withTTL answers left) (withTTL authorities left) authentic) /\
    1 <= left <= s_maxTTL s /\ (left - 1) * Second < now + clampTTL s ttl * Second - t.
Proof.
  intros Hok Hp Ht Hwin Hname.
  destruct (put_front clock s now name qtype rcode answers authorities authentic qt ttl Hok Hp)
    as [id Hk]; [lia|].
  rewrite lookup_spec. unfold consulted, normalizeKey. rewrite Hname. unfold normalizeKey in Hk.
  rewrite Hk. cbn [en_expiry]. destruct Hok as [_ _ _ [Hmax Hmin] _].
  pose proof (clampTTL_bound s ttl Hmax Hmin ltac:(lia)) as Hc.
  destruct (Z.leb_spec (now + clampTTL s ttl * Second - t) 0); [lia|]. cbn [snd].
  eexists. split; [reflexivity|]. cbn [en_expiry]. unfold served_ttl, seconds, is_u32 in *.
  unfold Second in *. rewrite u32_small by (unfold is_u32; zlia). zlia.
Qed.

(** C38: A name that does not exist has no records of any type and no descendants
    (RFC 8020): while an NXDOMAIN for a name is cached, a lookup of any type of the
    name itself or of a name below it, in any spelling, that has no entry for its own
    type and no any-type entry nearer than this one, is answered NXDOMAIN with the
    records of that response and the time left, without asking anyone.  (A nearer
    any-type entry is used in its place, even if it has expired; the lookup is then
    a miss.) *)
Theorem nxdomain_cut clock s now t name name' qtype qtype' answers authorities authentic ttl :
  let s' := put s now name qtype RCodeNameError answers authorities authentic in
  store_ok clock s ->
  put_ttl qtype RCodeNameError answers authorities = Some (anyType, ttl) -> 0 < ttl ->
  now <= t < now + clampTTL s ttl * Second ->
  (ToLower (trim_dot name') = ToLower (trim_dot name) \/
   exists pre, ToLower (trim_dot name') = pre ++ dot :: ToLower (trim_dot name)) ->
  l_entries (s_lru s') !! normalizeKey name' qtype' = None ->
  (forall anc, (length (ToLower (trim_dot name)) < length anc)%nat ->
     answers_for (anc, anyType) name' anyType -> l_entries (s_lru s') !! (anc, anyType) = None) ->
  (lookup s' t name' qtype').2 =
    Some (let left := served_ttl (now + clampTTL s ttl * Second - t) in
          MkHit RCodeNameError (withTTL answers left) (withTTL authorities left) authentic).
Proof.
  intros s' Hok Hp Ht Hwin Hpre Hown Hnear.
  destruct (put_front clock s now name qtype RCodeNameError answers authorities authentic anyType ttl Hok Hp)
    as [id Hk]; [lia|]. fold s' in Hk.
  set (e := MkEntry _ _ _ _ _ _) in Hk.
  assert (Hc : consulted s' name' qtype' = Some (id, e)).
  { unfold consulted, enclosingNXDOMAIN. rewrite Hown. cbn [normalizeKey fst].
    destruct Hpre as [Hsame|[pre Hpre]].
    { rewrite Hsame, (Hk : l_entries (s_lru s') !! (ToLower (trim_dot name), anyType) = _). done. }
    rewrite Hnear; [|rewrite Hpre, length_app; simpl; lia|right; eauto].
    rewrite Hpre. apply enclosing_nearest; [exact Hk|].
    intros p suf Hs Hl. apply Hnear; [done|]. right. exists suf. split; [done|].
    right. exists p. by rewrite Hpre. }
  rewrite lookup_spec, Hc. cbn [en_expiry e].
  destruct (Z.leb_spec (now + clampTTL s ttl * Second - t) 0); [lia|]. done.
Qed.

(** ** The handler *)

Lemma Forall_withTTL rrs ttl max : ttl <= max -> Forall (fun rr => rr_TTL rr <= max) (withTTL rrs ttl).
Proof.
  intros H. unfold withTTL. apply Forall_forall. intros rr Hrr%list_elem_of_In.
  apply in_map_iff in Hrr as (x & <- & _). done.
Qed.

Lemma Forall_capTTLs rrs max : Forall (fun rr => rr_TTL rr <= max) (capTTLs max rrs).
Proof.
  unfold capTTLs. destruct (existsb _ rrs) eqn:E; apply Forall_forall; intros rr Hrr%list_elem_of_In.
  - apply in_map_iff in Hrr as (x & <- & _). simpl. lia.
  - apply not_true_iff_false in E. apply Z.nlt_ge. intros Hlt. apply E, existsb_exists.
    exists rr. split; [done|]. lia.
Qed.

Lemma hit_ttls clock s now name qtype h :
  store_ok clock s -> clock <= now -> (lookup s now name qtype).2 = Some h ->
  Forall (fun rr => rr_TTL rr <= s_maxTTL s) (hit_answers h) /\
  Forall (fun rr => rr_TTL rr <= s_maxTTL s) (hit_authorities h).
Proof.
  intros Hok Hnow. rewrite lookup_spec.
  destruct (consulted s name qtype) as [[id e]|] eqn:E; [|done].
  destruct (Z.leb_spec (en_expiry e - now) 0); [done|]. intros [= <-].
  apply consulted_spec in E as (k & Hk & _). pose proof Hok as [H1 _ _ [H4 _] H5].
  destruct (H5 k e) as [_ He]; [by eapply entry_in_recency|].
  assert (served_ttl (en_expiry e - now) <= s_maxTTL s).
  { unfold served_ttl, seconds, is_u32, Second in *. rewrite u32_small by (unfold is_u32; zlia). zlia. }
  split; by apply Forall_withTTL.
Qed.

Lemma put_maxTTL s now name qtype rcode answers authorities authentic :
  s_maxTTL (put s now name qtype rcode answers authorities authentic) = s_maxTTL s.
Proof. unfold put. destruct (put_ttl _ _ _ _) as [[]|]; [|done]. by destruct (_ =? 0). Qed.

Lemma lookup_maxTTL s now name qtype : s_maxTTL (lookup s now name qtype).1 = s_maxTTL s.
Proof. rewrite lookup_spec. destruct (consulted _ _ _) as [[id e]|]; [|done]. by destruct (_ <=? 0). Qed.

(** No TTL in the message is above the maximum. *)
Definition ttls_within (max : Z) (m : Message) : Prop :=
  Forall (fun rr => rr_TTL rr <= max) (m_Answers m) /\ Forall (fun rr => rr_TTL rr <= max) (m_Authorities m).

(** C39: The caching handler, in front of any handler and with any number of queries at
    once: while the clock does not run backwards, every access leaves the store
    consistent - its map and recency list agree and hold no more than the
    configured entries - and no client of an ordinary one-question query sees a
    TTL above the configured maximum, on a hit or on the way through.  A query
    with CD set neither reads nor changes the cache: for it the program is that of
    the handler behind. *)
Theorem ServeDNS_cache {S} W (clock : S -> Z) (next : Handler S) P G good addr req max cs :
  Serves W next P G good -> (forall s s', G s s' -> clock s <= clock s') -> proper_query req ->
  (h_CD (m_Header req) = true -> ServeDNS clock next addr req = zoom_snd (next addr req)) /\
  (h_CD (m_Header req) = false -> length (m_Questions req) = 1%nat ->
    obeys W (fun cs => (store_ok (clock cs.2) cs.1 /\ s_maxTTL cs.1 = max) /\ P cs.2)
      (fun cs cs' => anything cs.1 cs'.1 /\ G cs.2 cs'.2) cs (ServeDNS clock next addr req)
      (fun _ out => Forall (ttls_within max) out)).
Proof.
  intros [HG Hnext] Hclock Hp. unfold ServeDNS. split; intros Hcd.
  { destruct (m_Questions req) as [|q [|]]; [done| |done]. by rewrite Hcd. }
  destruct (m_Questions req) as [|q [|]] eqn:Hq; try done. intros _. rewrite Hcd.
  eapply (obeys_bind W _ _ _ _ (fun _ x => x.2 = max /\ forall h, x.1 = Some h -> ttls_within max (cached_response req h))).
  - apply obeys_atomic. intros [c s] [[Hok Hmax] Hs] _. cbn [fst snd] in *. unfold consult. cbn [fst snd].
    pose proof (lookup_ok (clock s) c (clock s) (q_Name q) (q_Type q) Hok) as Hok1.
    pose proof (hit_ttls (clock s) c (clock s) (q_Name q) (q_Type q)) as Httl.
    pose proof (lookup_maxTTL c (clock s) (q_Name q) (q_Type q)) as Hm.
    destruct (lookup c (clock s) (q_Name q) (q_Type q)) as [c1 x]. cbn [fst snd] in *.
    split_and!; [done|congruence|done|done|done|congruence|]. intros h ->. rewrite <-Hmax. by apply (Httl h).
  - intros cs1 [h max'] [-> Hh]; cbn [fst snd] in *. destruct h as [h|]; [constructor; [by apply Hh|constructor]|].
    eapply obeys_bind; [eapply (obeys_zoom_snd W (fun cs => store_ok (clock cs.2) cs.1 /\ s_maxTTL cs.1 = max) P anything G)|].
    + intros c s s' [Hok Hm] Hs. split; [|done]. by apply (store_ok_later (clock s)); [apply Hclock|].
    + by apply Hnext.
    + intros cs2 written _. destruct (last written) as [msg|]; [|constructor].
      eapply (obeys_bind W _ _ _ _ (fun _ _ => True)).
      * apply obeys_atomic. intros [c s] [[Hok Hmax] Hs] _. cbn [fst snd record] in *.
        split_and!; [by apply (put_ok (clock s))|by rewrite put_maxTTL|done..].
      * intros cs3 _ _. apply Forall_forall. intros m (x & <- & _)%list_elem_of_In%in_map_iff.
        split; apply Forall_capTTLs.
Qed.
