(* ===== verification/DelegationCache.v ===== *)
(** The delegation cache ([resolver/delegationcache.go]): which servers are
    authoritative for a zone.  A nil [*delegationCache] is [None]. *)

From S2P Require Import Prelude GoUnicode GoStrings GoNet DnsMsg Encoder Decoder WireSpec WireCalculus WireNames WireRoundTrip DnssecNames Lru.

Open Scope Z_scope.

Definition defaultDelegationEntries : Z := 2000.
Definition maxDelegationTTL : Z := 7 * 24 * 60 * 60.
Definition minDelegationTTL : Z := 60.

Definition NanosPerSecond : Z := 1000000000.

Record delegationEntry := MkDelegation { de_servers : list IP; de_secure : bool; de_expiry : Z }.

Record delegationCache := MkDelegationCache {
  dc_maxEntries : nat; dc_lru : lru gostring delegationEntry }.

Definition newDelegationCache (maxEntries : Z) : delegationCache :=
  MkDelegationCache
    (Z.to_nat (if maxEntries <=? 0 then defaultDelegationEntries else maxEntries)) empty_lru.

Definition with_delegations (c : delegationCache) (l : lru gostring delegationEntry) : delegationCache :=
  MkDelegationCache (dc_maxEntries c) l.

Definition normalizeZone (zone : gostring) : gostring := ToLower (trim_dot zone).

Definition zoneName (key : gostring) : gostring := if bool_decide (key = []) then [dot] else key.

(** [remove(key, c.entries[key])]: nothing happens for a key without an entry. *)
Definition remove_key (key : gostring) (l : lru gostring delegationEntry) :
    lru gostring delegationEntry :=
  match l_entries l !! key with
  | Some (elem, _) => drop_entry key elem l
  | None => l
  end.

(** The eviction loop of [put].  A key of the list without an entry would make the
    loop of the code spin; fuel runs out instead, and the cache's invariant
    excludes it. *)
Fixpoint evict_oldest (fuel max : nat) (l : lru gostring delegationEntry) :
    lru gostring delegationEntry :=
  match fuel with
  | O => l
  | S fuel =>
    if bool_decide (max < size (l_entries l))%nat then
      match last (l_order l) with
      | None => l
      | Some (_, key) => evict_oldest fuel max (remove_key key l)
      end
    else l
  end.

(** What [strings.Index(name, ".")] leaves of the name: everything behind the
    first dot, or nothing. *)
Fixpoint parent (name : gostring) : gostring :=
  match name with
  | [] => []
  | x :: name => if x =? dot then name else parent name
  end.

(** The loop of [closestEnclosing]; every round cuts the name. *)
Fixpoint closest_loop (fuel : nat) (c : delegationCache) (now : Z) (name : gostring) :
    delegationCache * option (gostring * list IP * bool) :=
  match fuel with
  | O => (c, None)
  | S fuel =>
    match l_entries (dc_lru c) !! name with
    | Some (elem, e) =>
      if now <? de_expiry e then
        (with_delegations c (touch elem (dc_lru c)),
         Some (zoneName name, de_servers e, de_secure e))
      else
        let c := with_delegations c (drop_entry name elem (dc_lru c)) in
        if bool_decide (name = []) then (c, None) else closest_loop fuel c now (parent name)
    | None =>
      if bool_decide (name = []) then (c, None) else closest_loop fuel c now (parent name)
    end
  end.

Definition closestEnclosing (c : option delegationCache) (now : Z) (qname : gostring) :
    option delegationCache * option (gostring * list IP * bool) :=
  match c with
  | None => (None, None)
  | Some c =>
    let name := normalizeZone qname in
    let '(c, found) := closest_loop (S (length name)) c now name in
    (Some c, found)
  end.

Definition put_delegation (c : delegationCache) (now : Z) (zone : gostring) (servers : list IP)
    (ttl : Z) (secure : bool) : delegationCache :=
  if bool_decide (servers = []) then c
  else
    let ttl := Z.min (Z.max ttl minDelegationTTL) maxDelegationTTL in
    let key := normalizeZone zone in
    let l := remove_key key (dc_lru c) in
    let l := push key (MkDelegation servers secure (now + ttl * NanosPerSecond)) l in
    with_delegations c (evict_oldest (length (l_order l)) (dc_maxEntries c) l).

Definition put (c : option delegationCache) (now : Z) (zone : gostring) (servers : list IP)
    (ttl : Z) (secure : bool) : option delegationCache :=
  (fun c => put_delegation c now zone servers ttl secure) <$> c.

Definition forget (c : option delegationCache) (zone : gostring) : option delegationCache :=
  (fun c => with_delegations c (remove_key (normalizeZone zone) (dc_lru c))) <$> c.

(** ** The invariant *)

Record dcache_ok (c : delegationCache) : Prop := {
  dk_lru : lru_ok (dc_lru c);
  dk_max : (0 < dc_maxEntries c)%nat;
  dk_size : (length (recency (dc_lru c)) <= dc_maxEntries c)%nat;
  dk_servers : forall k e, (k, e) ∈ recency (dc_lru c) -> de_servers e <> [] }.

Lemma remove_key_drop k l : remove_key k l = drop_key k l.
Proof. done. Qed.

(** In a sound cache every key of the list has an entry, so the loop is the one of
    the shared structure and ends with the size within the bound. *)
Lemma evict_oldest_evict fuel : forall max l, lru_ok l -> evict_oldest fuel max l = evict fuel max l.
Proof.
  induction fuel as [|fuel IH]; intros max l Hok; [done|]. cbn [evict_oldest evict].
  case_bool_decide; [|done]. destruct (last (l_order l)) as [[id k]|] eqn:E; [|done].
  assert (Hin : (id, k) ∈ l_order l) by (apply last_Some in E as [? ->]; set_solver).
  apply (ok_elem _ Hok) in Hin as [v Hv]. unfold remove_key. rewrite Hv.
  apply IH. by eapply drop_entry_ok.
Qed.

Definition clamp_delegation (ttl : Z) : Z := Z.min (Z.max ttl minDelegationTTL) maxDelegationTTL.

Lemma put_delegation_spec c now zone servers ttl secure :
  dcache_ok c -> servers <> [] ->
  let e := MkDelegation servers secure (now + clamp_delegation ttl * NanosPerSecond) in
  let c' := put_delegation c now zone servers ttl secure in
  dcache_ok c' /\ dc_maxEntries c' = dc_maxEntries c /\
  recency (dc_lru c') =
    take (dc_maxEntries c) ((normalizeZone zone, e) :: without (normalizeZone zone) (recency (dc_lru c))).
Proof.
  intros [H1 H2 H3 H4] Hne e c'. unfold c', put_delegation. rewrite bool_decide_false by done.
  fold (clamp_delegation ttl). fold e. set (k := normalizeZone zone).
  rewrite evict_oldest_evict.
  2: { apply push_ok; [by apply drop_key_ok|by apply drop_key_none]. }
  change (evict _ _ _) with (store_entry (dc_maxEntries c) k e (dc_lru c)).
  destruct (store_entry_spec (dc_maxEntries c) k e (dc_lru c) H1) as [Hl Hr].
  cbn [with_delegations dc_lru dc_maxEntries]. split_and!; [|done|done].
  split; cbn [with_delegations dc_lru dc_maxEntries]; [done|done| |].
  - rewrite Hr, length_take. lia.
  - rewrite Hr. intros k' e' Hin. apply elem_of_take_in in Hin.
    apply elem_of_cons in Hin as [[= -> ->]|[_ Hin]%list_elem_of_filter]; [done|by eapply H4].
Qed.

Lemma forget_spec c zone :
  dcache_ok c ->
  exists c', forget (Some c) zone = Some c' /\ dcache_ok c' /\
    recency (dc_lru c') = without (normalizeZone zone) (recency (dc_lru c)).
Proof.
  intros [H1 H2 H3 H4]. eexists. split; [reflexivity|]. rewrite remove_key_drop.
  cbn [with_delegations dc_lru dc_maxEntries]. rewrite drop_key_recency by done. split; [|done].
  split; cbn [with_delegations dc_lru dc_maxEntries]; [by apply drop_key_ok|done| |].
  - rewrite drop_key_recency by done.
    pose proof (length_filter (fun x : gostring * delegationEntry => x.1 <> normalizeZone zone)
      (recency (dc_lru c))). unfold without. lia.
  - rewrite drop_key_recency by done. intros k e [_ Hin]%list_elem_of_filter. by eapply H4.
Qed.

(** ** The closest enclosing zone *)

(** The keys met when cutting labels off a name: itself, every name behind a dot,
    the root. *)
Definition encloses (k name : gostring) : Prop :=
  k = name \/ k = [] \/ exists pre, name = pre ++ dot :: k.

Lemma encloses_parent k name : k <> name -> encloses k name -> encloses k (parent name).
Proof.
  intros Hne [->|[->|[pre ->]]]; [done|by right; left|]. clear Hne.
  induction pre as [|x pre IH]; cbn [parent app].
  - rewrite Z.eqb_refl. by left.
  - destruct (Z.eqb_spec x dot); [|done]. right. right. by exists pre.
Qed.

Lemma parent_encloses k name : encloses k (parent name) -> encloses k name.
Proof.
  destruct (decide (dot ∈ name)) as [Hin|Hin].
  - assert (Hp : exists pre, name = pre ++ dot :: parent name).
    { clear -Hin. induction name as [|x name IH]; [by apply elem_of_nil in Hin|]. cbn [parent].
      destruct (Z.eqb_spec x dot) as [->|Hx]; [by exists []|].
      destruct IH as [pre Hp]; [set_solver|]. exists (x :: pre). simpl. by rewrite <-Hp. }
    destruct Hp as [pre Hp]. intros [->|[->|[pre' Hk]]]; [right; right; by exists pre|by right; left|].
    right. right. exists (pre ++ dot :: pre'). rewrite Hp, Hk. by rewrite <-app_assoc.
  - assert (Hp : parent name = []).
    { clear -Hin. induction name as [|x name IH]; [done|]. cbn [parent].
      destruct (Z.eqb_spec x dot) as [->|]; [set_solver|apply IH; set_solver]. }
    rewrite Hp. intros [->|[->|[pre Hk]]]; [by right; left..|by destruct pre].
Qed.

Lemma encloses_length k name : encloses k name -> (length k <= length name)%nat.
Proof. intros [->|[->|[pre ->]]]; [done|simpl; lia|rewrite length_app; simpl; lia]. Qed.

Lemma parent_shorter name : name <> [] -> (length (parent name) < length name)%nat.
Proof.
  induction name as [|x name IH]; [done|]. intros _. cbn [parent length].
  destruct (x =? dot); [lia|]. destruct name as [|y name]; [simpl; lia|]. specialize (IH ltac:(done)). lia.
Qed.

(** A binding of the cache that has not expired and whose zone encloses [name]. *)
Definition usable (c : delegationCache) (now : Z) (name k : gostring) (e : delegationEntry) : Prop :=
  (k, e) ∈ recency (dc_lru c) /\ encloses k name /\ now < de_expiry e.

Definition closest_spec (c : delegationCache) (now : Z) (name : gostring)
    (r : delegationCache * option (gostring * list IP * bool)) : Prop :=
  dcache_ok r.1 /\
  (forall k e, (k, e) ∈ recency (dc_lru r.1) -> (k, e) ∈ recency (dc_lru c)) /\
  (forall k e, (k, e) ∈ recency (dc_lru c) -> now < de_expiry e -> (k, e) ∈ recency (dc_lru r.1)) /\
  match r.2 with
  | Some (zone, servers, secure) => exists k e, usable c now name k e /\ zone = zoneName k /\
      servers = de_servers e /\ secure = de_secure e /\
      forall k' e', usable c now name k' e' -> (length k' <= length k)%nat
  | None => forall k e, ~ usable c now name k e
  end.

Lemma with_delegations_ok c l :
  dcache_ok c -> lru_ok l ->
  (length (recency l) <= length (recency (dc_lru c)))%nat ->
  (forall k e, (k, e) ∈ recency l -> (k, e) ∈ recency (dc_lru c)) -> dcache_ok (with_delegations c l).
Proof.
  intros [H1 H2 H3 H4] Hl Hlen Hin. split; cbn [with_delegations dc_lru dc_maxEntries]; [done|done|lia|].
  intros k e Hk. by eapply H4, Hin.
Qed.

(** Going one label up, when the name itself has no usable entry. *)
Lemma closest_up c c' now name r :
  closest_spec c' now (parent name) r ->
  (forall k e, (k, e) ∈ recency (dc_lru c') -> (k, e) ∈ recency (dc_lru c)) ->
  (forall k e, (k, e) ∈ recency (dc_lru c) -> now < de_expiry e -> (k, e) ∈ recency (dc_lru c')) ->
  (forall e, ~ usable c now name name e) ->
  closest_spec c now name r.
Proof.
  intros (H1 & H2 & H3 & H4) Hsub Hkeep Hself.
  assert (Hiff : forall k e, usable c now name k e <-> usable c' now (parent name) k e).
  { intros k e. split.
    - intros (Hin & Henc & Hexp). split_and!; [by apply Hkeep| |done].
      apply encloses_parent; [|done]. intros ->. by apply (Hself e).
    - intros (Hin & Henc & Hexp). split_and!; [by apply Hsub|by apply parent_encloses|done]. }
  split_and!; [done|auto|auto|]. destruct r.2 as [[[zone servers] secure]|].
  - destruct H4 as (k & e & Hu & ? & ? & ? & Hmax). exists k, e.
    split_and!; [by apply Hiff|done..|]. intros k' e' Hu'%Hiff. by eapply Hmax.
  - intros k e Hu%Hiff. by eapply H4.
Qed.

Lemma closest_loop_spec fuel : forall c now name,
  dcache_ok c -> (length name < fuel)%nat -> closest_spec c now name (closest_loop fuel c now name).
Proof.
  induction fuel as [|fuel IH]; intros c now name Hok Hf; [lia|]. cbn [closest_loop].
  pose proof Hok as [Hlru _ _ _].
  assert (Hup : forall c', dcache_ok c' ->
    (forall k e, (k, e) ∈ recency (dc_lru c') -> (k, e) ∈ recency (dc_lru c)) ->
    (forall k e, (k, e) ∈ recency (dc_lru c) -> now < de_expiry e -> (k, e) ∈ recency (dc_lru c')) ->
    (forall e, ~ usable c now name name e) ->
    closest_spec c now name
      (if bool_decide (name = []) then (c', None) else closest_loop fuel c' now (parent name))).
  { intros c' Hok' Hsub Hkeep Hself. case_bool_decide as E.
    - split_and!; [done..|]. intros k e Hu. assert (k = name) as ->; [|by apply (Hself e)].
      destruct Hu as (_ & [->|[->|[pre Hp]]] & _); [done|done|]. subst name. by destruct pre.
    - apply (closest_up c c'); [|done..]. apply IH; [done|]. pose proof (parent_shorter name E). lia. }
  destruct (l_entries (dc_lru c) !! name) as [[id e]|] eqn:Hl.
  2: { apply Hup; [done..|]. intros e (Hin & _). apply recency_elem in Hin as [id Hin]; [|done]. congruence. }
  assert (Hin : (name, e) ∈ recency (dc_lru c)) by (apply recency_elem; eauto).
  assert (Honly : forall e', (name, e') ∈ recency (dc_lru c) -> e' = e).
  { intros e' Hin'. apply recency_elem in Hin' as [id' Hin']; [|done]. congruence. }
  destruct (Z.ltb_spec now (de_expiry e)) as [Hexp|Hexp].
  - assert (Hsub : forall k' e', (k', e') ∈ recency (touch id (dc_lru c)) <-> (k', e') ∈ recency (dc_lru c)).
    { intros k' e'. rewrite !recency_elem; [done|done|by eapply touch_ok]. }
    split_and!; cbn [fst snd with_delegations dc_lru].
    + apply with_delegations_ok; [done|by eapply touch_ok| |by intros k' e' ?%Hsub].
      rewrite (touch_recency _ _ _ _ Hlru Hl). cbn [length].
      apply (length_filter_lt (fun x : gostring * delegationEntry => x.1 <> name) _ (name, e)); [done|].
      simpl. tauto.
    + by intros k' e' ?%Hsub.
    + by intros k' e' ? _; apply Hsub.
    + exists name, e. split_and!; [by split_and!; [|left|]|done..|].
      intros k' e' (_ & Henc & _). by apply encloses_length.
  - apply Hup.
    + apply with_delegations_ok; [done|by eapply drop_entry_ok| |];
        rewrite (drop_entry_recency _ _ _ _ Hlru Hl); [apply length_filter|].
      by intros k' e' [_ ?]%list_elem_of_filter.
    + cbn [with_delegations dc_lru]. rewrite (drop_entry_recency _ _ _ _ Hlru Hl).
      by intros k' e' [_ ?]%list_elem_of_filter.
    + cbn [with_delegations dc_lru]. rewrite (drop_entry_recency _ _ _ _ Hlru Hl).
      intros k' e' Hin' Hexp'. apply list_elem_of_filter. split; [|done]. simpl. intros ->.
      apply Honly in Hin' as ->. lia.
    + intros e' (Hin' & _ & Hexp'). apply Honly in Hin' as ->. lia.
Qed.

Lemma encloses_subdomain k qname :
  encloses k (normalizeZone qname) -> ToLower (trim_dot k) = k -> isSubdomainOrEqual qname k = true.
Proof.
  unfold encloses, normalizeZone, isSubdomainOrEqual. intros H ->.
  destruct H as [->|[->|[pre ->]]].
  - case_bool_decide; [done|]. by rewrite bool_decide_true.
  - done.
  - destruct (_ || _); [done|]. apply HasSuffix_spec. by exists pre.
Qed.

(** C31: [closestEnclosing] returns the deepest zone above the name - or the name's
    own - with an unexpired entry, with the servers and the security status
    stored for it; it never returns an empty server list, it finds an entry
    whenever there is one, and it changes the cache only by marking the entry
    used and dropping expired ones it passed. *)
Theorem closestEnclosing_deepest c now qname :
  dcache_ok c ->
  exists c' found, closestEnclosing (Some c) now qname = (Some c', found) /\ dcache_ok c' /\
    (forall k e, (k, e) ∈ recency (dc_lru c') -> (k, e) ∈ recency (dc_lru c)) /\
    (forall k e, (k, e) ∈ recency (dc_lru c) -> now < de_expiry e -> (k, e) ∈ recency (dc_lru c')) /\
    match found with
    | Some (zone, servers, secure) => servers <> [] /\ exists k e,
        usable c now (normalizeZone qname) k e /\ zone = zoneName k /\
        servers = de_servers e /\ secure = de_secure e /\
        forall k' e', usable c now (normalizeZone qname) k' e' -> (length k' <= length k)%nat
    | None => forall k e, ~ usable c now (normalizeZone qname) k e
    end.
Proof.
  intros Hok. unfold closestEnclosing. pose proof (closest_loop_spec
    (S (length (normalizeZone qname))) c now (normalizeZone qname) Hok ltac:(lia)) as H.
  destruct (closest_loop _ c now _) as [c' found]. destruct H as (H1 & H2 & H3 & H4).
  exists c', found. split_and!; [done..|]. cbn [snd] in H4.
  destruct found as [[[zone servers] secure]|]; [|done].
  destruct H4 as (k & e & Hu & Hz & Hs & Hsec & Hmax). split; [|eauto 10].
  rewrite Hs. destruct Hok as [_ _ _ Hne]. by eapply Hne, Hu.
Qed.

(** Storing a delegation keeps the cache sound and bounded: the zone's entry is
    replaced and comes first, the least recently used ones make room, the TTL is
    clamped between a minute and a week, and [evict] - whose loop in the code has
    no other way out - always ends. *)
Theorem put_bounded c now zone servers ttl secure :
  dcache_ok c -> servers <> [] -> 0 <= ttl ->
  exists c' e, put (Some c) now zone servers ttl secure = Some c' /\ dcache_ok c' /\
    recency (dc_lru c') = take (dc_maxEntries c) ((normalizeZone zone, e) ::
      without (normalizeZone zone) (recency (dc_lru c))) /\
    de_servers e = servers /\ de_secure e = secure /\
    now + 60 * NanosPerSecond <= de_expiry e <= now + 604800 * NanosPerSecond.
Proof.
  intros Hok Hne Ht. destruct (put_delegation_spec c now zone servers ttl secure Hok Hne)
    as (H1 & H2 & H3).
  eexists _, _. split; [reflexivity|]. split_and!; [done|done|done|done|..];
    cbn [de_expiry]; unfold clamp_delegation, minDelegationTTL, maxDelegationTTL, NanosPerSecond; lia.
Qed.
