(* ===== verification/ServerChoice.v ===== *)
(** Which name server to ask first ([resolver/serverchoice.go]): the table of
    smoothed round-trip times and the order it puts servers in.  A nil
    [*rttTracker] is [None].  Durations are nanoseconds.

    Go's random choices are arguments: [shuffled] is the list as [rand.Shuffle]
    leaves it, [victim] the key a [range] over the full table meets first. *)

From Stdlib Require Import Sorted.
From S2P Require Import Prelude GoNet.

Open Scope Z_scope.

Definition Millisecond : Z := 1000000.

Definition unknownRTT : Z := 50 * Millisecond.
Definition timeoutPenalty : Z := 2000 * Millisecond.
Definition maxRTTEntries : nat := Z.to_nat 8192.

Abbreviation rttTracker := (gmap (list Z) Z).

Definition newRTTTracker : rttTracker := ∅.

Definition rtt_get (t : option rttTracker) (ip : IP) : Z :=
  match t with
  | None => unknownRTT
  | Some entries => default unknownRTT (entries !! ip_text ip)
  end.

(** [current*(1-rttSmoothing) + took*rttSmoothing] with the weight 1/4, truncated:
    every float involved is exact for durations below 2^50 nanoseconds. *)
Definition smooth (current took : Z) : Z := Z.quot (3 * current + took) 4.

Definition observe (t : option rttTracker) (victim : list (list Z) -> list Z) (ip : IP) (took : Z) :
    option rttTracker :=
  match t with
  | None => None
  | Some entries =>
    let key := ip_text ip in
    match entries !! key with
    | Some current => Some (<[key := smooth current took]> entries)
    | None =>
      let entries :=
        if bool_decide (maxRTTEntries <= size entries)%nat
        then delete (victim (map_to_list entries).*1) entries else entries in
      Some (<[key := took]> entries)
    end
  end.

(** [slices.SortStableFunc] by round-trip time. *)
Fixpoint insert_by (cost : IP -> Z) (s : IP) (l : list IP) : list IP :=
  match l with
  | [] => [s]
  | x :: l => if cost s <=? cost x then s :: x :: l else x :: insert_by cost s l
  end.

Definition sort_by (cost : IP -> Z) (l : list IP) : list IP := foldr (insert_by cost) [] l.

Definition order (t : option rttTracker) (shuffled : list IP) : list IP :=
  match t with
  | None => shuffled
  | Some _ => sort_by (rtt_get t) shuffled
  end.

(** ** Facts *)

Section sorting.
Context (cost : IP -> Z).

Lemma insert_by_perm s l : insert_by cost s l ≡ₚ s :: l.
Proof.
  induction l as [|x l IH]; cbn [insert_by]; [done|]. destruct (_ <=? _); [done|].
  rewrite IH. apply Permutation_swap.
Qed.

Lemma sort_by_perm l : sort_by cost l ≡ₚ l.
Proof. induction l as [|x l IH]; [done|]. cbn [sort_by foldr]. rewrite insert_by_perm. by f_equiv. Qed.

Lemma insert_by_sorted s l :
  StronglySorted (fun a b => cost a <= cost b) l ->
  StronglySorted (fun a b => cost a <= cost b) (insert_by cost s l).
Proof.
  induction 1 as [|x l Hl IH Hx]; cbn [insert_by]; [by repeat constructor|].
  destruct (Z.leb_spec (cost s) (cost x)).
  - repeat constructor; [done..|]. eapply Forall_impl; [done|]. intros y ?. cbn beta in *. lia.
  - constructor; [done|]. rewrite insert_by_perm. constructor; [lia|done].
Qed.

Lemma sort_by_sorted l : StronglySorted (fun a b => cost a <= cost b) (sort_by cost l).
Proof. induction l; cbn [sort_by foldr]; [constructor|by apply insert_by_sorted]. Qed.
End sorting.

Lemma order_perm t l : order t l ≡ₚ l.
Proof. destruct t; [apply sort_by_perm|done]. Qed.

(** Between the old average and the new measurement. *)
Lemma smooth_between current took :
  0 <= current -> 0 <= took -> Z.min current took <= smooth current took <= Z.max current took.
Proof. intros. unfold smooth. rewrite Z.quot_div_nonneg by lia. zlia. Qed.

(** The table never outgrows its bound, whatever is measured. *)
Definition rtt_bounded (t : option rttTracker) : Prop :=
  match t with None => True | Some entries => (size entries <= maxRTTEntries)%nat end.

Lemma observe_bounded t victim ip took :
  (forall ks, ks <> [] -> victim ks ∈ ks) -> rtt_bounded t -> rtt_bounded (observe t victim ip took).
Proof.
  intros Hv. destruct t as [e|]; [|done]. unfold rtt_bounded, observe. intros Hs.
  destruct (e !! ip_text ip) as [d|] eqn:E; [by rewrite map_size_insert_Some|].
  case_bool_decide as Hfull; [|rewrite map_size_insert_None by done; lia].
  assert (Hin : victim (map_to_list e).*1 ∈ (map_to_list e).*1).
  { apply Hv. intros H%(f_equal length). rewrite length_fmap, length_map_to_list in H.
    assert (0 < maxRTTEntries)%nat by (unfold maxRTTEntries; lia). simpl in H. lia. }
  apply list_elem_of_fmap in Hin as ([k d] & Hk & Hin%elem_of_map_to_list). cbn [fst] in Hk.
  assert (Hdel : is_Some (e !! victim (map_to_list e).*1)) by (rewrite Hk; by eexists).
  rewrite map_size_insert_None, map_size_delete_Some by (done || by apply lookup_delete_None; right).
  apply map_size_ne_0_lookup_2 in Hdel. lia.
Qed.

(** A table of durations, within its bound. *)
Definition rtt_ok (t : option rttTracker) : Prop :=
  match t with
  | None => True
  | Some entries => (size entries <= maxRTTEntries)%nat /\ map_Forall (fun _ d => 0 <= d) entries
  end.

(** A server that answers quickly is asked first and none is struck off: the
    servers tried are exactly those given, in order of their round-trip times, a
    measurement moves the average of the server it is of towards itself and
    leaves every other one alone unless the full table has to drop one, and the
    table never outgrows its bound. *)
Theorem order_observe t victim ip took l :
  rtt_ok t -> 0 <= took -> (forall ks, ks <> [] -> victim ks ∈ ks) ->
  let t' := observe t victim ip took in
  rtt_ok t' /\
  order t l ≡ₚ l /\
  (is_Some t -> StronglySorted (fun a b => rtt_get t a <= rtt_get t b) (order t l)) /\
  (forall entries, t = Some entries ->
    (forall d, entries !! ip_text ip = Some d ->
      Z.min d took <= rtt_get t' ip <= Z.max d took) /\
    (entries !! ip_text ip = None -> rtt_get t' ip = took) /\
    (forall ip', ip_text ip' <> ip_text ip -> (size entries < maxRTTEntries)%nat ->
      rtt_get t' ip' = rtt_get t ip')).
Proof.
  intros Hok Htook Hv t'. split_and!.
  - subst t'. destruct t as [e|]; [|done]. destruct Hok as [Hs Hd].
    pose proof (observe_bounded (Some e) victim ip took Hv Hs) as Hb. revert Hb. cbn [observe].
    destruct (e !! ip_text ip) as [d|] eqn:E; (intros Hb; split; [exact Hb|]).
    + apply map_Forall_insert_2; [|done]. apply Hd in E. cbn beta in E.
      pose proof (smooth_between d took). lia.
    + apply map_Forall_insert_2; [done|]. case_bool_decide; [|done]. by apply map_Forall_delete.
  - apply order_perm.
  - intros [e ->]. apply sort_by_sorted.
  - intros e ->. subst t'. unfold rtt_get, observe. destruct (e !! ip_text ip) as [d|] eqn:E.
    + split_and!; [|done|].
      * intros ? [= <-]. rewrite lookup_insert_eq. cbn [default]. destruct Hok as [_ Hd].
        apply Hd in E. by apply smooth_between.
      * intros ip' Hne _. by rewrite lookup_insert_ne.
    + split_and!; [done|by rewrite lookup_insert_eq|]. intros ip' Hne Hroom.
      rewrite bool_decide_false by lia. by rewrite lookup_insert_ne.
Qed.
