(* ===== verification/Upstream.v ===== *)
(** Talking to name servers ([resolver/resolver.go], lines 532-787): which
    addresses may be asked, one exchange and the checks on its reply, the retry
    without EDNS0, and the passes over a list of servers.

    What the operating system and the network do is the class [Env]: every
    outside event takes the next number, and [Env] says how the event with that
    number turns out.  A theorem about all [Env] is a theorem about every
    behaviour of the network - replies lost, late or forged - of the clock and of
    the random generators. *)

From S2P Require Import Prelude Prog GoUnicode GoStrings GoNet DnsMsg Encoder Decoder DnssecRecords DnssecNames DelegationCache ServerChoice Privacy.

Open Scope Z_scope.

Definition maxReferrals : nat := 30.
Definition maxCNAMEChain : nat := 15.
Definition maxGlueLookups : nat := 6.
Definition queryAttempts : nat := 2.
Definition udpReadBufSize : nat := 4096.
Definition defaultUpstreamPort : gostring := [53; 51].
(** Times and durations are in nanoseconds. *)
Definition defaultUpstreamTimeout : Z := 3 * 1000000000.

(** ** The outside world *)

(** Where a query goes: an address and a port. *)
Definition endpoint : Type := IP * gostring.

Class Env := {
  (** [time.Now()] in nanoseconds, once so many events have happened. *)
  clock : nat -> Z;
  (** [rand.Read] into a buffer of the given length. *)
  rand_read : nat -> nat -> option (list Z);
  (** [rand.Shuffle]. *)
  rand_shuffle : nat -> list IP -> list IP;
  (** The key a [range] over a map yields first, and the order it yields them in. *)
  range_first : nat -> list (list Z) -> list Z;
  range_order : nat -> list gostring -> list gostring;
  (** Whether [ctx.Err()] reports the end of the query's budget, and [ctx.Deadline()]. *)
  ctx_ended : nat -> bool;
  ctx_deadline : nat -> option Z;
  (** Of the queries that wait for another, each with its number: whether its context has
      ended, and whether a [select] takes the other case when both are ready. *)
  waiter_ended : nat -> nat -> bool;
  select_done : nat -> nat -> bool;
  (** Whether a dial with a timeout succeeds, over TCP or not. *)
  dials : nat -> endpoint -> bool -> Z -> bool;
  (** Sending a datagram on a socket with a deadline: the datagram that comes back, or
      an error of the socket.  Sending over a connection: the bytes readable before it
      fails. *)
  udp_exchange : nat -> endpoint -> Z -> list Z -> option (list Z);
  tcp_exchange : nat -> endpoint -> Z -> list Z -> option (list Z) }.

(** One packet sent: where to, when, and the deadline of its socket. *)
Record exchange := MkExchange { ex_to : endpoint; ex_tcp : bool; ex_event : nat; ex_deadline : Z; ex_packet : list Z }.

(** The key cache of [validate.go]; a nil [*keyCache] is [None]. *)
Record keyEntry := MkKeyEntry { ke_keys : list DNSKEY; ke_expiry : Z }.
Abbreviation keyCache := (gmap gostring keyEntry).

(** The mutable parts of a [Resolver], the number of the next event, and every
    packet sent so far, last first. *)
Record world := MkWorld {
  w_tick : nat; w_sent : list exchange; w_rtt : option rttTracker;
  w_delegations : option delegationCache; w_keys : option keyCache;
  w_primed : list IP; w_primedUntil : Z }.

(** The fields of a [Resolver] that stay as they were set up. *)
Record Resolver := MkResolver {
  r_roots : option (list IP); r_port : gostring; r_allowPrivate : bool; r_validate : bool;
  r_anchors : option (list DS); r_minimize : bool; r_use0x20 : bool; r_timeout : Z }.

(** ** Errors and effects *)

Inductive resolve_error :=
  | ECtx | ERandom | EWire (e : wire_error) | ENetwork
  | EReplyID | EReplyQR | EReplyQuestion | EReplyCase | EReplyClass
  | ENotAllowed | ENoUsable | EServers (last : resolve_error)
  | ErrBogus
  | NXDOMAINError (name : gostring) (soa : option RR)
  | ETooManyReferrals | ERCode (rcode : Z) | ECNAMEChain | EGlueDepth | ENoServerAddress
  | EFuel.

(** A method of the resolver: a program on the world, which all queries share, that
    ends with a value or an error; what it did before an error stays done. *)
Definition M (A : Type) : Type := prog world (result resolve_error A).

#[global] Instance M_ret : MRet M := fun A a => Ret (Ok a).
#[global] Instance M_bind : MBind M := fun A B f m =>
  prog_bind_def (fun x => match x with Ok a => f a | Err e => Ret (Err e) end) m.

Definition throw {A} (e : resolve_error) : M A := Ret (Err e).
(** [x, err := m()] with the error looked at. *)
Definition try {A} (m : M A) : M (result resolve_error A) := prog_bind_def (fun x => Ret (Ok x)) m.
Definition lift {A} (r : result resolve_error A) : M A := Ret r.
(** What is done under one mutex, or at one moment. *)
Definition locked {A} (f : world -> world * A) : M A := atomic (fun w => let (w, a) := f w in (w, Ok a)).
Definition gets {A} (f : world -> A) : M A := locked (fun w => (w, f w)).
Definition update (f : world -> world) : M unit := locked (fun w => (f w, tt)).

Definition set_tick (n : nat) (w : world) : world :=
  MkWorld n (w_sent w) (w_rtt w) (w_delegations w) (w_keys w) (w_primed w) (w_primedUntil w).
Definition set_sent (l : list exchange) (w : world) : world :=
  MkWorld (w_tick w) l (w_rtt w) (w_delegations w) (w_keys w) (w_primed w) (w_primedUntil w).
Definition set_rtt (t : option rttTracker) (w : world) : world :=
  MkWorld (w_tick w) (w_sent w) t (w_delegations w) (w_keys w) (w_primed w) (w_primedUntil w).
Definition set_delegations (c : option delegationCache) (w : world) : world :=
  MkWorld (w_tick w) (w_sent w) (w_rtt w) c (w_keys w) (w_primed w) (w_primedUntil w).
Definition set_keys (c : option keyCache) (w : world) : world :=
  MkWorld (w_tick w) (w_sent w) (w_rtt w) (w_delegations w) c (w_primed w) (w_primedUntil w).
Definition set_primed (ips : list IP) (until : Z) (w : world) : world :=
  MkWorld (w_tick w) (w_sent w) (w_rtt w) (w_delegations w) (w_keys w) ips until.

(** [ednsRefused] and the checks on a reply need no state. *)
Definition ednsRefused (msg : Message) : bool :=
  (ExtendedRCode msg =? RCodeFormatError) || (ExtendedRCode msg =? RCodeNotImplemented) ||
  (ExtendedRCode msg =? RCodeBadVers).

Definition unpackAndVerify (buf : list Z) (wantID : Z) (qname : gostring) (qtype : Z)
    (strictCase : bool) : result resolve_error Message :=
  match Unpack buf with
  | Err e => Err (EWire e)
  | Ok msg =>
    if negb (h_ID (m_Header msg) =? wantID) then Err EReplyID
    else if negb (h_QR (m_Header msg)) then Err EReplyQR
    else match m_Questions msg with
         | [q] =>
           if negb (equalName (q_Name q) qname) || negb (q_Type q =? qtype) then Err EReplyQuestion
           else if strictCase && negb (bool_decide (q_Name q = qname)) then Err EReplyCase
           else if negb (q_Class q =? ClassIN) then Err EReplyClass
           else Ok msg
         | _ => Err EReplyQuestion
         end
  end.

Section upstream.
Context `{Env} (r : Resolver).

(** The number of the event about to happen. *)
Definition next_event : M nat := locked (fun w => (set_tick (S (w_tick w)) w, w_tick w)).

Definition wclock (w : world) : Z := clock (w_tick w).
Definition now : M Z := gets wclock.

Definition ctx_Err : M unit :=
  n ← next_event; if ctx_ended n then throw ECtx else mret tt.

Definition upstreamPort : gostring :=
  if bool_decide (r_port r = []) then defaultUpstreamPort else r_port r.

Definition allowsUpstream (ip : IP) : bool :=
  if r_allowPrivate r then true
  else
    let b := default [] (match To4 ip with Some v4 => Some v4 | None => ip end) in
    if IsUnspecified b || IsLoopback b || IsPrivate b || IsLinkLocalUnicast b ||
       IsLinkLocalMulticast b || IsMulticast b then false
    else if bool_decide (length b = 4%nat) && (octet b 0 =? 100) && (Z.land (octet b 1) 192 =? 64)
    then false
    else true.

Definition randomQueryID : M Z :=
  n ← next_event;
  match rand_read n 2 with
  | Some (b0 :: b1 :: _) => mret (from_be16 b0 b1)
  | _ => throw ERandom
  end.

Definition upstreamTimeout : Z := if 0 <? r_timeout r then r_timeout r else defaultUpstreamTimeout.

(** [socketDeadline], at the event with number [n]. *)
Definition socketDeadline (n : nat) (timeout : Z) : Z :=
  let deadline := clock n + timeout in
  match ctx_deadline n with
  | Some budget => if budget <? deadline then budget else deadline
  | None => deadline
  end.

(** [dial], [SetDeadline] and [Write]: the number of the event at which the packet was
    sent, and the deadline. *)
Definition send (to : IP) (tcp : bool) (packet : list Z) : M (nat * Z) :=
  dialled ← next_event;
  if negb (dials dialled (to, upstreamPort) tcp upstreamTimeout) then throw ENetwork
  else
    n ← next_event;
    let deadline := socketDeadline n upstreamTimeout in
    _ ← update (fun w => set_sent (MkExchange (to, upstreamPort) tcp n deadline packet :: w_sent w) w);
    mret (n, deadline).

(** The read buffer takes no more than [udpReadBufSize] bytes of a datagram. *)
Definition queryUDP (server : IP) (packet : list Z) (id : Z) (qname : gostring) (qtype : Z)
    (strictCase : bool) : M Message :=
  sent ← send server false packet;
  match udp_exchange sent.1 (server, upstreamPort) sent.2 packet with
  | None => throw ENetwork
  | Some datagram => lift (unpackAndVerify (take udpReadBufSize datagram) id qname qtype strictCase)
  end.

(** A message on a connection comes behind its length; [readFull] fails if the
    connection ends before the message does. *)
Definition queryTCP (server : IP) (packet : list Z) (id : Z) (qname : gostring) (qtype : Z)
    (strictCase : bool) : M Message :=
  let framed := be16 (u16 (Z.of_nat (length packet))) ++ packet in
  sent ← send server true framed;
  match tcp_exchange sent.1 (server, upstreamPort) sent.2 framed with
  | Some (b0 :: b1 :: stream) =>
    let respLen := Z.to_nat (from_be16 b0 b1) in
    if bool_decide (length stream < respLen)%nat then throw ENetwork
    else lift (unpackAndVerify (take respLen stream) id qname qtype strictCase)
  | _ => throw ENetwork
  end.

Definition query_packet (edns : bool) (id : Z) (wireName : gostring) (qtype : Z) :
    result resolve_error (list Z) :=
  match
    if edns then
      PackQueryEDNS0 id wireName qtype DefaultUDPSize (if r_validate r then RequestDNSSEC else NoDNSSEC)
    else PackQuery id wireName qtype
  with Ok packet => Ok packet | Err e => Err (EWire e) end.

Definition wire_name (qname : gostring) : M gostring :=
  if r_use0x20 r then n ← next_event; mret (randomizeCase (rand_read n) qname)
  else mret qname.

Definition queryOnce (server : IP) (qname : gostring) (qtype : Z) (edns : bool) : M Message :=
  id ← randomQueryID;
  wireName ← wire_name qname;
  packet ← lift (query_packet edns id wireName qtype);
  msg ← queryUDP server packet id wireName qtype (r_use0x20 r);
  if h_TC (m_Header msg) then queryTCP server packet id wireName qtype (r_use0x20 r)
  else mret msg.

Definition query (server : IP) (qname : gostring) (qtype : Z) : M Message :=
  msg ← queryOnce server qname qtype true;
  if ednsRefused msg then queryOnce server qname qtype false else mret msg.

Definition rtt_observe (ip : IP) (took : Z) : M unit :=
  n ← next_event;
  update (fun w => set_rtt (observe (w_rtt w) (range_first n) ip took) w).

Definition rtt_order (servers : list IP) : M (list IP) :=
  n ← next_event; gets (fun w => order (w_rtt w) (rand_shuffle n servers)).

(** The body of both loops of [queryServers], over what is left to try. *)
Fixpoint try_servers (lastErr : option resolve_error) (todo : list IP) (qname : gostring) (qtype : Z) :
    M (Message * IP) :=
  match todo with
  | [] => throw (EServers (default ENoUsable lastErr))
  | s :: todo =>
    _ ← ctx_Err;
    if negb (allowsUpstream s) then try_servers (Some ENotAllowed) todo qname qtype
    else
      started ← now;
      res ← try (query s qname qtype);
      match res with
      | Err e => _ ← rtt_observe s timeoutPenalty; try_servers (Some e) todo qname qtype
      | Ok msg =>
        ended ← now;
        _ ← rtt_observe s (ended - started);
        mret (msg, s)
      end
  end.

Definition queryServers (servers : list IP) (qname : gostring) (qtype : Z) : M (Message * IP) :=
  ordered ← rtt_order servers;
  try_servers None (concat (repeat ordered queryAttempts)) qname qtype.
End upstream.
