(* ===== verification/UpstreamSpec.v ===== *)
(** What asking a name server guarantees: the address blocks that are never
    asked, and that a reply is only accepted from a server that was asked, for the
    question it was asked. *)

From S2P Require Import Prelude Prog GoUnicode GoStrings GoNet DnsMsg Encoder Decoder WireSpec WireCalculus WireNames WireRoundTrip DecoderSafe DnssecRecords DnssecNames DelegationCache ServerChoice Privacy Upstream.

Open Scope Z_scope.

(** ** Address blocks *)

(** [b] lies in the block of the first [n] bits of [p]. *)
Fixpoint in_block (n : Z) (p b : list Z) : bool :=
  match p, b with
  | x :: p, y :: b =>
    if n <=? 8 then Z.shiftr x (8 - n) =? Z.shiftr y (8 - n)
    else (x =? y) && in_block (n - 8) p b
  | _, _ => true
  end.

Definition in_blocks (blocks : list (list Z * Z)) (b : list Z) : bool :=
  existsb (fun x => in_block x.2 x.1 b) blocks.

(** Unspecified, loopback, private (three), link local, multicast, carrier-grade
    NAT. *)
Definition refused_v4 : list (list Z * Z) :=
  [([0; 0; 0; 0], 32); ([127; 0; 0; 0], 8); ([10; 0; 0; 0], 8); ([172; 16; 0; 0], 12);
   ([192; 168; 0; 0], 16); ([169; 254; 0; 0], 16); ([224; 0; 0; 0], 4); ([100; 64; 0; 0], 10)].

(** [::], [::1], unique local, link local, multicast. *)
Definition refused_v6 : list (list Z * Z) :=
  [(replicate 16 0, 128); (replicate 15 0 ++ [1], 128); (252 :: replicate 15 0, 7);
   (254 :: 128 :: replicate 14 0, 10); (255 :: replicate 15 0, 8)].

(** A property of bytes is checked on all 256 of them. *)
Lemma every_byte (P : Z -> bool) x : forallb P (seqZ 0 256) = true -> is_u8 x -> P x = true.
Proof.
  rewrite forallb_forall. intros H Hx. apply H, list_elem_of_In, elem_of_seqZ.
  unfold is_u8 in Hx. lia.
Qed.

Lemma byte_test (f g : Z -> bool) x :
  forallb (fun y => eqb (f y) (g y)) (seqZ 0 256) = true -> is_u8 x -> f x = g x.
Proof. intros H Hx. apply eqb_prop. by apply (every_byte (fun y => eqb (f y) (g y))). Qed.

(** Four bytes and sixteen, named. *)
Lemma four_bytes (b : list Z) : length b = 4%nat -> exists w x y z, b = [w; x; y; z].
Proof. destruct b as [|w [|x [|y [|z [|]]]]]; try done. eauto. Qed.

Lemma refused_v4_tests b :
  length b = 4%nat -> Forall is_u8 b ->
  in_blocks refused_v4 b =
  IsUnspecified b || IsLoopback b || IsPrivate b || IsLinkLocalUnicast b ||
  IsLinkLocalMulticast b || IsMulticast b ||
  (bool_decide (length b = 4%nat) && (octet b 0 =? 100) && (Z.land (octet b 1) 192 =? 64)).
Proof.
  intros Hl Hb. unfold IsLoopback, IsPrivate, IsLinkLocalUnicast, IsLinkLocalMulticast, IsMulticast, by_family.
  rewrite To4_Some by done. destruct (four_bytes b Hl) as (w & x & y & z & ->).
  rewrite !Forall_cons in Hb. destruct Hb as (Hw & Hx & Hy & Hz & _).
  assert (Hu : IsUnspecified [w; x; y; z] = (0 =? w) && ((0 =? x) && ((0 =? y) && (0 =? z)))).
  { unfold IsUnspecified, ip_Equal, IPv4zero, IPv6unspecified, v4InV6Prefix. cbn -[Z.eqb].
    destruct (Z.eqb_spec 0 w), (Z.eqb_spec 0 x), (Z.eqb_spec 0 y), (Z.eqb_spec 0 z); subst;
      repeat (case_bool_decide; simplify_eq; try done). }
  rewrite Hu. clear Hu. cbv -[Z.land Z.shiftr Z.eqb orb andb].
  rewrite (byte_test (fun x => Z.shiftr 16 4 =? Z.shiftr x 4) (fun x => Z.land x 240 =? 16) x) by done.
  rewrite (byte_test (fun x => Z.shiftr 64 6 =? Z.shiftr x 6) (fun x => Z.land x 192 =? 64) x) by done.
  rewrite (byte_test (fun x => Z.shiftr 224 4 =? Z.shiftr x 4) (fun x => Z.land x 240 =? 224) w) by done.
  rewrite !(Z.eqb_sym _ w), !(Z.eqb_sym _ x), !(Z.eqb_sym _ y).
  destruct (Z.eqb_spec w 224) as [->|]; [by rewrite !orb_true_r|].
  cbn [andb]. rewrite !orb_false_r. by rewrite <-!orb_assoc.
Qed.

Lemma in_block_full p : forall b,
  length p = length b -> p <> [] -> in_block (8 * Z.of_nat (length p)) p b = bool_decide (p = b).
Proof.
  induction p as [|x p IH]; intros [|y b] Hl Hne; try done. cbn [in_block].
  injection Hl as Hl. destruct p as [|x' p].
  - destruct b; [|done]. cbn -[Z.shiftr bool_decide]. rewrite !Z.shiftr_0_r.
    destruct (Z.eqb_spec x y); [by rewrite bool_decide_true by congruence|by rewrite bool_decide_false by congruence].
  - destruct (Z.leb_spec (8 * Z.of_nat (length (x :: x' :: p))) 8); [simpl in *; lia|].
    replace (8 * Z.of_nat (length (x :: x' :: p)) - 8) with (8 * Z.of_nat (length (x' :: p)))
      by (simpl length; lia).
    rewrite IH by done. destruct (Z.eqb_spec x y) as [->|]; cbn [andb].
    + apply bool_decide_ext. split; congruence.
    + symmetry. apply bool_decide_false. congruence.
Qed.

Lemma refused_v6_tests b :
  length b = 16%nat -> Forall is_u8 b -> To4 (Some b) = None ->
  in_blocks refused_v6 b =
  IsUnspecified b || IsLoopback b || IsPrivate b || IsLinkLocalUnicast b ||
  IsLinkLocalMulticast b || IsMulticast b.
Proof.
  intros Hl Hb H4. unfold IsLoopback, IsPrivate, IsLinkLocalUnicast, IsLinkLocalMulticast, IsMulticast, by_family.
  rewrite H4, bool_decide_true by done. cbn [andb].
  assert (Hu : IsUnspecified b = bool_decide (b = IPv6unspecified)).
  { unfold IsUnspecified, ip_Equal. rewrite bool_decide_true by done.
    rewrite bool_decide_false by (intros ->; vm_compute in H4; discriminate).
    by rewrite bool_decide_true by done. }
  assert (Hlo : ip_Equal b IPv6loopback = bool_decide (b = IPv6loopback)).
  { unfold ip_Equal. by rewrite bool_decide_true by done. }
  rewrite Hu, Hlo. unfold in_blocks, refused_v6. cbn [existsb fst snd].
  assert (Hfull : forall p, length p = 16%nat -> in_block 128 p b = bool_decide (b = p)).
  { intros p Hp. change 128 with (8 * Z.of_nat 16). rewrite <-Hp.
    rewrite in_block_full by (congruence || by intros ->). apply bool_decide_ext. done. }
  rewrite !Hfull by done. fold IPv6unspecified IPv6loopback.
  destruct b as [|x [|y b]]; [done..|]. rewrite !Forall_cons in Hb. destruct Hb as (Hx & Hy & _).
  cbn [in_block octet nth]. unfold octet. cbn [nth]. cbn [Z.leb Z.compare Pos.compare Pos.compare_cont].
  change (10 - 8) with 2. cbn [Z.leb Z.compare Pos.compare Pos.compare_cont].
  change (8 - 7) with 1. change (8 - 8) with 0. change (8 - 2) with 6. rewrite !Z.shiftr_0_r.
  rewrite (byte_test (fun x => Z.shiftr 252 1 =? Z.shiftr x 1) (fun x => Z.land x 254 =? 252) x) by done.
  rewrite (byte_test (fun x => Z.shiftr 128 6 =? Z.shiftr x 6) (fun x => Z.land x 192 =? 128) y) by done.
  rewrite !(Z.eqb_sym _ x). destruct (Z.eqb_spec x 255) as [->|]; [by rewrite !orb_true_r|].
  cbn [andb]. rewrite !orb_false_r. by rewrite <-!orb_assoc.
Qed.

(** The resolver cannot be used to probe the network it runs on: with
    [allowPrivate] off, an IPv4 address - in four bytes or IPv4-mapped - is asked
    exactly if it is outside the unspecified, loopback, private, link-local,
    multicast and carrier-grade NAT blocks, and an IPv6 address exactly if it is
    outside the unspecified, loopback, unique-local, link-local and multicast
    blocks. *)
Theorem allowsUpstream_blocks r ip b :
  r_allowPrivate r = false -> Forall is_u8 b ->
  (To4 ip = Some b -> allowsUpstream r ip = negb (in_blocks refused_v4 b)) /\
  (ip = Some b -> length b = 16%nat -> To4 ip = None -> allowsUpstream r ip = negb (in_blocks refused_v6 b)).
Proof.
  intros Hr Hb. unfold allowsUpstream. rewrite Hr. split.
  - intros H4. rewrite H4. change (default [] (Some b)) with b. rewrite refused_v4_tests by (done || by eapply To4_length).
    destruct (_ || IsMulticast b); [done|]. cbn [orb]. by destruct (_ && _).
  - intros -> Hl H4. rewrite H4. change (default [] (Some b)) with b. rewrite refused_v6_tests by done.
    destruct (_ || IsMulticast b); [done|]. by rewrite bool_decide_false by lia.
Qed.

(** ** Reasoning about effects

    [inv I m Q E]: every action of [m] keeps [I], whatever goroutines that do so as
    well do in between; a value [m] returns satisfies [Q] and an error [E].  No
    action waits for another goroutine. *)

Definition inv (I : world -> Prop) {A} (m : M A) (Q : A -> Prop) (E : resolve_error -> Prop) : Prop :=
  forall w0, obeys False I anything w0 m (fun _ x => match x with Ok a => Q a | Err e => E e end).

Create HintDb effects.

Section effects.
Context (I : world -> Prop).

Lemma inv_ret {A} (a : A) (Q : A -> Prop) E : Q a -> inv I (mret a) Q E.
Proof. by intros H w. Qed.

Lemma inv_throw {A} e (Q : A -> Prop) (E : resolve_error -> Prop) : E e -> inv I (throw e) Q E.
Proof. by intros H w. Qed.

Lemma inv_bind {A B} (m : M A) (f : A -> M B) P Q E :
  inv I m P E -> (forall a, P a -> inv I (f a) Q E) -> inv I (m ≫= f) Q E.
Proof.
  intros Hm Hf w0. eapply obeys_bind; [apply Hm|]. intros w [a|e] Ha; [by apply Hf|done].
Qed.

Lemma inv_mono {A} (m : M A) (P Q : A -> Prop) (E E' : resolve_error -> Prop) :
  inv I m P E -> (forall a, P a -> Q a) -> (forall e, E e -> E' e) -> inv I m Q E'.
Proof.
  intros Hm HQ HE w0. eapply obeys_mono; [apply Hm|]. intros w [a|e]; auto.
Qed.

Lemma inv_weaken {A} (m : M A) (P Q : A -> Prop) E :
  inv I m P E -> (forall a, P a -> Q a) -> inv I m Q E.
Proof. intros. by eapply inv_mono. Qed.

Lemma inv_try {A} (m : M A) (P : A -> Prop) E E' :
  inv I m P E' -> inv I (try m) (fun x => match x with Ok a => P a | Err e => E' e end) E.
Proof.
  intros Hm w0. eapply obeys_bind; [apply Hm|]. by intros w [a|e].
Qed.

Lemma inv_lift {A} (x : result resolve_error A) (Q : A -> Prop) E :
  match x with Ok a => Q a | Err e => E e end -> inv I (lift x) Q E.
Proof. by intros H w. Qed.

Lemma inv_locked {A} (f : world -> world * A) (Q : A -> Prop) E :
  (forall w, I w -> I (f w).1 /\ Q (f w).2) -> inv I (locked f) Q E.
Proof.
  intros H w0. apply obeys_atomic. intros w Hw _. specialize (H w Hw). by destruct (f w) as [w' a], H.
Qed.

Lemma inv_gets {A} (f : world -> A) (Q : A -> Prop) E :
  (forall w, I w -> Q (f w)) -> inv I (gets f) Q E.
Proof. intros H. apply inv_locked. intros w Hw. split; [done|by apply H]. Qed.

Lemma inv_update f (Q : unit -> Prop) E : (forall w, I w -> I (f w)) -> Q tt -> inv I (update f) Q E.
Proof. intros H HQ. apply inv_locked. intros w Hw. split; [by apply H|done]. Qed.

(** *** The monad *)

Lemma M_bind_assoc {A B C} (m : M A) (f : A -> M B) (g : B -> M C) :
  same ((m ≫= f) ≫= g) (m ≫= (fun a => f a ≫= g)).
Proof. etrans; [apply bind_assoc|]. apply same_bind; [done|]. by intros [a|e]. Qed.

(** *** Alone *)

Lemma inv_exec {A} (m : M A) (Q : A -> Prop) E w : inv I m Q E -> I w ->
  exists w' x, exec m w = Some (w', x) /\ I w' /\ match x with Ok a => Q a | Err e => E e end.
Proof.
  intros Hm Hw. destruct (obeys_total False I anything m _ w id (Hm w) Hw) as (w' & x & Hx).
  exists w', x. split; [done|]. by destruct (obeys_exec False I anything m _ w w' x (Hm w) Hw Hx) as (? & _ & ?).
Qed.
End effects.

(** *** Among others *)

Lemma inv_returns {A} (I : world -> Prop) (m : M A) (Q : A -> Prop) E w x :
  inv I m Q E -> returns I anything w m x -> match x with Ok a => Q a | Err e => E e end.
Proof. intros Hm. exact (obeys_returns False I anything m _ x w (Hm w)). Qed.

(** A socket neither outlives the time one exchange may take nor the budget of the
    query it is opened for. *)
Definition in_time `{Env} (r : Resolver) (x : exchange) : Prop :=
  ex_deadline x <= clock (ex_event x) + upstreamTimeout r /\
  forall budget, ctx_deadline (ex_event x) = Some budget -> ex_deadline x <= budget.

(** An invariant of everything the network code does: it counts events, measures,
    and sends to addresses of [ask]. *)
Record net_invariant `{Env} (r : Resolver) (ask : IP -> Prop) (I : world -> Prop) : Prop := {
  net_tick : forall n w, I w -> I (set_tick n w);
  net_rtt : forall n ip took w, I w -> I (set_rtt (observe (w_rtt w) (range_first n) ip took) w);
  net_sent : forall ip x w, ask ip -> ex_to x = (ip, upstreamPort r) -> in_time r x -> I w ->
    I (set_sent (x :: w_sent w) w) }.

(** What the documentation of Go and of sockets promises: datagrams and streams
    hold bytes, a shuffle and the order of a map hold the same elements, a range
    over a map begins at one of its keys. *)
Record env_ok `{Env} : Prop := {
  env_udp : forall n e t p d, udp_exchange n e t p = Some d -> bytes d;
  env_tcp : forall n e t p d, tcp_exchange n e t p = Some d -> bytes d;
  env_shuffle : forall n l, rand_shuffle n l ≡ₚ l;
  env_order : forall n l, range_order n l ≡ₚ l;
  env_first : forall n ks, ks <> [] -> range_first n ks ∈ ks }.

(** A message that passed the checks on a reply to a question for [name]. *)
Definition reply_to (strictCase : bool) (id : Z) (name : gostring) (qtype : Z) (msg : Message) : Prop :=
  h_ID (m_Header msg) = id /\ h_QR (m_Header msg) = true /\
  exists q, m_Questions msg = [q] /\ equalName (q_Name q) name = true /\ q_Type q = qtype /\
    q_Class q = ClassIN /\ (strictCase = true -> q_Name q = name).

Lemma unpackAndVerify_spec buf id name qtype strict msg :
  unpackAndVerify buf id name qtype strict = Ok msg <->
  Unpack buf = Ok msg /\ reply_to strict id name qtype msg.
Proof.
  unfold unpackAndVerify, reply_to. destruct (Unpack buf) as [m|e]; [|split; [done|by intros []]].
  split.
  - destruct (Z.eqb_spec (h_ID (m_Header m)) id) as [Hid|]; [|done].
    destruct (h_QR (m_Header m)) eqn:Hqr; [|done].
    destruct (m_Questions m) as [|q [|]] eqn:Hq; try done. cbn [negb].
    destruct (equalName (q_Name q) name) eqn:Hn; [|done].
    destruct (Z.eqb_spec (q_Type q) qtype) as [Ht|]; [|done]. cbn [negb orb].
    destruct (strict && _) eqn:Hs; [done|].
    destruct (Z.eqb_spec (q_Class q) ClassIN) as [Hc|]; [|done].
    intros [= <-]. split; [done|]. split_and!; [done..|]. exists q. split_and!; [done..|].
    intros ->. cbn [andb] in Hs. by case_bool_decide.
  - intros ([= ->] & <- & Hqr & q & Hq & Hn & <- & Hc & Hs). rewrite Hq, Hqr, Hn, Hc, !Z.eqb_refl.
    cbn [negb orb]. destruct strict; cbn [andb]; [|done].
    by rewrite bool_decide_true by auto.
Qed.

(** [msg] is what came back when [packet] was sent to the server. *)
Definition received `{Env} (r : Resolver) (server : IP) (packet : list Z) (msg : Message) : Prop :=
  exists n deadline,
    (exists d, udp_exchange n (server, upstreamPort r) deadline packet = Some d /\
       Unpack (take udpReadBufSize d) = Ok msg) \/
    (exists b0 b1 d, tcp_exchange n (server, upstreamPort r) deadline
         (be16 (u16 (Z.of_nat (length packet))) ++ packet) = Some (b0 :: b1 :: d) /\
       Unpack (take (Z.to_nat (from_be16 b0 b1)) d) = Ok msg).

(** [msg] is the answer of [server] to a query for the question, under the identifier
    and in the spelling it was sent with. *)
Definition accepted `{Env} (r : Resolver) (server : IP) (qname : gostring) (qtype : Z) (msg : Message) : Prop :=
  decoded_message msg /\ exists id name packet edns, equalName name qname = true /\
    query_packet r edns id name qtype = Ok packet /\ received r server packet msg /\
    reply_to (r_use0x20 r) id name qtype msg.

Lemma from_be16_bytes b0 b1 l : bytes (b0 :: b1 :: l) -> bytes l.
Proof. by intros [_ [_ ?]%Forall_cons]%Forall_cons. Qed.

Lemma bytes_take n l : bytes l -> bytes (take n l).
Proof. apply Forall_take. Qed.

Definition any_error : resolve_error -> Prop := fun _ => True.

(** The errors of [queryServers]. *)
Definition server_error (e : resolve_error) : Prop := e = ECtx \/ exists e', e = EServers e'.

Section network.
Context `{Env} (r : Resolver) (ask : IP -> Prop) (I : world -> Prop).
Context (Hnet : net_invariant r ask I) (Henv : env_ok).

Lemma inv_next_event E : inv I next_event (fun _ => True) E.
Proof. apply inv_locked. intros w Hw. cbn. split; [by apply (net_tick r ask)|done]. Qed.

Lemma inv_now E : inv I now (fun _ => True) E.
Proof. by apply inv_gets. Qed.

Lemma inv_after_event {A} (f : nat -> M A) Q E :
  (forall n, inv I (f n) Q E) -> inv I (n ← next_event; f n) Q E.
Proof. intros Hf. eapply inv_bind; [apply inv_next_event|]. auto. Qed.

Lemma inv_ctx_Err (E : resolve_error -> Prop) : E ECtx -> inv I ctx_Err (fun _ => True) E.
Proof.
  intros HE. apply inv_after_event. intros n.
  destruct (ctx_ended n); [by apply inv_throw|by apply inv_ret].
Qed.

Lemma socketDeadline_in_time ip tcp p n :
  in_time r (MkExchange (ip, upstreamPort r) tcp n (socketDeadline n (upstreamTimeout r)) p).
Proof.
  unfold in_time, socketDeadline. cbn [ex_deadline ex_event]. destruct (ctx_deadline n) as [budget|]; [|split; [lia|done]].
  destruct (Z.ltb_spec budget (clock n + upstreamTimeout r)); (split; [lia|intros ? [= <-]; lia]).
Qed.

Lemma inv_send ip tcp p : ask ip -> inv I (send r ip tcp p) (fun _ => True) any_error.
Proof.
  intros Hip. apply inv_after_event. intros n. destruct (negb _); [by apply inv_throw|].
  apply inv_after_event. intros n'. eapply (inv_bind _ _ _ (fun _ => True)); [|intros _ _; by apply inv_ret].
  apply inv_update; [|done]. intros w Hw. apply (net_sent r ask I Hnet ip); [done|done|apply socketDeadline_in_time|done].
Qed.

Lemma inv_rtt_observe ip took E : inv I (rtt_observe ip took) (fun _ => True) E.
Proof.
  apply inv_after_event. intros n. apply inv_update; [|done]. intros w Hw. by apply (net_rtt r ask).
Qed.

Lemma inv_verified buf id name qtype strict (P : Message -> Prop) :
  bytes buf -> (forall msg, Unpack buf = Ok msg -> P msg) ->
  inv I (lift (unpackAndVerify buf id name qtype strict))
    (fun msg => decoded_message msg /\ P msg /\ reply_to strict id name qtype msg) any_error.
Proof.
  intros Hb HP. apply inv_lift. destruct (unpackAndVerify _ _ _ _ _) as [msg|] eqn:E; [|done].
  apply unpackAndVerify_spec in E as [E ?]. split_and!; [by eapply Unpack_decoded|by apply HP|done].
Qed.

Lemma inv_queryUDP ip p id name qtype strict :
  ask ip ->
  inv I (queryUDP r ip p id name qtype strict)
    (fun msg => decoded_message msg /\ received r ip p msg /\ reply_to strict id name qtype msg) any_error.
Proof.
  intros Hip. eapply inv_bind; [by apply inv_send|]. intros [n t] _. cbn [fst snd].
  destruct (udp_exchange _ _ _ _) as [d|] eqn:E; [|by apply inv_throw].
  apply inv_verified; [apply bytes_take; by eapply env_udp|]. intros msg Hm. exists n, t. left. eauto.
Qed.

Lemma inv_queryTCP ip p id name qtype strict :
  ask ip ->
  inv I (queryTCP r ip p id name qtype strict)
    (fun msg => decoded_message msg /\ received r ip p msg /\ reply_to strict id name qtype msg) any_error.
Proof.
  intros Hip. eapply inv_bind; [by apply inv_send|]. intros [n t] _. cbn [fst snd].
  destruct (tcp_exchange _ _ _ _) as [[|b0 [|b1 d]]|] eqn:E; try by apply inv_throw.
  cbn zeta. case_bool_decide; [by apply inv_throw|].
  apply inv_verified; [eapply bytes_take, from_be16_bytes; by eapply env_tcp|].
  intros msg Hm. exists n, t. right. exists b0, b1, d. by split.
Qed.

Lemma inv_randomQueryID : inv I randomQueryID (fun _ => True) any_error.
Proof.
  apply inv_after_event. intros n.
  destruct (rand_read n 2) as [[|b0 [|b1 l]]|]; by (apply inv_throw || apply inv_ret).
Qed.

Lemma inv_wire_name qname E : inv I (wire_name r qname) (fun name => equalName name qname = true) E.
Proof.
  unfold wire_name. destruct (r_use0x20 r).
  - apply inv_after_event. intros n. apply inv_ret. apply randomizeCase_equal.
  - apply inv_ret. unfold equalName, EqualFold. by apply bool_decide_eq_true.
Qed.

Lemma inv_queryOnce ip qname qtype edns :
  ask ip -> inv I (queryOnce r ip qname qtype edns) (accepted r ip qname qtype) any_error.
Proof.
  intros Hip. eapply inv_bind; [apply inv_randomQueryID|].
  intros id _. eapply inv_bind; [apply inv_wire_name|].
  intros name Hname.
  eapply (inv_bind _ _ _ (fun p => query_packet r edns id name qtype = Ok p)).
  { apply inv_lift. by destruct (query_packet _ _ _ _ _). }
  intros p Hp. eapply inv_bind; [by apply inv_queryUDP|].
  intros msg (Hd & Hrec & Hr). destruct (h_TC (m_Header msg)).
  - eapply inv_weaken; [by apply inv_queryTCP|]. intros msg' (Hd' & Hrec' & Hr').
    split; [done|]. by exists id, name, p, edns.
  - apply inv_ret. split; [done|]. by exists id, name, p, edns.
Qed.

Lemma inv_query ip qname qtype :
  ask ip -> inv I (query r ip qname qtype) (accepted r ip qname qtype) any_error.
Proof.
  intros Hip. eapply inv_bind; [by apply inv_queryOnce|]. intros msg Hmsg.
  destruct (ednsRefused msg); [by apply inv_queryOnce|by apply inv_ret].
Qed.

Definition served (servers : list IP) (qname : gostring) (qtype : Z) (x : Message * IP) : Prop :=
  x.2 ∈ servers /\ allowsUpstream r x.2 = true /\ accepted r x.2 qname qtype x.1.

Lemma inv_try_servers todo qname qtype :
  (forall s, s ∈ todo -> allowsUpstream r s = true -> ask s) ->
  forall lastErr, inv I (try_servers r lastErr todo qname qtype) (served todo qname qtype) server_error.
Proof.
  induction todo as [|s todo IH]; intros Hask lastErr; cbn [try_servers].
  { apply inv_throw. right. eauto. }
  assert (Hrest : forall e, inv I (try_servers r e todo qname qtype) (served (s :: todo) qname qtype) server_error).
  { intros e. eapply inv_weaken; [apply IH|].
    - intros s' Hs'. apply Hask. by right.
    - intros x (? & ? & ?). split_and!; [by right|done..]. }
  eapply inv_bind; [apply inv_ctx_Err; by left|]. intros _ _.
  destruct (allowsUpstream r s) eqn:Hs; cbn [negb]; [|apply Hrest].
  assert (Hs' : ask s) by (apply Hask; [by left|done]).
  eapply inv_bind; [apply inv_now|]. intros t _.
  eapply inv_bind; [by apply inv_try, inv_query|]. intros [msg|e] Hmsg.
  - eapply inv_bind; [apply inv_now|]. intros t' _.
    eapply inv_bind; [apply inv_rtt_observe|]. intros _ _. apply inv_ret. split_and!; [by left|done..].
  - eapply inv_bind; [apply inv_rtt_observe|]. intros _ _; apply Hrest.
Qed.

Lemma elem_of_passes (s : IP) n l : s ∈ concat (repeat l n) -> s ∈ l.
Proof.
  induction n as [|n IH]; cbn [repeat concat]; [by intros ?%elem_of_nil|].
  rewrite elem_of_app. tauto.
Qed.

Lemma length_passes {A} n (l : list A) : length (concat (repeat l n)) = (n * length l)%nat.
Proof. induction n as [|n IH]; [done|]. cbn [repeat concat]. rewrite length_app, IH. lia. Qed.

Lemma inv_queryServers servers qname qtype :
  (forall s, s ∈ servers -> allowsUpstream r s = true -> ask s) ->
  inv I (queryServers r servers qname qtype) (served servers qname qtype) server_error.
Proof.
  intros Hask. eapply (inv_bind _ _ _ (fun l => l ≡ₚ servers)).
  { apply inv_after_event. intros n. apply inv_gets. intros w _.
    by rewrite order_perm, (env_shuffle Henv). }
  intros ordered Hperm.
  assert (Hin : forall s, s ∈ concat (repeat ordered queryAttempts) -> s ∈ servers).
  { intros s Hs%elem_of_passes. by rewrite <-Hperm. }
  eapply inv_weaken; [apply inv_try_servers; auto|]. intros x (? & ? & ?). split_and!; auto.
Qed.
End network.

(** ** How many packets *)

Definition sends_at_most (n : nat) {A} (m : M A) : Prop :=
  forall w w' x, exec m w = Some (w', x) -> (length (w_sent w') <= n + length (w_sent w))%nat.

Lemma exec_M_bind {A B} (m : M A) (f : A -> M B) w :
  exec (m ≫= f) w = match exec m w with
    | Some (w', Ok a) => exec (f a) w'
    | Some (w', Err e) => Some (w', Err e)
    | None => None
    end.
Proof.
  pose proof (exec_bind m (fun x => match x with Ok a => f a | Err e => Ret (Err e) end) w) as E. etrans; [exact E|].
  by destruct (exec m w) as [[w' [a|e]]|].
Qed.

Lemma exec_try {A} (m : M A) w :
  exec (try m) w = match exec m w with Some (w', x) => Some (w', Ok x) | None => None end.
Proof. apply (exec_bind m (fun x => Ret (Ok x))). Qed.

Lemma sends_bind {A B} n1 n2 (m : M A) (f : A -> M B) :
  sends_at_most n1 m -> (forall a, sends_at_most n2 (f a)) -> sends_at_most (n1 + n2) (m ≫= f).
Proof.
  intros Hm Hf w w2 x. rewrite exec_M_bind. destruct (exec m w) as [[w1 [a|e]]|] eqn:E; [| |done].
  - intros E2. apply Hm in E. apply Hf in E2. lia.
  - intros [= <- <-]. apply Hm in E. lia.
Qed.

Lemma sends_locked {A} (f : world -> world * A) : (forall w, w_sent (f w).1 = w_sent w) -> sends_at_most 0 (locked f).
Proof. intros Hf w w0 y. cbn. specialize (Hf w). destruct (f w). intros [= <- _]. simpl in *. by rewrite Hf. Qed.

Lemma sends_Ret {A} (x : result resolve_error A) n : sends_at_most n (Ret x : M A).
Proof. intros w w' x' [= <- <-]. lia. Qed.

Lemma sends_event {A} n (f : nat -> M A) : (forall i, sends_at_most n (f i)) -> sends_at_most n (i ← next_event; f i).
Proof. apply (sends_bind 0 n). by apply sends_locked. Qed.

Lemma sends_try {A} n (m : M A) : sends_at_most n m -> sends_at_most n (try m).
Proof.
  intros Hm w w' x. rewrite exec_try. destruct (exec m w) as [[w1 y]|] eqn:E; [|done].
  intros [= <- _]. by eapply Hm.
Qed.

Lemma sends_mono {A} n n' (m : M A) : sends_at_most n m -> (n <= n')%nat -> sends_at_most n' m.
Proof. intros Hm ? w w' x E. apply Hm in E. lia. Qed.

Section packets.
Context `{Env} (r : Resolver).

Lemma sends_send ip tcp p : sends_at_most 1 (send r ip tcp p).
Proof.
  apply sends_event. intros n. destruct (negb _); [apply sends_Ret|].
  apply sends_event. intros n' w w' x [= <- <-]. simpl. lia.
Qed.

Lemma sends_queryUDP ip p id name qtype strict : sends_at_most 1 (queryUDP r ip p id name qtype strict).
Proof.
  apply (sends_bind 1 0); [apply sends_send|]. intros n. case_match; apply sends_Ret.
Qed.

Lemma sends_queryTCP ip p id name qtype strict : sends_at_most 1 (queryTCP r ip p id name qtype strict).
Proof.
  apply (sends_bind 1 0); [apply sends_send|]. intros n. repeat (case_match || cbn zeta); apply sends_Ret.
Qed.

Lemma sends_queryOnce ip qname qtype edns : sends_at_most 2 (queryOnce r ip qname qtype edns).
Proof.
  apply (sends_bind 0 2); [apply sends_event; intros n; repeat case_match; apply sends_Ret|].
  intros id. apply (sends_bind 0 2).
  { unfold wire_name. case_match; [apply sends_event; intros n|]; apply sends_Ret. }
  intros name. apply (sends_bind 0 2); [apply sends_Ret|]. intros p.
  apply (sends_bind 1 1); [apply sends_queryUDP|]. intros msg.
  destruct (h_TC _); [apply sends_queryTCP|apply sends_Ret].
Qed.

Lemma sends_query ip qname qtype : sends_at_most 4 (query r ip qname qtype).
Proof.
  apply (sends_bind 2 2); [apply sends_queryOnce|]. intros msg.
  destruct (ednsRefused msg); [apply sends_queryOnce|apply sends_Ret].
Qed.

Lemma sends_try_servers todo qname qtype : forall lastErr,
  sends_at_most (4 * length todo) (try_servers r lastErr todo qname qtype).
Proof.
  induction todo as [|s todo IH]; intros lastErr; cbn [try_servers]; [apply sends_Ret|].
  replace (4 * length (s :: todo))%nat with (0 + (4 + (4 * length todo)))%nat by (simpl; lia).
  apply sends_bind.
  { apply sends_event. intros n. case_match; apply sends_Ret. }
  intros _. destruct (negb _); [eapply sends_mono; [apply IH|lia]|].
  apply (sends_bind 0); [by apply sends_locked|]. intros t.
  apply (sends_bind 4 (4 * length todo)); [apply sends_try, sends_query|]. intros [msg|e].
  - eapply sends_mono; [apply (sends_bind 0 0); [by apply sends_locked|]|lia]. intros t'.
    apply (sends_bind 0 0); [|intros _; apply sends_Ret]. apply sends_event. intros n. by apply sends_locked.
  - apply (sends_bind 0); [apply sends_event; intros n; by apply sends_locked|]. intros _. apply IH.
Qed.

Lemma sends_queryServers servers qname qtype :
  env_ok -> sends_at_most (8 * length servers) (queryServers r servers qname qtype).
Proof.
  intros Henv w w' x. unfold queryServers, rtt_order. rewrite !exec_M_bind. cbn -[try_servers queryAttempts order].
  intros E. apply sends_try_servers in E. rewrite length_passes in E. cbn [w_sent set_tick] in E.
  assert (Hp : length (order (w_rtt w) (rand_shuffle (w_tick w) servers)) = length servers)
    by (apply Permutation_length; by rewrite order_perm, (env_shuffle Henv)).
  rewrite Hp in E. unfold queryAttempts in E. etrans; [exact E|lia].
Qed.
End packets.

(** C40: One question costs a bounded number of packets and only gets answers to what
    it asked: the packets go to the given servers, to those among them that may be
    asked, at most eight for each server (two passes, a retry without EDNS0, a
    retry over TCP), on sockets whose deadline is within the time for one exchange
    and within the budget of the query; no cache changes; and a message is only accepted if one of
    those servers sent it back for a query in flight, as a response, with the
    query's identifier, class, type and name - in the very spelling sent, under
    0x20 encoding. *)
Theorem queryServers_asks `{Env} r servers qname qtype w :
  env_ok -> exists w' x, exec (queryServers r servers qname qtype) w = Some (w', x) /\
  (exists sent, w_sent w' = sent ++ w_sent w /\ (length sent <= 8 * length servers)%nat /\
    Forall (fun x => (ex_to x).1 ∈ servers /\ allowsUpstream r (ex_to x).1 = true /\
                     (ex_to x).2 = upstreamPort r /\ in_time r x) sent) /\
  w_delegations w' = w_delegations w /\ w_keys w' = w_keys w /\
  w_primed w' = w_primed w /\ w_primedUntil w' = w_primedUntil w /\
  match x with
  | Ok (msg, s) => s ∈ servers /\ allowsUpstream r s = true /\ accepted r s qname qtype msg
  | Err e => server_error e
  end.
Proof.
  intros Henv.
  set (I := fun w' => (exists sent, w_sent w' = sent ++ w_sent w /\
      Forall (fun x => (ex_to x).1 ∈ servers /\ allowsUpstream r (ex_to x).1 = true /\
                     (ex_to x).2 = upstreamPort r /\ in_time r x) sent) /\
    w_delegations w' = w_delegations w /\ w_keys w' = w_keys w /\
    w_primed w' = w_primed w /\ w_primedUntil w' = w_primedUntil w).
  assert (Hnet : net_invariant r (fun s => s ∈ servers /\ allowsUpstream r s = true) I).
  { split; [done..|]. intros ip x w' [Hin Ha] Hto Ht ((sent & Hs & Hall) & Hrest). split; [|done].
    exists (x :: sent). cbn [w_sent set_sent]. rewrite Hs.
    split; [done|]. constructor; [by rewrite Hto|done]. }
  assert (Hw : I w) by (split; [by exists []|done]).
  destruct (inv_exec I _ _ _ w (inv_queryServers r _ I Hnet Henv servers qname qtype ltac:(done)) Hw)
    as (w' & x & E & ((sent & Hs & Hall) & Hc) & Hx).
  exists w', x. split; [done|]. split; [|by destruct Hc as (? & ? & ? & ?); destruct x as [[msg s]|]].
  apply (sends_queryServers r servers qname qtype Henv) in E. exists sent. split_and!; [done| |done].
  rewrite Hs, length_app in E. lia.
Qed.
