(* ===== verification/TrustAnchor.v ===== *)
(** The root's trust anchors ([resolver/trustanchor.go]): the anchor compiled in. *)

From stdpp Require Import strings.
From S2P Require Import Prelude GoUnicode GoStrings GoText DnsMsg Encoder DnssecRecords.

Open Scope Z_scope.

Definition rootKSK2017Digest : gostring :=
  str "E06D44B80B8F1D39A95C0B0D7C65D08458E880409BBC683457104237C7F8EC8D"%string.
Definition rootKSK2017Tag : Z := 20326.
Definition algorithmRSASHA256 : Z := 8.
Definition digestTypeSHA256 : Z := 2.

(** The code panics if the digest is no hexadecimal; it is. *)
Definition RootAnchors : list DS :=
  match hex_DecodeString rootKSK2017Digest with
  | Some digest => [MkDS rootKSK2017Tag algorithmRSASHA256 digestTypeSHA256 digest]
  | None => []
  end.

(** The built-in anchor is one SHA-256 digest of 32 bytes, so nothing panics. *)
Lemma RootAnchors_digest : exists d, RootAnchors = [MkDS 20326 8 2 d] /\ length d = 32%nat /\ Forall is_u8 d.
Proof.
  eexists. split; [vm_compute; reflexivity|]. split; [reflexivity|].
  repeat (constructor; [unfold is_u8; lia|]). constructor.
Qed.
