(* ===== verification/AnchorFile.v ===== *)
(** Trust anchors from a file ([resolver/trustanchor.go]): the reader of DS records
    in presentation format. *)

From stdpp Require Import strings.
From S2P Require Import Prelude GoUnicode GoStrings GoText DnsMsg Encoder DnssecRecords DnssecNames Verify Privacy Upstream TrustAnchor.

Open Scope list_scope.
Open Scope Z_scope.

Inductive anchor_error :=
  | EOpen | EOwner | ENotDS | EFields | EKeyTag | EAlgorithm | EDigestType | EDigest | EDigestEmpty
  | ELine (line : nat) (e : anchor_error) | ETooLong | ENoRecords.

(** What follows the first field that says DS, whatever its case. *)
Fixpoint after_DS (fields : list gostring) : option (list gostring) :=
  match fields with
  | [] => None
  | f :: fields => if EqualFold f (str "DS"%string) then Some fields else after_DS fields
  end.

Definition parseDSLine (fields : list gostring) : result anchor_error DS :=
  if negb (equalName (hd [] fields) [dot]) then Err EOwner
  else
    match after_DS fields with
    | None => Err ENotDS
    | Some (keyTag :: algorithm :: digestType :: d :: ds) =>
      match ParseUint 16 keyTag with
      | None => Err EKeyTag
      | Some keyTag =>
        match ParseUint 8 algorithm with
        | None => Err EAlgorithm
        | Some algorithm =>
          match ParseUint 8 digestType with
          | None => Err EDigestType
          | Some digestType =>
            match hex_DecodeString (concat (d :: ds)) with
            | None => Err EDigest
            | Some [] => Err EDigestEmpty
            | Some digest => Ok (MkDS (u16 keyTag) (u8 algorithm) (u8 digestType) digest)
            end
          end
        end
      end
    | Some _ => Err EFields
    end.

(** The text in front of a comment. *)
Definition uncomment (text : gostring) : gostring :=
  match Cut text 59 with Some (before, _) => before | None => text end.

(** The loop of [ParseTrustAnchors] from line number [line] on. *)
Fixpoint parse_lines (line : nat) (lines : list (option gostring)) (anchors : list DS) : result anchor_error (list DS) :=
  match lines with
  | [] => match anchors with [] => Err ENoRecords | _ => Ok anchors end
  | None :: _ => Err ETooLong
  | Some text :: lines =>
    match Fields (uncomment text) with
    | [] => parse_lines (S line) lines anchors
    | fields =>
      match parseDSLine fields with
      | Ok ds => parse_lines (S line) lines (anchors ++ [ds])
      | Err e => Err (ELine line e)
      end
    end
  end.

Definition ParseTrustAnchors (data : gostring) : result anchor_error (list DS) := parse_lines 1 (Lines data) [].

(** [read_file] is the file system: the contents of a file that can be read. *)
Definition LoadTrustAnchors (read_file : gostring -> option (list Z)) (path : gostring) : result anchor_error (list DS) :=
  match read_file path with
  | None => Err EOpen
  | Some data => ParseTrustAnchors data
  end.

(** ** Nothing is skipped *)

Definition anchor_ok (ds : DS) : Prop :=
  is_u16 (ds_KeyTag ds) /\ is_u8 (ds_Algorithm ds) /\ is_u8 (ds_DigestType ds) /\ ds_Digest ds <> [].

Lemma parseDSLine_ok fields ds : parseDSLine fields = Ok ds -> anchor_ok ds.
Proof.
  unfold parseDSLine. destruct (negb _); [done|].
  destruct (after_DS fields) as [[|a [|b [|c [|d l]]]]|]; try done.
  destruct (ParseUint 16 a); [|done]. destruct (ParseUint 8 b); [|done]. destruct (ParseUint 8 c); [|done].
  destruct (hex_DecodeString _) as [[|x digest]|]; [done| |done]. intros [= <-].
  unfold anchor_ok. simpl. auto with widths.
Qed.

(** The fields of the lines that are not blank. *)
Definition records (texts : list gostring) : list (list gostring) :=
  List.filter (fun fields => negb (bool_decide (fields = []))) (map (fun text => Fields (uncomment text)) texts).

Lemma parse_lines_spec lines : forall line acc anchors,
  parse_lines line lines acc = Ok anchors ->
  exists texts new, lines = map Some texts /\ anchors = acc ++ new /\ anchors <> [] /\
    Forall2 (fun fields ds => parseDSLine fields = Ok ds) (records texts) new.
Proof.
  induction lines as [|[text|] lines IH]; intros line acc anchors; cbn [parse_lines]; [| |done].
  { destruct acc as [|x acc]; [done|]. intros [= <-]. exists [], []. rewrite app_nil_r. by split_and!. }
  destruct (Fields (uncomment text)) as [|f fs] eqn:E.
  - intros (texts & new & -> & -> & ? & ?)%IH. exists (text :: texts), new. split_and!; [done..|].
    unfold records. cbn [map List.filter]. by rewrite E.
  - destruct (parseDSLine (f :: fs)) as [ds|] eqn:Ed; [|done].
    intros (texts & new & -> & -> & ? & ?)%IH. exists (text :: texts), (ds :: new).
    rewrite <-app_assoc in *. split_and!; [done..|]. unfold records. cbn [map List.filter]. rewrite E. by constructor.
Qed.

(** No line of the file is passed over: anchors are only returned if every line
    could be read and every line that is not blank and not a comment is a DS record
    of the root, and then they are exactly those records, in order and at least one.
    Anything else - an owner other than the root, another type, a number out of
    range, a digest that is no hexadecimal - is an error. *)
Theorem ParseTrustAnchors_exact data anchors :
  ParseTrustAnchors data = Ok anchors ->
  exists texts, Lines data = map Some texts /\ anchors <> [] /\ Forall anchor_ok anchors /\
    Forall2 (fun fields ds => parseDSLine fields = Ok ds) (records texts) anchors.
Proof.
  intros (texts & new & -> & -> & Hne & H2)%parse_lines_spec. exists texts. split_and!; [done|done| |done]. clear Hne.
  cbn [app]. induction H2 as [|fields ds l new H _ IH]; constructor; [by apply parseDSLine_ok in H|done].
Qed.

(** ** Files written by hand *)

(** What a line holds: nothing, or a DS record of the root with whatever stands
    between the name and the type - a TTL, a class -, its digest in groups of
    digits, and the blanks in front of each field. *)
Inductive line_content :=
  | Nothing
  | Anchor (gaps between : list gostring) (ds : DS) (groups : list gostring).

(** A line: blanks behind its content, a comment if it has one, and whether it ends
    with CRLF. *)
Record file_line := MkLine {
  ln_content : line_content; ln_trail : gostring; ln_remark : option gostring; ln_crlf : bool }.

Definition record_fields (between : list gostring) (ds : DS) (groups : list gostring) : list gostring :=
  str "."%string :: between ++ str "DS"%string :: decimal (ds_KeyTag ds) :: decimal (ds_Algorithm ds) ::
  decimal (ds_DigestType ds) :: groups.

Definition content_text (c : line_content) (trail : gostring) : gostring :=
  match c with
  | Nothing => trail
  | Anchor gaps between ds groups => spread gaps (record_fields between ds groups) trail
  end.

Definition remark_text (remark : option gostring) : gostring := match remark with Some text => 59 :: text | None => [] end.

(** A line without its end. *)
Definition line_text (l : file_line) : gostring := content_text (ln_content l) (ln_trail l) ++ remark_text (ln_remark l).

Definition print_line (l : file_line) : gostring := line_text l ++ (if ln_crlf l then [13; 10] else [10]).

(** A field of the text: visible ASCII without a semicolon. *)
Definition field_ok (f : gostring) : Prop := f <> [] /\ Forall (fun c => visible c /\ c <> 59) f.

Definition content_ok (c : line_content) : Prop :=
  match c with
  | Nothing => True
  | Anchor gaps between ds groups =>
    anchor_ok ds /\ Forall is_u8 (ds_Digest ds) /\
    length gaps = length (record_fields between ds groups) /\ Forall blank gaps /\ Forall (fun gap => gap <> []) (tail gaps) /\
    Forall (fun f => field_ok f /\ EqualFold f (str "DS"%string) = false) between /\
    Forall (fun g => g <> []) groups /\ map lowerByte (concat groups) = hex_EncodeToString (ds_Digest ds)
  end.

Definition line_ok (l : file_line) : Prop :=
  content_ok (ln_content l) /\ blank (ln_trail l) /\ (forall text, ln_remark l = Some text -> no_sep 10 text) /\
  last (line_text l) <> Some 13 /\ Z.of_nat (length (line_text l)) + 1 < maxScanTokenSize.

Definition line_anchors (l : file_line) : list DS :=
  match ln_content l with Nothing => [] | Anchor _ _ ds _ => [ds] end.

Lemma hex_digit_lower c : hex_digit (lowerByte c) = hex_digit c.
Proof. unfold lowerByte, hex_digit. repeat case_match; try done; try lia; f_equal; lia. Qed.

Lemma hex_DecodeString_lower s : hex_DecodeString (map lowerByte s) = hex_DecodeString s.
Proof.
  assert (H : forall n s, (length s <= n)%nat -> hex_DecodeString (map lowerByte s) = hex_DecodeString s).
  { clear s. induction n as [|n IH]; intros [|a [|b s]] Hn; try done; [simpl in Hn; lia|].
    cbn [map hex_DecodeString]. rewrite !hex_digit_lower, IH; [done|simpl in Hn; lia]. }
  by apply (H (length s)).
Qed.

Lemma hex_text_field groups digest : Forall is_u8 digest -> Forall (fun g => g <> []) groups ->
  map lowerByte (concat groups) = hex_EncodeToString digest -> Forall field_ok groups.
Proof.
  intros Hb Hne E. assert (Hc : Forall (fun c => visible c /\ c <> 59) (concat groups)).
  { assert (Hall : Forall (fun c => 48 <= c <= 57 \/ 97 <= c <= 102) (map lowerByte (concat groups))) by (rewrite E; by apply hex_text).
    apply List.Forall_map in Hall. eapply Forall_impl; [exact Hall|]. cbn. intros c.
    unfold lowerByte, visible. case_match; lia. }
  clear E Hb. revert Hc. induction Hne as [|g groups Hg _ IH]; intros Hc; [constructor|].
  cbn [concat] in Hc. apply Forall_app in Hc as [? Hc]. constructor; [by split|by apply IH].
Qed.

Lemma record_fields_ok gaps between ds groups : content_ok (Anchor gaps between ds groups) ->
  Forall field_ok (record_fields between ds groups).
Proof.
  intros ((H1 & H2 & H3 & _) & Hb & _ & _ & _ & Hbt & Hg & E). unfold is_u16, is_u8 in H1, H2, H3.
  assert (Hd : forall n, 0 <= n -> field_ok (decimal n)).
  { intros n Hn. split; [apply decimal_not_nil|]. eapply Forall_impl; [by apply decimal_chars|]. unfold visible. simpl. lia. }
  assert (Hw : forall w, bool_decide (w <> [] /\ Forall (fun c => 33 <= c < 128 /\ c <> 59) w) = true -> field_ok w)
    by (intros w; apply bool_decide_eq_true).
  unfold record_fields. constructor; [by apply Hw; vm_compute|]. apply Forall_app. split.
  - eapply Forall_impl; [exact Hbt|]. by intros f [? _].
  - constructor; [by apply Hw; vm_compute|]. do 3 (constructor; [apply Hd; lia|]). by eapply hex_text_field.
Qed.

Lemma spread_Forall (P : Z -> Prop) gaps fs trail :
  Forall (Forall P) gaps -> Forall (Forall P) fs -> Forall P trail -> Forall P (spread gaps fs trail).
Proof.
  intros Hg Hf Ht. unfold spread. apply Forall_app. split; [|done]. revert fs Hf.
  induction Hg as [|g gaps Hg _ IH]; intros [|f fs] Hf; try constructor.
  apply Forall_cons in Hf as [? Hf]. cbn [zip_with concat]. rewrite !Forall_app. split; [done|by apply IH].
Qed.

(** What stands in front of a comment is blanks and fields. *)
Lemma content_chars c trail : content_ok c -> blank trail ->
  Forall (fun x => (x = 32 \/ x = 9 \/ visible x) /\ x <> 59) (content_text c trail).
Proof.
  intros Hc Ht. assert (Hblank : forall b, blank b -> Forall (fun x => (x = 32 \/ x = 9 \/ visible x) /\ x <> 59) b)
    by (intros b Hb; eapply Forall_impl; [exact Hb|]; cbn; lia).
  destruct c as [|gaps between ds groups]; cbn [content_text]; [by apply Hblank|].
  pose proof (record_fields_ok _ _ _ _ Hc) as Hf. destruct Hc as (_ & _ & _ & Hg & _).
  apply spread_Forall; [by eapply Forall_impl|eapply Forall_impl; [exact Hf|]|by apply Hblank].
  intros f [_ Hv]. eapply Forall_impl; [exact Hv|]. cbn. tauto.
Qed.

Lemma Cut_no_sep a c b : no_sep c a -> Cut (a ++ c :: b) c = Some (a, b).
Proof.
  unfold no_sep. induction a as [|x a IH]; intros Ha; cbn [app Cut]; [by rewrite Z.eqb_refl|].
  apply not_elem_of_cons in Ha as [Hx Ha]. rewrite (proj2 (Z.eqb_neq x c)) by congruence. by rewrite IH.
Qed.

Lemma Cut_absent a c : no_sep c a -> Cut a c = None.
Proof.
  unfold no_sep. induction a as [|x a IH]; intros Ha; cbn [Cut]; [done|].
  apply not_elem_of_cons in Ha as [Hx Ha]. rewrite (proj2 (Z.eqb_neq x c)) by congruence. by rewrite IH.
Qed.

Lemma uncomment_line l : line_ok l -> uncomment (line_text l) = content_text (ln_content l) (ln_trail l).
Proof.
  intros (Hc & Ht & _). pose proof (content_chars _ _ Hc Ht) as Hch. unfold uncomment, line_text.
  assert (Hn : no_sep 59 (content_text (ln_content l) (ln_trail l))).
  { unfold no_sep. intros Hin. rewrite Forall_forall in Hch. by destruct (Hch 59 Hin). }
  destruct (ln_remark l) as [text|]; cbn [remark_text]; [by rewrite Cut_no_sep|]. by rewrite app_nil_r, Cut_absent.
Qed.

Lemma after_DS_between between rest : Forall (fun f => field_ok f /\ EqualFold f (str "DS"%string) = false) between ->
  after_DS (between ++ str "DS"%string :: rest) = Some rest.
Proof. induction 1 as [|f fs [_ Hf] _ IH]; [done|]. cbn [app after_DS]. by rewrite Hf. Qed.

Lemma parse_record gaps between ds groups : content_ok (Anchor gaps between ds groups) ->
  parseDSLine (record_fields between ds groups) = Ok ds.
Proof.
  intros ((H1 & H2 & H3 & H4) & Hb & _ & _ & _ & Hbt & Hg & E). unfold parseDSLine, record_fields.
  assert (En : equalName (hd [] (str "."%string :: between)) [dot] = true) by by vm_compute.
  cbn [hd] in En |- *. rewrite En. cbn [negb after_DS]. change (EqualFold (str ".") (str "DS")) with false. cbn match.
  rewrite after_DS_between by done. rewrite !ParseUint_decimal by done.
  assert (Hhex : hex_DecodeString (concat groups) = Some (ds_Digest ds))
    by (rewrite <-hex_DecodeString_lower, E; by apply hex_roundtrip).
  destruct groups as [|g groups]; [cbn in Hhex; by injection Hhex as Hhex; destruct (ds_Digest ds)|].
  rewrite Hhex, u16_small, !u8_small by done. by destruct ds as [tag alg dt [|x digest]].
Qed.

Lemma line_text_no_newline l : line_ok l -> no_sep 10 (line_text l).
Proof.
  intros (Hc & Ht & Hr & _). pose proof (content_chars _ _ Hc Ht) as Hch. unfold no_sep, line_text.
  intros [Hin|Hin]%elem_of_app.
  - rewrite Forall_forall in Hch. destruct (Hch 10 Hin) as [Hv _]. unfold visible in Hv. lia.
  - destruct (ln_remark l) as [text|]; [|by apply elem_of_nil in Hin]. apply elem_of_cons in Hin as [?|Hin]; [lia|].
    by apply (Hr text).
Qed.

Lemma scan_line_text l : line_ok l -> scan_line (line_text l ++ (if ln_crlf l then [13] else [])) = Some (line_text l).
Proof.
  intros (_ & _ & _ & Hr & Hl). unfold scan_line. rewrite (proj2 (Z.ltb_lt _ _)).
  - destruct (ln_crlf l); [by rewrite TrimSuffix_snoc|]. by rewrite app_nil_r, TrimSuffix_other.
  - rewrite length_app. destruct (ln_crlf l); simpl; lia.
Qed.

Lemma Lines_print ls : Forall line_ok ls -> Lines (concat (map print_line ls)) = map (fun l => Some (line_text l)) ls.
Proof.
  unfold Lines. induction 1 as [|l ls Hl _ IH]; [done|]. cbn [map concat]. unfold print_line at 1.
  assert (E : forall rest, (line_text l ++ (if ln_crlf l then [13; 10] else [10])) ++ rest =
    (line_text l ++ (if ln_crlf l then [13] else [])) ++ 10 :: rest).
  { intros rest. destruct (ln_crlf l); by rewrite <-!app_assoc. }
  rewrite E, Split_app, Split_atom.
  - destruct (Split_cons 10 (concat (map print_line ls))) as (p & ps & Ep). rewrite Ep in IH |- *.
    cbn [app scanned]. f_equal; [by apply scan_line_text|exact IH].
  - pose proof (line_text_no_newline l Hl) as Hn. unfold no_sep in *. rewrite elem_of_app.
    intros [?|Hin]; [done|]. destruct (ln_crlf l); [apply list_elem_of_singleton in Hin; lia|inversion Hin].
Qed.

Lemma Fields_line l : line_ok l ->
  Fields (uncomment (line_text l)) =
  match ln_content l with Nothing => [] | Anchor _ between ds groups => record_fields between ds groups end.
Proof.
  intros Hl. rewrite uncomment_line by done. destruct Hl as (Hc & Ht & _).
  destruct (ln_content l) as [|gaps between ds groups]; cbn [content_text].
  - exact (Fields_spread [] [] _ eq_refl ltac:(done) ltac:(done) Ht ltac:(done)).
  - pose proof (record_fields_ok _ _ _ _ Hc) as Hf. destruct Hc as (_ & _ & Hlen & Hg & Hgn & _).
    apply Fields_spread; [done..|]. eapply Forall_impl; [exact Hf|]. intros f [Hne Hv]. split; [done|].
    eapply Forall_impl; [exact Hv|]. by intros c [? _].
Qed.

(** C23: A file written as the documentation says is read back: blank lines, comments,
    and DS records of the root, one on a line, with or without a comment behind it,
    with or without a TTL and a class, indented and separated by any blanks, the
    digest in digits of either case and in any groups, each line ended by LF or CRLF
    and shorter than the reader's limit, give exactly the anchors of the records, in
    order; a file without any is an error. *)
Theorem ParseTrustAnchors_print ls :
  Forall line_ok ls ->
  ParseTrustAnchors (concat (map print_line ls)) =
  match concat (map line_anchors ls) with [] => Err ENoRecords | anchors => Ok anchors end.
Proof.
  intros Hls. unfold ParseTrustAnchors. rewrite Lines_print by done.
  assert (H : forall line acc, parse_lines line (map (fun l => Some (line_text l)) ls) acc =
    match acc ++ concat (map line_anchors ls) with [] => Err ENoRecords | anchors => Ok anchors end).
  { induction Hls as [|l ls Hl _ IH]; intros line acc; cbn [map parse_lines concat]; [by rewrite app_nil_r; destruct acc|].
    rewrite (Fields_line l Hl). destruct Hl as (Hc & _). unfold line_anchors at 1.
    destruct (ln_content l) as [|gaps between ds groups]; [apply IH|].
    pose proof (parse_record _ _ _ _ Hc) as Ep. cbn [record_fields]. fold (record_fields between ds groups).
    rewrite Ep, IH. by rewrite <-app_assoc. }
  apply H.
Qed.
