(* ===== verification/Validate.v ===== *)
(** DNSSEC validation during the walk ([resolver/validate.go]): the key cache,
    the chain of trust across zone cuts, and the checks of answers and denials. *)

From S2P Require Import Prelude Prog GoUnicode GoStrings GoNet DnsMsg Encoder Decoder DnssecRecords DnssecNames Verify Denial DelegationCache ServerChoice Privacy Upstream TrustAnchor.

Open Scope Z_scope.

Record secState := MkSecState { ss_secure : bool; ss_keys : list DNSKEY }.
Definition insecure : secState := MkSecState false [].

Definition normalizeName (name : gostring) : gostring := ToLower (trim_dot name).

(** ** The key cache *)

Definition newKeyCache : keyCache := ∅.

Definition keys_get (c : option keyCache) (now : Z) (zone : gostring) : option (list DNSKEY) :=
  match c with
  | None => None
  | Some entries =>
    match entries !! normalizeZone zone with
    | Some e => if now <? ke_expiry e then Some (ke_keys e) else None
    | None => None
    end
  end.

Definition keys_put (c : option keyCache) (now : Z) (zone : gostring) (keys : list DNSKEY) (ttl : Z) :
    option keyCache :=
  match c with
  | None => None
  | Some entries =>
    if bool_decide (keys = []) then Some entries
    else
      let ttl := Z.min (Z.max ttl minDelegationTTL) maxDelegationTTL in
      Some (<[normalizeZone zone := MkKeyEntry keys (now + ttl * NanosPerSecond)]> entries)
  end.

(** ** Picking records out of a section *)

Definition rrsigsFor (section : list RR) (name : gostring) (qtype : Z) : list RRSIG :=
  omap (fun rr =>
    if negb (rr_Type rr =? TypeRRSIG) || negb (equalName (rr_Name rr) name) then None
    else match AsRRSIG rr with
         | Some sig => if sig_TypeCovered sig =? qtype then Some sig else None
         | None => None
         end) section.

Definition of_type (qtype : Z) (name : gostring) (rr : RR) : bool :=
  (rr_Type rr =? qtype) && (rr_Class rr =? ClassIN) && equalName (rr_Name rr) name.

Definition recordsOfType (section : list RR) (qtype : Z) (name : gostring) : list RR :=
  filter (fun rr => of_type qtype name rr = true) section.

Definition minTTLOf (rrs : list RR) : Z :=
  match rrs with
  | [] => 0
  | rr :: rrs => fold_left (fun m rr => if rr_TTL rr <? m then rr_TTL rr else m) rrs (rr_TTL rr)
  end.

(** The deepest signer among [rrs] that lies below [zone] and is an ancestor of
    [qname], starting from the deepest found so far. *)
Fixpoint deepest_signer (zone qname deepest : gostring) (rrs : list RR) : gostring :=
  match rrs with
  | [] => deepest
  | rr :: rrs =>
    let next :=
      match AsRRSIG rr with
      | None => deepest
      | Some sig =>
        let signer := sig_SignerName sig in
        if negb (isProperSubdomain signer zone) || negb (isSubdomainOrEqual qname signer) then deepest
        else if bool_decide (deepest = []) || isProperSubdomain signer deepest then signer
        else deepest
      end in
    deepest_signer zone qname next rrs
  end.

Definition signerBelow (resp : Message) (zone qname : gostring) : gostring :=
  deepest_signer zone qname [] (m_Answers resp ++ m_Authorities resp).

(** ** Verifying record sets *)

(** The errors of [verifyRRSetWithKeys]; [errors.Is(err, ErrUnsupportedAlgorithm)]
    is [is_unsupported]. *)
Inductive verify_error := VNothing | VNoKeys | VNoRRSIG | VSig (e : sig_error).

Definition is_unsupported (e : sig_error) : bool := bool_decide (e = ErrUnsupportedAlgorithm).

(** [UnixNano] to [Unix]. *)
Definition unix (now : Z) : Z := now / NanosPerSecond.

Section validate.
Context `{Crypto} `{Env} (r : Resolver).

(** Whether the caller's context came from [WithoutValidation]. *)
Context (checkingDisabled : bool).

(** The loops over signatures and keys, as one over the pairs in their order. *)
Fixpoint try_pairs (rrset : list RR) (now : Z) (pairs : list (RRSIG * DNSKEY))
    (unsupported : bool) (lastErr : sig_error) : result verify_error RRSIG :=
  match pairs with
  | [] => Err (VSig (if unsupported then ErrUnsupportedAlgorithm else lastErr))
  | (sig, key) :: pairs =>
    match VerifyRRSet rrset sig key (unix now) with
    | Ok _ => Ok sig
    | Err e => try_pairs rrset now pairs (unsupported || is_unsupported e) e
    end
  end.

Definition verifyRRSetWithKeys (rrset section : list RR) (keys : list DNSKEY) (now : Z) :
    result verify_error RRSIG :=
  match rrset with
  | [] => Err VNothing
  | first :: _ =>
    if bool_decide (keys = []) then Err VNoKeys
    else
      let covering := rrsigsFor section (rr_Name first) (rr_Type first) in
      if bool_decide (covering = []) then Err VNoRRSIG
      else try_pairs rrset now (covering ≫= fun sig => map (pair sig) keys) false ENoRecords
  end.

Definition verifyRRSet (rrset sigs : list RR) (keys : list DNSKEY) (now : Z) : result verify_error RRSIG :=
  verifyRRSetWithKeys rrset sigs keys now.

(** ** Denials and answers *)

Fixpoint verified_loop (todo section : list RR) (keys : list DNSKEY) (now : Z)
    (checked : gset (gostring * Z)) : list RR :=
  match todo with
  | [] => []
  | rr :: todo =>
    if negb (rr_Type rr =? TypeNSEC) && negb (rr_Type rr =? TypeNSEC3)
    then verified_loop todo section keys now checked
    else
      let k := (normalizeName (rr_Name rr), rr_Type rr) in
      if bool_decide (k ∈ checked) then verified_loop todo section keys now checked
      else
        let rrset := recordsOfType section (rr_Type rr) (rr_Name rr) in
        let rest := verified_loop todo section keys now ({[k]} ∪ checked) in
        match verifyRRSet rrset section keys now with
        | Ok _ => rrset ++ rest
        | Err _ => rest
        end
  end.

Definition verifiedNSECs (section : list RR) (keys : list DNSKEY) (now : Z) : list RR :=
  verified_loop section section keys now ∅.

(** [errors.Is(err, ErrUnsupportedDenial) || errors.Is(err, ErrUnsupportedAlgorithm)]. *)
Definition unreadable (e : denial_error) : bool :=
  match e with
  | ErrUnsupportedDenial => true
  | EHashName e => is_unsupported e
  | ErrNoDenial => false
  end.

Definition checkDenial (sec : secState) (section : list RR) (prove : list RR -> result denial_error unit)
    (now : Z) : result denial_error bool :=
  if negb (r_validate r) || negb (ss_secure sec) then Ok false
  else match prove (verifiedNSECs section (ss_keys sec) now) with
       | Ok _ => Ok true
       | Err e => if unreadable e then Ok false else Err e
       end.

(** The loop of [validateAnswer] over the records not looked at yet. *)
Fixpoint answer_loop (todo records : list RR) (sec : secState) (resp : Message) (now : Z)
    (seen : gset (gostring * Z)) : result resolve_error bool :=
  match todo with
  | [] => Ok true
  | rr :: todo =>
    let k := (normalizeName (rr_Name rr), rr_Type rr) in
    if bool_decide (k ∈ seen) then answer_loop todo records sec resp now seen
    else
      let seen := {[k]} ∪ seen in
      let rrset := recordsOfType records (rr_Type rr) (rr_Name rr) in
      match verifyRRSet rrset (m_Answers resp) (ss_keys sec) now with
      | Err (VSig ErrUnsupportedAlgorithm) => Ok false
      | Err _ => Err ErrBogus
      | Ok sig =>
        if IsWildcardExpansion (rr_Name rr) sig then
          match checkDenial sec (m_Authorities resp) (fun nsecs => ProveNoCloserMatch nsecs (rr_Name rr)) now with
          | Err _ => Err ErrBogus
          | Ok false => Ok false
          | Ok true => answer_loop todo records sec resp now seen
          end
        else answer_loop todo records sec resp now seen
      end
  end.

Definition validateAnswer (sec : secState) (resp : Message) (records : list RR) (now : Z) :
    result resolve_error bool :=
  if negb (r_validate r) || negb (ss_secure sec) || bool_decide (records = []) then Ok false
  else answer_loop records records sec resp now ∅.

(** ** Zone keys *)

(** The search for a key the parent vouched for that signed the set, over the
    pairs of a key and an anchor in their order: whether one was found, and
    whether some check met an unsupported algorithm before. *)
Fixpoint vouched_loop (zone : gostring) (keySet section : list RR) (now : Z)
    (pairs : list (DNSKEY * DS)) (unsupported : bool) : bool * bool :=
  match pairs with
  | [] => (false, unsupported)
  | (key, anchor) :: pairs =>
    match VerifyDS zone key anchor with
    | Ok _ =>
      match verifyRRSetWithKeys keySet section [key] now with
      | Ok _ => (true, unsupported)
      | Err (VSig ErrUnsupportedAlgorithm) => vouched_loop zone keySet section now pairs true
      | Err _ => vouched_loop zone keySet section now pairs unsupported
      end
    | Err e => vouched_loop zone keySet section now pairs (unsupported || is_unsupported e)
    end
  end.

(** A zone signed only with unsupported algorithms has no keys: Go's [nil]. *)
Definition zoneKeys (zone : gostring) (servers : list IP) (anchors : list DS) : M (list DNSKEY) :=
  cached ← gets (fun w => keys_get (w_keys w) (wclock w) zone);
  match cached with
  | Some keys => mret keys
  | None =>
    '(resp, _) ← queryServers r servers zone TypeDNSKEY;
    let keySet := recordsOfType (m_Answers resp) TypeDNSKEY zone in
    if bool_decide (keySet = []) then throw ErrBogus
    else
      let keys := omap AsDNSKEY keySet in
      t ← now;
      let '(verified, unsupported) :=
        vouched_loop zone keySet (m_Answers resp) t (keys ≫= fun key => map (pair key) anchors) false in
      if verified then
        _ ← update (fun w => set_keys (keys_put (w_keys w) (wclock w) zone keys (minTTLOf keySet)) w);
        mret keys
      else if unsupported then mret []
      else throw ErrBogus
  end.

Definition trustAnchors : list DS := default RootAnchors (r_anchors r).

Definition rootState (servers : list IP) : M secState :=
  keys ← zoneKeys [dot] servers trustAnchors;
  mret (MkSecState true keys).

Definition enterZone (parent : secState) (section : list RR) (zone : gostring) (servers : list IP) :
    M secState :=
  t ← now;
  let dsSet := recordsOfType section TypeDS zone in
  if bool_decide (dsSet = []) then
    match checkDenial parent section (fun nsecs => ProveNoDS nsecs zone) t with
    | Ok _ => mret insecure
    | Err _ => throw ErrBogus
    end
  else
    match verifyRRSet dsSet section (ss_keys parent) t with
    | Err _ => throw ErrBogus
    | Ok _ =>
      keys ← zoneKeys zone servers (omap AsDS dsSet);
      if bool_decide (keys = []) then mret insecure else mret (MkSecState true keys)
    end.

Definition crossDelegation (parent : secState) (resp : Message) (zone : gostring) (servers : list IP) :
    M secState :=
  if negb (ss_secure parent) then mret insecure
  else enterZone parent (m_Authorities resp) zone servers.

Definition fetchDelegation (parent : secState) (zone : gostring) (servers : list IP) : M secState :=
  '(resp, _) ← queryServers r servers zone TypeDS;
  enterZone parent (m_Answers resp ++ m_Authorities resp) zone servers.

(** The walk down to the signer.  Every round adds a label; [descendTo] allows as
    many rounds as the signer has labels, which is proved to be enough. *)
Fixpoint descend (fuel : nat) (sec : secState) (zone to : gostring) (servers : list IP) : M secState :=
  if equalName zone to then mret sec
  else match fuel with
       | O => throw EFuel
       | S fuel =>
         let child := minimizedQName to zone in
         next ← fetchDelegation sec child servers;
         if negb (ss_secure next) then mret insecure
         else descend fuel next child to servers
       end.

Definition descendTo (sec : secState) (from to : gostring) (servers : list IP) : M secState :=
  descend (length (labelsOf to)) sec from to servers.

Definition startingSecurity (zone : gostring) (servers : list IP) : M secState :=
  if negb (r_validate r) || checkingDisabled then mret insecure
  else if bool_decide (normalizeName zone = []) then rootState servers
  else
    cached ← gets (fun w => keys_get (w_keys w) (wclock w) zone);
    match cached with
    | Some keys => mret (MkSecState true keys)
    | None => mret insecure
    end.
End validate.
