(* ===== verification/ValidateSpec.v ===== *)
(** What validation establishes: the chain of trust behind every key set the
    resolver uses, what makes a zone an unsigned one, and what an accepted answer
    or denial rests on. *)

From S2P Require Import Prelude Prog GoUnicode GoStrings GoNet DnsMsg Encoder Decoder WireSpec WireCalculus WireNames WireRoundTrip DecoderSafe DnssecRecords DnssecNames Verify Denial DelegationCache ServerChoice Privacy Upstream UpstreamSpec TrustAnchor Validate.

Open Scope Z_scope.

(** ** Names on the way down *)

Lemma equalName_refl a : equalName a a = true.
Proof. unfold equalName, EqualFold. by apply bool_decide_eq_true. Qed.

Lemma subdomain_refl a : isSubdomainOrEqual a a = true.
Proof. by apply isSubdomainOrEqual_suffix. Qed.

Lemma subdomain_trans a b c :
  isSubdomainOrEqual a b = true -> isSubdomainOrEqual b c = true -> isSubdomainOrEqual a c = true.
Proof. rewrite !isSubdomainOrEqual_suffix. intros. by etrans. Qed.

Lemma labels_full_subdomain qname zone :
  labels_full qname -> isSubdomainOrEqual qname zone = true -> labels_full zone.
Proof.
  unfold labels_full. rewrite isSubdomainOrEqual_suffix. change splitName with labelsOf. intros Hf [pre E].
  apply Forall_forall. intros l Hl ->.
  assert (Hin : ToLower [] ∈ map ToLower (labelsOf qname)).
  { rewrite E. apply elem_of_app. right. by apply list_elem_of_fmap_2. }
  apply list_elem_of_fmap in Hin as (l' & E' & Hin'). symmetry in E'.
  change (ToLower []) with (@nil Z) in E'. apply ToLower_nil_iff in E' as ->.
  rewrite Forall_forall in Hf. by apply (Hf [] Hin').
Qed.

(** The next zone on the way from [zone] down to [to]. *)
Lemma minimized_between to zone :
  labels_full to -> isSubdomainOrEqual to zone = true ->
  isSubdomainOrEqual (minimizedQName to zone) zone = true /\
  isSubdomainOrEqual to (minimizedQName to zone) = true.
Proof.
  intros Hf Hsub. unfold minimizedQName. case_bool_decide as H; [split; [done|apply subdomain_refl]|].
  set (k := (length (labelsOf to) - length (labelsOf zone) - 1)%nat).
  assert (Hk : (k < length (labelsOf to))%nat) by lia. split; [|by apply tail_subdomain].
  apply isSubdomainOrEqual_suffix. apply isSubdomainOrEqual_suffix in Hsub as [pre E].
  change splitName with labelsOf in E |- *. rewrite labelsOf_tail by done. rewrite <-skipn_map, E.
  assert (Hpre : (length pre = length (labelsOf to) - length (labelsOf zone))%nat).
  { apply (f_equal length) in E. rewrite length_app, !length_map in E. lia. }
  exists (drop k pre). rewrite drop_app_le; [done|lia].
Qed.

Lemma minimized_last to zone :
  labels_full to -> (length (labelsOf to) <= S (length (labelsOf zone)))%nat ->
  equalName (minimizedQName to zone) to = true.
Proof.
  intros Hf Hl. unfold minimizedQName. case_bool_decide as H; [apply equalName_refl|].
  replace (length (labelsOf to) - length (labelsOf zone) - 1)%nat with 0%nat by lia. rewrite drop_0.
  unfold equalName. rewrite trim_dot_Join; [|done|rewrite labelsOf_splitName; apply splitName_no_sep].
  rewrite labelsOf_splitName, Join_splitName. unfold EqualFold. by apply bool_decide_eq_true.
Qed.

Lemma proper_labels to zone : isProperSubdomain to zone = true -> labelsOf to <> [].
Proof.
  unfold isProperSubdomain. intros [Hne Hsub]%andb_true_iff Hto.
  apply isSubdomainOrEqual_suffix in Hsub. change splitName with labelsOf in Hsub. rewrite Hto in Hsub.
  apply suffix_nil_inv, map_eq_nil in Hsub. unfold labelsOf in Hto, Hsub.
  assert (Hnil : forall s, (if bool_decide (trim_dot s = []) then [] else Split dot (trim_dot s)) = [] ->
    trim_dot s = []).
  { intros s Hs. case_bool_decide; [done|]. by apply Split_not_nil in Hs. }
  apply Hnil in Hto, Hsub. unfold equalName in Hne. rewrite Hto, Hsub in Hne. done.
Qed.

Section chain.
Context `{Crypto} (anchors : list DS).

(** ** The chain of trust *)

(** Records that pass [VerifyRRSet] under one of the keys. *)
Definition signed_set (keys : list DNSKEY) (rrset : list RR) : Prop :=
  exists sig key t, key ∈ keys /\ VerifyRRSet rrset sig key t = Ok tt.

Definition signed_records (keys : list DNSKEY) (records : list RR) : Prop :=
  Forall (fun rr => exists rrset, rr ∈ rrset /\ signed_set keys rrset) records.

(** A key set one of whose keys is vouched for by a DS record and signs the set. *)
Definition vouched (zone : gostring) (ds : list DS) (keys : list DNSKEY) : Prop :=
  exists keySet key d, keys = omap AsDNSKEY keySet /\ key ∈ keys /\ d ∈ ds /\
    VerifyDS zone key d = Ok tt /\ signed_set [key] keySet.

(** From the trust anchors, cut by cut: the parent's keys sign the DS records that
    vouch for the child's. *)
Inductive chain : gostring -> list DNSKEY -> Prop :=
  | chain_root keys : vouched [dot] anchors keys -> chain [dot] keys
  | chain_cut parent pkeys zone dsSet keys :
      chain parent pkeys -> isSubdomainOrEqual zone parent = true ->
      signed_set pkeys dsSet -> Forall (fun rr => of_type TypeDS zone rr = true) dsSet ->
      vouched zone (omap AsDS dsSet) keys -> chain zone keys
  | chain_same zone zone' keys :
      chain zone keys -> normalizeZone zone = normalizeZone zone' \/ equalName zone zone' = true ->
      chain zone' keys.

(** A DS record or key set that some check could not read for its algorithm. *)
Definition unsupported_zone (zone : gostring) (ds : list DS) : Prop :=
  exists key d, d ∈ ds /\
    (VerifyDS zone key d = Err ErrUnsupportedAlgorithm \/
     VerifyDS zone key d = Ok tt /\ exists keySet sig t,
       VerifyRRSet keySet sig key t = Err ErrUnsupportedAlgorithm).

(** A proof accepted, or in a form that cannot be checked. *)
Definition shown (x : result denial_error unit) : Prop :=
  x = Ok tt \/ exists e, x = Err e /\ unreadable e = true.

(** What ends the chain: a signed proof that there is no DS record, or signed DS
    records of algorithms that cannot be checked; and everything below. *)
Inductive unsigned : gostring -> Prop :=
  | unsigned_no_ds parent keys zone nsecs :
      chain parent keys -> isSubdomainOrEqual zone parent = true -> signed_records keys nsecs ->
      shown (ProveNoDS nsecs zone) -> unsigned zone
  | unsigned_algorithm parent keys zone dsSet :
      chain parent keys -> isSubdomainOrEqual zone parent = true -> signed_set keys dsSet ->
      Forall (fun rr => of_type TypeDS zone rr = true) dsSet ->
      unsupported_zone zone (omap AsDS dsSet) -> unsigned zone
  | unsigned_below zone zone' :
      unsigned zone -> isSubdomainOrEqual zone' zone = true -> unsigned zone'.

(** An answer record that was verified when [asked] was: a set it belongs to
    carries a signature by a key of the chain down to a zone above [asked]; a set
    expanded from a wildcard comes with signed proof that the name has nothing of
    its own. *)
Definition authentic (asked : gostring) (rr : RR) : Prop :=
  exists zone keys rrset sig key t, chain zone keys /\ isSubdomainOrEqual asked zone = true /\
    rr ∈ rrset /\ key ∈ keys /\ VerifyRRSet rrset sig key t = Ok tt /\
    (IsWildcardExpansion (rr_Name rr) sig = true -> exists nsecs owner,
       signed_records keys nsecs /\ equalName (rr_Name rr) owner = true /\
       ProveNoCloserMatch nsecs owner = Ok tt).

(** A denial that was verified when [asked] was. *)
Definition denied (asked : gostring) (prove : list RR -> result denial_error unit) : Prop :=
  exists zone keys nsecs, chain zone keys /\ isSubdomainOrEqual asked zone = true /\
    signed_records keys nsecs /\ prove nsecs = Ok tt.

(** The proofs of non-existence a response may owe. *)
Inductive denial_proof : (list RR -> result denial_error unit) -> Prop :=
  | proof_name qname : denial_proof (fun nsecs => ProveNameError nsecs qname)
  | proof_data qname qtype : denial_proof (fun nsecs => ProveNoData nsecs qname qtype)
  | proof_closer qname : denial_proof (fun nsecs => ProveNoCloserMatch nsecs qname).

(** Why data about [asked] may be passed on unvalidated: it lies in a provably
    unsigned zone, or in a secure one whose signature or signed proof is of a kind
    that cannot be checked. *)
Inductive excuse (asked : gostring) : Prop :=
  | excuse_unsigned zone : unsigned zone -> isSubdomainOrEqual asked zone = true -> excuse asked
  | excuse_algorithm zone keys rrset sig key t :
      chain zone keys -> isSubdomainOrEqual asked zone = true -> key ∈ keys ->
      VerifyRRSet rrset sig key t = Err ErrUnsupportedAlgorithm -> excuse asked
  | excuse_denial zone keys nsecs prove e :
      chain zone keys -> isSubdomainOrEqual asked zone = true -> denial_proof prove ->
      signed_records keys nsecs -> prove nsecs = Err e -> unreadable e = true -> excuse asked.

(** ** Verified record sets *)

Lemma try_pairs_ok rrset now pairs : forall unsupported lastErr sig,
  try_pairs rrset now pairs unsupported lastErr = Ok sig ->
  exists key, (sig, key) ∈ pairs /\ VerifyRRSet rrset sig key (unix now) = Ok tt.
Proof.
  induction pairs as [|[s k] pairs IH]; intros u e sig; cbn [try_pairs]; [done|].
  destruct (VerifyRRSet rrset s k (unix now)) as [[]|e'] eqn:E.
  - intros [= <-]. exists k. split; [by left|done].
  - intros (key & Hin & Hv)%IH. exists key. split; [by right|done].
Qed.

Lemma try_pairs_unsupported rrset now pairs : forall lastErr,
  lastErr <> ErrUnsupportedAlgorithm ->
  forall unsupported, try_pairs rrset now pairs unsupported lastErr = Err (VSig ErrUnsupportedAlgorithm) ->
  unsupported = true \/ exists sig key, (sig, key) ∈ pairs /\
    VerifyRRSet rrset sig key (unix now) = Err ErrUnsupportedAlgorithm.
Proof.
  induction pairs as [|[s k] pairs IH]; intros e He u; cbn [try_pairs].
  { destruct u; [by left|]. by intros [= ->]. }
  destruct (VerifyRRSet rrset s k (unix now)) as [[]|e'] eqn:E; [done|].
  intros Ht. destruct (decide (e' = ErrUnsupportedAlgorithm)) as [->|Hne].
  { right. exists s, k. split; [by left|done]. }
  apply IH in Ht as [Hu|(sig & key & Hin & Hv)].
  - left. unfold is_unsupported in Hu. rewrite bool_decide_false, orb_false_r in Hu by done. done.
  - right. exists sig, key. split; [by right|done].
  - done.
Qed.

Lemma verifyRRSet_ok rrset section keys now sig :
  verifyRRSetWithKeys rrset section keys now = Ok sig ->
  exists key, key ∈ keys /\ VerifyRRSet rrset sig key (unix now) = Ok tt.
Proof.
  unfold verifyRRSetWithKeys. destruct rrset as [|rr rrset]; [done|].
  case_bool_decide; [done|]. case_bool_decide; [done|].
  intros (key & Hin & Hv)%try_pairs_ok. exists key. split; [|done].
  apply list_elem_of_bind in Hin as (s & Hin & _).
  apply list_elem_of_fmap in Hin as (k & [= <- <-] & Hin). done.
Qed.

Lemma verifyRRSet_signed rrset section keys now sig :
  verifyRRSetWithKeys rrset section keys now = Ok sig -> signed_set keys rrset.
Proof. intros (key & Hin & Hv)%verifyRRSet_ok. by exists sig, key, (unix now). Qed.

Lemma verifyRRSet_unsupported rrset section keys now :
  verifyRRSetWithKeys rrset section keys now = Err (VSig ErrUnsupportedAlgorithm) ->
  exists sig key, key ∈ keys /\ VerifyRRSet rrset sig key (unix now) = Err ErrUnsupportedAlgorithm.
Proof.
  unfold verifyRRSetWithKeys. destruct rrset as [|rr rrset]; [done|].
  case_bool_decide; [done|]. case_bool_decide; [done|].
  intros [?|(sig & key & Hin & Hv)]%try_pairs_unsupported; [done| |done].
  exists sig, key. split; [|done]. apply list_elem_of_bind in Hin as (s & Hin & _).
  apply list_elem_of_fmap in Hin as (k & [= <- <-] & Hin). done.
Qed.

(** Only signed denial records are ever looked at. *)
Lemma verified_loop_signed todo section keys now : forall checked,
  signed_records keys (verified_loop todo section keys now checked).
Proof.
  induction todo as [|rr todo IH]; intros checked; cbn [verified_loop]; [constructor|].
  destruct (_ && _); [done|]. cbn zeta. case_bool_decide; [done|].
  destruct (verifyRRSet _ _ _ _) as [sig|] eqn:E; [|done].
  apply Forall_app. split; [|apply IH]. apply Forall_forall. intros x Hx.
  exists (recordsOfType section (rr_Type rr) (rr_Name rr)). split; [done|].
  by eapply verifyRRSet_signed.
Qed.

Lemma verifiedNSECs_signed section keys now : signed_records keys (verifiedNSECs section keys now).
Proof. apply verified_loop_signed. Qed.

Lemma vouched_not_nil zone ds keys : vouched zone ds keys -> keys <> [].
Proof. intros (keySet & key & d & _ & Hin & _) ->. by apply elem_of_nil in Hin. Qed.

Lemma chain_not_nil zone keys : chain zone keys -> keys <> [].
Proof. induction 1; [by eapply vouched_not_nil..|done]. Qed.

(** Without keys nothing is signed, and nothing is proven. *)
Lemma signed_records_nil records : signed_records [] records -> records = [].
Proof.
  intros Hs. destruct records as [|rr records]; [done|]. apply Forall_inv in Hs.
  destruct Hs as (rrset & _ & sig & key & t & Hin & _). by apply elem_of_nil in Hin.
Qed.

Lemma denial_proof_nil prove : denial_proof prove -> prove [] = Err ErrNoDenial.
Proof. by intros []. Qed.

(** ** Denials *)

Context `{Env} (r : Resolver).

(** What the walk may believe of the zone it is in: the keys of a secure zone come
    from the chain - or are none, when the root's cannot be checked - and, when
    validation is on, an insecure zone is an unsigned one. *)
Definition sec_sound (validating : bool) (zone : gostring) (sec : secState) : Prop :=
  if ss_secure sec then ss_keys sec = [] \/ chain zone (ss_keys sec)
  else validating = true -> unsigned zone.

Lemma checkDenial_spec sec section prove now b :
  checkDenial r sec section prove now = Ok b ->
  (r_validate r = false \/ ss_secure sec = false) /\ b = false \/
  ss_secure sec = true /\ exists nsecs, signed_records (ss_keys sec) nsecs /\
    (b = true /\ prove nsecs = Ok tt \/
     b = false /\ exists e, prove nsecs = Err e /\ unreadable e = true).
Proof.
  unfold checkDenial. destruct (r_validate r); [|intros [= <-]; auto].
  destruct (ss_secure sec); [|intros [= <-]; auto].
  cbn [negb orb]. intros Hc. right. split; [done|]. exists (verifiedNSECs section (ss_keys sec) now).
  split; [apply verifiedNSECs_signed|].
  destruct (prove _) as [[]|e]; [left; naive_solver|].
  destruct (unreadable e) eqn:He; [right; naive_solver|done].
Qed.

(** A denial that is accepted is proven by signed records, or there is an excuse. *)
Lemma checkDenial_sound v asked zone sec section prove now b :
  isSubdomainOrEqual asked zone = true -> sec_sound v zone sec -> (v = true -> r_validate r = true) -> denial_proof prove ->
  checkDenial r sec section prove now = Ok b ->
  (b = true -> denied asked prove) /\ (b = false -> v = true -> excuse asked).
Proof.
  intros Habove Hsec Hv Hp Hc. unfold sec_sound in Hsec.
  apply checkDenial_spec in Hc as [[Hoff ->]|(Hs & nsecs & Hsig & Hb)].
  { split; [done|]. intros _ Hv'. destruct Hoff as [Hr|Hs]; [by rewrite Hv in Hr|].
    rewrite Hs in Hsec. eapply excuse_unsigned; [by apply Hsec|done]. }
  rewrite Hs in Hsec. destruct Hsec as [Hnil|Hchain].
  { rewrite Hnil in Hsig. apply signed_records_nil in Hsig as ->. rewrite (denial_proof_nil _ Hp) in Hb.
    by destruct Hb as [[_ ?]|(_ & e & [= <-] & ?)]. }
  destruct Hb as [[-> Hok]|(-> & e & He & Hu)]; (split; [|done]) || (split; [done|]).
  - intros _. by exists zone, (ss_keys sec), nsecs.
  - intros _ _. by eapply excuse_denial.
Qed.

(** ** Answers *)

Definition answer_key (rr : RR) : gostring * Z := (normalizeName (rr_Name rr), rr_Type rr).

Definition ascii_names (records : list RR) : Prop := Forall (fun rr => is_ascii (rr_Name rr) = true) records.

Lemma normalizeName_equal a b :
  is_ascii a = true -> is_ascii b = true -> equalName a b = true <-> normalizeName a = normalizeName b.
Proof.
  intros Ha Hb. rewrite equalName_ascii, bool_decide_eq_true by done. apply key_eq_iff.
Qed.

Lemma wildcard_same_name a b sig :
  normalizeName a = normalizeName b -> IsWildcardExpansion a sig = IsWildcardExpansion b sig.
Proof.
  intros E. apply key_eq_iff in E. unfold IsWildcardExpansion. rewrite !key_map in E.
  apply (f_equal length) in E. rewrite !length_reverse, !length_map in E. by rewrite E.
Qed.

(** A set that verified vouches for every record of the response with its key. *)
Lemma verified_set_authentic asked records sec section now rr sig :
  verifyRRSet (recordsOfType records (rr_Type rr) (rr_Name rr)) section (ss_keys sec) now = Ok sig ->
  rr ∈ records -> ascii_names records -> Forall (fun rr => rr_Class rr = ClassIN) records ->
  (ss_keys sec = [] \/ exists zone, chain zone (ss_keys sec) /\ isSubdomainOrEqual asked zone = true) ->
  (IsWildcardExpansion (rr_Name rr) sig = true -> exists nsecs, signed_records (ss_keys sec) nsecs /\
     ProveNoCloserMatch nsecs (rr_Name rr) = Ok tt) ->
  forall rr', rr' ∈ records -> answer_key rr' = answer_key rr -> authentic asked rr'.
Proof.
  intros Ev Hrr Hasc Hcl Hk Hw rr' Hin' [= Hname Htype].
  apply verifyRRSet_ok in Ev as (key & Hkey & Hv).
  destruct Hk as [Hnil|(zone & Hzone & Habove)]; [rewrite Hnil in Hkey; by apply elem_of_nil in Hkey|].
  unfold ascii_names in Hasc. rewrite Forall_forall in Hasc, Hcl.
  assert (Heq : equalName (rr_Name rr') (rr_Name rr) = true)
    by (apply normalizeName_equal; [by apply Hasc..|done]).
  exists zone, (ss_keys sec), (recordsOfType records (rr_Type rr) (rr_Name rr)), sig, key, (unix now).
  split_and!; [done|done| |done|done|].
  - apply list_elem_of_filter. split; [|done]. unfold of_type.
    by rewrite Htype, (Hcl _ Hin'), Heq, !Z.eqb_refl.
  - rewrite (wildcard_same_name _ _ _ Hname). intros (nsecs & ? & ?)%Hw. eauto.
Qed.

Lemma answer_loop_spec asked todo : forall records sec resp now seen b,
  Forall (fun rr => rr ∈ records) todo ->
  answer_loop r todo records sec resp now seen = Ok b -> ss_secure sec = true ->
  (b = true -> ascii_names records -> Forall (fun rr => rr_Class rr = ClassIN) records ->
    (ss_keys sec = [] \/ exists zone, chain zone (ss_keys sec) /\ isSubdomainOrEqual asked zone = true) ->
    (forall rr, rr ∈ records -> answer_key rr ∈ seen -> authentic asked rr) ->
    Forall (authentic asked) todo) /\
  (b = false ->
    (exists rrset sig key t, key ∈ ss_keys sec /\ VerifyRRSet rrset sig key t = Err ErrUnsupportedAlgorithm) \/
    exists prove, denial_proof prove /\ checkDenial r sec (m_Authorities resp) prove now = Ok false).
Proof.
  induction todo as [|rr todo IH]; intros records sec resp now seen b Hin; cbn [answer_loop].
  { intros [= <-] _. split; [|done]. intros _ _ _ _ _. constructor. }
  apply Forall_cons in Hin as [Hrr Hin]. fold (answer_key rr). cbn zeta.
  case_bool_decide as Hseen.
  { intros Ha Hs. destruct (IH _ _ _ _ _ _ Hin Ha Hs) as [H1 H2]. split; [|done].
    intros Hb Hasc Hcl Hk Hold. constructor; [by apply Hold|by apply H1]. }
  destruct (verifyRRSet _ _ _ _) as [sig|e] eqn:Ev.
  2: { intros Ha Hs. assert (e = VSig ErrUnsupportedAlgorithm /\ b = false) as [-> ->].
       { destruct e as [| | |[]]; naive_solver. }
       split; [done|]. intros _. left. apply verifyRRSet_unsupported in Ev as (sig & key & ? & ?). eauto 10. }
  assert (Hgo : (IsWildcardExpansion (rr_Name rr) sig = true -> exists nsecs,
      signed_records (ss_keys sec) nsecs /\ ProveNoCloserMatch nsecs (rr_Name rr) = Ok tt) ->
    answer_loop r todo records sec resp now ({[answer_key rr]} ∪ seen) = Ok b -> ss_secure sec = true ->
    (b = true -> ascii_names records -> Forall (fun rr => rr_Class rr = ClassIN) records ->
      (ss_keys sec = [] \/ exists zone, chain zone (ss_keys sec) /\ isSubdomainOrEqual asked zone = true) ->
      (forall rr, rr ∈ records -> answer_key rr ∈ seen -> authentic asked rr) ->
      Forall (authentic asked) (rr :: todo)) /\
    (b = false ->
      (exists rrset sig key t, key ∈ ss_keys sec /\ VerifyRRSet rrset sig key t = Err ErrUnsupportedAlgorithm) \/
      exists prove, denial_proof prove /\ checkDenial r sec (m_Authorities resp) prove now = Ok false)).
  { intros Hw Ha Hs. destruct (IH _ _ _ _ _ _ Hin Ha Hs) as [H1 H2]. split; [|done].
    intros Hb Hasc Hcl Hk Hold. pose proof (verified_set_authentic asked records sec _ now rr sig Ev Hrr Hasc Hcl Hk Hw) as Hall.
    constructor; [by apply Hall|]. apply H1; [done..|].
    intros rr' Hin' [Hk'%elem_of_singleton|?]%elem_of_union; [by apply Hall|by apply Hold]. }
  destruct (IsWildcardExpansion (rr_Name rr) sig) eqn:Ew; [|by apply Hgo].
  destruct (checkDenial _ _ _ _ _) as [[]|] eqn:Ed; [| |done].
  - apply Hgo. intros _.
    apply checkDenial_spec in Ed as [[_ ?]|(_ & nsecs & ? & [[_ ?]|[? _]])]; [done|eauto|done].
  - intros [= <-] Hs. split; [done|]. intros _. right. eexists. split; [apply proof_closer|exact Ed].
Qed.

(** An answer accepted as secure is authentic; one accepted as not secure has an
    excuse. *)
Lemma validateAnswer_sound v asked zone sec resp records now b :
  isSubdomainOrEqual asked zone = true -> sec_sound v zone sec -> (v = true -> r_validate r = true) -> records <> [] ->
  validateAnswer r sec resp records now = Ok b ->
  (b = true -> ascii_names records -> Forall (fun rr => rr_Class rr = ClassIN) records ->
    Forall (authentic asked) records) /\
  (b = false -> v = true -> excuse asked).
Proof.
  intros Habove Hsec Hv Hne. unfold validateAnswer, sec_sound in *. rewrite (bool_decide_false (records = [])) by done.
  rewrite orb_false_r. destruct (ss_secure sec) eqn:Es.
  2: { rewrite orb_true_r. intros [= <-]. split; [done|]. intros _ Hv'. eapply excuse_unsigned; [by apply Hsec|done]. }
  rewrite orb_false_r. destruct (r_validate r) eqn:Er; cbn [negb].
  2: { intros [= <-]. split; [done|]. intros _ Hv'. by apply Hv in Hv'. }
  intros Ha. destruct (answer_loop_spec asked records records sec resp now ∅ b) as [H1 H2]; [|done..|].
  { by apply Forall_forall. }
  split.
  - intros Hb Hasc Hcl. apply H1; [done..| |].
    + destruct Hsec as [?|Hc]; [by left|right; by exists zone].
    + intros rr _ Hseen. by apply elem_of_empty in Hseen.
  - intros Hb _. destruct (H2 Hb) as [(rrset & sig & key & t & Hkey & Hu)|(prove & Hp & Hd)].
    + destruct Hsec as [Hnil|Hc]; [rewrite Hnil in Hkey; by apply elem_of_nil in Hkey|].
      by eapply excuse_algorithm.
    + eapply (checkDenial_sound true asked zone sec) in Hd as [_ Hd]; [by apply Hd|done| |done|done].
      unfold sec_sound. by rewrite Es.
Qed.
End chain.

(** ** Zone keys *)

Section zone_keys.
Context `{Crypto} `{Env} (r : Resolver).

Abbreviation chain_of := (chain (trustAnchors r)).
Abbreviation unsigned_zone := (unsigned (trustAnchors r)).
Abbreviation sound := (sec_sound (trustAnchors r)).

(** An invariant of everything validation does: it holds across network code, and
    the key cache only holds keys of the chain. *)
Record walk_invariant (I : world -> Prop) : Prop := {
  wi_net : net_invariant r (fun s => allowsUpstream r s = true) I;
  wi_keys : forall w t zone keys, I w -> keys_get (w_keys w) t zone = Some keys -> chain_of zone keys;
  wi_keys_put : forall w t zone keys ttl, I w -> chain_of zone keys ->
    I (set_keys (keys_put (w_keys w) t zone keys ttl) w) }.

Context (I : world -> Prop) (HI : walk_invariant I) (Henv : env_ok).

Definition validate_error (e : resolve_error) : Prop := e = ErrBogus \/ server_error e.

Lemma inv_ask servers qname qtype E :
  (forall e, server_error e -> E e) ->
  inv I (queryServers r servers qname qtype) (served r servers qname qtype) E.
Proof.
  intros HE. eapply inv_mono; [apply (inv_queryServers r _ I (wi_net I HI) Henv)|done|done]. done.
Qed.

Lemma vouched_loop_ok zone keySet section now pairs : forall u b u',
  vouched_loop zone keySet section now pairs u = (b, u') ->
  (b = true -> exists key d, (key, d) ∈ pairs /\ VerifyDS zone key d = Ok tt /\ signed_set [key] keySet) /\
  (b = false -> u' = true -> u = false -> exists key d, (key, d) ∈ pairs /\
    (VerifyDS zone key d = Err ErrUnsupportedAlgorithm \/
     VerifyDS zone key d = Ok tt /\ exists sig t, VerifyRRSet keySet sig key t = Err ErrUnsupportedAlgorithm)).
Proof.
  induction pairs as [|[key d] pairs IH]; intros u b u'; cbn [vouched_loop].
  { intros [= <- <-]. split; congruence. }
  assert (Hgo : forall u0, (u0 = true -> u = false -> VerifyDS zone key d = Err ErrUnsupportedAlgorithm \/
      VerifyDS zone key d = Ok tt /\ exists sig t, VerifyRRSet keySet sig key t = Err ErrUnsupportedAlgorithm) ->
    vouched_loop zone keySet section now pairs u0 = (b, u') ->
    (b = true -> exists k d0, (k, d0) ∈ (key, d) :: pairs /\ VerifyDS zone k d0 = Ok tt /\ signed_set [k] keySet) /\
    (b = false -> u' = true -> u = false -> exists k d0, (k, d0) ∈ (key, d) :: pairs /\
      (VerifyDS zone k d0 = Err ErrUnsupportedAlgorithm \/
       VerifyDS zone k d0 = Ok tt /\ exists sig t, VerifyRRSet keySet sig k t = Err ErrUnsupportedAlgorithm))).
  { intros u0 Hu0 [H1 H2]%IH. split.
    - intros (k & d0 & ? & ?)%H1. exists k, d0. split; [by right|done].
    - intros Hb Hu' Hu. destruct u0; [exists key, d; split; [by left|auto]|].
      destruct (H2 Hb Hu' eq_refl) as (k & d0 & ? & ?). exists k, d0. split; [by right|done]. }
  destruct (VerifyDS zone key d) as [[]|e] eqn:Ed.
  - destruct (verifyRRSetWithKeys keySet section [key] now) as [sig|e] eqn:Ev.
    + intros [= <- <-]. split; [|done]. intros _. exists key, d.
      split_and!; [by left|done|by eapply verifyRRSet_signed].
    + destruct e as [| | |[]]; try (apply Hgo; congruence).
      apply Hgo. intros _ _. right. split; [done|].
      apply verifyRRSet_unsupported in Ev as (sig & k & ->%list_elem_of_singleton & Hv). eauto.
  - apply Hgo. intros Hu ->. cbn [orb] in Hu. left. unfold is_unsupported in Hu.
    case_bool_decide; [by subst|done].
Qed.

Lemma inv_zoneKeys zone servers ds :
  (forall keys, vouched zone ds keys -> chain_of zone keys) ->
  inv I (zoneKeys r zone servers ds)
    (fun keys => chain_of zone keys \/ keys = [] /\ unsupported_zone zone ds) validate_error.
Proof.
  intros Hvouched. unfold zoneKeys.
  eapply (inv_bind _ _ _ (fun c => forall keys, c = Some keys -> chain_of zone keys)).
  { apply inv_gets. intros w Hw keys. by apply (wi_keys I HI). }
  intros [keys|] Hc; [apply inv_ret; left; by apply Hc|].
  eapply inv_bind; [apply inv_ask; by right|]. intros [resp s] _.
  cbn zeta. case_bool_decide as Hne; [apply inv_throw; by left|].
  eapply inv_bind; [apply inv_now|]. intros t' _.
  set (keySet := recordsOfType (m_Answers resp) TypeDNSKEY zone) in *.
  destruct (vouched_loop _ _ _ _ _ _) as [verified unsupported] eqn:El.
  apply vouched_loop_ok in El as [H1 H2].
  assert (Hin : forall key d, (key, d) ∈ (omap AsDNSKEY keySet ≫= fun key => map (pair key) ds) ->
    key ∈ omap AsDNSKEY keySet /\ d ∈ ds).
  { intros key d Hkd. apply list_elem_of_bind in Hkd as (k & Hkd & Hk).
    apply list_elem_of_fmap in Hkd as (d' & [= -> ->] & Hd). done. }
  destruct verified.
  - destruct (H1 eq_refl) as (key & d & Hkd & Hd & Hs). apply Hin in Hkd as [Hk Hd'].
    assert (Hchain : chain_of zone (omap AsDNSKEY keySet)).
    { apply Hvouched. exists keySet, key, d. split_and!; done. }
    eapply (inv_bind _ _ _ (fun _ => True)).
    + apply inv_update; [|done]. intros w Hw. by apply (wi_keys_put I HI).
    + intros _ _. apply inv_ret. by left.
  - destruct unsupported; [|apply inv_throw; by left]. apply inv_ret. right. split; [done|].
    destruct (H2 eq_refl eq_refl eq_refl) as (key & d & Hkd & Hu). apply Hin in Hkd as [Hk Hd].
    exists key, d. split; [done|]. destruct Hu as [?|(? & sig & t0 & ?)]; [by left|right; eauto].
Qed.

(** ** Crossing a zone cut *)

Lemma sound_chain v zone sec : sound v zone sec -> ss_secure sec = true -> ss_keys sec <> [] ->
  chain_of zone (ss_keys sec).
Proof. unfold sec_sound. intros Hs E. rewrite E in Hs. by destruct Hs. Qed.

Lemma of_type_section section qtype zone :
  Forall (fun rr => of_type qtype zone rr = true) (recordsOfType section qtype zone).
Proof. apply Forall_forall. by intros rr [? _]%list_elem_of_filter. Qed.

Lemma inv_enterZone v pzone parent section zone servers :
  sound v pzone parent -> ss_secure parent = true -> r_validate r = true ->
  isSubdomainOrEqual zone pzone = true ->
  inv I (enterZone r parent section zone servers) (sound true zone) validate_error.
Proof.
  intros Hp Hs Hr Hsub. unfold enterZone.
  eapply inv_bind; [apply inv_now|]. intros t _. cbn zeta.
  case_bool_decide as Hds.
  - destruct (checkDenial _ _ _ _ _) as [b|] eqn:Ed; [|apply inv_throw; by left].
    apply inv_ret. intros _.
    apply checkDenial_spec in Ed as [[[?|?] _]|(_ & nsecs & Hsig & Hb)]; [congruence..|].
    assert (Hkeys : ss_keys parent <> []).
    { intros Hnil. rewrite Hnil in Hsig. apply signed_records_nil in Hsig as ->.
      by destruct Hb as [[_ ?]|(_ & e & [= <-] & ?)]. }
    eapply unsigned_no_ds; [by eapply sound_chain|done|done|].
    destruct Hb as [[_ ?]|[_ ?]]; [by left|by right].
  - destruct (verifyRRSet _ _ _ _) as [sig|] eqn:Ev; [|apply inv_throw; by left].
    apply verifyRRSet_signed in Ev.
    assert (Hkeys : ss_keys parent <> []).
    { intros Hnil. rewrite Hnil in Ev. destruct Ev as (? & key & ? & Hin & _). by apply elem_of_nil in Hin. }
    assert (Hchain : chain_of pzone (ss_keys parent)) by by eapply sound_chain.
    eapply inv_bind.
    { apply inv_zoneKeys. intros keys Hv. by eapply chain_cut; [..|apply of_type_section|]. }
    intros keys Hkeys'. case_bool_decide as Hnil.
    + apply inv_ret. intros _. destruct Hkeys' as [Hc%chain_not_nil|[_ Hu]]; [done|].
      by eapply unsigned_algorithm; [..|apply of_type_section|].
    + apply inv_ret. destruct Hkeys' as [Hc|[? _]]; [by right|done].
Qed.

Lemma inv_fetchDelegation v pzone parent zone servers :
  sound v pzone parent -> ss_secure parent = true -> r_validate r = true ->
  isSubdomainOrEqual zone pzone = true ->
  inv I (fetchDelegation r parent zone servers) (sound true zone) validate_error.
Proof.
  intros. unfold fetchDelegation. eapply inv_bind; [apply inv_ask; by right|]. intros [resp s] _.
  by eapply inv_enterZone.
Qed.

(** [descendTo] ends, after at most one round for each label of the signer. *)
Lemma inv_descend to servers : labels_full to -> r_validate r = true -> forall fuel v zone sec,
  sound v zone sec -> ss_secure sec = true -> isSubdomainOrEqual to zone = true ->
  (equalName zone to = true \/ (length (labelsOf to) - length (labelsOf zone) <= fuel /\ 1 <= fuel)%nat) ->
  inv I (descend r fuel sec zone to servers) (sound true to) validate_error.
Proof.
  intros Hf Hr. induction fuel as [|fuel IH]; intros v zone sec Hsec Hs Hsub Hfuel; cbn [descend];
    destruct (equalName zone to) eqn:Eq.
  1, 3: apply inv_ret; unfold sec_sound in *; rewrite Hs in *; destruct Hsec as [?|Hc]; [by left|right];
    by eapply chain_same; [|right].
  { destruct Hfuel as [?|[_ ?]]; [done|lia]. }
  destruct Hfuel as [?|[Hfuel _]]; [done|]. destruct (minimized_between to zone Hf Hsub) as [H1 H2].
  eapply inv_bind; [by eapply inv_fetchDelegation|]. intros next Hnext.
  destruct (ss_secure next) eqn:En; cbn [negb].
  - eapply (IH true); [done..|].
    destruct (decide (length (labelsOf to) <= S (length (labelsOf zone)))%nat) as [Hl|Hl].
    + left. by apply minimized_last.
    + right. destruct (minimizedQName_tail to zone Hf) as (_ & Hm & _).
      destruct Hm as [_ Hm]; [lia|]. rewrite Hm. lia.
  - apply inv_ret. intros _. unfold sec_sound in Hnext. rewrite En in Hnext.
    eapply unsigned_below; [by apply Hnext|done].
Qed.

Lemma inv_descendTo v from to sec servers :
  labels_full to -> r_validate r = true -> sound v from sec -> ss_secure sec = true ->
  isProperSubdomain to from = true ->
  inv I (descendTo r sec from to servers) (sound true to) validate_error.
Proof.
  intros Hf Hr Hsec Hs Hp. unfold descendTo. eapply inv_descend; [done..| |].
  - by apply andb_true_iff in Hp as [_ ?].
  - right. split; [lia|]. apply proper_labels in Hp. destruct (labelsOf to); [done|]. simpl. lia.
Qed.

(** ** Where a walk starts *)

Lemma inv_rootState servers :
  inv I (rootState r servers)
    (fun sec => ss_secure sec = true /\ (ss_keys sec = [] \/ chain_of [dot] (ss_keys sec))) validate_error.
Proof.
  unfold rootState. eapply inv_bind; [apply inv_zoneKeys; apply chain_root|].
  intros keys Hk. apply inv_ret. split; [done|]. destruct Hk as [?|[? _]]; auto.
Qed.

Lemma normalizeName_root zone : normalizeName zone = [] -> normalizeZone [dot] = normalizeZone zone.
Proof. by intros E. Qed.

(** The root is never taken for an unsigned zone. *)
Lemma inv_startingSecurity checkingDisabled zone servers :
  inv I (startingSecurity r checkingDisabled zone servers)
    (fun sec => sound false zone sec /\
       (r_validate r && negb checkingDisabled = true -> normalizeName zone = [] -> ss_secure sec = true) /\
       (ss_secure sec = true -> r_validate r && negb checkingDisabled = true))
    validate_error.
Proof.
  unfold startingSecurity. destruct (negb (r_validate r) || checkingDisabled) eqn:Ev.
  { apply inv_ret. split_and!; [by intros ?| |done]. destruct (r_validate r), checkingDisabled; done. }
  assert (Hon : r_validate r && negb checkingDisabled = true) by (destruct (r_validate r), checkingDisabled; done).
  case_bool_decide as Hroot.
  - eapply inv_weaken; [apply inv_rootState|]. intros sec [Hs Hk]. split_and!; [|done|done].
    unfold sec_sound. rewrite Hs. destruct Hk as [?|?]; [by left|right].
    eapply chain_same; [done|]. left. by apply normalizeName_root.
  - eapply (inv_bind _ _ _ (fun c => forall keys, c = Some keys -> chain_of zone keys)).
    { apply inv_gets. intros w Hw keys. by apply (wi_keys I HI). }
    intros [keys|] Hc; apply inv_ret.
    + split_and!; [right; by apply Hc|done|done].
    + split_and!; [by intros ?|done|done].
Qed.
End zone_keys.
