(* ===== verification/Resolve.v ===== *)
(** The iterative resolver ([resolver/resolver.go], lines 20-530, with
    [roothints.go] and [priming.go]): where a resolution starts, the walk from
    referral to referral, CNAME chains, glue, and what is remembered. *)

From stdpp Require Import strings.
From S2P Require Import Prelude Prog GoUnicode GoStrings GoNet DnsMsg Encoder Decoder DnssecRecords DnssecNames Verify Denial DelegationCache ServerChoice Privacy Upstream TrustAnchor Validate.

Open Scope Z_scope.

(** ** Root servers *)

(** A hint, its IPv6 address as eight groups. *)
Record rootServer := MkRootServer { rs_name : gostring; rs_v4 : list Z; rs_v6 : list Z }.

Definition rootHints : list rootServer := [
  MkRootServer (str "a.root-servers.net"%string) [198; 41; 0; 4] [8193; 1283; 47678; 0; 0; 0; 2; 48];
  MkRootServer (str "b.root-servers.net"%string) [170; 247; 170; 2] [10241; 440; 16; 0; 0; 0; 0; 11];
  MkRootServer (str "c.root-servers.net"%string) [192; 33; 4; 12] [8193; 1280; 2; 0; 0; 0; 0; 12];
  MkRootServer (str "d.root-servers.net"%string) [199; 7; 91; 13] [8193; 1280; 45; 0; 0; 0; 0; 13];
  MkRootServer (str "e.root-servers.net"%string) [192; 203; 230; 10] [8193; 1280; 168; 0; 0; 0; 0; 14];
  MkRootServer (str "f.root-servers.net"%string) [192; 5; 5; 241] [8193; 1280; 47; 0; 0; 0; 0; 15];
  MkRootServer (str "g.root-servers.net"%string) [192; 112; 36; 4] [8193; 1280; 18; 0; 0; 0; 0; 3341];
  MkRootServer (str "h.root-servers.net"%string) [198; 97; 190; 53] [8193; 1280; 1; 0; 0; 0; 0; 83];
  MkRootServer (str "i.root-servers.net"%string) [192; 36; 148; 17] [8193; 2046; 0; 0; 0; 0; 0; 83];
  MkRootServer (str "j.root-servers.net"%string) [192; 58; 128; 30] [8193; 1283; 3111; 0; 0; 0; 2; 48];
  MkRootServer (str "k.root-servers.net"%string) [193; 0; 14; 129] [8193; 2045; 0; 0; 0; 0; 0; 1];
  MkRootServer (str "l.root-servers.net"%string) [199; 7; 83; 42] [8193; 1280; 159; 0; 0; 0; 0; 66];
  MkRootServer (str "m.root-servers.net"%string) [202; 12; 27; 33] [8193; 3523; 0; 0; 0; 0; 0; 53]].

(** [net.ParseIP] gives sixteen bytes for either family. *)
Definition rootHintAddresses : list IP :=
  rootHints ≫= fun s => [Some (v4InV6Prefix ++ rs_v4 s); Some (rs_v6 s ≫= be16)].

Definition RootServers : list IP := rootHintAddresses.

(** ** Results *)

Record Result := MkResult { res_Answers : list RR; res_Authority : list RR; res_Secure : bool }.

Definition is_soa (rr : RR) : bool := (rr_Type rr =? TypeSOA) && bool_decide (rr_SOA rr <> None).

Fixpoint first_soa (authorities : list RR) : option RR :=
  match authorities with
  | [] => None
  | rr :: rest => if is_soa rr then Some rr else first_soa rest
  end.

Definition newNXDOMAINError (qname : gostring) (authorities : list RR) : resolve_error :=
  NXDOMAINError qname (first_soa authorities).

Definition soaAuthority (authorities : list RR) : list RR :=
  match first_soa authorities with Some rr => [rr] | None => [] end.

(** ** Reading a response *)

(** One pass over the answers: the records of the type asked at [name], and the
    last CNAME there. *)
Fixpoint gather (answers : list RR) (name : gostring) (qtype : Z) (found : list RR) (cname : option RR) :
    list RR * option RR :=
  match answers with
  | [] => (found, cname)
  | rr :: answers =>
    if negb (equalName (rr_Name rr) name) || negb (rr_Class rr =? ClassIN)
    then gather answers name qtype found cname
    else if rr_Type rr =? qtype then gather answers name qtype (found ++ [rr]) cname
    else if rr_Type rr =? TypeCNAME then gather answers name qtype found (Some rr)
    else gather answers name qtype found cname
  end.

(** The loop over the CNAMEs of one response: the chain, the final answers and the
    name they are for.  Every round but the last adds a CNAME, and the chain is
    cut at [maxCNAMEChain], so as many rounds are enough. *)
Fixpoint follow_chain (fuel : nat) (cnameDepth : nat) (qtype : Z) (answers : list RR)
    (chain : list RR) (name : gostring) : result resolve_error (list RR * list RR * gostring) :=
  match fuel with
  | O => Err EFuel
  | S fuel =>
    match gather answers name qtype [] None with
    | ([], Some cname) =>
      if bool_decide (maxCNAMEChain <= cnameDepth + length chain + 1)%nat then Err ECNAMEChain
      else follow_chain fuel cnameDepth qtype answers (chain ++ [cname]) (rr_CNAME cname)
    | (found, _) => Ok (chain, found, name)
    end
  end.

(** The delegation in an authority section: its zone, the names of its servers
    and the smallest TTL. *)
Record referral := MkReferral { rf_zone : gostring; rf_ttl : Z; rf_names : gset gostring }.
Definition no_referral : referral := MkReferral [] 0 ∅.

Fixpoint read_referral (qname zone : gostring) (authorities : list RR) (f : referral) : referral :=
  match authorities with
  | [] => f
  | rr :: rest =>
    if negb (rr_Type rr =? TypeNS) || negb (rr_Class rr =? ClassIN) then read_referral qname zone rest f
    else if negb (isSubdomainOrEqual qname (rr_Name rr)) || negb (isProperSubdomain (rr_Name rr) zone)
    then read_referral qname zone rest f
    else
      let first := bool_decide (rf_zone f = []) in
      if negb first && negb (equalName (rr_Name rr) (rf_zone f)) then read_referral qname zone rest f
      else
        let newZone := if first then rr_Name rr else rf_zone f in
        let ttl := if (rf_ttl f =? 0) || (rr_TTL rr <? rf_ttl f) then rr_TTL rr else rf_ttl f in
        read_referral qname zone rest (MkReferral newZone ttl ({[ToLower (rr_NS rr)]} ∪ rf_names f))
  end.

Section resolve.
Context `{Crypto} `{Env} (r : Resolver).

(** The address a record of an additional section gives, if it is one we would
    query. *)
Definition address_of (rr : RR) : option IP :=
  if (rr_Type rr =? TypeA) && bool_decide (rr_A rr <> None) && allowsUpstream r (rr_A rr)
  then Some (rr_A rr)
  else if (rr_Type rr =? TypeAAAA) && bool_decide (rr_AAAA rr <> None) && allowsUpstream r (rr_AAAA rr)
  then Some (rr_AAAA rr)
  else None.

Definition glue_addresses (zone : gostring) (names : gset gostring) (additionals : list RR) : list IP :=
  omap (fun rr =>
    if negb (bool_decide (ToLower (rr_Name rr) ∈ names)) || negb (rr_Class rr =? ClassIN) then None
    else if negb (isSubdomainOrEqual (rr_Name rr) zone) then None
    else address_of rr) additionals.

Definition answer_addresses (answers : list RR) : list IP :=
  omap (fun rr =>
    if (rr_Type rr =? TypeA) && bool_decide (rr_A rr <> None) && allowsUpstream r (rr_A rr)
    then Some (rr_A rr) else None) answers.

(** ** Priming *)

Definition primeInterval : Z := 300.

Definition clampPrimeTTL (ttl : Z) : Z := Z.min (Z.max ttl primeInterval) maxDelegationTTL.

Fixpoint root_names (answers : list RR) (names : gset gostring) (ttl : Z) : gset gostring * Z :=
  match answers with
  | [] => (names, ttl)
  | rr :: rest =>
    if negb (rr_Type rr =? TypeNS) || negb (rr_Class rr =? ClassIN) || negb (equalName (rr_Name rr) [dot])
    then root_names rest names ttl
    else root_names rest ({[normalizeName (rr_NS rr)]} ∪ names)
      (if (ttl =? 0) || (rr_TTL rr <? ttl) then rr_TTL rr else ttl)
  end.

Definition root_addresses (names : gset gostring) (additionals : list RR) : list IP :=
  omap (fun rr =>
    if negb (bool_decide (normalizeName (rr_Name rr) ∈ names)) || negb (rr_Class rr =? ClassIN) then None
    else address_of rr) additionals.

(** Whether to prime now, and whom to ask: the first critical section. *)
Definition prime_turn (w : world) : world * option (list IP) :=
  if wclock w <? w_primedUntil w then (w, None)
  else (set_primed (w_primed w) (wclock w + primeInterval * NanosPerSecond) w, Some (w_primed w)).

Definition primeRootServers : M unit :=
  turn ← locked prime_turn;
  match turn with
  | None => mret tt
  | Some servers =>
    reply ← try (queryServers r (if bool_decide (servers = []) then RootServers else servers) [dot] TypeNS);
    match reply with
    | Err _ => mret tt
    | Ok (resp, _) =>
      let '(names, ttl) := root_names (m_Answers resp) ∅ 0 in
      if bool_decide (names = ∅) then mret tt
      else
        let addrs := root_addresses names (m_Additionals resp) in
        if bool_decide (length addrs < length rootHints)%nat then mret tt
        else update (fun w => set_primed addrs (wclock w + clampPrimeTTL ttl * NanosPerSecond) w)
    end
  end.

Definition primedRoots : M (option (list IP)) :=
  gets (fun w =>
    if bool_decide (w_primed w = []) || negb (wclock w <? w_primedUntil w) then None else Some (w_primed w)).

Definition rootServers : M (list IP) :=
  match r_roots r with
  | Some roots => mret roots
  | None => primed ← primedRoots; mret (default RootServers primed)
  end.

(** The zone, its servers, whether it was reached securely, whether it was cached. *)
Definition startingPoint (qname : gostring) : M (gostring * list IP * bool * bool) :=
  found ← locked (fun w =>
    let (c, found) := closestEnclosing (w_delegations w) (wclock w) qname in (set_delegations c w, found));
  match found with
  | Some (zone, servers, secure) => mret (zone, servers, secure, true)
  | None => servers ← rootServers; mret ([dot], servers, false, false)
  end.

(** ** The walk *)

(** Whether the caller's context came from [WithoutValidation]. *)
Context (checkingDisabled : bool).

(** The variables of the loop in [resolve]. *)
Record walk := MkWalk {
  wk_zone : gostring; wk_servers : list IP; wk_sec : secState;
  wk_fromCache : bool; wk_minimizeOff : bool }.

(** A round of the loop returns from [resolve] or continues. *)
Inductive outcome := Done (res : Result) | Continue (wk : walk).

Definition stop_minimizing (wk : walk) : walk :=
  MkWalk (wk_zone wk) (wk_servers wk) (wk_sec wk) (wk_fromCache wk) true.

Definition lift_bogus {A} (x : result denial_error A) : M A :=
  match x with Ok a => mret a | Err _ => throw ErrBogus end.

(** The walk starts over at the root. *)
Definition from_root (minimizeOff : bool) : M walk :=
  servers ← rootServers;
  sec ← startingSecurity r checkingDisabled [dot] servers;
  mret (MkWalk [dot] servers sec false minimizeOff).

(** No server of the zone answered. *)
Definition no_reply (e : resolve_error) (minimizing : bool) (wk : walk) : M outcome :=
  if minimizing then mret (Continue (stop_minimizing wk))
  else if wk_fromCache wk then
    _ ← update (fun w => set_delegations (forget (w_delegations w) (wk_zone wk)) w);
    wk ← from_root (wk_minimizeOff wk);
    mret (Continue wk)
  else throw e.

(** Following the signatures down to the zone that answered. *)
Definition follow_signer (resp : Message) (qname : gostring) (minimizing : bool) (wk : walk) : M walk :=
  let signer := signerBelow resp (wk_zone wk) qname in
  if negb minimizing && ss_secure (wk_sec wk) && negb (bool_decide (signer = [])) then
    sec ← descendTo r (wk_sec wk) (wk_zone wk) signer (wk_servers wk);
    mret (MkWalk signer (wk_servers wk) sec (wk_fromCache wk) (wk_minimizeOff wk))
  else mret wk.

Section rounds.
(** The recursive call: a name, a type, the CNAME depth and the glue depth. *)
Context (rec : gostring -> Z -> nat -> nat -> M Result).

(** Looking up the addresses of name servers that came without glue, until one
    has some. *)
Fixpoint resolve_glue (names : list gostring) (glueDepth : nat) : M (list IP) :=
  match names with
  | [] => mret []
  | ns :: names =>
    res ← try (rec ns TypeA 0%nat (S glueDepth));
    match res with
    | Err _ => resolve_glue names glueDepth
    | Ok res =>
      match answer_addresses (res_Answers res) with
      | [] => resolve_glue names glueDepth
      | addrs => mret addrs
      end
    end
  end.

Definition referral_servers (resp : Message) (zone : gostring) (f : referral) (glueDepth : nat) :
    M (list IP) :=
  match glue_addresses zone (rf_names f) (m_Additionals resp) with
  | [] =>
    if bool_decide (maxGlueLookups <= glueDepth)%nat then throw EGlueDepth
    else
      n ← next_event;
      addrs ← resolve_glue (range_order n (elements (rf_names f))) glueDepth;
      if bool_decide (addrs = []) then throw ENoServerAddress else mret addrs
  | addrs => mret addrs
  end.

Definition follow_referral (resp : Message) (f : referral) (glueDepth : nat) (wk : walk) : M outcome :=
  newServers ← referral_servers resp (wk_zone wk) f glueDepth;
  sec ← (if r_validate r then crossDelegation r (wk_sec wk) resp (rf_zone f) newServers
         else mret (wk_sec wk));
  _ ← (if checkingDisabled then mret tt
       else update (fun w => set_delegations
              (put (w_delegations w) (wclock w) (rf_zone f) newServers (rf_ttl f) (ss_secure sec)) w));
  mret (Continue (MkWalk (rf_zone f) newServers sec false false)).

(** A response without an answer: a referral, or no data. *)
Definition no_answer (resp : Message) (qname : gostring) (qtype : Z) (glueDepth : nat)
    (minimizing : bool) (wk : walk) : M outcome :=
  let f := read_referral qname (wk_zone wk) (m_Authorities resp) no_referral in
  if bool_decide (rf_names f = ∅) then
    if minimizing then mret (Continue (stop_minimizing wk))
    else
      t ← now;
      proven ← lift_bogus
        (checkDenial r (wk_sec wk) (m_Authorities resp) (fun nsecs => ProveNoData nsecs qname qtype) t);
      mret (Done (MkResult [] (soaAuthority (m_Authorities resp)) proven))
  else follow_referral resp f glueDepth wk.

(** A response with RCODE 0. *)
Definition success (resp : Message) (qname : gostring) (qtype : Z) (cnameDepth glueDepth : nat)
    (minimizing : bool) (wk : walk) : M outcome :=
  if minimizing then no_answer resp qname qtype glueDepth minimizing wk
  else
    '(chain, answers, name) ← lift (follow_chain maxCNAMEChain cnameDepth qtype (m_Answers resp) [] qname);
    if negb (bool_decide (answers = [])) then
      t ← now;
      secure ← lift (validateAnswer r (wk_sec wk) resp (chain ++ answers) t);
      mret (Done (MkResult (chain ++ answers) [] secure))
    else if negb (bool_decide (name = qname)) then
      res ← rec name qtype (cnameDepth + length chain)%nat glueDepth;
      t ← now;
      chainSecure ← lift (validateAnswer r (wk_sec wk) resp chain t);
      mret (Done (MkResult (chain ++ res_Answers res) (res_Authority res) (res_Secure res && chainSecure)))
    else no_answer resp qname qtype glueDepth minimizing wk.

(** A response of any RCODE. *)
Definition respond (resp : Message) (qname : gostring) (qtype : Z) (cnameDepth glueDepth : nat)
    (minimizing : bool) (wk : walk) : M outcome :=
  if negb (h_RCode (m_Header resp) =? RCodeSuccess) && minimizing
  then mret (Continue (stop_minimizing wk))
  else
    wk ← follow_signer resp qname minimizing wk;
    if h_RCode (m_Header resp) =? RCodeNameError then
      t ← now;
      _ ← lift_bogus
        (checkDenial r (wk_sec wk) (m_Authorities resp) (fun nsecs => ProveNameError nsecs qname) t);
      throw (newNXDOMAINError qname (m_Authorities resp))
    else if negb (h_RCode (m_Header resp) =? RCodeSuccess) then throw (ERCode (h_RCode (m_Header resp)))
    else success resp qname qtype cnameDepth glueDepth minimizing wk.

Definition step (qname : gostring) (qtype : Z) (cnameDepth glueDepth : nat) (wk : walk) : M outcome :=
  let m := minimizedQName qname (wk_zone wk) in
  let minimizing := r_minimize r && negb (wk_minimizeOff wk) && negb (equalName m qname) in
  reply ← try (queryServers r (wk_servers wk) (if minimizing then m else qname)
                 (if minimizing then TypeA else qtype));
  match reply with
  | Err e => no_reply e minimizing wk
  | Ok (resp, _) => respond resp qname qtype cnameDepth glueDepth minimizing wk
  end.

(** The loop, with so many rounds left. *)
Fixpoint rounds (n : nat) (qname : gostring) (qtype : Z) (cnameDepth glueDepth : nat) (wk : walk) :
    M Result :=
  _ ← ctx_Err;
  match n with
  | O => throw ETooManyReferrals
  | S n =>
    o ← step qname qtype cnameDepth glueDepth wk;
    match o with
    | Done res => mret res
    | Continue wk => rounds n qname qtype cnameDepth glueDepth wk
    end
  end.

Definition resolve_body (qname : gostring) (qtype : Z) (cnameDepth glueDepth : nat) : M Result :=
  _ ← (if bool_decide (r_roots r = None) then primeRootServers else mret tt);
  '(zone, servers, wasSecure, fromCache) ← startingPoint qname;
  sec ← startingSecurity r checkingDisabled zone servers;
  wk ← (if wasSecure && negb (ss_secure sec) && r_validate r && negb checkingDisabled
        then from_root false
        else mret (MkWalk zone servers sec fromCache false));
  rounds maxReferrals qname qtype cnameDepth glueDepth wk.
End rounds.

(** [resolve] calls itself for the rest of a CNAME chain, deeper in the chain, and
    for the address of a name server, deeper in glue lookups: at most
    [resolve_depth] calls are nested. *)
Fixpoint resolve (fuel : nat) (qname : gostring) (qtype : Z) (cnameDepth glueDepth : nat) : M Result :=
  match fuel with
  | O => throw EFuel
  | S fuel => resolve_body (resolve fuel) qname qtype cnameDepth glueDepth
  end.

Definition resolve_depth : nat := (S maxGlueLookups * maxCNAMEChain)%nat.

Definition ResolveRR (qname : gostring) (qtype : Z) : M Result := resolve resolve_depth qname qtype 0%nat 0%nat.

Definition result_address (rr : RR) : option IP :=
  if (rr_Type rr =? TypeA) && bool_decide (rr_A rr <> None) then Some (rr_A rr)
  else if (rr_Type rr =? TypeAAAA) && bool_decide (rr_AAAA rr <> None) then Some (rr_AAAA rr)
  else None.

Definition Resolve (qname : gostring) (qtype : Z) : M (list IP) :=
  res ← ResolveRR qname qtype; mret (omap result_address (res_Answers res)).
End resolve.

(** ** Setting a resolver up *)

Record Options := MkOptions {
  op_UpstreamTimeout : Z; op_DisableDNSSEC : bool; op_DisableQNAMEMinimization : bool; op_Use0x20 : bool;
  op_TrustAnchors : option (list DS) }.

Definition NewWithOptions (opt : Options) : Resolver :=
  MkResolver None [] false (negb (op_DisableDNSSEC opt)) (op_TrustAnchors opt)
    (negb (op_DisableQNAMEMinimization opt)) (op_Use0x20 opt) (op_UpstreamTimeout opt).

Definition New : Resolver := MkResolver None [] false true None true false 0.

(** The caches of a new resolver. *)
Definition new_world : world :=
  MkWorld 0 [] (Some newRTTTracker) (Some (newDelegationCache 0)) (Some newKeyCache) [] 0.
