(* ===== verification/ResolveSpec.v ===== *)
(** What a resolution guarantees, whatever the network answers: it ends, it asks
    only servers that may be asked, its answers form a chain from the question,
    and with validation on everything it returns is authentic or excused. *)

From S2P Require Import Prelude Prog GoUnicode GoStrings GoNet DnsMsg Encoder Decoder WireSpec WireCalculus WireNames WireRoundTrip DecoderSafe DnssecRecords DnssecNames Verify Denial Lru DelegationCache ServerChoice Privacy Upstream UpstreamSpec TrustAnchor Validate ValidateSpec Resolve.

Open Scope Z_scope.

(** ** Reading a response *)

(** A chain of CNAME records from one name to another. *)
Inductive linked (qtype : Z) : gostring -> list RR -> gostring -> Prop :=
  | linked_nil name : linked qtype name [] name
  | linked_cons rr l name name' :
      rr_Type rr = TypeCNAME -> rr_Type rr <> qtype -> rr_Class rr = ClassIN ->
      equalName (rr_Name rr) name = true ->
      linked qtype (rr_CNAME rr) l name' -> linked qtype name (rr :: l) name'.

Lemma linked_snoc qtype name l name' rr :
  linked qtype name l name' -> rr_Type rr = TypeCNAME -> rr_Type rr <> qtype -> rr_Class rr = ClassIN ->
  equalName (rr_Name rr) name' = true -> linked qtype name (l ++ [rr]) (rr_CNAME rr).
Proof.
  induction 1 as [n|x l n n' ? ? ? ? _ IH]; intros; cbn [app]; (apply linked_cons; try done); [apply linked_nil|auto].
Qed.

Lemma linked_app qtype a l b l' c :
  linked qtype a l b -> linked qtype b l' c -> linked qtype a (l ++ l') c.
Proof. induction 1; intros; cbn [app]; [done|]. apply linked_cons; auto. Qed.

(** Records of the type asked for, at the name. *)
Definition answering (qtype : Z) (name : gostring) (rr : RR) : Prop :=
  rr_Type rr = qtype /\ rr_Class rr = ClassIN /\ equalName (rr_Name rr) name = true.

Lemma gather_spec answers name qtype : forall found cname found' cname',
  gather answers name qtype found cname = (found', cname') ->
  (Forall (answering qtype name) found -> Forall (answering qtype name) found') /\
  (forall rr, cname' = Some rr -> cname = Some rr \/
     rr ∈ answers /\ rr_Type rr = TypeCNAME /\ rr_Type rr <> qtype /\ rr_Class rr = ClassIN /\
     equalName (rr_Name rr) name = true).
Proof.
  induction answers as [|x answers IH]; intros found cname found' cname'; cbn [gather].
  { intros [= <- <-]. split; [done|]. auto. }
  assert (Hgo : forall f c, (Forall (answering qtype name) found -> Forall (answering qtype name) f) ->
    (forall rr, c = Some rr -> cname = Some rr \/ rr = x /\ rr_Type rr = TypeCNAME /\ rr_Type rr <> qtype /\
       rr_Class rr = ClassIN /\ equalName (rr_Name rr) name = true) ->
    gather answers name qtype f c = (found', cname') ->
    (Forall (answering qtype name) found -> Forall (answering qtype name) found') /\
    (forall rr, cname' = Some rr -> cname = Some rr \/ rr ∈ x :: answers /\ rr_Type rr = TypeCNAME /\
       rr_Type rr <> qtype /\ rr_Class rr = ClassIN /\ equalName (rr_Name rr) name = true)).
  { intros f c Hf Hc [H1 H2]%IH. split; [auto|]. intros rr Hrr.
    destruct (H2 rr Hrr) as [Hold|(Hin & Hrest)]; [|right; split; [by right|done]].
    destruct (Hc rr Hold) as [?|(-> & Hrest)]; [by left|right; split; [by left|done]]. }
  destruct (equalName (rr_Name x) name) eqn:En; cbn [negb orb]; [|apply Hgo; auto].
  destruct (Z.eqb_spec (rr_Class x) ClassIN); cbn [negb]; [|apply Hgo; auto].
  destruct (Z.eqb_spec (rr_Type x) qtype).
  { apply Hgo; [|auto]. intros Hf. apply Forall_app. split; [done|]. by repeat constructor. }
  destruct (Z.eqb_spec (rr_Type x) TypeCNAME); [|apply Hgo; auto].
  apply Hgo; [done|]. intros rr [= <-]. right. done.
Qed.

(** The records found are among those given. *)
Lemma gather_in answers all name qtype : answers ⊆ all -> forall found cname found' cname',
  gather answers name qtype found cname = (found', cname') -> found ⊆ all -> found' ⊆ all.
Proof.
  induction answers as [|x answers IH]; intros Hall found cname found' cname'; cbn [gather]; [by intros [= <- <-]|].
  assert (Hx : x ∈ all) by (apply Hall; by left). assert (Hall' : answers ⊆ all) by set_solver.
  repeat case_match; intros E Hf; eapply IH in E; try done. set_solver.
Qed.

(** The loop over the CNAMEs ends, and finds what it says. *)
Lemma follow_chain_spec cnameDepth qtype answers qname : (cnameDepth < maxCNAMEChain)%nat ->
  forall fuel chain name,
  (maxCNAMEChain <= fuel + cnameDepth + length chain)%nat -> (cnameDepth + length chain < maxCNAMEChain)%nat ->
  linked qtype qname chain name -> Forall (fun rr => rr ∈ answers) chain ->
  match follow_chain fuel cnameDepth qtype answers chain name with
  | Ok (chain', found, name') =>
    linked qtype qname chain' name' /\ Forall (answering qtype name') found /\
    Forall (fun rr => rr ∈ answers) (chain' ++ found) /\ (cnameDepth + length chain' < maxCNAMEChain)%nat
  | Err e => e = ECNAMEChain
  end.
Proof.
  intros Hdepth. induction fuel as [|fuel IH]; intros chain name Hfuel Hlen Hl Hin; cbn [follow_chain]; [lia|].
  destruct (gather answers name qtype [] None) as [found cname] eqn:E.
  pose proof (gather_in answers answers name qtype ltac:(done) _ _ _ _ E ltac:(set_solver)) as H3.
  apply gather_spec in E as [H1 H2].
  destruct found as [|rr found].
  - destruct cname as [c|]; [|by rewrite app_nil_r; split_and!].
    destruct (H2 c eq_refl) as [?|(Hc & ? & ? & ? & ?)]; [done|].
    case_bool_decide; [done|]. apply IH; rewrite ?length_app; simpl; [lia|lia|by eapply linked_snoc|].
    apply Forall_app. split; [done|]. by repeat constructor.
  - split_and!; [done|by apply H1| |done]. apply Forall_app. split; [done|]. by apply Forall_forall.
Qed.

(** ** Names of a response *)

Lemma decoded_name_full n : decoded_name n -> labels_full n.
Proof.
  intros (ls & -> & Hv & Hd & _). unfold labels_full. destruct ls as [|l ls]; [constructor|].
  assert (Hf : Forall (fun l => l <> []) (l :: ls)).
  { eapply Forall_impl; [exact Hv|]. by intros x Hx ->. }
  change (join_name (l :: ls)) with (Join dot (l :: ls)). by rewrite labelsOf_Join.
Qed.

Lemma labels_full_ToLower n : labels_full n -> labels_full (ToLower n).
Proof.
  unfold labels_full. rewrite !labelsOf_splitName, splitName_ToLower. intros Hf.
  apply Forall_map. eapply Forall_impl; [done|]. intros l Hl E.
  apply Hl. by apply ToLower_nil_iff.
Qed.

Lemma decoded_NS rr : decoded_rr rr -> rr_Type rr = TypeNS -> labels_full (ToLower (rr_NS rr)).
Proof.
  intros (_ & _ & _ & _ & _ & Hd) Ht. unfold decoded_rdata in Hd. rewrite Ht in Hd.
  by apply labels_full_ToLower, decoded_name_full.
Qed.

Lemma decoded_CNAME rr : decoded_rr rr -> rr_Type rr = TypeCNAME -> labels_full (rr_CNAME rr).
Proof.
  intros (_ & _ & _ & _ & _ & Hd) Ht. unfold decoded_rdata in Hd. rewrite Ht in Hd.
  by apply decoded_name_full.
Qed.

(** A chain ends at the target of one of its records, or where it began. *)
Lemma linked_end qtype a l b : linked qtype a l b ->
  l = [] /\ a = b \/ exists rr, rr ∈ l /\ rr_Type rr = TypeCNAME /\ b = rr_CNAME rr.
Proof.
  induction 1 as [|rr l a b ? ? ? ? _ [[-> <-]|(x & ? & ? & ?)]]; [by left|right..].
  - exists rr. split; [by left|done].
  - exists x. split; [by right|done].
Qed.

Lemma linked_full qtype a l b answers :
  linked qtype a l b -> labels_full a -> Forall (fun rr => rr ∈ answers) l -> Forall decoded_rr answers ->
  labels_full b.
Proof.
  intros [[_ <-]|(rr & Hin & Ht & ->)]%linked_end Ha Hl Hd; [done|].
  rewrite Forall_forall in Hl. apply Hl in Hin. rewrite Forall_forall in Hd. by apply decoded_CNAME; [apply Hd|].
Qed.

Lemma linked_IN qtype a l b : linked qtype a l b -> Forall (fun rr => rr_Class rr = ClassIN) l.
Proof. induction 1; by constructor. Qed.

(** ** Referrals *)

Definition between (qname zone z : gostring) : Prop :=
  isSubdomainOrEqual qname z = true /\ isProperSubdomain z zone = true.

(** The referral read lies between the zone of the server and the name, and the
    servers it names have proper names. *)
Lemma read_referral_spec qname zone authorities : Forall decoded_rr authorities -> forall f,
  (rf_names f = ∅ /\ rf_zone f = [] \/ between qname zone (rf_zone f)) ->
  (forall ns, ns ∈ rf_names f -> labels_full ns) ->
  let f' := read_referral qname zone authorities f in
  (rf_names f' = ∅ /\ rf_zone f' = [] \/ between qname zone (rf_zone f')) /\
  (forall ns, ns ∈ rf_names f' -> labels_full ns).
Proof.
  induction 1 as [|rr rest Hrr _ IH]; intros f Hf Hn; cbn [read_referral]; [done|].
  destruct (Z.eqb_spec (rr_Type rr) TypeNS) as [Ht|]; cbn [negb orb]; [|by apply IH].
  destruct (negb (rr_Class rr =? ClassIN)); [by apply IH|].
  destruct (isSubdomainOrEqual qname (rr_Name rr)) eqn:E1; cbn [negb orb]; [|by apply IH].
  destruct (isProperSubdomain (rr_Name rr) zone) eqn:E2; cbn [negb]; [|by apply IH].
  destruct (_ && _); [by apply IH|]. apply IH; cbn [rf_zone rf_names].
  - right. case_bool_decide; [done|]. by destruct Hf as [[_ ?]|?].
  - intros ns [->%elem_of_singleton|?]%elem_of_union; [by apply decoded_NS|by apply Hn].
Qed.

Lemma deepest_signer_spec zone qname rrs : forall deepest,
  deepest = [] \/ between qname zone deepest ->
  deepest_signer zone qname deepest rrs = [] \/ between qname zone (deepest_signer zone qname deepest rrs).
Proof.
  induction rrs as [|rr rrs IH]; intros deepest Hd; cbn [deepest_signer]; [done|]. apply IH.
  destruct (AsRRSIG rr) as [sig|]; [|done].
  destruct (isProperSubdomain (sig_SignerName sig) zone) eqn:E1; [|done].
  destruct (isSubdomainOrEqual qname (sig_SignerName sig)) eqn:E2; [|done]. cbn [negb orb].
  destruct (_ || _); [by right|done].
Qed.

Lemma signerBelow_spec resp zone qname :
  signerBelow resp zone qname <> [] -> between qname zone (signerBelow resp zone qname).
Proof.
  intros Hne. destruct (deepest_signer_spec zone qname (m_Answers resp ++ m_Authorities resp) []); [by left|done..].
Qed.

(** ** What a result promises *)

(** The names a resolution went through: the one asked for and the targets of the
    CNAMEs. *)
Definition visited (qname : gostring) (records : list RR) : list gostring :=
  qname :: map rr_CNAME records.

Section promises.
Context `{Crypto} (anchors : list DS) (validating : bool).

(** The records of an answer, each verified when one of the names was asked for. *)
Definition vetted (names : list gostring) (records : list RR) : Prop :=
  Forall (fun rr => exists asked, asked ∈ names /\ authentic anchors asked rr) records.

Definition excused (names : list gostring) : Prop := exists asked, asked ∈ names /\ excuse anchors asked.

(** Every record of a result is one the decoder can return. *)
Definition well_formed (res : Result) : Prop := Forall decoded_rr (res_Answers res) /\ Forall decoded_rr (res_Authority res).

(** A result for [qname]: a chain of CNAMEs from it, below the limit counted from
    [depth], and behind the chain the records of the type asked for at its end.
    With none there - no data - at most an SOA record comes along.  A secure one
    has been verified, one that is not secure has an excuse; and all records are
    well formed. *)
Definition resolution (qname : gostring) (qtype : Z) (depth : nat) (res : Result) : Prop :=
  exists chain name tail,
    linked qtype qname chain name /\ res_Answers res = chain ++ tail /\ Forall (answering qtype name) tail /\
    (depth + length chain < maxCNAMEChain)%nat /\
    (length (res_Authority res) <= 1)%nat /\ Forall (fun rr => is_soa rr = true) (res_Authority res) /\
    (tail <> [] -> res_Authority res = []) /\
    (res_Secure res = true -> validating = true /\
      (ascii_names (res_Answers res) -> vetted (visited qname chain) (res_Answers res)) /\
      (tail = [] -> denied anchors name (fun nsecs => ProveNoData nsecs name qtype))) /\
    (res_Secure res = false -> validating = true -> excused (visited qname chain)) /\
    well_formed res.

(** An error: never one of running out of fuel, and "no such name" only for the end
    of a chain of CNAMEs, proven or excused. *)
Definition refusal (qname : gostring) (qtype : Z) (e : resolve_error) : Prop :=
  e <> EFuel /\ forall name soa, e = NXDOMAINError name soa ->
    (forall rr, soa = Some rr -> is_soa rr = true /\ decoded_rr rr) /\
    exists chain, linked qtype qname chain name /\
      (validating = true ->
        denied anchors name (fun nsecs => ProveNameError nsecs name) \/ excuse anchors name).

Lemma vetted_mono names names' records : names ⊆ names' -> vetted names records -> vetted names' records.
Proof.
  intros Hn Hv. eapply Forall_impl; [exact Hv|]. intros rr (asked & ? & ?). exists asked. split; [by apply Hn|done].
Qed.

Lemma visited_app qname chain name chain' qtype :
  linked qtype qname chain name -> visited name chain' ⊆ visited qname (chain ++ chain').
Proof.
  unfold visited. rewrite map_app. intros Hl x [->|Hx]%elem_of_cons.
  - destruct (linked_end _ _ _ _ Hl) as [[_ <-]|(rr & Hin & _ & ->)]; [by left|right].
    apply elem_of_app. left. by apply list_elem_of_fmap_2.
  - right. apply elem_of_app. by right.
Qed.

Lemma visited_head qname chain chain' : visited qname chain ⊆ visited qname (chain ++ chain').
Proof. unfold visited. rewrite map_app. set_solver. Qed.

(** The rest of a chain, behind the CNAMEs that lead to it. *)
Lemma resolution_chain qname qtype depth chain name res b :
  linked qtype qname chain name ->
  resolution name qtype (depth + length chain) res ->
  (b = true -> ascii_names chain -> Forall (authentic anchors qname) chain) ->
  (b = false -> validating = true -> excuse anchors qname) -> Forall decoded_rr chain ->
  resolution qname qtype depth (MkResult (chain ++ res_Answers res) (res_Authority res) (res_Secure res && b)).
Proof.
  intros Hl (chain' & name' & tail & Hl' & Ha & Ht & Hlen & H1 & H2 & H3 & Hs & Hns & [Hwa Hwb]) Hb Hnb Hwc.
  exists (chain ++ chain'), name', tail. cbn [res_Answers res_Authority res_Secure].
  split_and!; [by eapply linked_app|by rewrite Ha, app_assoc|done| |done..| | |split; [by apply Forall_app|done]].
  - rewrite length_app. lia.
  - intros [Hsec Hbt]%andb_true_iff. destruct (Hs Hsec) as (? & Hvet & ?). split_and!; [done| |done].
    unfold ascii_names. intros [Hasc Hasc']%Forall_app. apply Forall_app. split.
    + eapply Forall_impl; [by apply Hb|]. intros rr ?. exists qname. split; [by left|done].
    + eapply vetted_mono; [by eapply visited_app|by apply Hvet].
  - intros Hor Hv. apply andb_false_iff in Hor as [Hns'|Hbf].
    + destruct (Hns Hns' Hv) as (asked & Hin & ?). exists asked. split; [by eapply visited_app|done].
    + exists qname. split; [by left|by apply Hnb].
Qed.

Lemma refusal_chain qname qtype chain name e :
  linked qtype qname chain name -> refusal name qtype e -> refusal qname qtype e.
Proof.
  intros Hl [Hf Hnx]. split; [done|]. intros n soa E. destruct (Hnx n soa E) as (Hsoa & chain' & ? & ?).
  split; [done|]. exists (chain ++ chain'). split; [by eapply linked_app|done].
Qed.

Lemma refusal_other qname qtype e :
  match e with EFuel | NXDOMAINError _ _ => False | _ => True end -> refusal qname qtype e.
Proof. intros He. split; [by intros ->|by intros n soa ->]. Qed.

Lemma refusal_server qname qtype e : server_error e -> refusal qname qtype e.
Proof. intros [->|[e' ->]]; by apply refusal_other. Qed.

Lemma refusal_validate qname qtype e : validate_error e -> refusal qname qtype e.
Proof. intros [->|?]; [by apply refusal_other|by apply refusal_server]. Qed.

(** A CNAME chain cut off and an answer by the loops of one response. *)
Lemma first_soa_spec authorities rr : first_soa authorities = Some rr -> is_soa rr = true.
Proof.
  induction authorities as [|x l IH]; cbn [first_soa]; [done|]. destruct (is_soa x) eqn:E; [|done]. by intros [= <-].
Qed.

Lemma soaAuthority_spec authorities :
  (length (soaAuthority authorities) <= 1)%nat /\ Forall (fun rr => is_soa rr = true) (soaAuthority authorities).
Proof.
  unfold soaAuthority. destruct (first_soa authorities) as [rr|] eqn:E; [|split; [simpl; lia|constructor]].
  apply first_soa_spec in E. split; [simpl; lia|by repeat constructor].
Qed.

Lemma first_soa_decoded resp rr : decoded_message resp -> first_soa (m_Authorities resp) = Some rr -> decoded_rr rr.
Proof.
  intros (_ & _ & _ & [_ Hd] & _). rewrite Forall_forall in Hd. unfold first_soa. intros [Hin%list_elem_of_In _]%find_some. by apply Hd.
Qed.

Lemma soaAuthority_incl authorities : soaAuthority authorities ⊆ authorities.
Proof.
  unfold soaAuthority. destruct (first_soa authorities) as [rr|] eqn:E; [|set_solver].
  unfold first_soa in E. apply find_some in E as [Hin%list_elem_of_In _]. set_solver.
Qed.
End promises.

(** ** The walk *)

(** Whether this resolution validates. *)
Definition validates (r : Resolver) (checkingDisabled : bool) : bool := r_validate r && negb checkingDisabled.

Section resolver.
Context `{Crypto} `{Env} (r : Resolver).

Abbreviation chain_of := (chain (trustAnchors r)).
Abbreviation unsigned_zone := (unsigned (trustAnchors r)).
Abbreviation sound := (sec_sound (trustAnchors r)).

(** What a delegation remembered for a zone, and used, has to say. *)
Definition delegation_sound (zone : gostring) (secure : bool) : Prop :=
  secure = false -> r_validate r = true -> unsigned_zone zone.

(** An invariant of everything a resolution does. *)
Record resolve_invariant (I : world -> Prop) : Prop := {
  ri_walk : walk_invariant r I;
  ri_primed : forall ips until w, I w -> I (set_primed ips until w);
  ri_lookup : forall w t qname, I w ->
    I (set_delegations (closestEnclosing (w_delegations w) t qname).1 w) /\
    forall zone servers secure,
      (closestEnclosing (w_delegations w) t qname).2 = Some (zone, servers, secure) ->
      isSubdomainOrEqual qname zone = true /\ delegation_sound zone secure;
  ri_put : forall w t zone servers ttl secure, I w -> labels_full zone -> delegation_sound zone secure ->
    I (set_delegations (put (w_delegations w) t zone servers ttl secure) w);
  ri_forget : forall w zone, I w -> I (set_delegations (forget (w_delegations w) zone) w) }.

Context (checkingDisabled : bool) (I : world -> Prop) (HI : resolve_invariant I) (Henv : env_ok).

Abbreviation validating := (validates r checkingDisabled).

Lemma validating_on : validating = true -> r_validate r = true.
Proof. unfold validates. by intros [? _]%andb_true_iff. Qed.

Lemma validating_sound zone sec : sound true zone sec -> sound validating zone sec.
Proof. unfold sec_sound. destruct (ss_secure sec); auto. Qed.

(** Where the walk is: in a zone above the name, whose security is known. *)
Record walk_sound (qname : gostring) (wk : walk) : Prop := {
  wks_above : isSubdomainOrEqual qname (wk_zone wk) = true;
  wks_sec : sound validating (wk_zone wk) (wk_sec wk);
  wks_on : ss_secure (wk_sec wk) = true -> validating = true }.

Lemma walk_sound_turn qname wk servers cached off :
  walk_sound qname wk -> walk_sound qname (MkWalk (wk_zone wk) servers (wk_sec wk) cached off).
Proof. by intros [? ? ?]. Qed.

Lemma inv_primeRootServers : inv I (primeRootServers r) (fun _ => True) (fun _ => False).
Proof.
  unfold primeRootServers. eapply (inv_bind _ _ _ (fun _ => True)).
  { apply inv_locked. intros w Hw. unfold prime_turn. destruct (_ <? _); [done|]. split; [by apply (ri_primed I HI)|done]. }
  intros [servers|] _; [|by apply inv_ret]. eapply inv_bind.
  { eapply inv_try, inv_ask; [apply (ri_walk I HI)|done|]. by intros e ?. }
  intros [[resp s]|e] _; [|by apply inv_ret].
  destruct (root_names _ _ _) as [names ttl]. case_bool_decide; [by apply inv_ret|].
  cbn zeta. case_bool_decide; [by apply inv_ret|].
  apply inv_update; [|done]. intros w. apply (ri_primed I HI).
Qed.

Lemma inv_rootServers E : inv I (rootServers r) (fun _ => True) E.
Proof.
  unfold rootServers. destruct (r_roots r); [by apply inv_ret|].
  eapply (inv_bind _ _ _ (fun _ => True)); [by apply inv_gets|]. intros ? _; by apply inv_ret.
Qed.

Lemma inv_startingPoint qname E :
  inv I (startingPoint r qname)
    (fun x => isSubdomainOrEqual qname x.1.1.1 = true /\
       (normalizeName x.1.1.1 = [] \/ delegation_sound x.1.1.1 x.1.2)) E.
Proof.
  unfold startingPoint.
  eapply (inv_bind _ _ _ (fun found => forall zone servers secure, found = Some (zone, servers, secure) ->
    isSubdomainOrEqual qname zone = true /\ delegation_sound zone secure)).
  { apply inv_locked. intros w Hw. destruct (ri_lookup I HI w (wclock w) qname Hw) as [Hw' Hf].
    by destruct (closestEnclosing _ _ _). }
  intros [[[zone servers] secure]|] Hf.
  - destruct (Hf zone servers secure eq_refl). apply inv_ret. by split; [|right].
  - eapply inv_bind; [apply inv_rootServers|]. intros servers _. apply inv_ret. by split; [|left].
Qed.

Lemma inv_from_root qname off :
  inv I (from_root r checkingDisabled off) (walk_sound qname) validate_error.
Proof.
  unfold from_root. eapply inv_bind; [apply inv_rootServers|]. intros servers _.
  eapply inv_bind; [by apply inv_startingSecurity; [apply (ri_walk I HI)|]|].
  intros sec (Hs & Hroot & Hon). apply inv_ret. split; [done| |done]. cbn [wk_zone wk_sec].
  unfold sec_sound in Hs |- *. destruct (ss_secure sec); [done|]. intros Hv. by specialize (Hroot Hv eq_refl).
Qed.

(** Where a walk begins: in the zone found, or at the root. *)
Lemma inv_start qname zone servers wasSecure fromCache :
  isSubdomainOrEqual qname zone = true -> normalizeName zone = [] \/ delegation_sound zone wasSecure ->
  inv I (sec ← startingSecurity r checkingDisabled zone servers;
         if wasSecure && negb (ss_secure sec) && r_validate r && negb checkingDisabled
         then from_root r checkingDisabled false
         else mret (MkWalk zone servers sec fromCache false))
    (walk_sound qname) validate_error.
Proof.
  intros Hsub Hd. eapply inv_bind; [by apply inv_startingSecurity; [apply (ri_walk I HI)|]|].
  intros sec (Hs & Hroot & Hon). destruct (wasSecure && _ && _ && _) eqn:E; [by apply inv_from_root|].
  apply inv_ret. split; [done| |done]. cbn [wk_zone wk_sec]. unfold sec_sound in Hs |- *.
  destruct (ss_secure sec); [done|]. intros Hv. destruct Hd as [Hz|Hd]; [by specialize (Hroot Hv Hz)|].
  apply Hd; [|by apply validating_on]. destruct wasSecure; [|done].
  unfold validates in Hv. apply andb_true_iff in Hv as [Hv Hc]. by rewrite Hv, Hc in E.
Qed.

Abbreviation resolved := (resolution (trustAnchors r) validating).
Abbreviation refused := (refusal (trustAnchors r)).

(** *** One round *)

Section round.
Context (rec : gostring -> Z -> nat -> nat -> M Result) (qname : gostring) (qtype : Z) (depth glueDepth : nat).
Context (Hname : labels_full qname) (Hdepth : (depth < maxCNAMEChain)%nat).

(** What the recursive calls do. *)
Context (Hrec : forall name depth', labels_full name -> (depth < depth' < maxCNAMEChain)%nat ->
  inv I (rec name qtype depth' glueDepth) (resolved name qtype depth') (refused validating name qtype)).
Context (Hglue : forall ns, labels_full ns -> (glueDepth < maxGlueLookups)%nat ->
  inv I (rec ns TypeA 0%nat (S glueDepth)) (fun _ => True) (fun _ => True)).

Abbreviation refused_here := (refused validating qname qtype).

Definition outcome_sound (o : outcome) : Prop :=
  match o with Done res => resolved qname qtype depth res | Continue wk => walk_sound qname wk end.

Lemma inv_no_reply e minimizing wk :
  walk_sound qname wk -> server_error e -> inv I (no_reply r checkingDisabled e minimizing wk) outcome_sound refused_here.
Proof.
  intros Hwk He. unfold no_reply. destruct minimizing; [apply inv_ret; by apply walk_sound_turn|].
  destruct (wk_fromCache wk); [|by apply inv_throw, refusal_server].
  eapply (inv_bind _ _ _ (fun _ => True)).
  { apply inv_update; [|done]. intros w Hw. by apply (ri_forget I HI). }
  intros _ _. eapply inv_bind; [eapply inv_mono; [by apply (inv_from_root qname)|done|apply refusal_validate]|].
  intros wk' Hwk'. by apply inv_ret.
Qed.

Lemma inv_follow_signer resp minimizing wk :
  walk_sound qname wk -> inv I (follow_signer r resp qname minimizing wk) (walk_sound qname) refused_here.
Proof.
  intros Hwk. pose proof Hwk as [Habove Hs Hon]. unfold follow_signer. cbn zeta.
  destruct (ss_secure (wk_sec wk)) eqn:Es; [|rewrite andb_false_r; by apply inv_ret]. specialize (Hon eq_refl).
  case_bool_decide as Hsig; [rewrite andb_false_r; by apply inv_ret|]. apply signerBelow_spec in Hsig as [Hq Hp].
  rewrite !andb_true_r. destruct minimizing; cbn [negb]; [by apply inv_ret|].
  eapply inv_bind; [eapply inv_mono; [eapply inv_descendTo|done|apply refusal_validate]|].
  - apply (ri_walk I HI).
  - done.
  - by eapply labels_full_subdomain.
  - by apply validating_on.
  - exact Hs.
  - done.
  - done.
  - intros sec Hsec. apply inv_ret. split; [done|by apply validating_sound|done].
Qed.

Lemma inv_resolve_glue names :
  Forall labels_full names -> (glueDepth < maxGlueLookups)%nat ->
  inv I (resolve_glue r rec names glueDepth) (fun _ => True) (fun _ => False).
Proof.
  induction 1 as [|ns names Hns _ IH]; intros Hg; cbn [resolve_glue]; [by apply inv_ret|].
  eapply inv_bind; [by apply inv_try, Hglue|]. intros [res|e] _; [|by apply IH].
  destruct (answer_addresses r (res_Answers res)); [by apply IH|by apply inv_ret].
Qed.

Lemma inv_referral_servers resp zone f :
  (forall ns, ns ∈ rf_names f -> labels_full ns) ->
  inv I (referral_servers r rec resp zone f glueDepth) (fun _ => True) refused_here.
Proof.
  intros Hns. unfold referral_servers. destruct (glue_addresses _ _ _ _); [|by apply inv_ret].
  case_bool_decide; [by apply inv_throw, refusal_other|].
  eapply inv_bind; [by eapply inv_next_event, (wi_net r I (ri_walk I HI))|]. intros n _.
  eapply inv_bind.
  { eapply inv_mono; [apply inv_resolve_glue|done|done].
    - rewrite (env_order Henv). apply Forall_forall. intros ns Hin. by apply Hns, elem_of_elements.
    - lia. }
  intros addrs _. case_bool_decide; [by apply inv_throw, refusal_other|by apply inv_ret].
Qed.

Lemma inv_crossDelegation wk resp zone servers :
  walk_sound qname wk -> isSubdomainOrEqual zone (wk_zone wk) = true -> r_validate r = true ->
  inv I (crossDelegation r (wk_sec wk) resp zone servers)
    (fun sec => sound validating zone sec /\ (ss_secure sec = true -> validating = true)) validate_error.
Proof.
  intros [Habove Hs Hon] Hz Hr. unfold crossDelegation. destruct (ss_secure (wk_sec wk)) eqn:Es; cbn [negb].
  - eapply inv_weaken; [by eapply inv_enterZone; [apply (ri_walk I HI)|..]|].
    intros sec Hsec. split; [by apply validating_sound|auto].
  - apply inv_ret. split; [|done]. intros Hv. unfold sec_sound in Hs. rewrite Es in Hs.
    eapply unsigned_below; [by apply Hs|done].
Qed.

Lemma inv_follow_referral resp f wk :
  walk_sound qname wk -> between qname (wk_zone wk) (rf_zone f) -> (forall ns, ns ∈ rf_names f -> labels_full ns) ->
  inv I (follow_referral r checkingDisabled rec resp f glueDepth wk) outcome_sound refused_here.
Proof.
  intros Hwk [Hq Hp] Hns. unfold follow_referral.
  eapply inv_bind; [by apply inv_referral_servers|]. intros servers _.
  eapply (inv_bind _ _ _ (fun sec => sound validating (rf_zone f) sec /\
    (ss_secure sec = true -> validating = true))).
  { destruct (r_validate r) eqn:Er.
    - eapply inv_mono; [apply inv_crossDelegation; [done| |done]|done|apply refusal_validate].
      by apply andb_true_iff in Hp as [_ ?].
    - apply inv_ret. destruct Hwk as [_ _ Hon]. unfold sec_sound.
      assert (Hv : validating <> true) by (unfold validates; by rewrite Er).
      destruct (ss_secure (wk_sec wk)); [by destruct Hv; apply Hon|done]. }
  intros sec [Hs Hon]. eapply (inv_bind _ _ _ (fun _ => True)).
  - destruct checkingDisabled eqn:Ec; [by apply inv_ret|]. apply inv_update; [|done].
    intros w Hw. apply (ri_put I HI); [done|by eapply labels_full_subdomain|].
    intros Hsec Hr. unfold sec_sound in Hs. rewrite Hsec in Hs. apply Hs. unfold validates. by rewrite Hr.
  - intros _ _. by apply inv_ret.
Qed.

Lemma inv_lift_bogus {A} (x : result denial_error A) (Q : A -> Prop) :
  (forall a, x = Ok a -> Q a) -> inv I (lift_bogus x) Q refused_here.
Proof. destruct x; intros; [by apply inv_ret; auto|by apply inv_throw, refusal_other]. Qed.

(** What a denial checked in a sound zone shows. *)
Lemma denial_checked wk section prove t b :
  walk_sound qname wk -> denial_proof prove -> checkDenial r (wk_sec wk) section prove t = Ok b ->
  (b = true -> validating = true /\ denied (trustAnchors r) qname prove) /\
  (b = false -> validating = true -> excuse (trustAnchors r) qname).
Proof.
  intros [Habove Hs Hon] Hp Hc.
  destruct (checkDenial_sound _ _ _ _ _ _ _ _ _ _ Habove Hs validating_on Hp Hc) as [H1 H2]. split; [|done].
  intros ->. split; [|by apply H1]. apply Hon. by apply checkDenial_spec in Hc as [[_ ?]|[? _]].
Qed.

Lemma validateAnswer_error resp sec records t e : validateAnswer r sec resp records t = Err e -> e = ErrBogus.
Proof.
  unfold validateAnswer. destruct (_ || _); [done|]. generalize records at 1 as todo. intros todo. generalize (∅ : gset (gostring * Z)).
  induction todo as [|rr todo IH]; intros seen; cbn [answer_loop]; [done|]. cbn zeta.
  case_bool_decide; [apply IH|]. destruct (verifyRRSet _ _ _ _) as [sig|[| | |[]]]; try congruence.
  destruct (IsWildcardExpansion _ _); [|apply IH]. destruct (checkDenial _ _ _ _ _) as [[]|]; [apply IH|done|congruence].
Qed.

(** What an answer checked in a sound zone is. *)
Lemma inv_validateAnswer wk resp records t :
  walk_sound qname wk -> records <> [] -> Forall (fun rr => rr_Class rr = ClassIN) records ->
  inv I (lift (validateAnswer r (wk_sec wk) resp records t))
    (fun b => (b = true -> validating = true /\ (ascii_names records ->
                 Forall (authentic (trustAnchors r) qname) records)) /\ (b = false -> validating = true -> excuse (trustAnchors r) qname)) refused_here.
Proof.
  intros [Habove Hs Hon] Hne Hcl. apply inv_lift.
  destruct (validateAnswer r (wk_sec wk) resp records t) as [b|e] eqn:E.
  - destruct (validateAnswer_sound _ _ _ _ _ _ _ _ _ _ Habove Hs validating_on Hne E) as [H1 H2].
    split; [|done]. intros ->. split; [|by intros; apply H1]. apply Hon.
    unfold validateAnswer in E. by destruct (r_validate r), (ss_secure (wk_sec wk)).
  - apply validateAnswer_error in E as ->. by apply refusal_other.
Qed.

Lemma inv_no_answer resp minimizing wk :
  walk_sound qname wk -> decoded_message resp ->
  inv I (no_answer r checkingDisabled rec resp qname qtype glueDepth minimizing wk) outcome_sound refused_here.
Proof.
  intros Hwk (_ & _ & _ & [_ Hauth] & _). unfold no_answer.
  destruct (read_referral_spec qname (wk_zone wk) _ Hauth no_referral) as [Hf Hns].
  { by left. } { by intros ns ?%elem_of_empty. }
  cbn zeta. case_bool_decide as Hempty.
  - destruct minimizing; [by apply inv_ret, walk_sound_turn|].
    eapply inv_bind; [apply inv_now|]. intros t _.
    eapply inv_bind; [by apply inv_lift_bogus; intros b Hb; apply (denial_checked wk _ _ _ _ Hwk) in Hb;
      [exact Hb|apply proof_data]|].
    intros b [Hyes Hno]. apply inv_ret. exists [], qname, []. cbn [res_Answers res_Authority res_Secure].
    destruct (soaAuthority_spec (m_Authorities resp)) as [? ?].
    split_and!; [constructor|done|constructor|simpl; lia|done|done|done| | |split; [constructor|]].
    + intros Hb. destruct (Hyes Hb). split_and!; [done|by constructor|done].
    + intros Hb Hv. exists qname. split; [by left|by apply Hno].
    + rewrite Forall_forall in Hauth. apply Forall_forall. intros rr Hrr. by apply Hauth, soaAuthority_incl.
  - apply inv_follow_referral; [done| |done]. by destruct Hf as [[? _]|?].
Qed.

Lemma inv_success resp minimizing wk :
  walk_sound qname wk -> decoded_message resp ->
  inv I (success r checkingDisabled rec resp qname qtype depth glueDepth minimizing wk) outcome_sound refused_here.
Proof.
  intros Hwk Hresp. unfold success. destruct minimizing; [by apply inv_no_answer|].
  pose proof (follow_chain_spec depth qtype (m_Answers resp) qname Hdepth maxCNAMEChain [] qname
    ltac:(lia) ltac:(simpl; lia) ltac:(constructor) ltac:(constructor)) as Hfc.
  destruct (follow_chain _ _ _ _ _ _) as [[[chain answers] name]|e].
  2: { subst e. by apply inv_throw, refusal_other. }
  destruct Hfc as (Hl & Ht & Hin & Hlen).
  assert (Hwell : Forall decoded_rr (chain ++ answers)).
  { destruct Hresp as (_ & _ & [_ Hd] & _). rewrite Forall_forall in Hd. eapply Forall_impl; [exact Hin|exact Hd]. }
  apply (inv_bind _ _ _ (eq (chain, answers, name))); [by apply inv_lift|]. intros ? <-.
  pose proof Hwk as [Habove Hs Hon].
  assert (Hclass : Forall (fun rr => rr_Class rr = ClassIN) (chain ++ answers)).
  { apply Forall_app. split; [by eapply linked_IN|]. eapply Forall_impl; [exact Ht|]. by intros rr (_ & ? & _). }
  case_bool_decide as Hans; cbn [negb].
  - case_bool_decide as Hn; cbn [negb]; [by apply inv_no_answer|].
    assert (Hchain : chain <> []).
    { intros ->. destruct (linked_end _ _ _ _ Hl) as [[_ ?]|(? & ?%elem_of_nil & _)]; congruence. }
    assert (Hdeep : (depth < depth + length chain)%nat) by (destruct chain; [done|simpl; lia]).
    eapply inv_bind.
    { eapply inv_mono; [apply Hrec; [|lia]|exact (fun _ h => h)|by intros e; eapply refusal_chain].
      destruct Hresp as (_ & _ & [_ Hd] & _). apply Forall_app in Hin as [Hin _]. by eapply linked_full. }
    intros res Hres. eapply inv_bind; [apply inv_now|]. intros t _.
    eapply inv_bind; [apply inv_validateAnswer; [done..|by apply Forall_app in Hclass as [? _]]|].
    intros b [Hyes Hno]. apply inv_ret. eapply resolution_chain; [done|done| |done|by apply Forall_app in Hwell as [? _]].
    intros Hb. by apply Hyes.
  - eapply inv_bind; [apply inv_now|]. intros t _.
    eapply inv_bind; [apply inv_validateAnswer; [done| |done]|].
    { by intros [_ ?]%app_eq_nil. }
    intros b [Hyes Hno]. apply inv_ret. exists chain, name, answers.
    cbn [res_Answers res_Authority res_Secure].
    split_and!; [done..|simpl; lia|constructor|done| | |by split].
    + intros Hb. destruct (Hyes Hb) as [? Ha]. split_and!; [done| |done].
      intros Hasc. eapply Forall_impl; [by apply Ha|]. intros rr ?. exists qname. split; [by left|done].
    + intros Hb Hv. exists qname. split; [by left|by apply Hno].
Qed.

Lemma inv_respond resp minimizing wk :
  walk_sound qname wk -> decoded_message resp ->
  inv I (respond r checkingDisabled rec resp qname qtype depth glueDepth minimizing wk) outcome_sound refused_here.
Proof.
  intros Hwk Hresp. unfold respond. destruct (_ && minimizing); [by apply inv_ret, walk_sound_turn|].
  eapply inv_bind; [by apply inv_follow_signer|]. clear wk Hwk. intros wk Hwk.
  destruct (_ =? RCodeNameError).
  - eapply inv_bind; [apply inv_now|]. intros t _.
    eapply inv_bind; [by apply inv_lift_bogus; intros b Hb; apply (denial_checked wk _ _ _ _ Hwk) in Hb;
      [exact Hb|apply proof_name]|].
    intros b [Hyes Hno]. apply inv_throw. split; [done|]. intros name soa [= <- <-].
    split; [intros rr Hrr; split; [by apply first_soa_spec in Hrr|by apply (first_soa_decoded resp)]|].
    exists []. split; [constructor|]. intros Hv.
    destruct b; [left; by apply Hyes|right; by apply Hno].
  - destruct (negb _); [by apply inv_throw, refusal_other|by apply inv_success].
Qed.

Lemma inv_step wk : walk_sound qname wk ->
  inv I (step r checkingDisabled rec qname qtype depth glueDepth wk) outcome_sound refused_here.
Proof.
  intros Hwk. unfold step. cbn zeta. eapply inv_bind.
  { eapply inv_try, inv_ask; [apply (ri_walk I HI)|done|exact (fun _ h => h)]. }
  intros [[resp s]|e] Hreply; [|by apply inv_no_reply].
  apply inv_respond; [done|]. by destruct Hreply as (_ & _ & ? & _).
Qed.

Lemma inv_rounds n : forall wk, walk_sound qname wk ->
  inv I (rounds r checkingDisabled rec n qname qtype depth glueDepth wk) (resolved qname qtype depth) refused_here.
Proof.
  induction n as [|n IH]; intros wk Hwk; cbn [rounds];
    (eapply inv_bind; [eapply (inv_ctx_Err r); [apply (wi_net r I (ri_walk I HI))|by apply refusal_other]|]; intros _ _).
  - by apply inv_throw, refusal_other.
  - eapply inv_bind; [by apply inv_step|]. intros [res|wk'] Ho; [by apply inv_ret|by apply IH].
Qed.
End round.

(** *** The recursion *)

Lemma inv_assoc {A B C} (m : M A) (f : A -> M B) (g : B -> M C) Q E :
  inv I ((m ≫= f) ≫= g) Q E -> inv I (m ≫= (fun a => f a ≫= g)) Q E.
Proof. intros Hi w. eapply obeys_same; [|apply Hi]. apply M_bind_assoc. Qed.

Lemma inv_resolve_body rec qname qtype depth glueDepth :
  labels_full qname -> (depth < maxCNAMEChain)%nat ->
  (forall name depth', labels_full name -> (depth < depth' < maxCNAMEChain)%nat ->
    inv I (rec name qtype depth' glueDepth) (resolved name qtype depth') (refused validating name qtype)) ->
  (forall ns, labels_full ns -> (glueDepth < maxGlueLookups)%nat ->
    inv I (rec ns TypeA 0%nat (S glueDepth)) (fun _ => True) (fun _ => True)) ->
  inv I (resolve_body r checkingDisabled rec qname qtype depth glueDepth)
    (resolved qname qtype depth) (refused validating qname qtype).
Proof.
  intros Hname Hdepth Hrec Hglue. unfold resolve_body.
  eapply (inv_bind _ _ _ (fun _ => True)).
  { case_bool_decide; [|by apply inv_ret]. by eapply inv_mono; [apply inv_primeRootServers|..]. }
  intros _ _. eapply inv_bind; [apply inv_startingPoint|]. intros [[[zone servers] wasSecure] fromCache] [Hsub Hd].
  cbn [fst snd] in Hsub, Hd. apply inv_assoc. eapply inv_bind.
  { eapply inv_mono; [by apply (inv_start qname)|exact (fun _ h => h)|apply refusal_validate]. }
  intros wk Hwk. by apply inv_rounds.
Qed.

(** So many calls are left when the chain and the glue lookups are at these
    depths. *)
Definition calls_left (depth glueDepth : nat) : nat :=
  ((maxGlueLookups - glueDepth) * maxCNAMEChain + (maxCNAMEChain - depth))%nat.

Lemma inv_resolve fuel : forall qname qtype depth glueDepth,
  labels_full qname -> (depth < maxCNAMEChain)%nat -> (glueDepth <= maxGlueLookups)%nat ->
  (calls_left depth glueDepth <= fuel)%nat ->
  inv I (resolve r checkingDisabled fuel qname qtype depth glueDepth)
    (resolved qname qtype depth) (refused validating qname qtype).
Proof.
  unfold calls_left, maxGlueLookups, maxCNAMEChain.
  induction fuel as [|fuel IH]; intros qname qtype depth glueDepth Hname Hd Hg Hf; [lia|].
  cbn [resolve]. apply inv_resolve_body; [done|done|..].
  - intros name depth' Hn Hd'. apply IH; unfold maxCNAMEChain in *; [done|lia..].
  - intros ns Hn Hg'. eapply inv_mono; [apply IH|done|done]; unfold maxGlueLookups in *; [done|lia..].
Qed.

Lemma inv_ResolveRR qname qtype : labels_full qname ->
  inv I (ResolveRR r checkingDisabled qname qtype)
    (resolved qname qtype 0) (refused validating qname qtype).
Proof. intros. apply inv_resolve; unfold maxCNAMEChain; [done|lia..|]. done. Qed.
End resolver.
