(* ===== verification/Resolution.v ===== *)
(** Resolving: the state of a resolver that is never left, and what [ResolveRR]
    promises its callers in it. *)

From S2P Require Import Prelude Prog GoUnicode GoStrings GoNet DnsMsg Encoder Decoder WireSpec WireCalculus WireNames WireRoundTrip DecoderSafe DnssecRecords DnssecNames Verify Denial Lru DelegationCache ServerChoice Privacy Upstream UpstreamSpec TrustAnchor Validate ValidateSpec Resolve ResolveSpec.

Open Scope Z_scope.

(** ** Keys of the caches *)

Lemma trim_dot_full zone : labels_full zone -> trim_dot (trim_dot zone) = trim_dot zone.
Proof.
  intros Hf. rewrite <-(Join_splitName zone). apply trim_dot_Join; [done|apply splitName_no_sep].
Qed.

Lemma normalizeZone_twice zone : labels_full zone -> ToLower (trim_dot (normalizeZone zone)) = normalizeZone zone.
Proof.
  intros Hf. unfold normalizeZone. by rewrite trim_dot_ToLower, trim_dot_full, ToLower_twice.
Qed.

Lemma zoneName_below k zone :
  ToLower (trim_dot k) = k -> k = normalizeZone zone -> isSubdomainOrEqual (zoneName k) zone = true.
Proof.
  intros Hk E. unfold isSubdomainOrEqual, zoneName. change (ToLower (trim_dot zone)) with (normalizeZone zone).
  rewrite <-E. case_bool_decide as Hn; [by subst k; rewrite Hn|].
  by rewrite Hk, (bool_decide_true (k = k)), orb_true_r.
Qed.

Lemma below_zoneName qname k :
  encloses k (normalizeZone qname) -> ToLower (trim_dot k) = k -> isSubdomainOrEqual qname (zoneName k) = true.
Proof. intros He Hk. unfold zoneName. case_bool_decide; [done|by apply encloses_subdomain]. Qed.

(** ** The state of a resolver *)

Section world.
Context `{Crypto} `{Env} (r : Resolver).

(** The delegation cache is sound and bounded, its keys are normalised and its
    insecure entries are of unsigned zones; the key cache only holds keys at the
    end of a chain of trust; the table of round-trip times is bounded; every
    packet ever sent went to an address that may be asked, on a socket whose
    deadline is within the time of an exchange and the budget of its query. *)
Record world_ok (w : world) : Prop := {
  wo_delegations : forall c, w_delegations w = Some c -> dcache_ok c /\
    forall k e, (k, e) ∈ recency (dc_lru c) ->
      ToLower (trim_dot k) = k /\ delegation_sound r (zoneName k) (de_secure e);
  wo_keys : forall m k e, w_keys w = Some m -> m !! k = Some e ->
    exists zone, normalizeZone zone = k /\ chain (trustAnchors r) zone (ke_keys e);
  wo_rtt : rtt_bounded (w_rtt w);
  wo_sent : Forall (fun x => allowsUpstream r (ex_to x).1 = true /\ (ex_to x).2 = upstreamPort r /\ in_time r x) (w_sent w) }.

Lemma new_world_ok : world_ok new_world.
Proof.
  split; cbn [new_world w_delegations w_keys w_rtt w_sent].
  - intros c [= <-]. split; [|by intros k e ?%elem_of_nil].
    split; [apply empty_lru_ok|vm_compute; lia|vm_compute; lia|by intros k e ?%elem_of_nil].
  - by intros m k e [= <-].
  - cbn. unfold newRTTTracker. rewrite map_size_empty. lia.
  - constructor.
Qed.

Context (Henv : env_ok).

Lemma world_ok_net : net_invariant r (fun s => allowsUpstream r s = true) world_ok.
Proof.
  split.
  - by intros n w [? ? ? ?].
  - intros n ip took w [? ? ? ?]. split; [done..| |done]. apply observe_bounded; [apply (env_first Henv)|done].
  - intros ip x w Hip Hto Ht [? ? ? Hs]. split; [done..|]. constructor; [by rewrite Hto|done].
Qed.

Lemma world_ok_walk : walk_invariant r world_ok.
Proof.
  split; [apply world_ok_net|..].
  - intros w t zone keys Hw. unfold keys_get. destruct (w_keys w) as [m|] eqn:E; [|done].
    destruct (m !! normalizeZone zone) as [e|] eqn:El; [|done]. destruct (t <? ke_expiry e); [|done].
    intros [= <-]. destruct (wo_keys w Hw m _ e E El) as (zone' & Hz & Hc). eapply chain_same; [done|by left].
  - intros w t zone keys ttl Hw Hc. pose proof Hw as [Hd Hk Hr Hs]. split; [done| |done|done].
    cbn [set_keys w_keys]. intros m k e. unfold keys_put. destruct (w_keys w) as [m0|] eqn:E; [|done].
    case_bool_decide; [intros [= <-]; by apply Hk|]. intros [= <-].
    destruct (decide (normalizeZone zone = k)) as [<-|Hne].
    + rewrite lookup_insert_eq. intros [= <-]. by exists zone.
    + rewrite lookup_insert_ne by done. by apply Hk.
Qed.

(** The delegation cache may lose entries and gain sound ones. *)
Lemma world_ok_delegations w c' :
  world_ok w ->
  (forall c, w_delegations w = Some c -> dcache_ok c' /\ forall k e, (k, e) ∈ recency (dc_lru c') ->
    (k, e) ∈ recency (dc_lru c) \/ ToLower (trim_dot k) = k /\ delegation_sound r (zoneName k) (de_secure e)) ->
  world_ok (set_delegations (match w_delegations w with Some _ => Some c' | None => None end) w).
Proof.
  intros [Hd Hk Hr Hs] Hc. split; [|done..]. cbn [set_delegations w_delegations].
  destruct (w_delegations w) as [c|]; [|done]. intros c0 [= <-].
  destruct (Hc c eq_refl) as [Hok Hin]. split; [done|]. intros k e [Hold|?]%Hin; [|done].
  by destruct (Hd c eq_refl) as [_ He]; apply He.
Qed.

Lemma world_ok_resolve : resolve_invariant r world_ok.
Proof.
  split; [apply world_ok_walk|by intros ips till w [? ? ? ?]|..].
  - intros w t qname Hw. pose proof (wo_delegations w Hw) as Hd.
    unfold closestEnclosing. destruct (w_delegations w) as [c|] eqn:E.
    2: { split; [|done]. destruct Hw. by split. }
    destruct (Hd c eq_refl) as [Hok Hin].
    pose proof (closest_loop_spec (S (length (normalizeZone qname))) c t (normalizeZone qname) Hok ltac:(lia)) as Hc.
    destruct (closest_loop _ c t _) as [c' found]. destruct Hc as (H1 & H2 & H3 & H4). cbn [fst snd] in *. split.
    + pose proof (world_ok_delegations w c' Hw) as Hw'. rewrite E in Hw'. apply Hw'.
      intros c0 [= <-]. split; [done|]. intros k e ?. left. by apply H2.
    + intros zone servers secure ->. destruct H4 as (k & e & (Hk & Henc & _) & -> & _ & -> & _).
      destruct (Hin k e Hk). split; [by apply below_zoneName|done].
  - intros w t zone servers ttl secure Hw Hf Hs. unfold put.
    destruct (w_delegations w) as [c|] eqn:E; cbn [fmap option_fmap option_map].
    2: { destruct Hw as [? ? ? ?]. by split. }
    pose proof (world_ok_delegations w (put_delegation c t zone servers ttl secure) Hw) as Hw'.
    rewrite E in Hw'. apply Hw'. intros c0 [= <-]. destruct (wo_delegations w Hw c E) as [Hok Hin].
    destruct (decide (servers = [])) as [->|Hne]; [split; [done|]; auto|].
    destruct (put_delegation_spec c t zone servers ttl secure Hok Hne) as (? & _ & Hrec). split; [done|].
    intros k e. rewrite Hrec. intros [[= -> ->]|[_ ?]%list_elem_of_filter]%elem_of_take_in%elem_of_cons; [right|by left].
    pose proof (normalizeZone_twice zone Hf) as Hk. split; [done|]. intros Hsec Hr.
    eapply unsigned_below; [by apply Hs|by apply zoneName_below].
  - intros w zone Hw. destruct (w_delegations w) as [c|] eqn:E.
    2: { destruct Hw as [? ? ? ?]. by split. }
    destruct (wo_delegations w Hw c E) as [Hok Hin]. destruct (forget_spec c zone Hok) as (c' & -> & Hok' & Hrec).
    pose proof (world_ok_delegations w c' Hw) as Hw'. rewrite E in Hw'. apply Hw'. intros c0 [= <-].
    split; [done|]. intros k e. rewrite Hrec. intros [_ ?]%list_elem_of_filter. by left.
Qed.
End world.

(** ** Fuel does not matter *)

Section fuel.
Context `{Crypto} `{Env} (r : Resolver) (checkingDisabled : bool).

Lemma same_M_bind {A B} (m m' : M A) (f f' : A -> M B) :
  same m m' -> (forall a, same (f a) (f' a)) -> same (m ≫= f) (m' ≫= f').
Proof. intros Hm Hf. apply same_bind; [done|]. by intros [a|e]. Qed.

Lemma same_lift {A B} (a : A) (f f' : A -> M B) :
  same (f a) (f' a) -> same (lift (Ok a) ≫= f) (lift (Ok a) ≫= f').
Proof. done. Qed.

Lemma same_try {A} (m m' : M A) : same m m' -> same (try m) (try m').
Proof. intros Hm. by apply same_bind. Qed.

Context (rec rec' : gostring -> Z -> nat -> nat -> M Result) (qname : gostring) (qtype : Z) (depth glueDepth : nat).
Context (Hdepth : (depth < maxCNAMEChain)%nat).
Context (Hrec : forall name depth', (depth < depth' < maxCNAMEChain)%nat ->
  same (rec name qtype depth' glueDepth) (rec' name qtype depth' glueDepth)).
Context (Hglue : forall ns, (glueDepth < maxGlueLookups)%nat ->
  same (rec ns TypeA 0%nat (S glueDepth)) (rec' ns TypeA 0%nat (S glueDepth))).

Lemma same_resolve_glue names : (glueDepth < maxGlueLookups)%nat ->
  same (resolve_glue r rec names glueDepth) (resolve_glue r rec' names glueDepth).
Proof.
  intros Hg. induction names as [|ns names IH]; cbn [resolve_glue]; [done|].
  apply same_M_bind; [by apply same_try, Hglue|]. intros [res|e]; [|exact IH].
  destruct (answer_addresses _ _); [exact IH|done].
Qed.

Lemma same_no_answer resp minimizing wk :
  same (no_answer r checkingDisabled rec resp qname qtype glueDepth minimizing wk)
       (no_answer r checkingDisabled rec' resp qname qtype glueDepth minimizing wk).
Proof.
  unfold no_answer. cbn zeta. case_bool_decide; [done|]. unfold follow_referral.
  apply same_M_bind; [|done]. unfold referral_servers.
  destruct (glue_addresses _ _ _ _); [|done]. case_bool_decide; [done|].
  apply same_M_bind; [done|]. intros n. apply same_M_bind; [apply same_resolve_glue; lia|done].
Qed.

Lemma same_success resp minimizing wk :
  same (success r checkingDisabled rec resp qname qtype depth glueDepth minimizing wk)
       (success r checkingDisabled rec' resp qname qtype depth glueDepth minimizing wk).
Proof.
  unfold success. destruct minimizing; [apply same_no_answer|].
  pose proof (follow_chain_spec depth qtype (m_Answers resp) qname Hdepth maxCNAMEChain [] qname
    ltac:(lia) ltac:(simpl; lia) ltac:(constructor) ltac:(constructor)) as Hfc.
  destruct (follow_chain _ _ _ _ _ _) as [[[chain answers] name]|e]; [|done].
  destruct Hfc as (Hl & _ & _ & Hlen). apply same_lift.
  case_bool_decide as Hans; cbn [negb]; [|done].
  case_bool_decide as Hn; cbn [negb]; [by apply same_no_answer|].
  apply same_M_bind; [|done]. apply Hrec. split; [|done].
  destruct chain; [exfalso|simpl; lia]. destruct (linked_end _ _ _ _ Hl) as [[_ ?]|(? & ?%elem_of_nil & _)]; congruence.
Qed.

Lemma same_rounds n : forall wk,
  same (rounds r checkingDisabled rec n qname qtype depth glueDepth wk)
       (rounds r checkingDisabled rec' n qname qtype depth glueDepth wk).
Proof.
  induction n as [|n IH]; intros wk; cbn [rounds]; (apply same_M_bind; [done|]); intros _; [done|].
  apply same_M_bind; [|by intros [|]]. unfold step. cbn zeta. apply same_M_bind; [done|].
  intros [[resp s]|e]; [|done]. unfold respond. destruct (_ && _); [done|].
  apply same_M_bind; [done|]. intros wk'. destruct (_ =? RCodeNameError); [done|].
  destruct (negb _); [done|apply same_success].
Qed.

Lemma same_resolve_body :
  same (resolve_body r checkingDisabled rec qname qtype depth glueDepth)
       (resolve_body r checkingDisabled rec' qname qtype depth glueDepth).
Proof.
  unfold resolve_body. apply same_M_bind; [done|]. intros _. apply same_M_bind; [done|].
  intros [[[zone servers] wasSecure] fromCache]. apply same_M_bind; [done|]. intros sec.
  apply same_M_bind; [done|]. intros wk. apply same_rounds.
Qed.
End fuel.

Lemma resolve_fuel `{Crypto} `{Env} r cd fuel : forall fuel' qname qtype depth glueDepth,
  (depth < maxCNAMEChain)%nat -> (glueDepth <= maxGlueLookups)%nat ->
  (calls_left depth glueDepth <= fuel)%nat -> (calls_left depth glueDepth <= fuel')%nat ->
  same (resolve r cd fuel qname qtype depth glueDepth) (resolve r cd fuel' qname qtype depth glueDepth).
Proof.
  unfold calls_left, maxGlueLookups, maxCNAMEChain.
  induction fuel as [|fuel IH]; intros fuel' qname qtype depth glueDepth Hd Hg Hf Hf'; [lia|].
  destruct fuel' as [|fuel']; [lia|]. cbn [resolve]. apply same_resolve_body.
  - done.
  - intros name depth' Hd'. apply IH; unfold maxCNAMEChain in *; lia.
  - intros ns Hg'. apply IH; unfold maxGlueLookups in *; lia.
Qed.

(** ** What [ResolveRR] promises *)

Section promises.
Context `{Crypto} `{Env} (r : Resolver) (checkingDisabled : bool).

(** One of any number of resolutions with this resolver: others may change the
    shared state between its actions, as long as they keep it sound. *)
Definition may_return {A} (m : M A) (x : result resolve_error A) : Prop :=
  exists w, returns (world_ok r) anything w m x.

(** Everything at once. *)
Lemma ResolveRR_inv qname qtype : env_ok -> labels_full qname ->
  inv (world_ok r) (ResolveRR r checkingDisabled qname qtype)
    (resolution (trustAnchors r) (validates r checkingDisabled) qname qtype 0)
    (refusal (trustAnchors r) (validates r checkingDisabled) qname qtype).
Proof. intros Henv. by apply inv_ResolveRR; [apply world_ok_resolve|]. Qed.

Lemma ResolveRR_all qname qtype x :
  env_ok -> labels_full qname -> may_return (ResolveRR r checkingDisabled qname qtype) x ->
  match x with
  | Ok res => resolution (trustAnchors r) (validates r checkingDisabled) qname qtype 0 res
  | Err e => refusal (trustAnchors r) (validates r checkingDisabled) qname qtype e
  end.
Proof. intros Henv Hq [w Hr]. by eapply inv_returns; [apply ResolveRR_inv|]. Qed.

(** C6: An answer belongs to the question: its records are a chain of CNAMEs that
    starts at the name asked for, each at the target of the one before and at most
    fourteen of them, followed by records of the type asked for at the chain's
    end - a client can always follow it - or by none, and only then an SOA record
    of the authority section comes along.  All are records the decoder can return,
    so an address has as many bytes as one of its family.  As for the theorems below, any number
    of other resolutions may be under way. *)
Theorem ResolveRR_answers qname qtype res :
  env_ok -> labels_full qname -> may_return (ResolveRR r checkingDisabled qname qtype) (Ok res) ->
  exists chain name tail, linked qtype qname chain name /\ res_Answers res = chain ++ tail /\
    Forall (answering qtype name) tail /\ (length chain < maxCNAMEChain)%nat /\
    (res_Authority res = [] \/ tail = [] /\ exists soa, res_Authority res = [soa] /\ is_soa soa = true) /\
    well_formed res.
Proof.
  intros Henv Hq Hr. apply ResolveRR_all in Hr; [|done..].
  destruct Hr as (chain & name & tail & Hl & Ha & Ht & Hlen & H1 & H2 & H3 & _ & _ & Hwell).
  exists chain, name, tail. split_and!; [done..| |done].
  destruct (res_Authority res) as [|soa [|]] eqn:Es; [by left| |simpl in H1; lia].
  right. split.
  - destruct tail; [done|]. by specialize (H3 ltac:(done)).
  - exists soa. split; [done|]. by apply Forall_inv in H2.
Qed.

(** C3: Secure means verified: with a result marked secure, validation was on, every
    record of the answer lies in a set with a signature that verifies under a key
    of the chain of trust from the trust anchors down to a zone above one of the
    names asked for on the way, a set expanded from a wildcard with signed proof
    that nothing closer exists, and an empty answer with signed proof that the
    name has no such data.  This holds however the resolution interleaves with
    others that share its caches.  (Names that are ASCII: the key under which a
    set counts as already checked folds fewer letters than the comparison that
    selects it, see the findings.) *)
Theorem ResolveRR_secure qname qtype res :
  env_ok -> labels_full qname -> may_return (ResolveRR r checkingDisabled qname qtype) (Ok res) ->
  res_Secure res = true ->
  r_validate r = true /\ checkingDisabled = false /\
  exists chain name tail, linked qtype qname chain name /\ res_Answers res = chain ++ tail /\
    (ascii_names (res_Answers res) -> vetted (trustAnchors r) (visited qname chain) (res_Answers res)) /\
    (tail = [] -> denied (trustAnchors r) name (fun nsecs => ProveNoData nsecs name qtype)).
Proof.
  intros Henv Hq Hr Hsec. apply ResolveRR_all in Hr; [|done..].
  destruct Hr as (chain & name & tail & Hl & Ha & _ & _ & _ & _ & _ & Hs & _).
  destruct (Hs Hsec) as (Hv & Hvet & Hden). apply andb_true_iff in Hv as [Hv Hc].
  split_and!; [done|by destruct checkingDisabled|]. by exists chain, name, tail.
Qed.

(** C4: No downgrade: when validation is on, an answer that is not marked secure is
    only returned for a name below a zone that a chain of trust proves unsigned -
    by signed proof that it has no DS record, or by signed DS records that cannot
    be used - or whose signatures or proofs are of a kind that cannot be checked.
    Leaving signatures out, forging them or denying them is never enough, nor is
    a race with other resolutions over the caches. *)
Theorem ResolveRR_no_downgrade qname qtype res :
  env_ok -> labels_full qname -> r_validate r = true -> checkingDisabled = false ->
  may_return (ResolveRR r checkingDisabled qname qtype) (Ok res) -> res_Secure res = false ->
  exists chain name tail, linked qtype qname chain name /\ res_Answers res = chain ++ tail /\
    excused (trustAnchors r) (visited qname chain).
Proof.
  intros Henv Hq Hval Hc Hr Hsec. apply ResolveRR_all in Hr; [|done..].
  destruct Hr as (chain & name & tail & Hl & Ha & _ & _ & _ & _ & _ & _ & Hns).
  exists chain, name, tail. split_and!; [done..|]. apply Hns; [done|]. unfold validates. by rewrite Hval, Hc.
Qed.

(** C8: "No such name" is never said of a name in a signed zone without proof: the
    error is for the end of a chain of CNAMEs from the name asked for, carries at
    most an SOA record, and, with validation on, signed records prove that this
    name does not exist, or it is excused as above. *)
Theorem ResolveRR_nxdomain qname qtype name soa :
  env_ok -> labels_full qname ->
  may_return (ResolveRR r checkingDisabled qname qtype) (Err (NXDOMAINError name soa)) ->
  (forall rr, soa = Some rr -> is_soa rr = true /\ decoded_rr rr) /\
  (exists chain, linked qtype qname chain name) /\
  (r_validate r = true -> checkingDisabled = false ->
    denied (trustAnchors r) name (fun nsecs => ProveNameError nsecs name) \/ excuse (trustAnchors r) name).
Proof.
  intros Henv Hq Hr. apply ResolveRR_all in Hr; [|done..].
  destruct Hr as [_ Hnx]. destruct (Hnx name soa eq_refl) as (Hsoa & chain & Hl & Hd).
  split_and!; [done|by exists chain|]. intros Hv Hc. apply Hd. unfold validates. by rewrite Hv, Hc.
Qed.

(** C7: A resolution ends, whatever the servers answer and other resolutions do: it is
    a finite tree of actions none of which waits for another goroutine, so from
    any sound state it can run to its end.  CNAME chains and lookups of name
    server addresses nest at most [resolve_depth] calls deep, so more fuel gives
    the same program and the model never runs out of it - nor does the descent to
    a signer, which would show as [EFuel] as well. *)
Theorem ResolveRR_ends qname qtype w :
  env_ok -> labels_full qname -> world_ok r w ->
  (exists w' x, exec (ResolveRR r checkingDisabled qname qtype) w = Some (w', x) /\ world_ok r w' /\
    may_return (ResolveRR r checkingDisabled qname qtype) x) /\
  ~ may_return (ResolveRR r checkingDisabled qname qtype) (Err EFuel) /\
  forall fuel, (resolve_depth <= fuel)%nat ->
    same (resolve r checkingDisabled fuel qname qtype 0 0) (ResolveRR r checkingDisabled qname qtype).
Proof.
  intros Henv Hq Hw. pose proof (ResolveRR_inv qname qtype Henv Hq) as Hinv. split_and!.
  - destruct (inv_exec _ _ _ _ w Hinv Hw) as (w' & x & E & Hw' & _). exists w', x. split_and!; [done|done|].
    exists w. exact (exec_returns False (world_ok r) anything _ _ w w' x (Hinv w) Hw E).
  - intros Hr. apply ResolveRR_all in Hr; [|done..]. by destruct Hr.
  - intros fuel Hf. apply resolve_fuel; unfold maxCNAMEChain, maxGlueLookups; [lia..|done|done].
Qed.

End promises.

(** ** Any number of resolutions *)

Section resolutions.
Context `{Crypto} `{Env} (r : Resolver).

(** A call of [ResolveRR]: the name, the type, and whether validation is off. *)
Record asked := MkAsked { ak_qname : gostring; ak_qtype : Z; ak_cd : bool }.

Definition resolving (c : asked) : M Result := ResolveRR r (ak_cd c) (ak_qname c) (ak_qtype c).

Definition promised (c : asked) (x : result resolve_error Result) : Prop :=
  match x with
  | Ok res => resolution (trustAnchors r) (validates r (ak_cd c)) (ak_qname c) (ak_qtype c) 0 res
  | Err e => refusal (trustAnchors r) (validates r (ak_cd c)) (ak_qname c) (ak_qtype c) e
  end.

(** C5: Any number of resolutions at once, begun at any time and interleaved in any
    way, on a resolver that starts out new or sound: whatever the network answers,
    the state they share is sound at every moment - the delegation cache stays
    within its bound and every insecure zone it remembers is one a chain of trust
    proves unsigned, the key cache, which the code does not bound, only holds keys
    such a chain ends in, the table of round-trip times is bounded, and every packet
    ever sent went to the upstream port of an address that may be asked, on a socket
    whose deadline is within the time of one exchange and the budget of the query it
    serves.  And each that has ended returned what one may return, with all that the
    theorems above say of it. *)
Theorem ResolveRR_state (start : world) w goroutines :
  env_ok -> (start = new_world \/ world_ok r start) ->
  pool_reach resolving (fun c => labels_full (ak_qname c)) start w goroutines ->
  world_ok r w /\
  forall i c x, goroutines !! i = Some (c, Ret x) -> may_return r (resolving c) x /\ promised c x.
Proof.
  intros Henv Hstart Hr. assert (Hok : world_ok r start) by (destruct Hstart as [-> |?]; [apply new_world_ok|done]).
  assert (Hobeys : forall c w0, labels_full (ak_qname c) -> world_ok r w0 ->
    obeys False (world_ok r) anything w0 (resolving c) (fun _ => promised c))
    by (intros c w0 Hq _; exact (ResolveRR_inv r (ak_cd c) (ak_qname c) (ak_qtype c) Henv Hq w0)).
  destruct (pool_obeys False _ anything _ _ start (fun c _ => promised c) Hok ltac:(done) Hobeys w goroutines Hr) as (Hw & _ & Hall).
  pose proof (pool_returns False _ anything _ _ start (fun c _ => promised c) Hok ltac:(done) Hobeys w goroutines Hr) as Hret.
  split; [done|]. intros i c x Hi. split.
  - apply (Forall_lookup_1 _ _ _ _ Hret Hi). constructor.
  - exact (Forall_lookup_1 _ _ _ _ Hall Hi).
Qed.
End resolutions.
