(* ===== verification/Handler.v ===== *)
(** The handler at the end of the chain ([resolverhandler/resolverhandler.go]): it
    asks the resolver and turns what comes back, errors included, into a reply. *)

From S2P Require Import Prelude Prog GoUnicode GoStrings GoNet DnsMsg Encoder Decoder WireSpec WireCalculus WireNames WireRoundTrip DecoderSafe DnssecRecords DnssecNames Verify Denial Privacy Interface Upstream UpstreamSpec TrustAnchor Validate ValidateSpec Resolve ResolveSpec Resolution.

Open Scope Z_scope.

Lemma decoded_query buf req : bytes buf -> Unpack buf = Ok req -> proper_query req.
Proof.
  intros Hb E. apply Unpack_decoded in E as (Hh & [_ Hq] & _); [|done]. split; [apply Hh|].
  eapply Forall_impl; [exact Hq|]. intros q [Hn _]. by apply decoded_name_full.
Qed.

(** ** Errors to response codes *)

Definition opcodeQuery : Z := 0.

(** The response a handler starts from, with what it fills in. *)
Definition response (req : Message) (rcode : Z) (ad cd : bool) (answers authorities : list RR) : Message :=
  let h := m_Header req in
  MkMessage (MkHeader (h_ID h) true (h_Opcode h) false false (h_RD h) true ad cd rcode 0 0 0 0)
    (m_Questions req) answers authorities [].

Section handler.
Context `{Crypto} `{Env} (r : Resolver).

(** The switch of [ServeDNS] over the outcome of the resolution. *)
Definition outcome_response (req : Message) (cd : bool) (x : result resolve_error Result) : Message :=
  match x with
  | Err ErrBogus => response req RCodeServerFailure false cd [] []
  | Ok res => response req RCodeSuccess (res_Secure res) cd (res_Answers res) (res_Authority res)
  | Err (NXDOMAINError _ soa) => response req RCodeNameError false cd [] (option_list soa)
  | Err _ => response req RCodeServerFailure false cd [] []
  end.

Definition ServeDNS : Handler world := fun addr req =>
  if negb (h_Opcode (m_Header req) =? opcodeQuery) then Ret [response req RCodeNotImplemented false false [] []]
  else
    match m_Questions req with
    | [q] =>
      let cd := h_CD (m_Header req) in
      x ← (ResolveRR r cd (q_Name q) (q_Type q) : prog _ _);
      Ret [outcome_response req cd x]
    | _ => Ret [response req RCodeFormatError false false [] []]
    end.

(** ** What it promises *)

(** The records of an answer have been verified on the way from the name asked for. *)
Definition verified_answer (qname : gostring) (qtype : Z) (answers : list RR) : Prop :=
  exists chain name tail, linked qtype qname chain name /\ answers = chain ++ tail /\
    (ascii_names answers -> vetted (trustAnchors r) (visited qname chain) answers) /\
    (tail = [] -> denied (trustAnchors r) name (fun nsecs => ProveNoData nsecs name qtype)).

(** An answer not marked authentic that is passed on has an excuse. *)
Definition excused_answer (qname : gostring) (qtype : Z) (answers : list RR) : Prop :=
  exists chain name tail, linked qtype qname chain name /\ answers = chain ++ tail /\
    excused (trustAnchors r) (visited qname chain).

Definition missing_name (qname : gostring) (qtype : Z) : Prop :=
  exists chain name, linked qtype qname chain name /\
    (denied (trustAnchors r) name (fun nsecs => ProveNameError nsecs name) \/ excuse (trustAnchors r) name).

(** A reply that may leave the handler: marked authentic only if verified, and if
    the resolver validates and the client did not ask it not to, only verified or
    excused in any case. *)
Definition vouched_reply (req msg : Message) : Prop :=
  forall q, m_Questions req = [q] ->
  (h_AD (m_Header msg) = true -> h_CD (m_Header req) = false /\ r_validate r = true /\
    h_RCode (m_Header msg) = RCodeSuccess /\ verified_answer (q_Name q) (q_Type q) (m_Answers msg)) /\
  (r_validate r = true -> h_CD (m_Header req) = false ->
    (h_RCode (m_Header msg) = RCodeSuccess -> h_AD (m_Header msg) = false ->
      excused_answer (q_Name q) (q_Type q) (m_Answers msg)) /\
    (h_RCode (m_Header msg) = RCodeNameError -> missing_name (q_Name q) (q_Type q))).

(** Such a reply, and one that can be sent. *)
Definition sound_reply (req msg : Message) : Prop := vouched_reply req msg /\ formed msg.

Lemma outcome_vouched req q cd x :
  m_Questions req = [q] -> cd = h_CD (m_Header req) ->
  match x with
  | Ok res => resolution (trustAnchors r) (validates r cd) (q_Name q) (q_Type q) 0 res
  | Err e => refusal (trustAnchors r) (validates r cd) (q_Name q) (q_Type q) e
  end ->
  vouched_reply req (outcome_response req cd x).
Proof.
  intros Hq Hcd Hx q' Hq'. rewrite Hq in Hq'. injection Hq' as <-. unfold validates in Hx. rewrite Hcd in Hx |- *.
  destruct x as [res|e].
  - destruct Hx as (chain & name & tail & Hl & Ha & _ & _ & _ & _ & _ & Hs & Hns & _).
    cbn [outcome_response response m_Header m_Answers h_AD h_RCode]. split.
    + intros Hsec. destruct (Hs Hsec) as ([Hv Hc]%andb_true_iff & ? & ?).
      split_and!; [by destruct (h_CD _)|done|done|by exists chain, name, tail].
    + intros Hv Hc. rewrite Hv, Hc in Hns. split; [|done]. intros _ Hsec. exists chain, name, tail. auto.
  - assert (Hother : forall rcode auth, rcode <> RCodeSuccess ->
      (r_validate r = true -> h_CD (m_Header req) = false -> rcode = RCodeNameError -> missing_name (q_Name q) (q_Type q)) ->
      let msg := response req rcode false (h_CD (m_Header req)) [] auth in
      (h_AD (m_Header msg) = true -> h_CD (m_Header req) = false /\ r_validate r = true /\
        h_RCode (m_Header msg) = RCodeSuccess /\ verified_answer (q_Name q) (q_Type q) (m_Answers msg)) /\
      (r_validate r = true -> h_CD (m_Header req) = false ->
        (h_RCode (m_Header msg) = RCodeSuccess -> h_AD (m_Header msg) = false ->
          excused_answer (q_Name q) (q_Type q) (m_Answers msg)) /\
        (h_RCode (m_Header msg) = RCodeNameError -> missing_name (q_Name q) (q_Type q)))) by naive_solver.
    destruct e; try (apply Hother; done). apply Hother; [done|]. intros Hv Hc _.
    destruct Hx as [_ Hx]. destruct (Hx _ _ eq_refl) as (_ & chain & Hl & Hd).
    exists chain, name. split; [done|]. apply Hd. by rewrite Hv, Hc.
Qed.

Lemma response_formed req rcode ad cd answers authorities : proper_query req ->
  0 <= rcode < 16 -> Forall decoded_rr answers -> Forall decoded_rr authorities ->
  formed (response req rcode ad cd answers authorities).
Proof. by intros [Hop _] Hr Ha Hn. Qed.

Lemma outcome_formed req cd q x : proper_query req ->
  match x with
  | Ok res => resolution (trustAnchors r) (validates r cd) (q_Name q) (q_Type q) 0 res
  | Err e => refusal (trustAnchors r) (validates r cd) (q_Name q) (q_Type q) e
  end -> formed (outcome_response req cd x).
Proof.
  intros Hp Hx.
  assert (Hcodes : forall rcode, rcode ∈ [RCodeSuccess; RCodeServerFailure; RCodeNameError] -> 0 <= rcode < 16).
  { intros rcode Hr. repeat (apply elem_of_cons in Hr as [-> |Hr]; [by vm_compute|]). by apply elem_of_nil in Hr. }
  destruct x as [res|e].
  - destruct Hx as (chain & name & tail & _ & _ & _ & _ & _ & _ & _ & _ & _ & [Ha Hn]).
    apply response_formed; [done|apply Hcodes; set_solver|done..].
  - destruct Hx as [_ Hnx]. assert (Hfail : formed (response req RCodeServerFailure false cd [] []))
      by (apply response_formed; [done|apply Hcodes; set_solver|constructor..]).
    destruct e; try exact Hfail. apply response_formed; [done|apply Hcodes; set_solver|constructor|].
    destruct (Hnx _ _ eq_refl) as [Hsoa _]. destruct soa as [rr|]; cbn; [|constructor]. constructor; [by apply Hsoa|constructor].
Qed.

Lemma outcome_replies req cd x : replies req (outcome_response req cd x).
Proof. destruct x as [res|[]]; by split_and!. Qed.

Lemma resolving_obeys req q w :
  env_ok -> proper_query req -> m_Questions req = [q] ->
  obeys False (world_ok r) anything w (ResolveRR r (h_CD (m_Header req)) (q_Name q) (q_Type q))
    (fun _ x => sound_reply req (outcome_response req (h_CD (m_Header req)) x)).
Proof.
  intros Henv Hp Hq. pose proof Hp as [_ Hn]. rewrite Hq in Hn. apply Forall_inv in Hn.
  eapply obeys_mono; [apply (ResolveRR_inv r (h_CD (m_Header req)) (q_Name q) (q_Type q) Henv Hn w)|].
  intros w1 x Hx. split; [by apply (outcome_vouched req q)|by apply (outcome_formed req _ q)].
Qed.

#[export] Instance ServeDNS_serves : env_ok -> Serves False ServeDNS (world_ok r) anything sound_reply.
Proof.
  intros Henv. split; [apply _|]. intros addr req w Hp. unfold ServeDNS.
  assert (Hformed : forall rcode, 0 <= rcode < 16 -> formed (response req rcode false false [] []))
    by (intros rcode Hr; apply response_formed; [done|exact Hr|constructor..]).
  destruct (negb _); [apply obeys_reply; [by split_and!|split; [by intros q ?; split_and!|apply Hformed; by vm_compute]]|].
  destruct (m_Questions req) as [|q [|q' qs]] eqn:Hq.
  1, 3: apply obeys_reply; [by split_and!|split; [intros q0 Hq0; by rewrite Hq in Hq0|apply Hformed; by vm_compute]].
  eapply obeys_bind; [by apply resolving_obeys|]. intros w' x Hx. apply obeys_reply; [apply outcome_replies|done].
Qed.

(** C9: Every query gets exactly one reply, with its own identifier and question, and
    the response code says what happened: other opcodes are not implemented and
    other than one question is malformed, both without any resolution; an answer
    or an empty one is "no error", a missing name "name error", and everything
    else - data that failed validation above all - "server failure" without
    data.  AD is only set for an answer that was verified, never when the client
    set CD; every record is one the encoder can write; with validation on, an unverified answer needs an excuse and a missing
    name a proof or an excuse.  Any number of other queries may be served at the
    same time, and none can keep this one from ending. *)
Theorem ServeDNS_outcome addr req w :
  env_ok -> world_ok r w -> proper_query req ->
  (exists w' out, exec (ServeDNS addr req) w = Some (w', out)) /\
  forall out, returns (world_ok r) anything w (ServeDNS addr req) out ->
  exists msg, out = [msg] /\ replies req msg /\ vouched_reply req msg /\ formed msg /\
    (h_Opcode (m_Header req) <> opcodeQuery ->
      ServeDNS addr req = Ret [msg] /\ h_RCode (m_Header msg) = RCodeNotImplemented) /\
    (h_Opcode (m_Header req) = opcodeQuery -> length (m_Questions req) <> 1%nat ->
      ServeDNS addr req = Ret [msg] /\ h_RCode (m_Header msg) = RCodeFormatError) /\
    (forall q, h_Opcode (m_Header req) = opcodeQuery -> m_Questions req = [q] ->
      h_CD (m_Header msg) = h_CD (m_Header req) /\
      exists x, may_return r (ResolveRR r (h_CD (m_Header req)) (q_Name q) (q_Type q)) x /\
      match x with
      | Ok res => h_RCode (m_Header msg) = RCodeSuccess /\ m_Answers msg = res_Answers res /\
          m_Authorities msg = res_Authority res /\ h_AD (m_Header msg) = res_Secure res
      | Err (NXDOMAINError _ soa) => h_RCode (m_Header msg) = RCodeNameError /\ m_Answers msg = [] /\
          m_Authorities msg = option_list soa /\ h_AD (m_Header msg) = false
      | Err _ => h_RCode (m_Header msg) = RCodeServerFailure /\ m_Answers msg = [] /\
          m_Authorities msg = [] /\ h_AD (m_Header msg) = false
      end).
Proof.
  intros Henv Hw Hp. pose proof (serves_obeys (Serves := ServeDNS_serves Henv) addr req w Hp) as Hob.
  split; [exact (obeys_total False (world_ok r) anything _ _ w id Hob Hw)|]. intros out Hret.
  pose proof (obeys_returns False _ anything _ _ out w Hob Hret) as [_ Hgood].
  unfold ServeDNS in Hret |- *.
  destruct (Z.eqb_spec (h_Opcode (m_Header req)) opcodeQuery) as [Hop|Hop]; cbn [negb] in Hret |- *.
  2: { apply returns_inv in Hret as <-. apply Forall_inv in Hgood as [? []]. eexists. by split_and!. }
  destruct (m_Questions req) as [|q [|q' qs]] eqn:Hq.
  1, 3: apply returns_inv in Hret as <-; apply Forall_inv in Hgood as [? []]; eexists; by split_and!.
  apply returns_bind in Hret as (w1 & x & Hx & <-%returns_inv). apply Forall_inv in Hgood as [? []].
  eexists. split_and!; [done..|]. intros q0 _ [= <-]. split; [by destruct x as [|[]]|].
  exists x. split; [by exists w|]. by destruct x as [|[]].
Qed.
End handler.
