(* ===== verification/Acl.v ===== *)
(** Access control ([middleware/acl/acl.go]), on the addresses and prefixes of Go's
    [net/netip]. *)

From S2P Require Import Prelude Prog GoUnicode GoStrings GoNet DnsMsg Encoder Decoder Privacy Interface Upstream UpstreamSpec.

Open Scope Z_scope.

(** ** [netip] *)

(** A [netip.Addr] without a zone: the bytes of an address of either family, most
    significant first. *)
Abbreviation Addr := (list Z).

(** [netip.AddrFromSlice]. *)
Definition AddrFromSlice (ip : IP) : option Addr :=
  match ip with
  | Some b => if bool_decide (length b = 4%nat) || bool_decide (length b = 16%nat) then Some b else None
  | None => None
  end.

(** [Addr.Unmap]: the IPv4 address inside an IPv4-mapped one. *)
Definition Unmap (a : Addr) : Addr :=
  if bool_decide (length a = 16%nat) && bool_decide (take 12 a = v4InV6Prefix) then drop 12 a else a.

(** A valid [netip.Prefix]: an address and a number of bits, at most its length. *)
Record Prefix := MkPrefix { px_Addr : Addr; px_Bits : Z }.

Definition BitLen (a : Addr) : Z := 8 * Z.of_nat (length a).

(** An address as the number its bytes write. *)
Definition addr_value (a : Addr) : Z := fold_left (fun v x => v * 256 + x) a 0.

(** [Prefix.Contains]: the families agree and so do the first bits, the rest being
    shifted out of the exclusive or. *)
Definition Contains (p : Prefix) (a : Addr) : bool :=
  (BitLen (px_Addr p) =? BitLen a) &&
  (Z.shiftr (Z.lxor (addr_value (px_Addr p)) (addr_value a)) (BitLen a - px_Bits p) =? 0).

(** ** The handler *)

Definition LoopbackOnly : list Prefix :=
  [MkPrefix [127; 0; 0; 0] 8; MkPrefix (replicate 15 0 ++ [1]) 128].

Definition addrIP (addr : net_Addr) : option Addr :=
  match addr with
  | UDPAddr ip | TCPAddr ip => Unmap <$> AddrFromSlice ip
  | OtherAddr => None
  end.

Definition permits (allowed : list Prefix) (addr : net_Addr) : bool :=
  match addrIP addr with
  | Some ip => existsb (fun p => Contains p ip) allowed
  | None => false
  end.

Definition refusal_message (req : Message) : Message :=
  MkMessage
    (MkHeader (h_ID (m_Header req)) true (h_Opcode (m_Header req)) false false (h_RD (m_Header req))
       false false false RCodeRefused 0 0 0 0)
    (m_Questions req) [] [] [].

Definition Wrap {S} (next : Handler S) (allowed : list Prefix) : Handler S := fun addr req =>
  if permits allowed addr then next addr req else Ret [refusal_message req].

(** ** Facts *)

Lemma addr_value_snoc a x : addr_value (a ++ [x]) = addr_value a * 256 + x.
Proof. unfold addr_value. by rewrite fold_left_app. Qed.

Lemma addr_value_bounds a : Forall is_u8 a -> 0 <= addr_value a < 2 ^ BitLen a.
Proof.
  induction a as [|x a IH] using rev_ind; intros Ha; [by vm_compute|].
  apply Forall_app in Ha as [Ha Hx%Forall_inv]. specialize (IH Ha). unfold BitLen in *.
  rewrite addr_value_snoc, length_app. unfold is_u8 in Hx.
  replace (8 * Z.of_nat (length a + length [x])) with (8 * Z.of_nat (length a) + 8) by (simpl; lia).
  rewrite Z.pow_add_r by lia. change (2 ^ 8) with 256. nia.
Qed.

Lemma addr_value_cons x a : addr_value (x :: a) = x * 2 ^ BitLen a + addr_value a.
Proof.
  induction a as [|y a IH] using rev_ind; [unfold addr_value; simpl; change (2 ^ BitLen []) with 1; lia|].
  change (x :: a ++ [y]) with ((x :: a) ++ [y]). rewrite !addr_value_snoc, IH. unfold BitLen.
  rewrite length_app. replace (8 * Z.of_nat (length a + length [y])) with (8 * Z.of_nat (length a) + 8) by (simpl; lia).
  rewrite Z.pow_add_r by lia. change (2 ^ 8) with 256. lia.
Qed.

Lemma shiftr_high x v k l : 0 <= k -> 0 <= l -> 0 <= v < 2 ^ l -> Z.shiftr (x * 2 ^ l + v) (l + k) = Z.shiftr x k.
Proof.
  intros Hk Hl Hv. rewrite <-Z.shiftr_shiftr by lia. f_equal.
  rewrite Z.shiftr_div_pow2, Z.add_comm, Z.div_add, Z.div_small by lia. lia.
Qed.

Lemma shiftr_low x v k l : 0 <= k <= l -> 0 <= v < 2 ^ l ->
  Z.shiftr (x * 2 ^ l + v) k = x * 2 ^ (l - k) + Z.shiftr v k /\ 0 <= Z.shiftr v k < 2 ^ (l - k).
Proof.
  intros Hk Hv. rewrite !Z.shiftr_div_pow2 by lia.
  assert (E : 2 ^ l = 2 ^ (l - k) * 2 ^ k) by (rewrite <-Z.pow_add_r by lia; f_equal; lia).
  assert (0 < 2 ^ k) by (apply Z.pow_pos_nonneg; lia). split.
  - rewrite E, Z.mul_assoc, Z.add_comm, Z.div_add by lia. lia.
  - split; [apply Z.div_pos; lia|]. apply Z.div_lt_upper_bound; lia.
Qed.

(** Being inside a prefix is agreeing on its first bits, byte by byte. *)
Lemma shiftr_in_block p : forall n a,
  length p = length a -> Forall is_u8 p -> Forall is_u8 a -> 0 <= n <= BitLen p ->
  (Z.shiftr (addr_value p) (BitLen p - n) =? Z.shiftr (addr_value a) (BitLen a - n)) = in_block n p a.
Proof.
  induction p as [|x p IH]; intros n [|y a] Hl Hp Ha Hn; try done; [by rewrite Z.eqb_refl|]. injection Hl as Hl.
  apply Forall_cons in Hp as [Hx Hp], Ha as [Hy Ha]. cbn [in_block].
  pose proof (addr_value_bounds p Hp) as Bp. pose proof (addr_value_bounds a Ha) as Ba.
  rewrite !addr_value_cons. assert (EL : BitLen a = BitLen p) by (unfold BitLen; by rewrite Hl).
  assert (Ec : forall z l, BitLen (z :: l) = BitLen l + 8) by (intros; unfold BitLen; simpl length; lia).
  rewrite !Ec, EL in *. assert (0 <= BitLen p) by (unfold BitLen; lia).
  destruct (Z.leb_spec n 8) as [H8|H8].
  - replace (BitLen p + 8 - n) with (BitLen p + (8 - n)) by lia. by rewrite !shiftr_high by lia.
  - rewrite <-(IH (n - 8) a) by (done || lia). rewrite EL.
    replace (BitLen p - (n - 8)) with (BitLen p + 8 - n) by lia. set (k := BitLen p + 8 - n).
    destruct (shiftr_low x (addr_value p) k (BitLen p)) as [-> H1]; [lia|done|].
    destruct (shiftr_low y (addr_value a) k (BitLen p)) as [-> H2]; [lia|done|].
    set (u := Z.shiftr (addr_value p) k) in *. set (v := Z.shiftr (addr_value a) k) in *. set (m := 2 ^ (BitLen p - k)) in *.
    assert (Hm : 0 < m) by (unfold m; apply Z.pow_pos_nonneg; lia).
    destruct (Z.eqb_spec x y) as [->|Hne], (Z.eqb_spec u v) as [->|Hne']; cbn [andb];
      first [apply Z.eqb_eq; lia|apply Z.eqb_neq; nia].
Qed.

Definition prefix_ok (p : Prefix) : Prop := Forall is_u8 (px_Addr p) /\ 0 <= px_Bits p <= BitLen (px_Addr p).

Lemma Contains_in_block p a : prefix_ok p -> Forall is_u8 a ->
  Contains p a = bool_decide (length (px_Addr p) = length a) && in_block (px_Bits p) (px_Addr p) a.
Proof.
  intros [Hp Hb] Ha. unfold Contains. case_bool_decide as Hl; cbn [andb].
  - rewrite <-shiftr_in_block by done. unfold BitLen at 1 2. rewrite Hl, Z.eqb_refl. cbn [andb].
    rewrite Z.shiftr_lxor. assert (E : BitLen a = BitLen (px_Addr p)) by (unfold BitLen; by rewrite Hl). rewrite E.
    set (u := Z.shiftr (addr_value (px_Addr p)) _). set (v := Z.shiftr (addr_value a) _).
    destruct (Z.eqb_spec u v) as [->|Hne]; [by rewrite Z.lxor_nilpotent|].
    apply Z.eqb_neq. by intros ?%Z.lxor_eq.
  - assert (BitLen (px_Addr p) <> BitLen a) by (unfold BitLen; lia). by rewrite (proj2 (Z.eqb_neq _ _)).
Qed.

(** A client's address, four bytes for IPv4 in either form. *)
Definition client_ip (addr : net_Addr) : IP :=
  match addr with UDPAddr ip | TCPAddr ip => ip | OtherAddr => None end.

Lemma addrIP_spec addr :
  addrIP addr = match To4 (client_ip addr) with Some b => Some b | None => To16 (client_ip addr) end.
Proof.
  assert (H : forall ip, Unmap <$> AddrFromSlice ip = match To4 ip with Some b => Some b | None => To16 ip end).
  { intros [b|]; [|done]. unfold AddrFromSlice, Unmap, To4, To16.
    destruct (decide (length b = 4%nat)) as [H4|H4].
    - rewrite (bool_decide_true (length b = 4%nat)) by done. cbn [orb fmap option_fmap option_map].
      by rewrite bool_decide_false by lia.
    - rewrite (bool_decide_false (length b = 4%nat)) by done. cbn [orb].
      destruct (decide (length b = 16%nat)) as [H6|H6].
      + rewrite (bool_decide_true (length b = 16%nat)) by done. cbn [fmap option_fmap option_map andb].
        rewrite (bool_decide_true (length b = 16%nat)) by done. cbn [andb]. by destruct (bool_decide _).
      + rewrite (bool_decide_false (length b = 16%nat)) by done. done. }
  destruct addr; [apply H|apply H|done].
Qed.

Lemma permits_spec allowed addr b :
  Forall prefix_ok allowed -> addrIP addr = Some b -> Forall is_u8 b ->
  permits allowed addr = existsb (fun p => bool_decide (length (px_Addr p) = length b) && in_block (px_Bits p) (px_Addr p) b) allowed.
Proof.
  intros Hok Ha Hb. unfold permits. rewrite Ha. clear Ha. induction Hok as [|p l Hp _ IH]; cbn [existsb]; [done|].
  by rewrite IH, Contains_in_block.
Qed.

#[export] Instance Wrap_serves {S} W (next : Handler S) P G good allowed :
  Serves W next P G good -> (forall req, proper_query req -> good req (refusal_message req)) -> Serves W (Wrap next allowed) P G good.
Proof.
  intros [HG H] Hgood. split; [done|]. intros addr req s Hp. unfold Wrap.
  destruct (permits _ _); [by apply H|]. apply obeys_reply; [by split_and!|by apply Hgood].
Qed.

Lemma addrIP_bytes addr b :
  Forall is_u8 (default [] (client_ip addr)) -> addrIP addr = Some b ->
  Forall is_u8 b /\ (length b = 4%nat \/ length b = 16%nat).
Proof.
  intros Hu8. rewrite addrIP_spec. destruct (client_ip addr) as [c|]; [|done]. cbn [default] in Hu8.
  destruct (To4 (Some c)) as [b'|] eqn:E4.
  - intros [= <-]. pose proof (To4_length _ _ E4). split; [|by left]. unfold To4 in E4.
    case_bool_decide; [by injection E4 as <-|]. destruct (_ && _); [|done]. injection E4 as <-. by apply Forall_drop.
  - intros E. pose proof (To16_length _ _ E). split; [|by right]. unfold To4 in E4. unfold To16 in E.
    case_bool_decide; [done|]. case_bool_decide; [by injection E as <-|done].
Qed.

(** The default list, [127.0.0.0/8] and [::1/128], against [net.IP.IsLoopback]. *)
Lemma LoopbackOnly_IsLoopback c b :
  match To4 (Some c) with Some b4 => Some b4 | None => To16 (Some c) end = Some b ->
  existsb (fun p => bool_decide (length (px_Addr p) = length b) && in_block (px_Bits p) (px_Addr p) b) LoopbackOnly
  = IsLoopback c.
Proof.
  intros Ea. unfold IsLoopback, by_family. destruct (To4 (Some c)) as [b4|] eqn:E4.
  - injection Ea as ->. pose proof (To4_length _ _ E4) as H4. destruct (four_bytes b H4) as (w & x & y & z & ->).
    cbn -[Z.eqb Z.shiftr bool_decide]. rewrite orb_false_r.
    rewrite bool_decide_true by done. cbn [andb].
    change (8 - 8) with 0. rewrite !Z.shiftr_0_r. apply Z.eqb_sym.
  - pose proof (To16_length _ _ Ea) as H6. unfold To16 in Ea. unfold To4 in E4.
    case_bool_decide; [done|]. case_bool_decide; [|done]. injection Ea as ->.
    cbn [existsb LoopbackOnly px_Addr px_Bits]. rewrite bool_decide_false by (simpl; lia).
    rewrite !bool_decide_true by done. cbn [andb orb].
    rewrite orb_false_r. change 128 with (8 * Z.of_nat (length (replicate 15 0 ++ [1]))).
    rewrite in_block_full by done. unfold ip_Equal, IPv6loopback. rewrite (bool_decide_true (length b = _)) by (by rewrite H6).
    apply bool_decide_ext. split; by intros ->.
Qed.

(** C16: Access control is exactly the list of prefixes: a client in one of them - an
    IPv4 client of a dual-stack socket counts as IPv4 - is served as if the
    handler were not there; any other, and an address of an unknown kind, gets one
    reply that says "refused" and carries no data, and the handlers behind, with
    the resolver and its network, do not run at all.  The default list admits
    loopback addresses and nothing else. *)
Theorem Wrap_exact {S} (next : Handler S) allowed addr req :
  Forall prefix_ok allowed -> Forall is_u8 (default [] (client_ip addr)) ->
  (permits allowed addr = true <-> exists b p,
    (To4 (client_ip addr) = Some b \/ To4 (client_ip addr) = None /\ To16 (client_ip addr) = Some b) /\
    p ∈ allowed /\ length (px_Addr p) = length b /\ in_block (px_Bits p) (px_Addr p) b = true) /\
  (permits allowed addr = true -> Wrap next allowed addr req = next addr req) /\
  (permits allowed addr = false -> exists msg, Wrap next allowed addr req = Ret [msg] /\
    replies req msg /\ h_RCode (m_Header msg) = RCodeRefused /\
    m_Answers msg = [] /\ m_Authorities msg = [] /\ m_Additionals msg = []) /\
  (permits LoopbackOnly addr = true <-> exists b, client_ip addr = Some b /\ IsLoopback b = true).
Proof.
  intros Hok Hu8.
  pose proof (fun b => addrIP_bytes addr b Hu8) as Hb.
  split; [|split; [|split]].
  - destruct (addrIP addr) as [b|] eqn:Ea.
    + destruct (Hb b eq_refl) as [Hb8 _]. rewrite (permits_spec _ _ b) by done. rewrite existsb_exists.
      rewrite addrIP_spec in Ea. split.
      * intros (p & Hp%list_elem_of_In & [Hl%bool_decide_eq_true Hin]%andb_true_iff). exists b, p.
        split_and!; try done. destruct (To4 (client_ip addr)) as [b'|]; [left; congruence|by right].
      * intros (b' & p & Hfam & Hp & Hl & Hin).
        assert (b' = b) as -> by (destruct Hfam as [E|[E1 E2]]; [rewrite E in Ea|rewrite E1 in Ea]; congruence).
        exists p. split; [by apply list_elem_of_In|]. by rewrite bool_decide_true.
    + unfold permits. rewrite Ea. rewrite addrIP_spec in Ea. split; [done|].
      intros (b & p & [E|[E1 E2]] & _); [by rewrite E in Ea|rewrite E1 in Ea; congruence].
  - intros E. unfold Wrap. by rewrite E.
  - intros E. unfold Wrap. rewrite E. eexists. split; [done|]. by split_and!.
  - destruct (addrIP addr) as [b|] eqn:Ea.
    2: { unfold permits. rewrite Ea. split; [done|]. intros (b & Hc & Hlo). rewrite addrIP_spec, Hc in Ea.
         unfold IsLoopback, by_family in Hlo. destruct (To4 (Some b)) eqn:E4; [done|].
         apply andb_true_iff in Hlo as [Hl%bool_decide_eq_true _]. by rewrite To16_Some in Ea. }
    destruct (Hb b eq_refl) as [Hb8 Hlen]. rewrite addrIP_spec in Ea.
    rewrite (permits_spec _ _ b); [|repeat constructor; unfold is_u8, BitLen; simpl; lia|by rewrite addrIP_spec|done].
    destruct (client_ip addr) as [c|]; [|done].
    rewrite (LoopbackOnly_IsLoopback c b Ea). split; [eauto|]. by intros (? & [= ->] & ?).
Qed.
