(* ===== verification/RateLimit.v ===== *)
(** Rate limiting ([middleware/ratelimit/ratelimit.go]): a token bucket for each
    client address, in double precision as the code keeps it. *)

From Stdlib Require Import SpecFloat.
From S2P Require Import Prelude Prog GoUnicode GoStrings GoText GoFloat GoNet DnsMsg Encoder Decoder Privacy Interface Upstream UpstreamSpec Acl.

Open Scope Z_scope.

(** [Duration.Seconds]. *)
Definition Seconds (d : Z) : float64 :=
  add64 (of_Z (Z.quot d 1000000000)) (div64 (of_Z (Z.rem d 1000000000)) (of_Z 1000000000)).

(** [Time.Sub] saturates at the range of a duration. *)
Definition Sub (t u : Z) : Z := Z.max (- 2 ^ 63) (Z.min (2 ^ 63 - 1) (t - u)).

(** ** The limiter *)

Definition defaultRate : Z := 50.
Definition defaultBurst : Z := 100.
Definition maxClients : nat := Z.to_nat 10000.

Record bucket := MkBucket { bk_tokens : float64; bk_seen : Z }.

Record limiter := MkLimiter { lm_rate : float64; lm_burst : float64; lm_clients : gmap Addr bucket }.

(** The package has its own copy of this function. *)
Definition addrIP (addr : net_Addr) : option Addr :=
  match addr with
  | UDPAddr ip | TCPAddr ip => Unmap <$> AddrFromSlice ip
  | OtherAddr => None
  end.

Definition with_clients (h : limiter) (clients : gmap Addr bucket) : limiter :=
  MkLimiter (lm_rate h) (lm_burst h) clients.

(** [x <= 0] for a rate or burst. *)
Definition not_positive (x : float64) : bool := SFleb x (S754_zero false).

Definition newLimiter (rate burst : float64) : limiter :=
  MkLimiter (if not_positive rate then of_Z defaultRate else rate)
    (if not_positive burst then of_Z defaultBurst else burst) ∅.

(** The loop of [evictIfFull] over the clients in the order the map yields them;
    the zero [netip.Addr], which no client has, is [None]. *)
Fixpoint oldest_client (clients : list (Addr * bucket)) (oldest : option Addr) (oldestSeen : Z) :
    option Addr :=
  match clients with
  | [] => oldest
  | (ip, b) :: clients =>
    if bk_seen b <=? oldestSeen then oldest_client clients (Some ip) (bk_seen b)
    else oldest_client clients oldest oldestSeen
  end.

Section limiter.
(** The order in which a [range] over the clients visits them. *)
Context (visit : list (Addr * bucket) -> list (Addr * bucket)).

Definition evictIfFull (h : limiter) (now : Z) : limiter :=
  if bool_decide (size (lm_clients h) < maxClients)%nat then h
  else match oldest_client (visit (map_to_list (lm_clients h))) None now with
       | Some ip => with_clients h (delete ip (lm_clients h))
       | None => h
       end.

Definition allow (h : limiter) (now : Z) (ip : Addr) : limiter * bool :=
  match lm_clients h !! ip with
  | None =>
    let h := evictIfFull h now in
    (with_clients h (<[ip := MkBucket (sub64 (lm_burst h) (of_Z 1)) now]> (lm_clients h)), true)
  | Some b =>
    let tokens := min64 (add64 (bk_tokens b) (mul64 (Seconds (Sub now (bk_seen b))) (lm_rate h))) (lm_burst h) in
    if SFltb tokens (of_Z 1)
    then (with_clients h (<[ip := MkBucket tokens now]> (lm_clients h)), false)
    else (with_clients h (<[ip := MkBucket (sub64 tokens (of_Z 1)) now]> (lm_clients h)), true)
  end.

(** The limiter is a part of the state; [clock] reads the time.  [allow] holds the
    mutex from beginning to end, so it is one action. *)
Definition try_allow {S} (clock : S -> Z) (ip : Addr) (hs : limiter * S) : (limiter * S) * bool :=
  let '(h, ok) := allow hs.1 (clock hs.2) ip in ((h, hs.2), ok).

Definition Wrap {S} (clock : S -> Z) (next : Handler S) : Handler (limiter * S) := fun addr req =>
  match addrIP addr with
  | Some ip =>
    atomic (try_allow clock ip) ≫= fun ok : bool =>
    if ok then zoom_snd (next addr req) else Ret []
  | None => zoom_snd (next addr req)
  end.

(** ** Facts *)

Context (Hvisit : forall l, visit l ≡ₚ l).

Definition limiter_ok (h : limiter) : Prop := (size (lm_clients h) <= maxClients)%nat.

(** The loop ends with a client no other was seen before, if any was seen by now. *)
Lemma oldest_client_spec clients : forall oldest seen,
  match oldest_client clients oldest seen with
  | Some ip => oldest = Some ip /\ Forall (fun x => seen < bk_seen x.2) clients \/
      exists b, (ip, b) ∈ clients /\ bk_seen b <= seen /\ Forall (fun x => bk_seen b <= bk_seen x.2) clients
  | None => oldest = None /\ Forall (fun x => seen < bk_seen x.2) clients
  end.
Proof.
  induction clients as [|[ip b] clients IH]; intros oldest seen; cbn [oldest_client].
  { destruct oldest; [left|]; by split. }
  destruct (Z.leb_spec (bk_seen b) seen) as [Hle|Hgt].
  - specialize (IH (Some ip) (bk_seen b)). destruct (oldest_client clients (Some ip) (bk_seen b)) as [ip'|].
    + right. destruct IH as [[[= ->] Hall]|(b' & Hin & Hb' & Hall)].
      * exists b. split_and!; [by left|done|]. constructor; [simpl; lia|].
        eapply Forall_impl; [exact Hall|]. simpl. lia.
      * exists b'. split_and!; [by right|lia|]. by constructor.
    + by destruct IH.
  - specialize (IH oldest seen). destruct (oldest_client clients oldest seen) as [ip'|].
    + destruct IH as [[-> Hall]|(b' & Hin & Hb' & Hall)]; [left; split; [done|by constructor]|right].
      exists b'. split_and!; [by right|done|]. constructor; [simpl; lia|done].
    + destruct IH as [-> Hall]. split; [done|by constructor].
Qed.

(** The client dropped when the table is full. *)
Definition evicted (h : limiter) (now : Z) : option Addr :=
  if bool_decide (size (lm_clients h) < maxClients)%nat then None
  else oldest_client (visit (map_to_list (lm_clients h))) None now.

Lemma evictIfFull_evicted h now :
  evictIfFull h now = match evicted h now with
                      | Some ip => with_clients h (delete ip (lm_clients h)) | None => h end.
Proof. unfold evictIfFull, evicted. by case_bool_decide. Qed.

Lemma evicted_spec h now ip :
  evicted h now = Some ip -> exists b, lm_clients h !! ip = Some b /\
    forall ip' b', lm_clients h !! ip' = Some b' -> bk_seen b <= bk_seen b'.
Proof.
  unfold evicted. case_bool_decide; [done|]. intros E.
  pose proof (oldest_client_spec (visit (map_to_list (lm_clients h))) None now) as Ho. rewrite E in Ho.
  destruct Ho as [[? _]|(b & Hin & _ & Hall)]; [done|]. exists b.
  rewrite Hvisit, elem_of_map_to_list in Hin. split; [done|]. intros ip' b' Hb'.
  rewrite Hvisit in Hall. rewrite Forall_forall in Hall. apply (Hall (ip', b')). by apply elem_of_map_to_list.
Qed.

(** Buckets are never of the future: Go's clock is monotonic. *)
Definition seen_by (h : limiter) (now : Z) : Prop := map_Forall (fun _ b => bk_seen b <= now) (lm_clients h).

Lemma evictIfFull_room h now :
  limiter_ok h -> seen_by h now -> (size (lm_clients (evictIfFull h now)) < maxClients)%nat.
Proof.
  unfold limiter_ok. intros Hok Hseen. rewrite evictIfFull_evicted.
  destruct (evicted h now) as [ip|] eqn:E.
  - destruct (evicted_spec _ _ _ E) as (b & Hb & _). cbn [with_clients lm_clients].
    rewrite map_size_delete_Some by by eexists.
    assert (size (lm_clients h) <> 0%nat) by (apply (map_size_ne_0_lookup_2 _ ip); eauto). lia.
  - unfold evicted in E. case_bool_decide as Hfull; [done|].
    pose proof (oldest_client_spec (visit (map_to_list (lm_clients h))) None now) as Ho. rewrite E in Ho.
    destruct Ho as [_ Hall]. rewrite Hvisit in Hall.
    assert (0 < maxClients)%nat by (unfold maxClients; lia).
    assert (Hne : size (lm_clients h) <> 0%nat) by lia.
    apply map_size_ne_0_lookup in Hne as (ip & b & Hb).
    rewrite Forall_forall in Hall. specialize (Hall (ip, b)). rewrite elem_of_map_to_list in Hall.
    specialize (Hall Hb). specialize (Hseen ip b Hb). simpl in *. lia.
Qed.

(** What one query does to the bucket of its client. *)
Definition take_token (h : limiter) (now : Z) (b : bucket) : bucket * bool :=
  let tokens := min64 (add64 (bk_tokens b) (mul64 (Seconds (Sub now (bk_seen b))) (lm_rate h))) (lm_burst h) in
  if SFltb tokens (of_Z 1) then (MkBucket tokens now, false)
  else (MkBucket (sub64 tokens (of_Z 1)) now, true).

Lemma allow_known h now ip b :
  lm_clients h !! ip = Some b ->
  allow h now ip = (with_clients h (<[ip := (take_token h now b).1]> (lm_clients h)), (take_token h now b).2).
Proof. intros E. unfold allow, take_token. rewrite E. by destruct (SFltb _ _). Qed.

(** C17: A client is limited by its own bucket alone: it is answered exactly if its
    tokens, refilled for the time since it was last seen and capped at the burst,
    are at least one, and then pays one; a client not seen before is answered and
    starts with the burst less one.  No other client's bucket changes, except that
    a full table gives up one that no other was seen before, and the table never
    outgrows its bound. *)
Theorem allow_spec h now ip :
  limiter_ok h -> seen_by h now ->
  let '(h', ok) := allow h now ip in
  limiter_ok h' /\ seen_by h' now /\ lm_rate h' = lm_rate h /\ lm_burst h' = lm_burst h /\
  match lm_clients h !! ip with
  | Some b =>
      (lm_clients h' !! ip, ok) = (Some (take_token h now b).1, (take_token h now b).2) /\
      forall ip', ip' <> ip -> lm_clients h' !! ip' = lm_clients h !! ip'
  | None =>
      ok = true /\ lm_clients h' !! ip = Some (MkBucket (sub64 (lm_burst h) (of_Z 1)) now) /\
      forall ip', ip' <> ip -> lm_clients h' !! ip' = lm_clients h !! ip' \/
        size (lm_clients h) = maxClients /\ lm_clients h' !! ip' = None /\
        exists b, lm_clients h !! ip' = Some b /\
          forall ip'' b'', lm_clients h !! ip'' = Some b'' -> bk_seen b <= bk_seen b''
  end.
Proof.
  intros Hok Hseen. destruct (lm_clients h !! ip) as [b|] eqn:Eb.
  - rewrite (allow_known h now ip b Eb). destruct (take_token h now b) as [b' ok] eqn:Et. cbn [fst snd].
    assert (Hb' : bk_seen b' = now) by (unfold take_token in Et; destruct (SFltb _ _); by injection Et as <- _).
    split_and!; [| |done|done| |].
    + unfold limiter_ok. cbn [with_clients lm_clients]. by rewrite map_size_insert_Some by by eexists.
    + apply map_Forall_insert_2; [lia|done].
    + cbn [with_clients lm_clients]. by rewrite lookup_insert_eq.
    + intros ip' Hne. by apply lookup_insert_ne.
  - unfold allow. rewrite Eb. cbn zeta. pose proof (evictIfFull_room h now Hok Hseen) as Hroom.
    rewrite evictIfFull_evicted in Hroom |- *.
    assert (Hsub : forall h2, (lm_clients h2 !! ip = None -> (size (lm_clients h2) < maxClients)%nat ->
        seen_by h2 now -> limiter_ok (with_clients h2 (<[ip := MkBucket (sub64 (lm_burst h) (of_Z 1)) now]> (lm_clients h2))) /\
        seen_by (with_clients h2 (<[ip := MkBucket (sub64 (lm_burst h) (of_Z 1)) now]> (lm_clients h2))) now)).
    { intros h2 Hn Hs H2. split.
      - unfold limiter_ok. cbn [with_clients lm_clients]. rewrite map_size_insert_None by done. lia.
      - apply map_Forall_insert_2; [simpl; lia|done]. }
    destruct (evicted h now) as [old|] eqn:E.
    + destruct (evicted_spec _ _ _ E) as (b & Hb & Hmin).
      assert (Hfull : size (lm_clients h) = maxClients).
      { unfold evicted in E. unfold limiter_ok in Hok. case_bool_decide; [done|lia]. }
      assert (Hne : old <> ip) by congruence.
      destruct (Hsub (with_clients h (delete old (lm_clients h)))) as [H1 H2]; [|done| |].
      { cbn [with_clients lm_clients]. by rewrite lookup_delete_ne. }
      { by apply map_Forall_delete. }
      split_and!; [done|done|done|done|done|by apply lookup_insert_eq|].
      intros ip' Hne'. cbn [with_clients lm_clients]. rewrite lookup_insert_ne by done.
      destruct (decide (ip' = old)) as [->|Hold]; [right|left; by rewrite lookup_delete_ne].
      split; [done|]. rewrite lookup_delete_eq. split; [done|]. by exists b.
    + destruct (Hsub h) as [H1 H2]; [done..|].
      split_and!; [done|done|done|done|done|by apply lookup_insert_eq|].
      intros ip' Hne'. left. by apply lookup_insert_ne.
Qed.

(** ** The burst *)

(** So many queries of one client at one instant: how many are answered. *)
Fixpoint answered_at (n : nat) (h : limiter) (now : Z) (ip : Addr) : nat :=
  match n with
  | O => 0%nat
  | S n => let '(h, ok) := allow h now ip in ((if ok then 1 else 0) + answered_at n h now ip)%nat
  end.

(** With the default rate and burst a bucket of whole tokens that is asked again at
    once pays one, and an empty one stays empty: both computed, for every level. *)
Lemma whole_tokens h now k :
  lm_rate h = of_Z defaultRate -> lm_burst h = of_Z defaultBurst -> 0 <= k < 100 ->
  take_token h now (MkBucket (of_Z k) now) = (MkBucket (of_Z (Z.max 0 (k - 1))) now, 0 <? k).
Proof.
  intros Hr Hb Hk. unfold take_token. rewrite Hr, Hb. cbn [bk_tokens bk_seen].
  replace (Sub now now) with 0 by (unfold Sub; lia).
  set (step := fun k => min64 (add64 (of_Z k) (mul64 (Seconds 0) (of_Z defaultRate))) (of_Z defaultBurst)).
  assert (Hall : forallb (fun k => if SFltb (step k) (of_Z 1) then (k =? 0) && bool_decide (step k = of_Z 0)
    else (0 <? k) && bool_decide (sub64 (step k) (of_Z 1) = of_Z (k - 1))) (seqZ 0 100) = true) by (vm_compute; reflexivity).
  rewrite forallb_forall in Hall. specialize (Hall k).
  rewrite <-list_elem_of_In, elem_of_seqZ in Hall. specialize (Hall ltac:(lia)). fold (step k).
  destruct (SFltb (step k) (of_Z 1)); apply andb_true_iff in Hall as [Hk0 ->%bool_decide_eq_true].
  - apply Z.eqb_eq in Hk0 as ->. done.
  - rewrite Hk0. by replace (Z.max 0 (k - 1)) with (k - 1) by lia.
Qed.

Lemma answered_whole n : forall h now ip k,
  lm_rate h = of_Z defaultRate -> lm_burst h = of_Z defaultBurst -> 0 <= k < 100 ->
  lm_clients h !! ip = Some (MkBucket (of_Z k) now) ->
  answered_at n h now ip = Nat.min n (Z.to_nat k).
Proof.
  induction n as [|n IH]; intros h now ip k Hr Hb Hk Hc; cbn [answered_at]; [lia|].
  rewrite (allow_known h now ip _ Hc), whole_tokens by done. cbn [fst snd].
  rewrite (IH _ now ip (Z.max 0 (k - 1))); [|done|done|lia|by apply lookup_insert_eq].
  destruct (Z.ltb_spec 0 k); lia.
Qed.

(** C18: With the default settings a burst is a hundred queries: of so many queries a
    client sends at one instant, the first hundred are answered and no more,
    however many other clients there are. *)
Theorem burst_exhausted h now ip n :
  lm_rate h = of_Z defaultRate -> lm_burst h = of_Z defaultBurst -> lm_clients h !! ip = None ->
  answered_at n h now ip = Nat.min n 100.
Proof.
  intros Hr Hb Hc. destruct n as [|n]; [done|]. cbn [answered_at]. unfold allow. rewrite Hc. cbn zeta.
  assert (Hkeep : lm_rate (evictIfFull h now) = lm_rate h /\ lm_burst (evictIfFull h now) = lm_burst h).
  { rewrite evictIfFull_evicted. by destruct (evicted h now). }
  destruct Hkeep as [Hr' Hb']. rewrite (answered_whole n _ now ip 99); [lia|..].
  - cbn [with_clients lm_rate]. by rewrite Hr'.
  - cbn [with_clients lm_burst]. by rewrite Hb'.
  - lia.
  - cbn [with_clients lm_clients]. rewrite lookup_insert_eq, Hb', Hb. by vm_compute.
Qed.
End limiter.
