(* ===== verification/SingleFlight.v ===== *)
(** Collapsing identical queries ([middleware/singleflight/singleflight.go]): many
    goroutines run [ServeDNS] at once, so this handler is a transition system.  An
    event is one step of one goroutine between two points where another may run;
    everything under the mutex is one event. *)

From S2P Require Import Prelude Prog GoUnicode GoStrings GoNet DnsMsg Encoder Decoder WireSpec WireCalculus WireNames WireRoundTrip DecoderSafe DnssecRecords DnssecNames Verify Denial Privacy Interface Upstream UpstreamSpec TrustAnchor Validate ValidateSpec Resolve ResolveSpec Resolution Handler.

Open Scope Z_scope.

(** ** The code *)

Definition flight_key : Type := gostring * Z.

(** The key of a query that is collapsed, [None] for one that is passed on. *)
Definition collapses (req : Message) : option flight_key :=
  match m_Questions req with
  | [q] => if h_CD (m_Header req) then None else Some (ToLower (trim_dot (q_Name q)), q_Type q)
  | _ => None
  end.

(** What a waiter is given: a copy of the leader's message with its own identifier
    and question. *)
Definition share (msg req : Message) : Message :=
  let h := m_Header msg in
  MkMessage
    (MkHeader (h_ID (m_Header req)) (h_QR h) (h_Opcode h) (h_AA h) (h_TC h) (h_RD (m_Header req)) (h_RA h)
       (h_AD h) (h_CD h) (h_RCode h) (h_QDCount h) (h_ANCount h) (h_NSCount h) (h_ARCount h))
    (m_Questions req) (CloneRRs (m_Answers msg)) (CloneRRs (m_Authorities msg)) (CloneRRs (m_Additionals msg)).

(** Where a goroutine is.  [rec] is what the [recordingWriter] has captured. *)
Inductive phase :=
  | Passing                                        (* in [next], not collapsed *)
  | Leading (k : flight_key) (c : nat) (rec : option Message)    (* in [next], registered *)
  | Publishing (c : nat) (rec : option Message)    (* unregistered, [done] not closed yet *)
  | Waiting (c : nat)                              (* in [waitFor] *)
  | Finished.

Record client := MkClient { cl_req : Message; cl_phase : phase; cl_written : list Message }.

(** A [call]: running, or done with the message recorded. *)
Inductive call := Running | Done (rec : option Message).

Record flight := MkFlight {
  fl_inFlight : gmap flight_key nat; fl_calls : list call; fl_clients : gmap nat client }.

Definition no_flight : flight := MkFlight ∅ [] ∅.

Definition set_client (id : nat) (cl : client) (s : flight) : flight :=
  MkFlight (fl_inFlight s) (fl_calls s) (<[id := cl]> (fl_clients s)).

Inductive event :=
  | Arrive (id : nat) (req : Message)    (* [ServeDNS] up to [next], or to [waitFor] *)
  | Write (id : nat) (msg : Message)     (* [next] writes a message *)
  | Return (id : nat)                    (* [next] returns or panics; the leader unregisters *)
  | Publish (id : nat)                   (* the leader sets [msg] and closes [done] *)
  | Wake (id : nat)                      (* a waiter sees [done] closed *)
  | GiveUp (id : nat).                   (* a waiter's context ends *)

Definition step (s : flight) (e : event) : option flight :=
  match e with
  | Arrive id req =>
    match fl_clients s !! id with
    | Some _ => None
    | None =>
      match collapses req with
      | None => Some (set_client id (MkClient req Passing []) s)
      | Some k =>
        match fl_inFlight s !! k with
        | Some c => Some (set_client id (MkClient req (Waiting c) []) s)
        | None =>
          let c := length (fl_calls s) in
          Some (set_client id (MkClient req (Leading k c None) [])
            (MkFlight (<[k := c]> (fl_inFlight s)) (fl_calls s ++ [Running]) (fl_clients s)))
        end
      end
    end
  | Write id msg =>
    match fl_clients s !! id with
    | Some (MkClient req Passing written) => Some (set_client id (MkClient req Passing (written ++ [msg])) s)
    | Some (MkClient req (Leading k c _) written) =>
      Some (set_client id (MkClient req (Leading k c (Some msg)) (written ++ [msg])) s)
    | _ => None
    end
  | Return id =>
    match fl_clients s !! id with
    | Some (MkClient req Passing written) => Some (set_client id (MkClient req Finished written) s)
    | Some (MkClient req (Leading k c rec) written) =>
      Some (set_client id (MkClient req (Publishing c rec) written)
        (MkFlight (delete k (fl_inFlight s)) (fl_calls s) (fl_clients s)))
    | _ => None
    end
  | Publish id =>
    match fl_clients s !! id with
    | Some (MkClient req (Publishing c rec) written) =>
      Some (set_client id (MkClient req Finished written)
        (MkFlight (fl_inFlight s) (<[c := Done rec]> (fl_calls s)) (fl_clients s)))
    | _ => None
    end
  | Wake id =>
    match fl_clients s !! id with
    | Some (MkClient req (Waiting c) written) =>
      match fl_calls s !! c with
      | Some (Done (Some msg)) => Some (set_client id (MkClient req Finished (written ++ [share msg req])) s)
      | Some (Done None) => Some (set_client id (MkClient req Finished written) s)
      | _ => None
      end
    | _ => None
    end
  | GiveUp id =>
    match fl_clients s !! id with
    | Some (MkClient req (Waiting c) written) => Some (set_client id (MkClient req Finished written) s)
    | _ => None
    end
  end.

(** ** Every interleaving *)

Section runs.
(** What [next] may write in answer to a query. *)
Context (good : Message -> Message -> Prop).

Definition allowed (s : flight) (e : event) : Prop :=
  match e with
  | Write id msg => forall cl, fl_clients s !! id = Some cl -> good (cl_req cl) msg
  | _ => True
  end.

Inductive reachable : flight -> Prop :=
  | reach_start : reachable no_flight
  | reach_step s e s' : reachable s -> allowed s e -> step s e = Some s' -> reachable s'.

(** A message given to one client was written for another with the same key. *)
Definition shared (k : flight_key) (msg : Message) : Prop :=
  exists req, collapses req = Some k /\ good req msg.

(** What a message given to a client is: written by [next] for it, or a copy of
    one written for a query with the same key. *)
Definition rightful (req msg : Message) : Prop :=
  good req msg \/ exists k msg', collapses req = Some k /\ shared k msg' /\ msg = share msg' req.

(** Who works for each call, and for which key: bookkeeping of the proof. *)
Definition owners : Type := list (nat * flight_key).

Definition client_ok (own : owners) (s : flight) (id : nat) (cl : client) : Prop :=
  Forall (rightful (cl_req cl)) (cl_written cl) /\
  match cl_phase cl with
  | Passing | Finished => True
  | Leading k c rec =>
      own !! c = Some (id, k) /\ fl_inFlight s !! k = Some c /\ fl_calls s !! c = Some Running /\
      collapses (cl_req cl) = Some k /\ rec = last (cl_written cl) /\ forall msg, rec = Some msg -> good (cl_req cl) msg
  | Publishing c rec => exists k,
      own !! c = Some (id, k) /\ fl_calls s !! c = Some Running /\
      collapses (cl_req cl) = Some k /\ rec = last (cl_written cl) /\ forall msg, rec = Some msg -> good (cl_req cl) msg
  | Waiting c => exists id' k, own !! c = Some (id', k) /\ collapses (cl_req cl) = Some k
  end.

(** The client is at work for the call. *)
Definition at_work (k : flight_key) (c : nat) (p : phase) : Prop :=
  (exists rec, p = Leading k c rec) \/ exists rec, p = Publishing c rec.

Record flight_ok (own : owners) (s : flight) : Prop := {
  fk_length : length own = length (fl_calls s);
  fk_client : forall id cl, fl_clients s !! id = Some cl -> client_ok own s id cl;
  fk_registered : forall k c, fl_inFlight s !! k = Some c -> exists id cl rec,
    own !! c = Some (id, k) /\ fl_clients s !! id = Some cl /\ cl_phase cl = Leading k c rec;
  fk_running : forall c id k, own !! c = Some (id, k) -> fl_calls s !! c = Some Running -> exists cl,
    fl_clients s !! id = Some cl /\ at_work k c (cl_phase cl);
  fk_done : forall c id k rec, own !! c = Some (id, k) -> fl_calls s !! c = Some (Done rec) ->
    (exists req written, fl_clients s !! id = Some (MkClient req Finished written) /\ collapses req = Some k /\
       rec = last written) /\
    forall msg, rec = Some msg -> shared k msg }.

Lemma no_flight_ok : flight_ok [] no_flight.
Proof.
  split; [done|..]; cbn [no_flight fl_clients fl_inFlight fl_calls]; intros *; rewrite ?lookup_empty; done.
Qed.

(** A step that changes nothing but one client, who stays at work if at work. *)
Lemma set_client_ok own s id cl :
  flight_ok own s -> client_ok own s id cl ->
  (forall cl0 k c, fl_clients s !! id = Some cl0 -> at_work k c (cl_phase cl0) ->
    (forall rec, cl_phase cl0 = Leading k c rec -> exists rec', cl_phase cl = Leading k c rec') /\
    at_work k c (cl_phase cl)) ->
  (forall cl0, fl_clients s !! id = Some cl0 -> cl_phase cl0 <> Finished) ->
  flight_ok own (set_client id cl s).
Proof.
  intros [H1 H2 H3 H4 H5] Hcl Hwork Hfin. split; cbn [set_client fl_clients fl_inFlight fl_calls]; [done|..].
  - intros id' cl' [[<- <-]|[_ Hc]]%lookup_insert_Some; [done|by apply H2].
  - intros k c Hk. destruct (H3 k c Hk) as (id' & cl' & rec & Ho & Hc & Hp).
    destruct (decide (id' = id)) as [->|Hne].
    + destruct (Hwork cl' k c Hc) as [Hl _]; [left; by exists rec|]. destruct (Hl rec Hp) as [rec' Hp'].
      exists id, cl, rec'. rewrite lookup_insert_eq. by split_and!.
    + exists id', cl', rec. rewrite lookup_insert_ne by done. by split_and!.
  - intros c id' k Ho Hr. destruct (H4 c id' k Ho Hr) as (cl' & Hc & Hp).
    destruct (decide (id' = id)) as [->|Hne].
    + destruct (Hwork cl' k c Hc Hp) as [_ Hp']. exists cl. by rewrite lookup_insert_eq.
    + exists cl'. by rewrite lookup_insert_ne.
  - intros c id' k rec Ho Hd. destruct (H5 c id' k rec Ho Hd) as [(req & w & Hc & Hrest) Hs]. split; [|done].
    exists req, w. rewrite lookup_insert_ne; [done|]. intros ->. by apply (Hfin _ Hc).
Qed.

Lemma arrive_lead_ok own s id req k :
  flight_ok own s -> fl_clients s !! id = None -> fl_inFlight s !! k = None -> collapses req = Some k ->
  let c := length (fl_calls s) in
  flight_ok (own ++ [(id, k)]) (set_client id (MkClient req (Leading k c None) [])
    (MkFlight (<[k := c]> (fl_inFlight s)) (fl_calls s ++ [Running]) (fl_clients s))).
Proof.
  intros [H1 H2 H3 H4 H5] Hid Hk Hreq c. unfold c.
  assert (Ho : forall x y, own !! x = Some y -> (own ++ [(id, k)]) !! x = Some y) by (intros; by apply lookup_app_l_Some).
  assert (Hcalls : forall x y, fl_calls s !! x = Some y -> (fl_calls s ++ [Running]) !! x = Some y)
    by (intros; by apply lookup_app_l_Some).
  assert (Hold : forall x y, (own ++ [(id, k)]) !! x = Some y -> own !! x = Some y \/ x = length (fl_calls s) /\ y = (id, k)).
  { intros x y [?|[Hx Hy]]%lookup_app_Some; [by left|right]. apply list_lookup_singleton_Some in Hy as [Hy ->]. split; [lia|done]. }
  assert (Hmid : (own ++ [(id, k)]) !! length (fl_calls s) = Some (id, k))
    by (rewrite <-H1; by apply list_lookup_middle).
  split; cbn [set_client fl_clients fl_inFlight fl_calls].
  - rewrite !length_app. simpl. lia.
  - intros id' cl' [[<- <-]|[Hne Hc]]%lookup_insert_Some.
    + split; [constructor|]. cbn [cl_phase cl_req set_client fl_inFlight fl_calls].
      split_and!; [done|by rewrite lookup_insert_eq| |done|done|done]. by apply list_lookup_middle.
    + destruct (H2 id' cl' Hc) as [Hw Hp]. split; [done|].
      destruct (cl_phase cl') as [|k' c' rec|c' rec|c'|]; cbn [set_client fl_inFlight fl_calls]; [done| | | |done].
      * destruct Hp as (? & Hk' & ? & ? & ? & ?). split_and!; auto. rewrite lookup_insert_ne; [done|]. intros ->. congruence.
      * destruct Hp as (k' & ? & ? & ? & ? & ?). exists k'. auto 6.
      * destruct Hp as (id'' & k' & ? & ?). exists id'', k'. auto.
  - intros k' c' [[<- <-]|[Hne Hk']]%lookup_insert_Some.
    + exists id, (MkClient req (Leading k (length (fl_calls s)) None) []), None. by rewrite lookup_insert_eq.
    + destruct (H3 k' c' Hk') as (id' & cl' & rec & ? & ? & ?). exists id', cl', rec.
      rewrite lookup_insert_ne by congruence. auto.
  - intros c' id' k' [Ho'|[-> [= -> ->]]]%Hold Hr.
    + apply lookup_app_Some in Hr as [Hr|[Hx _]].
      * destruct (H4 c' id' k' Ho' Hr) as (cl' & ? & ?). exists cl'. rewrite lookup_insert_ne by congruence. done.
      * apply lookup_lt_Some in Ho'. lia.
    + eexists. rewrite lookup_insert_eq. split; [done|]. left. by eexists.
  - intros c' id' k' rec [Ho'|[-> [= -> ->]]]%Hold Hr.
    + apply lookup_app_Some in Hr as [Hr|[_ Hr]]; [|by apply list_lookup_singleton_Some in Hr as [_ ?]].
      destruct (H5 c' id' k' rec Ho' Hr) as [(req' & w & Hc & Hrest) Hs]. split; [|done].
      exists req', w. rewrite lookup_insert_ne by congruence. done.
    + apply lookup_app_Some in Hr as [Hr%lookup_lt_Some|[_ Hr]]; [lia|]. by apply list_lookup_singleton_Some in Hr as [_ ?].
Qed.

Lemma unregister_ok own s id req k c rec written :
  flight_ok own s -> fl_clients s !! id = Some (MkClient req (Leading k c rec) written) ->
  flight_ok own (set_client id (MkClient req (Publishing c rec) written)
    (MkFlight (delete k (fl_inFlight s)) (fl_calls s) (fl_clients s))).
Proof.
  intros [H1 H2 H3 H4 H5] Hid. destruct (H2 _ _ Hid) as (Hw & Ho & Hk & Hr & Hreq & Hlast & Hrec).
  cbn [cl_phase cl_req cl_written] in *.
  split; cbn [set_client fl_clients fl_inFlight fl_calls]; [done|..].
  - intros id' cl' [[<- <-]|[Hne Hc]]%lookup_insert_Some.
    + split; [done|]. exists k. cbn [set_client fl_calls cl_req]. by split_and!.
    + destruct (H2 id' cl' Hc) as [Hw' Hp]. split; [done|].
      destruct (cl_phase cl') as [|k' c' rec'|c' rec'|c'|]; cbn [set_client fl_inFlight fl_calls]; try done.
      destruct Hp as (? & Hk' & ? & ? & ? & ?). split_and!; try done. rewrite lookup_delete_ne; [done|].
      intros ->. congruence.
  - intros k' c' [Hne Hk']%lookup_delete_Some. destruct (H3 k' c' Hk') as (id' & cl' & rec' & ? & Hc & Hp).
    exists id', cl', rec'. rewrite lookup_insert_ne; [done|]. intros <-. rewrite Hid in Hc. by simplify_eq/=.
  - intros c' id' k' Ho' Hr'. destruct (H4 c' id' k' Ho' Hr') as (cl' & Hc' & Hp').
    destruct (decide (id' = id)) as [->|Hne].
    + eexists. rewrite lookup_insert_eq. split; [done|]. right. exists rec. cbn [cl_phase].
      rewrite Hid in Hc'. injection Hc' as <-. cbn [cl_phase] in Hp'.
      by destruct Hp' as [[? [= _ <- _]]|[? ?]].
    + exists cl'. by rewrite lookup_insert_ne.
  - intros c' id' k' rec' Ho' Hd. destruct (H5 c' id' k' rec' Ho' Hd) as [(req' & w & Hc & Hrest) Hs]. split; [|done].
    exists req', w. rewrite lookup_insert_ne; [done|]. intros <-. rewrite Hid in Hc. by simplify_eq.
Qed.

Lemma publish_ok own s id req c rec written :
  flight_ok own s -> fl_clients s !! id = Some (MkClient req (Publishing c rec) written) ->
  flight_ok own (set_client id (MkClient req Finished written)
    (MkFlight (fl_inFlight s) (<[c := Done rec]> (fl_calls s)) (fl_clients s))).
Proof.
  intros [H1 H2 H3 H4 H5] Hid. destruct (H2 _ _ Hid) as (Hw & k & Ho & Hr & Hreq & Hlast & Hrec).
  cbn [cl_phase cl_req cl_written] in *.
  assert (Hother : forall id' cl' k' c', id' <> id -> fl_clients s !! id' = Some cl' -> at_work k' c' (cl_phase cl') -> c' <> c).
  { intros id' cl' k' c' Hne Hc Hp ->. destruct (H2 id' cl' Hc) as [_ Hp'].
    destruct Hp as [[rec' E]|[rec' E]]; rewrite E in Hp'; [destruct Hp' as [Ho' _]|destruct Hp' as (k0 & Ho' & _)]; congruence. }
  assert (Hne : forall c', c' <> c -> <[c := Done rec]> (fl_calls s) !! c' = fl_calls s !! c') by (intros; by apply list_lookup_insert_ne).
  assert (Heq : <[c := Done rec]> (fl_calls s) !! c = Some (Done rec))
    by (apply list_lookup_insert_eq; by apply lookup_lt_Some in Hr).
  split; cbn [set_client fl_clients fl_inFlight fl_calls].
  - by rewrite length_insert.
  - intros id' cl' [[<- <-]|[Hid' Hc]]%lookup_insert_Some; [by split|].
    destruct (H2 id' cl' Hc) as [Hw' Hp]. split; [done|].
    destruct (cl_phase cl') as [|k' c' rec'|c' rec'|c'|] eqn:E; cbn [set_client fl_inFlight fl_calls]; try done.
    + rewrite Hne; [done|]. eapply (Hother id' cl' k'); [done..|]. left. by exists rec'.
    + destruct Hp as (k' & ? & ? & ? & ? & ?). exists k'. rewrite Hne; [done|].
      eapply (Hother id' cl' k'); [done..|]. right. by exists rec'.
  - intros k' c' Hk'. destruct (H3 k' c' Hk') as (id' & cl' & rec' & ? & Hc & Hp).
    exists id', cl', rec'. rewrite lookup_insert_ne; [done|]. intros <-. rewrite Hid in Hc. by injection Hc as <-.
  - intros c' id' k' Ho' Hr'. destruct (decide (c' = c)) as [->|Hc']; [by rewrite Heq in Hr'|].
    rewrite Hne in Hr' by done. destruct (H4 c' id' k' Ho' Hr') as (cl' & Hc & Hp).
    exists cl'. rewrite lookup_insert_ne; [done|]. intros <-. rewrite Hid in Hc. injection Hc as <-.
    cbn [cl_phase] in Hp. by destruct Hp as [[? ?]|[? [= <- _]]].
  - intros c' id' k' rec' Ho' Hd. destruct (decide (c' = c)) as [->|Hc'].
    + rewrite Heq in Hd. injection Hd as <-. rewrite Ho in Ho'. injection Ho' as <- <-. split.
      * exists req, written. by rewrite lookup_insert_eq.
      * intros msg Hm. exists req. split; [done|]. by apply Hrec.
    + rewrite Hne in Hd by done. destruct (H5 c' id' k' rec' Ho' Hd) as [(req' & w & Hc & Hrest) Hs]. split; [|done].
      exists req', w. rewrite lookup_insert_ne; [done|]. intros <-. rewrite Hid in Hc. by simplify_eq.
Qed.

(** A client that has not finished is not at work, or stays so. *)
Ltac same_client Hid := intros ? ? ? Hcl0; rewrite Hid in Hcl0; injection Hcl0 as <-; by intros [[? ?]|[? ?]].
Ltac unfinished Hid := intros ? Hcl0; rewrite Hid in Hcl0; by injection Hcl0 as <-.

Lemma step_ok own s e s' :
  flight_ok own s -> allowed s e -> step s e = Some s' -> exists own', own `prefix_of` own' /\ flight_ok own' s'.
Proof.
  intros Hok Hal. pose proof Hok as [H1 H2 H3 H4 H5].
  destruct e as [id req|id msg|id|id|id|id]; cbn [step]; destruct (fl_clients s !! id) as [cl|] eqn:Hid; try done.
  1: destruct (collapses req) as [k|] eqn:Hreq; [destruct (fl_inFlight s !! k) as [c|] eqn:Hk|];
     intros [= <-]; [exists own; split; [done|]; apply set_client_ok; [done| |congruence|congruence]|
                     eexists; split; [by eexists|by apply arrive_lead_ok]|
                     exists own; split; [done|]; apply set_client_ok; [done|by split; [constructor|]|congruence|congruence]].
  { destruct (H3 k c Hk) as (id' & cl' & rec & Ho & _). split; [constructor|]. exists id', k. by split. }
  all: pose proof (H2 id cl Hid) as [Hw Hp]; destruct cl as [req p written]; cbn [cl_phase cl_req cl_written] in *.
  - (* Write *)
    assert (Hg : good req msg) by (by apply (Hal _ Hid)).
    assert (Hw' : Forall (rightful req) (written ++ [msg])).
    { apply Forall_app. split; [done|]. constructor; [by left|constructor]. }
    destruct p as [|k c rec| | |]; try done; intros [= <-]; exists own; (split; [done|]); (apply set_client_ok; [done| | |unfinished Hid]).
    + by split.
    + same_client Hid.
    + split; [done|]. cbn [cl_phase cl_req cl_written]. destruct Hp as (? & ? & ? & ? & ? & ?).
      rewrite last_snoc. split_and!; try done. by intros ? [= <-].
    + intros cl0 k0 c0 Hcl0. rewrite Hid in Hcl0. injection Hcl0 as <-. cbn [cl_phase]. intros Hat.
      destruct Hat as [[? [= <- <- _]]|[? ?]]; [|done].
      split; [intros ? _; by eexists|left; by eexists].
  - (* Return *)
    destruct p as [|k c rec| | |]; try done; intros [= <-].
    + exists own. split; [done|]. apply set_client_ok; [done|by split|same_client Hid|unfinished Hid].
    + exists own. split; [done|]. by apply unregister_ok.
  - (* Publish *)
    destruct p as [| |c rec| |]; try done; intros [= <-]. exists own. split; [done|]. by apply publish_ok.
  - (* Wake *)
    destruct p as [| | |c|]; try done. destruct Hp as (id' & k & Ho & Hreq).
    destruct (fl_calls s !! c) as [[|[msg|]]|] eqn:Hc; try done; intros [= <-]; exists own; (split; [done|]);
      (apply set_client_ok; [done|split; [|done]|same_client Hid|unfinished Hid]); cbn [cl_req cl_written]; [|done].
    apply Forall_app. split; [done|]. constructor; [|constructor]. right. exists k, msg.
    split_and!; [done|by eapply H5|done].
  - (* GiveUp *)
    destruct p as [| | |c|]; try done. intros [= <-]. exists own. split; [done|]. apply set_client_ok; [done|by split|same_client Hid|unfinished Hid].
Qed.

Lemma reachable_ok s : reachable s -> exists own, flight_ok own s.
Proof.
  induction 1 as [|s e s' _ [own IH] Hal Hs]; [exists []; apply no_flight_ok|].
  destruct (step_ok own s e s' IH Hal Hs) as (own' & _ & ?). by exists own'.
Qed.

(** ** What clients get *)

Fixpoint run (s : flight) (es : list event) : option flight :=
  match es with
  | [] => Some s
  | e :: es => match step s e with Some s => run s es | None => None end
  end.

Lemma run_reachable es : forall s s', reachable s -> (forall s e, e ∈ es -> allowed s e) -> run s es = Some s' -> reachable s'.
Proof.
  induction es as [|e es IH]; intros s s' Hs Hal; cbn [run]; [by intros [= <-]|].
  destruct (step s e) as [s1|] eqn:E; [|done]. apply IH.
  - eapply reach_step; [done| |done]. apply Hal. by left.
  - intros s2 e' He. apply Hal. by right.
Qed.

(** C10: Whatever the interleaving, a question is with the handlers behind at most once
    at a time, and no client gets what was not meant for it: a client that works
    for a question is the only one registered for it, and every message any client
    is given was written for its own query, or is a copy - under its own
    identifier, recursion bit and question - of one written for a query with the
    same name, up to case and root dot, and type. *)
Theorem one_flight s :
  reachable s ->
  (forall id id' cl cl' k c c' rec rec',
    fl_clients s !! id = Some cl -> cl_phase cl = Leading k c rec ->
    fl_clients s !! id' = Some cl' -> cl_phase cl' = Leading k c' rec' -> id = id') /\
  (forall id cl, fl_clients s !! id = Some cl -> Forall (rightful (cl_req cl)) (cl_written cl)).
Proof.
  intros [own [H1 H2 H3 H4 H5]]%reachable_ok. split.
  - intros id id' cl cl' k c c' rec rec' Hc Hp Hc' Hp'.
    destruct (H2 _ _ Hc) as [_ Hk], (H2 _ _ Hc') as [_ Hk']. rewrite Hp in Hk. rewrite Hp' in Hk'.
    destruct Hk as (Ho & Hk & _), Hk' as (Ho' & Hk' & _). congruence.
  - intros id cl Hc. by destruct (H2 _ _ Hc).
Qed.

(** ** Who waits is answered *)

(** Any events of others, in any number and order: the client neither wakes nor gives
    up. *)
Definition spares (id : nat) (e : event) : Prop :=
  match e with Wake id' | GiveUp id' => id' <> id | _ => True end.

Inductive meanwhile (id : nat) : flight -> flight -> Prop :=
  | meanwhile_refl s : meanwhile id s s
  | meanwhile_step s e s1 s2 : allowed s e -> spares id e -> step s e = Some s1 -> meanwhile id s1 s2 -> meanwhile id s s2.

(** The leader of call [c], a client with key [k], on its way: it works, is about to
    publish what it was given last, or has. *)
Inductive on_the_way (s : flight) (c id : nat) (k : flight_key) : Prop :=
  | way_leading req written : collapses req = Some k ->
      fl_clients s !! id = Some (MkClient req (Leading k c (last written)) written) -> on_the_way s c id k
  | way_publishing req written : collapses req = Some k ->
      fl_clients s !! id = Some (MkClient req (Publishing c (last written)) written) -> on_the_way s c id k
  | way_done req written : collapses req = Some k ->
      fl_clients s !! id = Some (MkClient req Finished written) ->
      fl_calls s !! c = Some (Done (last written)) -> on_the_way s c id k.

Lemma leader_on_the_way own s c id k :
  flight_ok own s -> own !! c = Some (id, k) -> on_the_way s c id k.
Proof.
  intros [H1 H2 H3 H4 H5] Ho. destruct (lookup_lt_is_Some_2 (fl_calls s) c) as [[|rec] Hc].
  { rewrite <-H1. by apply lookup_lt_Some in Ho. }
  - destruct (H4 c id k Ho Hc) as ([req p w] & Hid & Hp). cbn [cl_phase] in Hp. destruct (H2 _ _ Hid) as [_ Hcl].
    destruct Hp as [[rec ->]|[rec ->]]; cbn [cl_phase cl_req cl_written] in Hcl.
    + destruct Hcl as (_ & _ & _ & Hreq & -> & _). by eapply way_leading.
    + destruct Hcl as (k' & Ho' & _ & Hreq & -> & _). eapply way_publishing; [|exact Hid]. congruence.
  - destruct (H5 c id k rec Ho Hc) as [(req & w & Hid & Hreq & ->) _]. by eapply way_done.
Qed.

(** Who waits and is spared goes on waiting. *)
Lemma step_waiting s e s' id req c written :
  step s e = Some s' -> spares id e -> fl_clients s !! id = Some (MkClient req (Waiting c) written) ->
  fl_clients s' !! id = Some (MkClient req (Waiting c) written).
Proof.
  intros Hs Hsp Hid. destruct e as [id' req'|id' msg|id'|id'|id'|id']; cbn [step spares] in *;
    (destruct (decide (id' = id)) as [->|Hne]; [rewrite Hid in Hs; try done|]);
    repeat case_match; simplify_eq; cbn [set_client fl_clients]; by rewrite ?lookup_insert_ne.
Qed.

(** C12: No waiter is left behind, and nothing in between can change that.  The call a
    client waits for has one leader.  Whatever others do, in any number and order of
    steps - arrive, write, return, publish, wake, give up -, as long as the client
    itself has not gone on it still waits with what it had, and the leader, whose query
    has the same key, is at one of three points, the next step of which is enabled:
    behind it the handlers work, and when they return or panic it is about to publish
    the message it gave its own client last; it is about to publish, and the step
    ends the call with that message; or the call is over, and the waiter's own step
    ends it with exactly one message more, its copy of the leader's - or with none if
    the leader got none. *)
Theorem waiter_released s id req c written :
  reachable s -> fl_clients s !! id = Some (MkClient req (Waiting c) written) ->
  exists id' k, collapses req = Some k /\ forall s1, meanwhile id s s1 ->
  fl_clients s1 !! id = Some (MkClient req (Waiting c) written) /\
  exists req' written', collapses req' = Some k /\
    ((fl_clients s1 !! id' = Some (MkClient req' (Leading k c (last written')) written') /\
      exists s2, step s1 (Return id') = Some s2 /\
        fl_clients s2 !! id' = Some (MkClient req' (Publishing c (last written')) written')) \/
     (fl_clients s1 !! id' = Some (MkClient req' (Publishing c (last written')) written') /\
      exists s2, step s1 (Publish id') = Some s2 /\ fl_clients s2 !! id' = Some (MkClient req' Finished written') /\
        fl_calls s2 !! c = Some (Done (last written'))) \/
     (fl_clients s1 !! id' = Some (MkClient req' Finished written') /\
      exists s2, step s1 (Wake id) = Some s2 /\
        fl_clients s2 !! id = Some (MkClient req Finished
          (written ++ match last written' with Some msg => [share msg req] | None => [] end)))).
Proof.
  intros [own Hok]%reachable_ok Hid. pose proof (fk_client _ _ Hok _ _ Hid) as [_ (id' & k & Ho & Hreq)].
  exists id', k. split; [done|]. intros s1 Hm. revert own Hok Hid Ho.
  induction Hm as [s|s e s1 s2 Hal Hsp Hs _ IH]; intros own Hok Hid Ho.
  2: { destruct (step_ok own s e s1 Hok Hal Hs) as (own' & Hpre & Hok'). apply (IH own' Hok').
       - by eapply step_waiting.
       - by eapply prefix_lookup_Some. }
  split; [done|]. assert (Hlt : (c < length (fl_calls s))%nat) by (rewrite <-(fk_length _ _ Hok); by apply lookup_lt_Some in Ho).
  destruct (leader_on_the_way own s c id' k Hok Ho) as [req' w Hr Hc|req' w Hr Hc|req' w Hr Hc Hd];
    exists req', w; (split; [done|]).
  - left. split; [done|]. eexists. cbn [step]. rewrite Hc. split; [done|]. cbn [set_client fl_clients]. by rewrite lookup_insert_eq.
  - right; left. split; [done|]. eexists. cbn [step]. rewrite Hc. split; [done|]. cbn [set_client fl_clients fl_calls].
    by rewrite lookup_insert_eq, list_lookup_insert_eq.
  - right; right. split; [done|]. cbn [step]. rewrite Hid, Hd.
    destruct (last w); eexists; (split; [done|]); cbn [set_client fl_clients]; by rewrite ?app_nil_r, lookup_insert_eq.
Qed.
End runs.
