(* ===== verification/SingleFlightProg.v ===== *)
(** Collapsing identical queries ([middleware/singleflight/singleflight.go]) as a
    link of the chain: [ServeDNS] as a program in front of any handler, what it
    promises if that keeps its promise, and its relation to the events of
    [SingleFlight]. *)

From S2P Require Import Prelude Prog GoUnicode GoStrings GoNet DnsMsg Encoder Decoder DnssecNames Privacy Interface SingleFlight.

Open Scope Z_scope.

(** ** The code *)

(** The fields of the handler, and the calls made so far, each with its key; how many
    queries have come to wait so far is a number for each, to tell their contexts
    apart. *)
Record group := MkGroup {
  gr_inFlight : gmap flight_key nat; gr_calls : list (flight_key * call); gr_waiters : nat }.

Definition no_group : group := MkGroup ∅ [] 0.

(** Under the mutex: the call to wait for and as which waiter, or a new one to make. *)
Definition register (k : flight_key) (g : group) : group * (nat * nat + nat) :=
  match gr_inFlight g !! k with
  | Some c => (MkGroup (gr_inFlight g) (gr_calls g) (Datatypes.S (gr_waiters g)), inl (c, gr_waiters g))
  | None =>
    let c := length (gr_calls g) in
    (MkGroup (<[k := c]> (gr_inFlight g)) (gr_calls g ++ [(k, Running)]) (gr_waiters g), inr c)
  end.

Definition unregister (k : flight_key) (g : group) : group :=
  MkGroup (delete k (gr_inFlight g)) (gr_calls g) (gr_waiters g).

(** [c.msg = rec.msg; close(c.done)]. *)
Definition publish (k : flight_key) (c : nat) (rec : option Message) (g : group) : group :=
  MkGroup (gr_inFlight g) (<[c := (k, Done rec)]> (gr_calls g)) (gr_waiters g).

Section handler.
(** [gave_up] says in which states a waiter's own context has ended, and [picks] which
    of two cases that are both ready its [select] takes, [done] or not. *)
Context {S : Type} (gave_up picks : nat -> S -> bool) (next : Handler S).

Definition on_group {A} (f : group -> group * A) (gs : group * S) : (group * S) * A :=
  let (g, a) := f gs.1 in ((g, gs.2), a).

(** The [select] of [waitFor]: not enabled until the call is over or the client has
    given up, and either way if both. *)
Definition waitFor (c n : nat) (gs : group * S) : option ((group * S) * option Message) :=
  match gr_calls gs.1 !! c with
  | Some (_, Done rec) => Some (gs, if gave_up n gs.2 && negb (picks n gs.2) then None else rec)
  | _ => if gave_up n gs.2 then Some (gs, None) else None
  end.

(** What the leader does when [next] has returned. *)
Definition finish (k : flight_key) (c : nat) (written : list Message) : prog (group * S) (list Message) :=
  atomic (on_group (fun g => (unregister k g, tt))) ≫= fun _ : unit =>
  atomic (on_group (fun g => (publish k c (last written) g, tt))) ≫= fun _ : unit =>
  Ret written.

Definition answer_waiter (req : Message) (rec : option Message) : list Message :=
  match rec with Some msg => [share msg req] | None => [] end.

Definition lead_or_wait (addr : net_Addr) (req : Message) (k : flight_key) (turn : nat * nat + nat) :
    prog (group * S) (list Message) :=
  match turn with
  | inl (c, n) => rec ← await (waitFor c n); Ret (answer_waiter req rec)
  | inr c => written ← zoom_snd (next addr req); finish k c written
  end.

Definition ServeDNS : Handler (group * S) := fun addr req =>
  match collapses req with
  | None => zoom_snd (next addr req)
  | Some k => atomic (on_group (register k)) ≫= lead_or_wait addr req k
  end.
End handler.

(** ** What it promises *)

Section serves.
Context (good : Message -> Message -> Prop).

(** Replies to a query that may be shared. *)
Definition fine (req msg : Message) : Prop := replies req msg /\ good req msg.

(** What is registered is a call for that key, and what a call ended with is a
    reply to a query with its key. *)
Record group_ok (g : group) : Prop := {
  go_registered : forall k c, gr_inFlight g !! k = Some c -> exists cl, gr_calls g !! c = Some (k, cl);
  go_done : forall c k msg, gr_calls g !! c = Some (k, Done (Some msg)) -> shared fine k msg }.

(** Calls are never forgotten. *)
Definition group_grows (g g' : group) : Prop :=
  forall c k cl, gr_calls g !! c = Some (k, cl) -> exists cl', gr_calls g' !! c = Some (k, cl').

#[export] Instance group_grows_preorder : PreOrder group_grows.
Proof.
  split; [intros g c k cl; eauto|]. intros g1 g2 g3 H1 H2 c k cl Hc.
  destruct (H1 c k cl Hc) as [cl' Hc']. by eapply H2.
Qed.

Lemma no_group_ok : group_ok no_group.
Proof. split; intros *; cbn; rewrite ?lookup_empty; done. Qed.

Lemma group_register_ok k g : group_ok g ->
  group_ok (register k g).1 /\ group_grows g (register k g).1 /\
  forall c, (exists n, (register k g).2 = inl (c, n)) \/ (register k g).2 = inr c -> exists cl, gr_calls (register k g).1 !! c = Some (k, cl).
Proof.
  intros Hok. unfold register. destruct (gr_inFlight g !! k) as [c|] eqn:E; cbn [fst snd gr_calls gr_inFlight].
  { split_and!; [destruct Hok; by split|intros c0 k0 cl0 ?; by exists cl0|]. intros c' [[n [= <- _]]|[=]]. by apply (go_registered g Hok). }
  assert (Hmid : (gr_calls g ++ [(k, Running)]) !! length (gr_calls g) = Some (k, Running)) by by apply list_lookup_middle.
  split_and!.
  - split; cbn [gr_inFlight gr_calls].
    + intros k' c' [[<- <-]|[_ Hk']]%lookup_insert_Some; [by eexists|].
      destruct (go_registered g Hok k' c' Hk') as [cl Hcl]. exists cl. by apply lookup_app_l_Some.
    + intros c' k' msg [Hc|[_ Hc]]%lookup_app_Some; [by eapply go_done|]. by apply list_lookup_singleton_Some in Hc as [_ ?].
  - intros c' k' cl Hc. exists cl. by apply lookup_app_l_Some.
  - intros c' [[n [=]]|[= <-]]. by eexists.
Qed.

Lemma group_unregister_ok k g : group_ok g -> group_ok (unregister k g) /\ group_grows g (unregister k g).
Proof.
  intros [H1 H2]. split; [split; [|done]|intros c k' cl; eauto]. cbn. intros k' c [_ Hk]%lookup_delete_Some. by apply H1.
Qed.

Lemma group_publish_ok k c rec cl g : group_ok g -> gr_calls g !! c = Some (k, cl) ->
  (forall msg, rec = Some msg -> shared fine k msg) ->
  group_ok (publish k c rec g) /\ group_grows g (publish k c rec g).
Proof.
  intros [H1 H2] Hc Hrec. assert (Hlt := lookup_lt_Some _ _ _ Hc).
  assert (Hk : forall c' k' cl', gr_calls g !! c' = Some (k', cl') -> exists cl'', gr_calls (publish k c rec g) !! c' = Some (k', cl'')).
  { intros c' k' cl' Hc'. cbn. destruct (decide (c' = c)) as [->|Hne].
    - rewrite list_lookup_insert_eq by done. rewrite Hc in Hc'. injection Hc' as <- _. by eexists.
    - rewrite list_lookup_insert_ne by done. by eexists. }
  split; [split|done].
  - intros k' c' Hk'. destruct (H1 k' c' Hk') as [cl' Hcl]. by eapply Hk.
  - intros c' k' msg. cbn. destruct (decide (c' = c)) as [->|Hne].
    + rewrite list_lookup_insert_eq by done. intros [= <- ->]. by apply Hrec.
    + rewrite list_lookup_insert_ne by done. apply H2.
Qed.

(** What a waiter gets must be good for it. *)
Context (Hshare : forall k req req' msg, collapses req = Some k -> collapses req' = Some k ->
  fine req msg -> good req' (share msg req')).

Lemma share_fine k req msg : collapses req = Some k -> shared fine k msg -> fine req (share msg req).
Proof.
  intros Hk (req0 & Hk0 & Hf). split; [|by eapply Hshare]. destruct Hf as [(_ & Hqr & _ & _ & Har) _].
  split_and!; [done|done|done|done|]. cbn. by rewrite Har.
Qed.

Lemma last_fine req k written msg : collapses req = Some k -> Forall (fine req) written -> last written = Some msg -> shared fine k msg.
Proof.
  intros Hk Hw Hl. exists req. split; [done|]. rewrite Forall_forall in Hw. by apply Hw, last_Some_elem_of.
Qed.

#[export] Instance ServeDNS_serves {S} W gave_up picks (next : Handler S) P G :
  Serves W next P G good ->
  Serves True (ServeDNS gave_up picks next) (fun gs => group_ok gs.1 /\ P gs.2)
    (fun gs gs' => group_grows gs.1 gs'.1 /\ G gs.2 gs'.2) good.
Proof.
  intros [HG Hnext]. split; [by apply pair_preorder; [apply _|]|]. intros addr req gs Hp. unfold ServeDNS.
  assert (Hzoom : forall gs, obeys True (fun gs => group_ok gs.1 /\ P gs.2) (fun gs gs' => group_grows gs.1 gs'.1 /\ G gs.2 gs'.2)
    gs (zoom_snd (next addr req)) (fun _ => answered good req)).
  { intros gs0. apply (obeys_zoom_snd True (fun gs : group * S => group_ok gs.1) P group_grows G (next addr req)
      (fun _ => answered good req)); [by intros g s s'|].
    eapply obeys_wait; [|by apply Hnext]. done. }
  destruct (collapses req) as [k|] eqn:Hk; [|apply Hzoom].
  eapply (obeys_bind True _ _ _ _ (fun gs turn => forall c, (exists n, turn = inl (c, n)) \/ turn = inr c ->
    exists cl, gr_calls gs.1 !! c = Some (k, cl))).
  { apply obeys_atomic. intros [g s] [Hg Hs] _. unfold on_group. cbn [fst snd] in *.
    destruct (group_register_ok k g Hg) as (? & ? & ?). destruct (register k g) as [g' turn]. by split_and!. }
  intros gs1 [[c n]|c] Hc; destruct (Hc c ltac:(eauto)) as [cl Hcl]; cbn [lead_or_wait].
  - intros [g s] [Hg Hs] [Hgrow _]. unfold waitFor. cbn [fst snd] in *.
    destruct (Hgrow c k cl Hcl) as [cl' Hcl']. rewrite Hcl'.
    destruct cl' as [|rec]; [destruct (gave_up n s); [split_and!; [done..|split; [simpl; lia|constructor]]|done]|].
    destruct (gave_up n s && negb (picks n s)); [split_and!; [done..|split; [simpl; lia|constructor]]|].
    split_and!; [done..|]. split; [destruct rec; simpl; lia|].
    destruct rec as [msg|]; [|constructor]. constructor; [|constructor]. apply (share_fine k req); [done|].
    by apply (go_done g Hg c k msg).
  - eapply obeys_bind; [apply obeys_from; [by apply pair_preorder; [apply _|]|apply Hzoom]|].
    intros gs2 out [[Hgrow _] [Hlen Hout]]. unfold finish.
    eapply (obeys_bind True _ _ _ _ (fun gs _ => exists cl, gr_calls gs.1 !! c = Some (k, cl))).
    { apply obeys_atomic. intros [g s] [Hg Hs] [Hgrow' _]. cbn [on_group fst snd] in *.
      destruct (group_unregister_ok k g Hg). split_and!; [done..|].
      destruct (Hgrow c k cl Hcl) as [cl1 Hcl1]. by eapply Hgrow'. }
    intros gs3 _ [cl3 Hcl3]. eapply (obeys_bind True _ _ _ _ (fun _ _ => True)); [|by intros ? _ _].
    apply obeys_atomic. intros [g s] [Hg Hs] [Hgrow' _]. cbn [on_group fst snd] in *.
    destruct (Hgrow' c k cl3 Hcl3) as [cl4 Hcl4].
    destruct (group_publish_ok k c (last out) cl4 g Hg Hcl4) as [? ?]; [|by split_and!].
    intros msg. by apply (last_fine req k).
Qed.
End serves.
