(* ===== verification/SingleFlightRefine.v ===== *)
(** The two models of [middleware/singleflight/singleflight.go] are one: whatever a
    pool of goroutines that run the program of [SingleFlightProg] does, in front of
    any handler that keeps its promise, is a run of the events of [SingleFlight]. *)

From S2P Require Import Prelude Prog GoUnicode GoStrings GoNet DnsMsg Encoder Decoder DnssecNames Privacy Interface SingleFlight SingleFlightProg.

Open Scope Z_scope.

(** One action of a program. *)
Definition act {S A} (p : prog S A) (s : S) : option (S * prog S A) :=
  match p with
  | Ret _ => None
  | Act f k => match f s with Some (s', b) => Some (s', k b) | None => None end
  end.

Definition returned {S A} (p : prog S A) : option A := match p with Ret a => Some a | Act _ _ => None end.

Section refinement.
Context {S : Type} (gave_up picks : nat -> S -> bool) (next : Handler S).
Context (W : Prop) (P : S -> Prop) (G : S -> S -> Prop) (good : Message -> Message -> Prop).
Context {Hnext : Serves W next P G good}.

#[local] Instance serves_preorder : PreOrder G := serves_order.

(** The goroutine of a query: where its program is, and where the client is in the
    system of events; what is left of [next] still keeps the promise. *)
Inductive stage (s : S) (addr : net_Addr) (req : Message) : prog (group * S) (list Message) -> option client -> Prop :=
  | at_start k : collapses req = Some k -> proper_query req -> stage s addr req (ServeDNS gave_up picks next addr req) None
  | at_passing q : returned q = None -> obeys W P G s q (fun _ => answered good req) ->
      stage s addr req (zoom_snd q) (Some (MkClient req Passing []))
  | at_leading k c q : obeys W P G s q (fun _ => answered good req) ->
      stage s addr req (zoom_snd q ≫= finish k c) (Some (MkClient req (Leading k c None) []))
  | at_publishing k c written :
      stage s addr req (atomic (on_group (fun g => (publish k c (last written) g, tt))) ≫= fun _ : unit => Ret written)
        (Some (MkClient req (Publishing c (last written)) written))
  | at_waiting c n :
      stage s addr req (await (waitFor gave_up picks c n) ≫= fun rec => Ret (answer_waiter req rec)) (Some (MkClient req (Waiting c) []))
  | at_end written : stage s addr req (Ret written) (Some (MkClient req Finished written)).

Lemma stage_later s s' addr req p cl : G s s' -> stage s addr req p cl -> stage s' addr req p cl.
Proof.
  intros Hg Hst. destruct Hst as [k Hk Hp|q Hq Ho|k c q Ho|k c w|c n|w].
  - by eapply at_start.
  - apply at_passing; [done|]. by apply (obeys_earlier W P G q _ s s').
  - apply at_leading. by apply (obeys_earlier W P G q _ s s').
  - apply at_publishing.
  - apply at_waiting.
  - apply at_end.
Qed.

(** The state of the programs and that of the events. *)
Record simulates (gs : group * S) (ts : list ((net_Addr * Message) * prog (group * S) (list Message))) (fl : flight) : Prop := {
  sm_inFlight : fl_inFlight fl = gr_inFlight gs.1;
  sm_calls : fl_calls fl = map snd (gr_calls gs.1);
  sm_clients : forall i, match ts !! i with
    | Some ((addr, req), p) => stage gs.2 addr req p (fl_clients fl !! i)
    | None => fl_clients fl !! i = None
    end }.

(** What [next] wrote reaches the client message by message. *)
Lemma writes id req (ph : list Message -> phase) fl :
  ph = (fun _ => Passing) \/ (exists k c, ph = fun w => Leading k c (last w)) -> forall w w0,
  Forall (fine good req) w ->
  reachable (fine good) (set_client id (MkClient req (ph w0) w0) fl) ->
  reachable (fine good) (set_client id (MkClient req (ph (w0 ++ w)) (w0 ++ w)) fl).
Proof.
  intros Hph w. induction w as [|m w IH]; intros w0 Hw Hr; [by rewrite app_nil_r|]. apply Forall_cons in Hw as [Hm Hw].
  replace (w0 ++ m :: w) with ((w0 ++ [m]) ++ w) by by rewrite <-app_assoc. apply IH; [done|].
  eapply (reach_step _ _ (Write id m)); [exact Hr| |].
  - intros cl. cbn [set_client fl_clients]. rewrite lookup_insert_eq. by intros [= <-].
  - cbn [step set_client fl_clients]. rewrite lookup_insert_eq. unfold set_client. cbn [fl_inFlight fl_calls fl_clients].
    destruct Hph as [-> |(k & c & ->)]; [|rewrite last_snoc]; by rewrite insert_insert_eq.
Qed.

(** When [next] has returned for a query that is passed on, so has the client. *)
Lemma passing_settles s i addr req q fl :
  obeys W P G s q (fun _ => answered good req) ->
  reachable (fine good) (set_client i (MkClient req Passing []) fl) ->
  exists cl, reachable (fine good) (set_client i cl fl) /\ stage s addr req (zoom_snd q) (Some cl).
Proof.
  intros Ho Hr. destruct q as [w|B f k]; [|by exists (MkClient req Passing []); split; [|apply at_passing]].
  exists (MkClient req Finished w). split; [|apply at_end]. destruct Ho as [_ Hw].
  apply (writes i req (fun _ => Passing) fl ltac:(by left) w []) in Hr; [|exact Hw]. cbn [app] in Hr.
  eapply (reach_step _ _ (Return i)); [exact Hr|done|]. cbn [step set_client fl_clients]. rewrite lookup_insert_eq.
  unfold set_client. cbn [fl_inFlight fl_calls fl_clients]. by rewrite insert_insert_eq.
Qed.

(** One client moves on, the others stay where they were. *)
Lemma simulates_move gs gs' ts fl fl' i addr req p p' cl :
  simulates gs ts fl -> ts !! i = Some ((addr, req), p) -> G gs.2 gs'.2 ->
  fl_inFlight fl' = gr_inFlight gs'.1 -> fl_calls fl' = map snd (gr_calls gs'.1) ->
  fl_clients fl' = <[i := cl]> (fl_clients fl) -> stage gs'.2 addr req p' (Some cl) ->
  simulates gs' (<[i := ((addr, req), p')]> ts) fl'.
Proof.
  intros [_ _ Hc] Hi Hg H1 H2 H3 Hst. split; [done|done|]. intros j. rewrite H3.
  assert (Hlt := lookup_lt_Some _ _ _ Hi). destruct (decide (j = i)) as [->|Hne].
  - by rewrite list_lookup_insert_eq, lookup_insert_eq.
  - rewrite list_lookup_insert_ne, lookup_insert_ne by done. specialize (Hc j).
    destruct (ts !! j) as [[[addr' req'] q]|]; [|done]. by eapply stage_later.
Qed.

(** A goroutine begins. *)
Lemma simulates_spawn gs ts fl addr req :
  reachable (fine good) fl -> simulates gs ts fl -> proper_query req ->
  exists fl', reachable (fine good) fl' /\ simulates gs (ts ++ [((addr, req), ServeDNS gave_up picks next addr req)]) fl'.
Proof.
  intros Hr [H1 H2 Hc] Hp. set (i := length ts).
  assert (Hnew : fl_clients fl !! i = None) by (specialize (Hc i); by rewrite lookup_ge_None_2 in Hc).
  assert (Hadd : forall fl' ocl, fl_inFlight fl' = gr_inFlight gs.1 -> fl_calls fl' = map snd (gr_calls gs.1) ->
    (forall j, j <> i -> fl_clients fl' !! j = fl_clients fl !! j) -> fl_clients fl' !! i = ocl ->
    stage gs.2 addr req (ServeDNS gave_up picks next addr req) ocl ->
    simulates gs (ts ++ [((addr, req), ServeDNS gave_up picks next addr req)]) fl').
  { intros fl' ocl E1 E2 Hother <- Hst. split; [done|done|]. intros j. destruct (decide (j = i)) as [->|Hne].
    - by rewrite list_lookup_middle.
    - rewrite Hother by done. specialize (Hc j). destruct (decide (j < i)%nat) as [Hlt|Hge].
      + by rewrite lookup_app_l.
      + rewrite lookup_ge_None_2 in Hc by (unfold i in *; lia).
        by rewrite lookup_ge_None_2 by (rewrite length_app; simpl; unfold i in *; lia). }
  destruct (collapses req) as [k|] eqn:Hk.
  - exists fl. split; [done|]. apply (Hadd fl None); [done..|]. by eapply at_start.
  - assert (Hr1 : reachable (fine good) (set_client i (MkClient req Passing []) fl)).
    { apply (reach_step _ fl (Arrive i req)); [done|done|]. cbn [step]. by rewrite Hnew, Hk. }
    destruct (passing_settles gs.2 i addr req (next addr req) fl) as (cl & Hr2 & Hst); [by apply (serves_obeys (Serves := Hnext))|done|].
    exists (set_client i cl fl). split; [done|]. apply (Hadd _ (Some cl)); [done|done| | |].
    + intros j Hj. cbn [set_client fl_clients]. by rewrite lookup_insert_ne.
    + cbn [set_client fl_clients]. by rewrite lookup_insert_eq.
    + unfold ServeDNS. by rewrite Hk.
Qed.

(** The first action of a query that is collapsed. *)
Lemma simulates_register g s ts fl i addr req k :
  reachable (fine good) fl -> simulates (g, s) ts fl ->
  ts !! i = Some ((addr, req), ServeDNS gave_up picks next addr req) -> fl_clients fl !! i = None ->
  collapses req = Some k -> proper_query req ->
  exists fl', reachable (fine good) fl' /\
    simulates ((register k g).1, s) (<[i := ((addr, req), lead_or_wait gave_up picks next addr req k (register k g).2)]> ts) fl'.
Proof.
  intros Hr Hsim Hi Hcl Hk Hp. pose proof Hsim as [H1 H2 _]. cbn [fst snd] in *. unfold register.
  destruct (gr_inFlight g !! k) as [c|] eqn:Ec; cbn [fst snd lead_or_wait].
  - exists (set_client i (MkClient req (Waiting c) []) fl). split.
    { apply (reach_step _ fl (Arrive i req)); [done|done|]. cbn [step]. by rewrite Hcl, Hk, H1, Ec. }
    eapply simulates_move; [exact Hsim|exact Hi|done|done|done|done|apply at_waiting].
  - eexists. split.
    { apply (reach_step _ fl (Arrive i req)); [done|done|]. cbn [step]. by rewrite Hcl, Hk, H1, Ec. }
    eapply simulates_move; [exact Hsim|exact Hi|done| | |done|].
    + cbn [set_client fl_inFlight gr_inFlight fst]. by rewrite H2, length_map.
    + cbn [set_client fl_calls gr_calls fst]. by rewrite H2, map_app.
    + rewrite H2, length_map. apply at_leading. by apply (serves_obeys (Serves := Hnext)).
Qed.

(** The leader, when [next] has returned. *)
Lemma simulates_return g s ts fl i addr req k c w p :
  reachable (fine good) fl -> simulates (g, s) ts fl -> ts !! i = Some ((addr, req), p) ->
  fl_clients fl !! i = Some (MkClient req (Leading k c None) []) -> answered good req w ->
  exists fl', reachable (fine good) fl' /\
    simulates (unregister k g, s) (<[i := ((addr, req), atomic (on_group (fun g => (publish k c (last w) g, tt))) ≫= fun _ : unit => Ret w)]> ts) fl'.
Proof.
  intros Hr Hsim Hi Hcl [_ Hw]. pose proof Hsim as [H1 H2 _]. cbn [fst snd] in *.
  assert (Hr0 : reachable (fine good) (set_client i (MkClient req (Leading k c None) []) fl)).
  { unfold set_client. rewrite insert_id by done. by destruct fl. }
  apply (writes i req (fun w => Leading k c (last w)) fl ltac:(right; eauto) w []) in Hr0; [|exact Hw]. cbn [app] in Hr0.
  eexists. split.
  { apply (reach_step _ _ (Return i)) with (1 := Hr0); [done|]. cbn [step set_client fl_clients]. by rewrite lookup_insert_eq. }
  eapply simulates_move; [exact Hsim|exact Hi|done| | | |apply at_publishing].
  - cbn [set_client fl_inFlight fst unregister gr_inFlight]. by rewrite H1.
  - done.
  - cbn [set_client fl_clients]. by rewrite insert_insert_eq.
Qed.

Lemma map_snd_insert {A B} (l : list (A * B)) c x : map snd (<[c := x]> l) = <[c := x.2]> (map snd l).
Proof. apply list_fmap_insert. Qed.

(** The leader publishes. *)
Lemma simulates_publish g s ts fl i addr req k c w p :
  reachable (fine good) fl -> simulates (g, s) ts fl -> ts !! i = Some ((addr, req), p) ->
  fl_clients fl !! i = Some (MkClient req (Publishing c (last w)) w) ->
  exists fl', reachable (fine good) fl' /\ simulates (publish k c (last w) g, s) (<[i := ((addr, req), Ret w)]> ts) fl'.
Proof.
  intros Hr Hsim Hi Hcl. pose proof Hsim as [H1 H2 _]. cbn [fst snd] in *. eexists. split.
  { apply (reach_step _ _ (Publish i)) with (1 := Hr); [done|]. cbn [step]. by rewrite Hcl. }
  eapply simulates_move; [exact Hsim|exact Hi|done|done| |done|apply at_end].
  cbn [set_client fl_calls fst publish gr_calls]. by rewrite H2, map_snd_insert.
Qed.

(** A waiter goes on: its context has ended, or the call is over. *)
Lemma simulates_wait g s ts fl i addr req c n p gs' rec :
  reachable (fine good) fl -> simulates (g, s) ts fl -> ts !! i = Some ((addr, req), p) ->
  fl_clients fl !! i = Some (MkClient req (Waiting c) []) -> waitFor gave_up picks c n (g, s) = Some (gs', rec) ->
  exists fl', reachable (fine good) fl' /\ simulates gs' (<[i := ((addr, req), Ret (answer_waiter req rec))]> ts) fl'.
Proof.
  intros Hr Hsim Hi Hcl Hw. pose proof Hsim as [H1 H2 _]. cbn [fst snd] in *. unfold waitFor in Hw. cbn [fst snd] in Hw.
  assert (Hgive : exists fl', reachable (fine good) fl' /\ simulates (g, s) (<[i := ((addr, req), Ret (answer_waiter req None))]> ts) fl').
  { eexists. split.
    { apply (reach_step _ _ (GiveUp i)) with (1 := Hr); [done|]. cbn [step]. by rewrite Hcl. }
    eapply simulates_move; [exact Hsim|exact Hi|done|done|done|done|apply at_end]. }
  destruct (gr_calls g !! c) as [[k [|rec']]|] eqn:Ec.
  1, 3: destruct (gave_up n s); [by injection Hw as <- <-|done].
  destruct (gave_up n s && negb (picks n s)); injection Hw as <- <-; [done|].
  assert (Hc : fl_calls fl !! c = Some (Done rec')) by by rewrite H2, list_lookup_fmap, Ec.
  destruct rec' as [msg|]; eexists; (split;
    [apply (reach_step _ _ (Wake i)) with (1 := Hr); [done|]; cbn [step]; by rewrite Hcl, Hc|
     eapply simulates_move; [exact Hsim|exact Hi|done|done|done|done|apply at_end]]).
Qed.

(** Every action of a goroutine is a run of events. *)
Lemma simulates_act g s ts fl i addr req p gs' p' :
  reachable (fine good) fl -> simulates (g, s) ts fl -> P s -> ts !! i = Some ((addr, req), p) -> act p (g, s) = Some (gs', p') ->
  P gs'.2 /\ exists fl', reachable (fine good) fl' /\ simulates gs' (<[i := ((addr, req), p')]> ts) fl'.
Proof.
  intros Hr Hsim Hs Hi Hact. pose proof (sm_clients _ _ _ Hsim i) as Hst. rewrite Hi in Hst. cbn [snd] in Hst.
  remember (fl_clients fl !! i) as ocl eqn:Hcl. symmetry in Hcl. destruct Hst as [k Hk Hp|q Hq Ho|k c q Ho|k c w|c n|w].
  - unfold ServeDNS in Hact. rewrite Hk in Hact. cbn in Hact. unfold on_group in Hact. cbn [fst snd] in Hact.
    destruct (simulates_register g s ts fl i addr req k Hr Hsim Hi Hcl Hk Hp) as (fl' & Hr' & Hsim').
    destruct (register k g) as [g' turn]. injection Hact as <- <-. split; [done|]. by exists fl'.
  - destruct q as [w|B f k]; [done|]. cbn in Hact. specialize (Ho s Hs ltac:(done)).
    destruct (f s) as [[s1 b]|]; [|done]. destruct Ho as (HP & Hg & Ho). injection Hact as <- <-. split; [done|].
    destruct (passing_settles s1 i addr req (k b) fl) as (cl & Hr' & Hst'); [done| |].
    { unfold set_client. rewrite insert_id by done. by destruct fl. }
    exists (set_client i cl fl). split; [done|]. destruct Hsim as [H1 H2 Hc].
    eapply simulates_move; [by split|exact Hi|exact Hg|done..].
  - destruct q as [w|B f k0].
    + cbn in Hact. injection Hact as <- <-. split; [done|]. by eapply simulates_return.
    + cbn in Hact. specialize (Ho s Hs ltac:(done)).
      destruct (f s) as [[s1 b]|]; [|done]. destruct Ho as (HP & Hg & Ho). injection Hact as <- <-. split; [done|].
      exists fl. split; [done|]. pose proof Hsim as [H1 H2 _].
      eapply simulates_move; [exact Hsim|exact Hi|exact Hg|done|done|by rewrite insert_id|by apply at_leading].
  - cbn in Hact. injection Hact as <- <-. split; [done|]. by eapply simulates_publish.
  - cbn in Hact. destruct (waitFor gave_up picks c n (g, s)) as [[gs1 rec]|] eqn:Ew; [|done]. injection Hact as <- <-. split.
    + unfold waitFor in Ew. cbn [fst snd] in Ew. repeat case_match; by simplify_eq.
    + by eapply simulates_wait.
  - done.
Qed.

(** Where a goroutine that has returned is. *)
Lemma stage_returned s addr req p cl out : stage s addr req p cl -> returned p = Some out ->
  cl = Some (MkClient req Finished out).
Proof.
  intros [k Hk _|q Hq _|k c q _|k c w|c n|w] E; try done.
  - unfold ServeDNS in E. by rewrite Hk in E.
  - by destruct q.
  - by destruct q.
  - cbn in E. by injection E as ->.
Qed.

(** C11: The handler as it is built into the chain refines the system of events: any pool
    of goroutines that run it at once, in any interleaving, in front of any handler
    that keeps its promise, is at every moment a reachable state of that system,
    with the same keys in flight, the same calls, and each goroutine where its
    client is.  So what holds of all runs of events - one flight for a question, no
    waiter left behind - holds of the program; and what a goroutine returned was
    written for its query or is a copy of what was written for one with its key. *)
Theorem ServeDNS_refines s0 g s ts :
  P s0 ->
  pool_reach (fun x => ServeDNS gave_up picks next x.1 x.2) (fun x => proper_query x.2) (no_group, s0) (g, s) ts ->
  exists fl, reachable (fine good) fl /\ simulates (g, s) ts fl /\
    forall i addr req out, ts !! i = Some ((addr, req), Ret out) ->
      fl_clients fl !! i = Some (MkClient req Finished out) /\ Forall (rightful (fine good) req) out.
Proof.
  intros Hs0 Hpool.
  assert (H : P s /\ exists fl, reachable (fine good) fl /\ simulates (g, s) ts fl).
  { remember (g, s) as gs eqn:E. change s with (g, s).2. rewrite <-E. clear E.
    induction Hpool as [|gs ts gs' ts' _ [HP (fl & Hr & Hsim)] Hstep Hok].
    - split; [done|]. exists no_flight. split; [constructor|]. by split.
    - inversion Hstep as [gs1 ts1 [addr req]|B gs1 gs2 ts1 i [addr req] f k b Hi Hf]; simplify_eq.
      + split; [done|]. apply Forall_app in Hok as [_ Hok]. apply Forall_inv in Hok.
        by apply (simulates_spawn gs' ts fl addr req).
      + destruct gs as [g1 s1]. apply (simulates_act g1 s1 ts fl i addr req (Act f k)); [done..|]. cbn [act]. by rewrite Hf. }
  destruct H as [_ (fl & Hr & Hsim)]. exists fl. split; [done|]. split; [done|]. intros i addr req out Hi.
  pose proof (sm_clients _ _ _ Hsim i) as Hst. rewrite Hi in Hst. assert (Hc := stage_returned _ _ _ _ _ out Hst eq_refl).
  split; [done|]. destruct (reachable_ok _ _ Hr) as [own [_ Hcl _ _ _]]. by destruct (Hcl i _ Hc).
Qed.
End refinement.
