(* ===== verification/DnsServer.v ===== *)
(** The listeners of [dnsserver/server.go]: what is read from the network reaches
    the handler as a message, what the handler writes leaves as a packet.

    The first part is about bytes: a datagram gives at most one datagram back per
    message written, a connection is the stream of bytes that arrives on it before
    it is closed, idles or the server shuts down.  The second part is the
    goroutines: the limit on queries in progress and the shutdown, as a transition
    system.  The third is [ListenAndServe]: the sockets it opens and closes. *)

From S2P Require Import Prelude Prog GoUnicode GoStrings GoNet DnsMsg Encoder Decoder WireSpec WireCalculus WireNames WireRoundTrip DecoderSafe DnssecRecords DnssecNames Verify Denial Privacy Interface Upstream UpstreamSpec TrustAnchor Validate ValidateSpec Resolve ResolveSpec Resolution Handler.

Open Scope Z_scope.

Definition maxUDPResponseSize : Z := 512.
Definition maxUDPPacketSize : Z := 4096.
Definition defaultMaxInFlight : Z := 512.

(** ** Responses *)

Definition with_additionals (rrs : list RR) (m : Message) : Message :=
  MkMessage (m_Header m) (m_Questions m) (m_Answers m) (m_Authorities m) rrs.

Definition withOPT (additionals : list RR) (udpSize : Z) : list RR :=
  List.filter (fun rr => negb (rr_Type rr =? TypeOPT)) additionals ++ [NewOPT (u16 udpSize) NoDNSSEC].

Record udpResponseWriter := MkUDPWriter { uw_addr : IP; uw_maxSize : Z; uw_clientUsedEDNS0 : bool }.

(** [out.Header.TC = true; out.Answers = nil; out.Authorities = nil]. *)
Definition truncated (m : Message) : Message :=
  let h := m_Header m in
  MkMessage (MkHeader (h_ID h) (h_QR h) (h_Opcode h) (h_AA h) true (h_RD h) (h_RA h) (h_AD h) (h_CD h)
      (h_RCode h) (h_QDCount h) (h_ANCount h) (h_NSCount h) (h_ARCount h))
    (m_Questions m) [] [] (m_Additionals m).

(** The message both writers send, before truncation. *)
Definition outgoing (edns0 : bool) (udpSize : Z) (msg : Message) : Message :=
  if edns0 then with_additionals (withOPT (m_Additionals msg) udpSize) msg else msg.

(** The datagram [udpResponseWriter.WriteMsg] sends, or the error it returns - which
    no handler looks at. *)
Definition udp_WriteMsg (w : udpResponseWriter) (msg : Message) : result wire_error (list Z) :=
  let out := outgoing (uw_clientUsedEDNS0 w) (uw_maxSize w) msg in
  packet ← Pack out;
  if uw_maxSize w <? Z.of_nat (length packet) then Pack (truncated out) else Ok packet.

(** What [tcpResponseWriter.WriteMsg] writes to the connection. *)
Definition frame (packet : list Z) : list Z := be16 (u16 (Z.of_nat (length packet))) ++ packet.

Definition tcp_WriteMsg (edns0 : bool) (msg : Message) : result wire_error (list Z) :=
  packet ← Pack (outgoing edns0 maxUDPPacketSize msg);
  Ok (frame packet).

(** The writes that succeed. *)
Definition sent {A} (rs : list (result wire_error A)) : list A :=
  omap (fun r => match r with Ok a => Some a | Err _ => None end) rs.

(** ** Queries *)

Definition udp_writer (ip : IP) (req : Message) : udpResponseWriter :=
  match OPT req with
  | Some opt =>
    let size := UDPSize opt in
    MkUDPWriter ip (if maxUDPResponseSize <? size then Z.min size maxUDPPacketSize else maxUDPResponseSize) true
  | None => MkUDPWriter ip maxUDPResponseSize false
  end.

(** [io.ReadFull] of so many bytes: [None] if the stream ends before. *)
Definition ReadFull (n : nat) (stream : list Z) : option (list Z * list Z) :=
  if bool_decide (n <= length stream)%nat then Some (take n stream, drop n stream) else None.

(** [binary.BigEndian.Uint16]. *)
Definition Uint16 (b : list Z) : Z := from_be16 (octet b 0) (octet b 1).

Section listeners.
Context {S : Type} (h : Handler S).

Definition handleUDPQuery (ip : IP) (data : list Z) : prog S (list (list Z)) :=
  match Unpack data with
  | Err _ => Ret []
  | Ok req =>
    written ← h (UDPAddr ip) req;
    Ret (sent (map (udp_WriteMsg (udp_writer ip req)) written))
  end.

(** One turn of [serveUDP]: what exceeds the buffer of a datagram is lost. *)
Definition serveUDP_once (ip : IP) (datagram : list Z) : prog S (list (list Z)) :=
  handleUDPQuery ip (take (Z.to_nat maxUDPPacketSize) datagram).

(** The loop of [handleTCPConn] over the bytes of the stream, with the bytes written
    as result.  Every turn takes at least two bytes. *)
Fixpoint handleTCPConn (fuel : nat) (ip : IP) (stream : list Z) : prog S (list Z) :=
  match fuel with
  | O => Ret []
  | Datatypes.S fuel =>
    match ReadFull 2 stream with
    | None => Ret []
    | Some (lenBuf, stream) =>
      match ReadFull (Z.to_nat (Uint16 lenBuf)) stream with
      | None => Ret []
      | Some (data, stream) =>
        match Unpack data with
        | Err _ => Ret []
        | Ok req =>
          written ← h (TCPAddr ip) req;
          rest ← handleTCPConn fuel ip stream;
          Ret (concat (sent (map (tcp_WriteMsg (bool_decide (OPT req <> None))) written)) ++ rest)
        end
      end
    end
  end.

Definition serve_stream (ip : IP) (stream : list Z) : prog S (list Z) :=
  handleTCPConn (Datatypes.S (length stream)) ip stream.

(** The same queries without any network: the handler on each in turn. *)
Fixpoint answer_each (ip : IP) (reqs : list Message) : prog S (list (list Z)) :=
  match reqs with
  | [] => Ret []
  | req :: reqs =>
    written ← h (TCPAddr ip) req;
    rest ← answer_each ip reqs;
    Ret (sent (map (fun msg => Pack (outgoing (bool_decide (OPT req <> None)) maxUDPPacketSize msg)) written) ++ rest)
  end.
End listeners.

(** How a peer cuts a stream into packets. *)
Fixpoint unframe (fuel : nat) (stream : list Z) : list (list Z) :=
  match fuel with
  | O => []
  | Datatypes.S fuel =>
    match ReadFull 2 stream with
    | None => []
    | Some (lenBuf, stream) =>
      match ReadFull (Z.to_nat (Uint16 lenBuf)) stream with
      | None => []
      | Some (data, stream) => data :: unframe fuel stream
      end
    end
  end.

(** ** Facts on streams *)

Lemma ReadFull_app n a b : length a = n -> ReadFull n (a ++ b) = Some (a, b).
Proof.
  intros <-. unfold ReadFull. rewrite bool_decide_true by (rewrite length_app; lia).
  by rewrite take_app_length, drop_app_length.
Qed.

Lemma ReadFull_rest n stream a b : ReadFull n stream = Some (a, b) -> (length stream = n + length b)%nat.
Proof.
  unfold ReadFull. case_bool_decide; [|done]. intros [= <- <-]. rewrite length_drop. lia.
Qed.

Lemma Uint16_be16 v : Uint16 (be16 v) = u16 v.
Proof. unfold Uint16, be16, octet. cbn [nth]. apply be16_roundtrip. Qed.

Lemma ReadFull_frame packet rest : is_u16 (Z.of_nat (length packet)) ->
  exists lenBuf, ReadFull 2 (frame packet ++ rest) = Some (lenBuf, packet ++ rest) /\
    Z.to_nat (Uint16 lenBuf) = length packet.
Proof.
  intros H. unfold frame. rewrite <-app_assoc. eexists. split; [by apply ReadFull_app|].
  rewrite Uint16_be16, !u16_small by (try apply is_u16_u16; by rewrite ?u16_small). lia.
Qed.

Section streams.
Context {S : Type} (h : Handler S).

(** More fuel than bytes changes nothing. *)
Lemma handleTCPConn_fuel ip : forall n m stream,
  (length stream < n)%nat -> (length stream < m)%nat ->
  same (handleTCPConn h n ip stream) (handleTCPConn h m ip stream).
Proof.
  induction n as [|n IH]; intros [|m] stream Hn Hm; try lia. cbn [handleTCPConn].
  destruct (ReadFull 2 stream) as [[lb st]|] eqn:E1; [|done]. apply ReadFull_rest in E1.
  destruct (ReadFull _ st) as [[data st']|] eqn:E2; [|done]. apply ReadFull_rest in E2.
  destruct (Unpack data) as [req|]; [|done]. apply same_bind; [done|]. intros w.
  apply same_bind; [|done]. apply IH; lia.
Qed.

Lemma serve_stream_frame ip packet rest :
  is_u16 (Z.of_nat (length packet)) ->
  same (serve_stream h ip (frame packet ++ rest))
    match Unpack packet with
    | Err _ => Ret []
    | Ok req =>
      written ← h (TCPAddr ip) req;
      out ← serve_stream h ip rest;
      Ret (concat (sent (map (tcp_WriteMsg (bool_decide (OPT req <> None))) written)) ++ out)
    end.
Proof.
  intros Hp. destruct (ReadFull_frame packet rest Hp) as (lb & E1 & E2).
  unfold serve_stream at 1. cbn [handleTCPConn]. rewrite E1, E2, (ReadFull_app (length packet)) by done.
  destruct (Unpack packet) as [req|]; [|done]. apply same_bind; [done|]. intros w. apply same_bind; [|done].
  apply handleTCPConn_fuel; [|lia]. unfold frame. rewrite !length_app. simpl. lia.
Qed.
End streams.

Lemma sent_framed edns0 msgs :
  sent (map (tcp_WriteMsg edns0) msgs) =
  map frame (sent (map (fun msg => Pack (outgoing edns0 maxUDPPacketSize msg)) msgs)).
Proof.
  induction msgs as [|msg msgs IH]; [done|]. cbn [map sent omap list_omap].
  unfold sent in IH. rewrite IH. unfold tcp_WriteMsg. by destruct (Pack _).
Qed.

Lemma unframe_frames packets : Forall (fun p => is_u16 (Z.of_nat (length p))) packets ->
  forall fuel, (length (concat (map frame packets)) < fuel)%nat -> unframe fuel (concat (map frame packets)) = packets.
Proof.
  induction 1 as [|p packets Hp _ IH]; intros [|fuel] Hf; try (simpl in Hf; lia); [done|].
  cbn [map concat] in Hf |- *. cbn [unframe]. destruct (ReadFull_frame p (concat (map frame packets)) Hp) as (lb & -> & ->).
  rewrite (ReadFull_app (length p)) by done. f_equal. apply IH.
  rewrite length_app in Hf. unfold frame at 1 in Hf. rewrite length_app in Hf. simpl in Hf. lia.
Qed.

(** C14: Pipelined queries on a connection are answered in order, each before the
    next is read: on any number of framed messages, however the client batches
    them, serving the connection is the same program as the handler on the messages
    one after the other - so they agree on every state, and whatever other queries
    do meanwhile.  Whatever bytes it returns are the frames of what the handlers
    wrote for these messages, and as long as each of these packets is at most 65535
    bytes, which is what the prefix can say, the client cuts the bytes into exactly
    them.  Bytes that are no message end the connection without an effect. *)
Theorem tcp_pipelined {S} (h : Handler S) ip packets reqs rest :
  Forall (fun p => is_u16 (Z.of_nat (length p))) packets ->
  Forall2 (fun p req => Unpack p = Ok req) packets reqs ->
  (forall data st, ReadFull 2 rest = Some (data, st) ->
    forall data' st', ReadFull (Z.to_nat (Uint16 data)) st = Some (data', st') -> is_ok (Unpack data') = false) ->
  let served := serve_stream h ip (concat (map frame packets) ++ rest) in
  same served (replies ← answer_each h ip reqs; Ret (concat (map frame replies))) /\
  forall P G s out, returns P G s served out -> exists replies, returns P G s (answer_each h ip reqs) replies /\
    out = concat (map frame replies) /\
    (Forall (fun p => is_u16 (Z.of_nat (length p))) replies -> unframe (Datatypes.S (length out)) out = replies).
Proof.
  intros Hlen Hreqs Hrest served.
  assert (Hsame : same served (replies ← answer_each h ip reqs; Ret (concat (map frame replies)))).
  { assert (Hend : serve_stream h ip rest = Ret []).
    { unfold serve_stream. cbn [handleTCPConn].
      destruct (ReadFull 2 rest) as [[lb st]|] eqn:E1; [|done]. specialize (Hrest _ _ eq_refl).
      destruct (ReadFull _ st) as [[d st']|] eqn:E2; [|done]. specialize (Hrest _ _ eq_refl). by destruct (Unpack d). }
    unfold served. clear served.
    induction Hreqs as [|p req packets reqs Hp _ IH]; [cbn [map concat app answer_each]; by rewrite Hend|].
    apply Forall_cons in Hlen as [Hl Hlen]. cbn [map concat answer_each]. rewrite <-app_assoc.
    etrans; [by apply serve_stream_frame|]. rewrite Hp. symmetry. etrans; [apply bind_assoc|].
    apply same_bind; [done|]. intros w. etrans; [apply bind_assoc|]. symmetry.
    etrans; [apply same_bind_l, IH, Hlen|]. etrans; [apply bind_assoc|].
    apply same_bind; [done|]. intros replies. cbn. rewrite sent_framed, map_app, concat_app. done. }
  split; [done|]. intros P G s out Hret. apply (returns_same P G _ _ _ Hsame) in Hret.
  apply returns_bind in Hret as (s' & replies & Hr & Hout). pose proof (returns_inv _ _ _ _ _ Hout) as <-.
  exists replies. split_and!; [done|done|]. intros Hu. apply unframe_frames; [done|lia].
Qed.

(** ** The size of a datagram *)

(** What a successful run of the encoder has appended. *)
Definition grows (n : nat) (w : encM unit) : Prop :=
  forall e e', w e = Ok (tt, e') -> (length (e_buf e') <= length (e_buf e) + n)%nat.

Lemma grows_append bs : grows (length bs) (append bs).
Proof. intros e e' [= <-]. cbn [e_buf]. by rewrite length_app. Qed.

Lemma grows_bind n1 n2 n w1 w2 : (n1 + n2 <= n)%nat -> grows n1 w1 -> grows n2 w2 -> grows n (_ ← w1; w2).
Proof.
  intros Hn H1 H2 e e' E. unfold mbind, stateR_bind in E. destruct (w1 e) as [[[] e1]|] eqn:E1; [|done].
  specialize (H1 _ _ E1). specialize (H2 _ _ E). lia.
Qed.

Lemma grows_guard n b err w : grows n w -> grows n (_ ← guard b err; w).
Proof. intros H e e' E. destruct b; [by apply H|discriminate E]. Qed.

Lemma grows_register s : grows 0 (register s).
Proof. intros e e' [= <-]. destruct (_ && _); cbn [e_buf]; lia. Qed.

Lemma grows_write_labels ls : grows (wire_len ls) (write_labels ls).
Proof.
  induction ls as [|l ls IH]; cbn [write_labels]; [by intros e e' [= <-]; lia|].
  apply grows_guard. apply (grows_bind 0 (wire_len (l :: ls))); [lia|apply grows_register|].
  apply (grows_bind (Datatypes.S (length l)) (wire_len ls)); [simpl; lia| |done].
  apply (grows_append (wire_label l)).
Qed.

(** A name without compression takes two bytes more than its text; a compressed
    one is shorter still, but that is not needed here. *)
Lemma writeName_fresh name e e' :
  e_names e = ∅ -> writeName name e = Ok (tt, e') -> (length (e_buf e') <= length (e_buf e) + 257)%nat.
Proof.
  intros Hn E. unfold writeName, guard in E. fold (labels_of name) in E.
  destruct (decide (length (trim_dot name) <= maxNameLength)%nat) as [Hl|Hl].
  2: { rewrite bool_decide_false in E by done. discriminate E. }
  rewrite bool_decide_true in E by done.
  unfold mbind, stateR_bind, get, mret, stateR_ret in E. rewrite Hn, find_suffix_empty in E.
  assert (Hw : (wire_len (labels_of name) <= 256)%nat).
  { destruct (labels_of name) as [|l ls] eqn:El; [simpl; lia|]. 
    assert (El' : labels_of name <> []) by congruence.
    rewrite <-El, <-(length_Join dot) by done. rewrite Join_labels_of. unfold maxNameLength in Hl. lia. }
  assert (Hg : grows 257 (_ ← write_labels (labels_of name); append [0])).
  { eapply (grows_bind _ 1); [|apply grows_write_labels|apply grows_append]. lia. }
  by apply (Hg e).
Qed.

Lemma grows_sized n (rr : RR) : rr_Type rr = TypeOPT -> (length (rr_Raw rr) <= n)%nat -> grows (2 + n) (write_sized rr).
Proof.
  intros Ht Hr e e' E. unfold write_sized, mbind, stateR_bind, get, writeUint16, append, modify in E.
  unfold writeRData in E. rewrite Ht in E. cbn in E. injection E as <-. cbn [e_buf].
  unfold put16. rewrite !length_insert, !length_app. simpl. lia.
Qed.

(** The record added for EDNS0: eleven bytes. *)
Lemma grows_OPT udpSize do : grows 11 (writeRR (NewOPT udpSize do)).
Proof.
  intros e e' E. rewrite writeRR_sized in E. unfold mbind at 1, stateR_bind in E.
  destruct (writeName _ e) as [[[] e1]|] eqn:E1; [|done].
  assert (H1 : length (e_buf e1) = Datatypes.S (length (e_buf e))).
  { unfold writeName, guard in E1. replace (trim_dot (rr_Name (NewOPT udpSize do))) with (@nil Z) in E1 by by destruct do.
    cbn in E1. injection E1 as <-. cbn [e_buf]. rewrite length_app. simpl. lia. }
  assert (H2 : grows 10 (_ ← writeUint16 (rr_Type (NewOPT udpSize do)); _ ← writeUint16 (rr_Class (NewOPT udpSize do));
     _ ← writeUint32 (rr_TTL (NewOPT udpSize do)); write_sized (NewOPT udpSize do))).
  { apply (grows_bind 2 8); [lia|apply grows_append|]. apply (grows_bind 2 6); [lia|apply grows_append|].
    apply (grows_bind 4 2); [lia|apply grows_append|]. apply (grows_sized 0); by destruct do. }
  specialize (H2 _ _ E). lia.
Qed.

(** A message of one question and no records but the one for EDNS0 fits in any
    datagram, whatever the name. *)
Lemma Pack_bare m q packet :
  m_Questions m = [q] -> m_Answers m = [] -> m_Authorities m = [] ->
  (m_Additionals m = [] \/ exists udpSize do, m_Additionals m = [NewOPT udpSize do]) ->
  Pack m = Ok packet -> Z.of_nat (length packet) <= maxUDPResponseSize.
Proof.
  intros Hq Han Hns Har E. unfold Pack, pack_body in E. rewrite Hq, Han, Hns in E.
  cbn [iterM] in E. unfold mbind, stateR_bind, mret, stateR_ret in E.
  cbn [append modify e_buf e_names newEncoder app] in E.
  destruct (writeQuestion q _) as [[[] e1]|] eqn:E1; [|done].
  assert (H1 : (length (e_buf e1) <= 12 + 261)%nat).
  { unfold writeQuestion, mbind, stateR_bind in E1. destruct (writeName _ _) as [[[] e0]|] eqn:E0; [|done].
    apply writeName_fresh in E0; [|done]. injection E1 as <-. cbn [e_buf] in *. rewrite !length_app in *. simpl in *. lia. }
  destruct Har as [Har|(udpSize & do & Har)]; rewrite Har in E; cbn [iterM] in E; unfold mbind, stateR_bind, mret, stateR_ret in E.
  - injection E as <-. unfold maxUDPResponseSize. lia.
  - destruct (writeRR _ _) as [[[] e2]|] eqn:E2; [|done].
    apply grows_OPT in E2. injection E as <-. unfold maxUDPResponseSize. lia.
Qed.

(** What a client can take: what it announced, but no less than a client without
    EDNS0 and no more than the server's own buffer. *)
Definition client_limit (req : Message) : Z :=
  match OPT req with
  | Some opt => Z.max maxUDPResponseSize (Z.min (UDPSize opt) maxUDPPacketSize)
  | None => maxUDPResponseSize
  end.

Lemma udp_writer_limit ip req :
  uw_maxSize (udp_writer ip req) = client_limit req /\
  maxUDPResponseSize <= client_limit req <= maxUDPPacketSize.
Proof.
  unfold udp_writer, client_limit. destruct (OPT req) as [opt|]; [|by split].
  cbn [uw_maxSize]. unfold maxUDPResponseSize, maxUDPPacketSize. destruct (Z.ltb_spec 512 (UDPSize opt)); lia.
Qed.

Lemma outgoing_bare edns0 size msg :
  m_Additionals msg = [] ->
  m_Additionals (outgoing edns0 size msg) = (if edns0 then [NewOPT (u16 size) NoDNSSEC] else []).
Proof. intros E. unfold outgoing, withOPT. destruct edns0; cbn [with_additionals m_Additionals]; by rewrite E. Qed.

Lemma outgoing_ok edns0 size msg :
  m_Additionals msg = [] -> message_ok msg ->
  message_ok (outgoing edns0 size msg) /\ message_ok (truncated (outgoing edns0 size msg)).
Proof.
  intros E (Hh & Hq & Han & Hns & _).
  assert (Hs : section_ok rr_ok (m_Additionals (outgoing edns0 size msg))).
  { rewrite outgoing_bare by done. destruct edns0; split; try (simpl; lia); [|constructor].
    constructor; [|constructor]. split_and!; try done; try apply is_u16_u16; simpl; unfold is_u16, is_u32, TypeOPT; lia. }
  assert (Hn : section_ok rr_ok []) by (split; [simpl; lia|constructor]).
  unfold message_ok. unfold outgoing in *. by destruct edns0.
Qed.

Lemma udp_WriteMsg_fits w msg q packet :
  maxUDPResponseSize <= uw_maxSize w -> m_Questions msg = [q] -> m_Additionals msg = [] ->
  udp_WriteMsg w msg = Ok packet -> Z.of_nat (length packet) <= uw_maxSize w.
Proof.
  intros Hw Hq Har E. unfold udp_WriteMsg in E.
  set (out := outgoing (uw_clientUsedEDNS0 w) (uw_maxSize w) msg) in *.
  destruct (Pack out) as [whole|] eqn:Ep; [|done]. cbn [mbind result_bind] in E.
  destruct (Z.ltb_spec (uw_maxSize w) (Z.of_nat (length whole))); [|injection E as <-; lia].
  assert (Z.of_nat (length packet) <= maxUDPResponseSize); [|lia].
  apply (Pack_bare (truncated out) q); [|done|done| |done].
  - unfold out, outgoing. by destruct (uw_clientUsedEDNS0 w).
  - cbn [truncated m_Additionals]. unfold out. rewrite outgoing_bare by done.
    destruct (uw_clientUsedEDNS0 w); [right; by do 2 eexists|by left].
Qed.

(** The reader of a packet sees the message or, if it did not fit, an empty one
    marked as truncated. *)
Lemma udp_WriteMsg_read w msg :
  m_Additionals msg = [] -> message_ok msg ->
  exists packet whole m', udp_WriteMsg w msg = Ok packet /\ Unpack packet = Ok m' /\
    let out := outgoing (uw_clientUsedEDNS0 w) (uw_maxSize w) msg in
    Pack out = Ok whole /\
    (if uw_maxSize w <? Z.of_nat (length whole) then message_sim (truncated out) m'
     else packet = whole /\ message_sim out m').
Proof.
  intros Har Hok. unfold udp_WriteMsg.
  destruct (outgoing_ok (uw_clientUsedEDNS0 w) (uw_maxSize w) msg Har Hok) as [Hout Htr].
  set (out := outgoing (uw_clientUsedEDNS0 w) (uw_maxSize w) msg) in *.
  destruct (emits_Pack _ _ _ (emits_message out Hout)) as (whole & m1 & E & _ & U1 & S1).
  cbn zeta. fold out. rewrite E. cbn [mbind result_bind].
  destruct (uw_maxSize w <? Z.of_nat (length whole)) eqn:Elen.
  - destruct (emits_Pack _ _ _ (emits_message _ Htr)) as (packet & m2 & E2 & _ & U2 & S2).
    exists packet, whole, m2. by rewrite E2, Elen.
  - exists whole, whole, m1. by rewrite Elen.
Qed.

(** C13: A datagram is answered within what its sender can take: one that is no
    message is dropped without an effect, and for one with exactly one question -
    behind any chain of handlers - at most one datagram goes back, no longer than
    the size the client announced, which is at least 512 and honoured up to 4096.
    A reply that fits is sent whole, with an OPT record if the client sent one;
    one that does not is sent without its records and marked as truncated, so that
    the client asks again over TCP. *)
Theorem udp_reply {S} W (h : Handler S) P G good ip data req q s packets :
  Serves W h P G good -> bytes data -> Unpack data = Ok req -> m_Questions req = [q] ->
  returns P G s (handleUDPQuery h ip data) packets ->
  (forall junk, is_ok (Unpack junk) = false -> handleUDPQuery h ip junk = Ret []) /\
  (length packets <= 1)%nat /\
  (forall packet, packet ∈ packets -> Z.of_nat (length packet) <= client_limit req) /\
  exists written, returns P G s (h (UDPAddr ip) req) written /\
  forall msg, msg ∈ written -> message_ok msg ->
    exists packet whole m', packets = [packet] /\ Unpack packet = Ok m' /\
    let out := outgoing (bool_decide (OPT req <> None)) (client_limit req) msg in
    Pack out = Ok whole /\
    (if client_limit req <? Z.of_nat (length whole) then message_sim (truncated out) m'
     else packet = whole /\ message_sim out m').
Proof.
  intros [HG Hs] Hb Hu Hq. pose proof (decoded_query _ _ Hb Hu) as Hp.
  destruct (udp_writer_limit ip req) as [El Hl].
  assert (Ee : uw_clientUsedEDNS0 (udp_writer ip req) = bool_decide (OPT req <> None)).
  { unfold udp_writer. by destruct (OPT req). }
  intros Hret. split; [intros junk Hj; unfold handleUDPQuery; by destruct (Unpack junk)|]. revert Hret.
  unfold handleUDPQuery. rewrite Hu. intros (s' & written & Hw & <-%returns_inv)%returns_bind.
  pose proof (obeys_returns W P G _ _ written s (Hs (UDPAddr ip) req s Hp) Hw) as [H2 H3].
  destruct written as [|msg [|? ?]]; [| |simpl in H2; lia].
  { split_and!; [simpl; lia|by intros packet Hin%list_elem_of_In|]. exists []. split; [done|]. by intros msg Hin%list_elem_of_In. }
  apply Forall_inv in H3 as [(_ & _ & _ & Hmq & Har) _]. rewrite Hq in Hmq.
  cbn [map sent omap list_omap]. split_and!.
  - destruct (udp_WriteMsg _ _); simpl; lia.
  - intros packet Hin. destruct (udp_WriteMsg (udp_writer ip req) msg) as [packet'|] eqn:E; [|by apply list_elem_of_In in Hin].
    apply list_elem_of_singleton in Hin as ->. rewrite <-El.
    apply (udp_WriteMsg_fits _ msg q); [rewrite El; lia|done..].
  - exists [msg]. split; [done|]. intros msg' ->%list_elem_of_singleton Hok.
    destruct (udp_WriteMsg_read (udp_writer ip req) msg Har Hok) as (packet & whole & m' & -> & U & R).
    rewrite El, Ee in R. by exists packet, whole, m'.
Qed.

(** ** Queries in progress, and shutdown

    [serveUDP] and [serveTCP] run in a goroutine per listener and [start] runs
    every query, or connection, in one of its own; [Serve] waits.  An event is a
    step of one of them.  The semaphore and the wait group count the same
    goroutines, the list [sv_running]. *)

Inductive listener :=
  | Blocked             (* in [ReadFromUDP] or [Accept] *)
  | Holding (j : nat)   (* has a query or connection, [start] not called yet *)
  | Closed.             (* has returned its error *)

Inductive serving :=
  | Accepting           (* in [<-errCh] *)
  | Draining            (* in [s.wg.Wait()] *)
  | Returned.

#[global] Instance listener_eq_dec : EqDecision listener.
Proof. solve_decision. Defined.

Record server := MkServer {
  sv_MaxInFlight : nat; sv_phase : serving; sv_closed : bool;
  sv_listeners : list listener; sv_running : list nat; sv_dropped : list nat }.

Definition maxInFlight (MaxInFlight : Z) : nat :=
  Z.to_nat (if 0 <? MaxInFlight then MaxInFlight else defaultMaxInFlight).

Definition new_server (MaxInFlight : Z) (listeners : nat) : server :=
  MkServer (maxInFlight MaxInFlight) Accepting false (replicate listeners Blocked) [] [].

Inductive server_event :=
  | Receive (i j : nat) (* listener [i] reads a datagram or accepts a connection *)
  | Start (i : nat)     (* its call of [start] *)
  | Finish (j : nat)    (* the goroutine of a query or connection ends *)
  | Cancel              (* the context ends: the listeners are closed *)
  | Stop (i : nat)      (* the blocked call of listener [i] fails *)
  | Join                (* [Serve] has an error, cancels and goes on to wait *)
  | Return.             (* the wait is over *)

Definition set_listener (i : nat) (l : listener) (s : server) : server :=
  MkServer (sv_MaxInFlight s) (sv_phase s) (sv_closed s) (<[i := l]> (sv_listeners s)) (sv_running s) (sv_dropped s).

(** [start]: the semaphore is taken without waiting. *)
Definition start (j : nat) (s : server) : server :=
  if bool_decide (length (sv_running s) < sv_MaxInFlight s)%nat
  then MkServer (sv_MaxInFlight s) (sv_phase s) (sv_closed s) (sv_listeners s) (j :: sv_running s) (sv_dropped s)
  else MkServer (sv_MaxInFlight s) (sv_phase s) (sv_closed s) (sv_listeners s) (sv_running s) (j :: sv_dropped s).

Fixpoint remove_one (j : nat) (l : list nat) : option (list nat) :=
  match l with
  | [] => None
  | j' :: l => if decide (j = j') then Some l else cons j' <$> remove_one j l
  end.

Definition server_step (s : server) (e : server_event) : option server :=
  match e with
  | Receive i j =>
    match sv_listeners s !! i, sv_closed s with
    | Some Blocked, false => Some (set_listener i (Holding j) s)
    | _, _ => None
    end
  | Start i =>
    match sv_listeners s !! i with
    | Some (Holding j) => Some (start j (set_listener i Blocked s))
    | _ => None
    end
  | Finish j =>
    match remove_one j (sv_running s) with
    | Some rest => Some (MkServer (sv_MaxInFlight s) (sv_phase s) (sv_closed s) (sv_listeners s) rest (sv_dropped s))
    | None => None
    end
  | Cancel => Some (MkServer (sv_MaxInFlight s) (sv_phase s) true (sv_listeners s) (sv_running s) (sv_dropped s))
  | Stop i =>
    match sv_listeners s !! i with
    | Some Blocked => Some (set_listener i Closed s)
    | _ => None
    end
  | Join =>
    match sv_phase s with
    | Accepting =>
      if bool_decide (Closed ∈ sv_listeners s)
      then Some (MkServer (sv_MaxInFlight s) Draining true (sv_listeners s) (sv_running s) (sv_dropped s))
      else None
    | _ => None
    end
  | Return =>
    match sv_phase s, sv_running s with
    | Draining, [] => Some (MkServer (sv_MaxInFlight s) Returned (sv_closed s) (sv_listeners s) [] (sv_dropped s))
    | _, _ => None
    end
  end.

Fixpoint server_run (s : server) (es : list server_event) : option server :=
  match es with
  | [] => Some s
  | e :: es => match server_step s e with Some s => server_run s es | None => None end
  end.

Definition received (es : list server_event) : list nat :=
  omap (fun e => match e with Receive _ j => Some j | _ => None end) es.
Definition finished (es : list server_event) : list nat :=
  omap (fun e => match e with Finish j => Some j | _ => None end) es.
Definition held (s : server) : list nat :=
  omap (fun l => match l with Holding j => Some j | _ => None end) (sv_listeners s).

Lemma remove_one_Some j l rest : remove_one j l = Some rest -> l ≡ₚ j :: rest.
Proof.
  revert rest. induction l as [|j' l IH]; intros rest; cbn [remove_one]; [done|].
  destruct (decide (j = j')) as [->|]; [by intros [= <-]|].
  destruct (remove_one j l) as [r|]; [|done]. intros [= <-]. rewrite (IH r) by done. apply Permutation_swap.
Qed.

Lemma remove_one_in j l : j ∈ l -> is_Some (remove_one j l).
Proof.
  induction l as [|j' l IH]; [by intros ?%list_elem_of_In|]. cbn [remove_one].
  destruct (decide (j = j')); [by eexists|]. intros [?|Hin]%elem_of_cons; [done|].
  destruct (IH Hin) as [r ->]. by eexists.
Qed.

(** Everything received is somewhere. *)
Definition accounts (s : server) : list nat := held s ++ sv_running s ++ sv_dropped s.

(** Putting something else in the hands of one listener. *)
Lemma held_set i l l' s : sv_listeners s !! i = Some l ->
  held (set_listener i l' s) ++ omap (fun l => match l with Holding j => Some j | _ => None end) [l] ≡ₚ
  held s ++ omap (fun l => match l with Holding j => Some j | _ => None end) [l'].
Proof.
  intros E. unfold held. cbn [set_listener sv_listeners].
  rewrite insert_take_drop by by apply lookup_lt_Some in E.
  rewrite <-(take_drop_middle _ _ _ E) at 3. rewrite !omap_app, <-!app_assoc.
  destruct l, l'; cbn; solve_Permutation.
Qed.

Lemma server_step_accounts s e s' : server_step s e = Some s' ->
  accounts s' ++ finished [e] ≡ₚ received [e] ++ accounts s /\ sv_MaxInFlight s' = sv_MaxInFlight s /\
  ((length (sv_running s) <= sv_MaxInFlight s)%nat -> (length (sv_running s') <= sv_MaxInFlight s')%nat).
Proof.
  destruct e as [i j|i|j| |i| |]; cbn [server_step].
  - destruct (sv_listeners s !! i) as [[]|] eqn:E; try done. destruct (sv_closed s); [done|]. intros [= <-].
    pose proof (held_set i _ (Holding j) s E) as Hh. cbn in Hh. rewrite app_nil_r in Hh.
    split; [|done]. unfold accounts. rewrite Hh. cbn. rewrite app_nil_r, <-app_assoc. solve_Permutation.
  - destruct (sv_listeners s !! i) as [[|j|]|] eqn:E; try done. intros [= <-].
    pose proof (held_set i _ Blocked s E) as Hh. cbn in Hh. rewrite app_nil_r in Hh. unfold accounts.
    rewrite <-Hh. unfold start, held. cbn [set_listener sv_running sv_MaxInFlight sv_listeners].
    case_bool_decide; cbn [sv_running sv_MaxInFlight sv_listeners sv_dropped set_listener];
      (split; [cbn; rewrite app_nil_r, <-!app_assoc; solve_Permutation|split; [done|simpl; lia]]).
  - destruct (remove_one j (sv_running s)) as [rest|] eqn:E; [|done]. intros [= <-].
    apply remove_one_Some in E. unfold accounts, held. cbn [sv_running sv_MaxInFlight sv_listeners sv_dropped].
    split; [cbn; rewrite E, <-!app_assoc; solve_Permutation|]. split; [done|].
    rewrite E. simpl. lia.
  - intros [= <-]. split; [by rewrite app_nil_r|done].
  - destruct (sv_listeners s !! i) as [[]|] eqn:E; try done. intros [= <-].
    pose proof (held_set i _ Closed s E) as Hh. cbn in Hh. rewrite !app_nil_r in Hh.
    split; [|done]. unfold accounts. rewrite Hh. cbn. by rewrite app_nil_r.
  - destruct (sv_phase s); try done. case_bool_decide; [|done]. intros [= <-]. split; [by rewrite app_nil_r|done].
  - destruct (sv_phase s); try done. destruct (sv_running s) eqn:E; [|done]. intros [= <-].
    unfold accounts, held. cbn [sv_running sv_MaxInFlight sv_listeners sv_dropped]. rewrite E, app_nil_r. by split.
Qed.

Lemma server_run_accounts es : forall s s', server_run s es = Some s' ->
  accounts s' ++ finished es ≡ₚ received es ++ accounts s /\ sv_MaxInFlight s' = sv_MaxInFlight s /\
  ((length (sv_running s) <= sv_MaxInFlight s)%nat -> (length (sv_running s') <= sv_MaxInFlight s')%nat).
Proof.
  induction es as [|e es IH]; intros s s'; cbn [server_run].
  { intros [= <-]. by rewrite app_nil_r. }
  destruct (server_step s e) as [s1|] eqn:E; [|done]. intros H.
  apply server_step_accounts in E as (Ha & Hm & Hb). apply IH in H as (Ha' & Hm' & Hb').
  split; [|split; [congruence|auto]].
  assert (received (e :: es) = received [e] ++ received es) as -> by by destruct e.
  assert (finished (e :: es) = finished [e] ++ finished es) as -> by by destruct e.
  trans ((received es ++ accounts s1) ++ finished [e]); [rewrite <-Ha'; solve_Permutation|].
  rewrite <-app_assoc, Ha. solve_Permutation.
Qed.

(** Once [Serve] has returned with every listener closed, nothing happens any more. *)
Lemma all_closed_stuck s e s' :
  Forall (fun l => l = Closed) (sv_listeners s) -> sv_running s = [] -> sv_phase s = Returned ->
  server_step s e = Some s' -> e = Cancel.
Proof.
  intros Hc Hr Hp.
  assert (Hl : forall i, sv_listeners s !! i = None \/ sv_listeners s !! i = Some Closed).
  { intros i. destruct (sv_listeners s !! i) as [l|] eqn:E; [right|by left].
    by rewrite (proj1 (Forall_lookup _ _) Hc i l E). }
  destruct e as [i j|i|j| |i| |]; cbn [server_step]; rewrite ?Hr, ?Hp; try done;
    by destruct (Hl i) as [-> | ->].
Qed.

(** Whatever is running can finish, one after the other. *)
Lemma drain s : sv_phase s = Draining ->
  exists s', server_run s (map Finish (sv_running s) ++ [Return]) = Some s' /\ sv_phase s' = Returned.
Proof.
  remember (sv_running s) as js eqn:Ejs. revert s Ejs. induction js as [|j js IH]; intros s Ejs Hp.
  - cbn [map app server_run server_step]. rewrite Hp, <-Ejs. by eexists.
  - cbn [map app server_run server_step]. rewrite <-Ejs. cbn [remove_one].
    destruct (decide (j = j)); [|done]. by apply IH.
Qed.

(** C15: However the goroutines interleave: no more queries and connections are in
    progress than the limit; none is lost - each one received is waiting to be
    started, in progress, finished, or was dropped, and it is only dropped with as
    many in progress as are allowed; [Serve] only returns with nothing in
    progress, nothing happens after that if every listener has returned by then,
    and once it waits it can always return. *)
Theorem in_flight_bounded MaxInFlight listeners es s :
  server_run (new_server MaxInFlight listeners) es = Some s ->
  (length (sv_running s) <= maxInFlight MaxInFlight)%nat /\
  received es ≡ₚ held s ++ sv_running s ++ sv_dropped s ++ finished es /\
  (forall i j s', sv_listeners s !! i = Some (Holding j) -> server_step s (Start i) = Some s' ->
    if bool_decide (length (sv_running s) < maxInFlight MaxInFlight)%nat
    then sv_running s' = j :: sv_running s /\ sv_dropped s' = sv_dropped s
    else sv_running s' = sv_running s /\ sv_dropped s' = j :: sv_dropped s) /\
  (forall s', server_step s Return = Some s' -> sv_running s' = [] /\
    (Forall (fun l => l = Closed) (sv_listeners s') -> forall e s'', server_step s' e = Some s'' -> e = Cancel)) /\
  (sv_phase s = Draining -> exists es' s', server_run s es' = Some s' /\ sv_phase s' = Returned /\ received es' = []).
Proof.
  intros H. apply server_run_accounts in H as (Ha & Hm & Hb). cbn [new_server sv_MaxInFlight sv_running length] in Hm, Hb.
  rewrite Hm in Hb. split; [apply Hb; lia|].
  split.
  { assert (E0 : accounts (new_server MaxInFlight listeners) = []).
    { unfold accounts, held, new_server. cbn [sv_listeners sv_running sv_dropped]. rewrite app_nil_r.
      clear. induction listeners as [|n IH]; [done|exact IH]. }
    rewrite E0, app_nil_r in Ha. rewrite <-Ha. unfold accounts. by rewrite <-!app_assoc. }
  split.
  { intros i j s' El. cbn [server_step]. rewrite El. intros [= <-]. unfold start.
    cbn [set_listener sv_running sv_MaxInFlight]. rewrite Hm. by case_bool_decide. }
  split.
  { intros s' E. cbn [server_step] in E. destruct (sv_phase s); try done.
    destruct (sv_running s); [|done]. injection E as <-. split; [done|].
    intros Hc e s'' Hs. by eapply all_closed_stuck in Hs. }
  intros Hp. destruct (drain s Hp) as (s' & E & Hp'). do 2 eexists. split; [exact E|]. split; [done|].
  unfold received. rewrite omap_app. cbn. rewrite app_nil_r.
  clear. induction (sv_running s) as [|j js IH]; [done|exact IH].
Qed.

(** ** Opening the sockets *)

Definition defaultQueryTimeout : Z := 10 * 1000000000.

(** The time a query may take, in nanoseconds. *)
Definition queryTimeout (QueryTimeout : Z) : Z := if 0 <? QueryTimeout then QueryTimeout else defaultQueryTimeout.

Inductive socket := UDPSocket | TCPSocket | TLSSocket.

Inductive listen_error := EResolveAddr | EListen (s : socket) | EClosed | EListener.

(** What [ListenAndServe] does with its sockets. *)
Inductive socket_event := Open (s : socket) | Serving | Close (s : socket).

(** The end of [Serve]: the error of the listener that returned first.  By then its
    context has been cancelled, so a listener that was closed is no error. *)
Definition serve_error (err : listen_error) : option listen_error :=
  match err with EClosed => None | err => Some err end.

Section listen.
(** Whether the address can be resolved and a socket be opened on an address, and
    the error of the first listener to return. *)
Context (resolves : gostring -> bool) (opens : socket -> gostring -> bool) (first_error : listen_error).

(** Each socket is closed by a deferred call. *)
Fixpoint open_all (todo : list (socket * gostring)) : list socket_event * option listen_error :=
  match todo with
  | [] => ([Serving], serve_error first_error)
  | (s, addr) :: todo =>
    if opens s addr then let (trace, err) := open_all todo in (Open s :: trace ++ [Close s], err)
    else ([], Some (EListen s))
  end.

(** [TLSAddr] is given if there is a configuration for it as well. *)
Definition ListenAndServe (Addr : gostring) (TLSAddr : option gostring) : list socket_event * option listen_error :=
  if resolves Addr then
    open_all ([(UDPSocket, Addr); (TCPSocket, Addr)] ++ match TLSAddr with Some addr => [(TLSSocket, addr)] | None => [] end)
  else ([], Some EResolveAddr).

(** Sockets are opened in order, up to the first that cannot be; there is service if
    all can, and in the end each that was opened is closed. *)
Lemma open_all_trace todo : exists opened,
  opened `prefix_of` map fst todo /\ Forall (fun sa => opens sa.1 sa.2 = true) (take (length opened) todo) /\
  if bool_decide (Forall (fun sa => opens sa.1 sa.2 = true) todo)
  then opened = map fst todo /\
    open_all todo = (map Open opened ++ [Serving] ++ map Close (reverse opened), serve_error first_error)
  else exists s, open_all todo = (map Open opened ++ map Close (reverse opened), Some (EListen s)).
Proof.
  induction todo as [|[s addr] todo (opened & Hp & Ht & IH)].
  { exists []. split_and!; [done|constructor|]. by rewrite bool_decide_true by constructor. }
  cbn [open_all map fst]. destruct (opens s addr) eqn:E.
  - exists (s :: opened). split; [by apply prefix_cons|]. split; [by constructor|].
    destruct (decide (Forall (fun sa => opens sa.1 sa.2 = true) todo)) as [Hall|Hall].
    + rewrite bool_decide_true in IH by done. rewrite bool_decide_true by by constructor. destruct IH as [-> ->].
      split; [done|]. rewrite reverse_cons, map_app. cbn [map app]. f_equal. f_equal. by rewrite <-!app_assoc.
    + rewrite bool_decide_false in IH by done. rewrite bool_decide_false by (by intros [_ ?]%Forall_cons). destruct IH as [s' ->].
      exists s'. rewrite reverse_cons, map_app. cbn [map app]. f_equal. f_equal. by rewrite <-!app_assoc.
  - exists []. split; [apply prefix_nil|]. split; [constructor|].
    rewrite bool_decide_false by (intros [H _]%Forall_cons; cbn in H; congruence). by exists s.
Qed.

End listen.
