(* ===== verification/NetText.v ===== *)
(** The text form of addresses and prefixes: [netip.ParsePrefix], which reads the
    allow list of the configuration, and [net.IP.String], which the query tool
    prints. *)

From stdpp Require Import strings.
From S2P Require Import Prelude GoUnicode GoStrings GoText GoNet DnsMsg Encoder DnssecRecords Verify TrustAnchor Upstream UpstreamSpec Handler Acl.

Open Scope list_scope.
Open Scope Z_scope.

(** ** IPv4 *)

(** [parseIPv4Fields]: [start] at the first byte, [after_dot] behind a dot; the
    value and the number of digits of the field being read, the fields before. *)
Fixpoint ipv4_fields (s : gostring) (start after_dot : bool) (val digLen : Z) (fields : list Z) : option (list Z) :=
  match s with
  | [] => if bool_decide (length fields < 3)%nat then None else Some (fields ++ [u8 val])
  | c :: s =>
    match digit c with
    | Some d =>
      if (digLen =? 1) && (val =? 0) then None
      else if 255 <? val * 10 + d then None
      else ipv4_fields s false false (val * 10 + d) (digLen + 1) fields
    | None =>
      if c =? dot then
        if start || bool_decide (s = []) || after_dot then None
        else if bool_decide (length fields = 3%nat) then None
        else ipv4_fields s false true 0 0 (fields ++ [u8 val])
      else None
    end
  end.

Definition parseIPv4 (s : gostring) : option Addr := ipv4_fields s true false 0 0 [].

(** ** IPv6 *)

(** The digits of a field: how many there are, at most four, their value, and what
    follows. *)
Fixpoint hex_field (off : nat) (acc : Z) (s : gostring) : option (nat * Z * gostring) :=
  match s with
  | [] => Some (off, acc, [])
  | c :: s' =>
    match hex_digit c with
    | Some d => if bool_decide (3 < off)%nat then None else hex_field (S off) (acc * 16 + d) s'
    | None => Some (off, acc, s)
    end
  end.

(** The loop over the fields, at most eight; [ellipsis] is where the double colon
    stood. *)
Fixpoint ipv6_fields (fuel : nat) (s : gostring) (ip : list Z) (ellipsis : option nat) :
    option (list Z * option nat * gostring) :=
  match fuel with
  | O => Some (ip, ellipsis, s)
  | S fuel =>
    match hex_field 0 0 s with
    | None | Some (O, _, _) => None
    | Some (S _, acc, rest) =>
      let ip' := ip ++ [u8 (Z.shiftr acc 8); u8 acc] in
      match rest with
      | [] => Some (ip', ellipsis, [])
      | c :: rest =>
        if c =? dot then
          if bool_decide (ellipsis = None) && negb (bool_decide (length ip = 12%nat)) then None
          else if bool_decide (16 < length ip + 4)%nat then None
          else match parseIPv4 s with Some v4 => Some (ip ++ v4, ellipsis, []) | None => None end
        else if negb (c =? 58) then None
        else match rest with
             | [] => None
             | c' :: rest' =>
               if c' =? 58 then
                 match ellipsis with
                 | Some _ => None
                 | None =>
                   if bool_decide (rest' = []) then Some (ip', Some (length ip'), [])
                   else ipv6_fields fuel rest' ip' (Some (length ip'))
                 end
               else ipv6_fields fuel rest ip' ellipsis
             end
      end
    end
  end.

(** A zone, which would follow a percent sign, is refused by [ParsePrefix] in any
    case and so is refused here. *)
Definition parseIPv6 (s : gostring) : option Addr :=
  if GoStrings.Contains s 37 then None
  else
    let '(s, ellipsis) := match s with 58 :: 58 :: s => (s, Some 0%nat) | _ => (s, None) end in
    if bool_decide (s = []) && bool_decide (ellipsis = Some 0%nat) then Some (replicate 16 0)
    else
      match ipv6_fields 8 s [] ellipsis with
      | Some (ip, ellipsis, []) =>
        if bool_decide (length ip < 16)%nat then
          match ellipsis with
          | None => None
          | Some e => Some (take e ip ++ replicate (16 - length ip) 0 ++ drop e ip)
          end
        else match ellipsis with None => Some ip | Some _ => None end
      | _ => None
      end.

(** The first dot, colon or percent sign decides. *)
Fixpoint parse_as (rest s : gostring) : option Addr :=
  match rest with
  | [] => None
  | c :: rest =>
    if c =? dot then parseIPv4 s
    else if c =? 58 then parseIPv6 s
    else if c =? 37 then None
    else parse_as rest s
  end.

Definition ParseAddr (s : gostring) : option Addr := parse_as s s.

(** ** Prefixes *)

(** The string before and behind the last [c]. *)
Fixpoint CutLast (s : gostring) (c : Z) : option (gostring * gostring) :=
  match s with
  | [] => None
  | x :: s =>
    match CutLast s c with
    | Some (before, after) => Some (x :: before, after)
    | None => if x =? c then Some ([], s) else None
    end
  end.

(** [strconv.Atoi] on what [ParsePrefix] lets through: no sign can come first. *)
Definition prefix_bits (s : gostring) : option Z :=
  match s with
  | c :: _ :: _ => if (c <? 49) || (57 <? c) then None else ParseUint 63 s
  | _ => ParseUint 63 s
  end.

Definition ParsePrefix (s : gostring) : option Prefix :=
  match CutLast s 47 with
  | None => None
  | Some (addr, bits) =>
    match ParseAddr addr, prefix_bits bits with
    | Some ip, Some n => if BitLen ip <? n then None else Some (MkPrefix ip n)
    | _, _ => None
    end
  end.

(** ** Printing *)

(** The 16-bit words of an IPv6 address. *)
Fixpoint words (a : list Z) : list Z :=
  match a with
  | x :: y :: a => x * 256 + y :: words a
  | _ => []
  end.

(** [appendHex]: no zeros in front. *)
Definition appendHex (n : Z) : gostring :=
  (if 4096 <=? n then [hex_char (n / 4096)] else []) ++ (if 256 <=? n then [hex_char (n / 256 mod 16)] else []) ++
  (if 16 <=? n then [hex_char (n / 16 mod 16)] else []) ++ [hex_char (n mod 16)].

Fixpoint zeros (ws : list Z) : nat :=
  match ws with 0 :: ws => S (zeros ws) | _ => O end.

(** The first of the longest runs of at least two zeros, by its ends. *)
Fixpoint zero_run (i : nat) (ws : list Z) (best : option (nat * nat)) : option (nat * nat) :=
  match ws with
  | [] => best
  | _ :: ws' =>
    let l := zeros ws in
    let longer := match best with Some (s, e) => bool_decide (e - s < l)%nat | None => true end in
    zero_run (S i) ws' (if bool_decide (2 <= l)%nat && longer then Some (i, (i + l)%nat) else best)
  end.

(** [appendTo6]. *)
Definition appendTo6 (a : Addr) : gostring :=
  let ws := words a in
  match zero_run 0 ws None with
  | Some (s, e) => Join 58 (map appendHex (take s ws)) ++ [58; 58] ++ Join 58 (map appendHex (drop e ws))
  | None => Join 58 (map appendHex ws)
  end.

(** [net.IP.String]. *)
Definition IP_String (ip : IP) : gostring :=
  match ip with
  | None | Some [] => str "<nil>"
  | Some b =>
    match To4 (Some b) with
    | Some b => Join dot (map decimal b)
    | None => if bool_decide (length b = 16%nat) then appendTo6 b else 63 :: hex_EncodeToString b
    end
  end.

(** ** What is parsed is well formed *)

Definition addr_ok (a : Addr) : Prop := Forall is_u8 a /\ (length a = 4%nat \/ length a = 16%nat).

Lemma ipv4_fields_ok s : forall start after_dot val digLen fields a,
  Forall is_u8 fields -> (length fields <= 3)%nat ->
  ipv4_fields s start after_dot val digLen fields = Some a -> Forall is_u8 a /\ length a = 4%nat.
Proof.
  induction s as [|c s IH]; intros start after_dot val digLen fields a Hf Hl; cbn [ipv4_fields].
  { case_bool_decide; [done|]. intros [= <-]. rewrite length_app. simpl. split; [|lia].
    apply Forall_app. split; [done|]. auto with widths. }
  destruct (digit c) as [d|].
  { destruct (_ && _); [done|]. destruct (_ <? _); [done|]. by apply IH. }
  destruct (c =? dot); [|done]. destruct (_ || _); [done|]. case_bool_decide; [done|]. apply IH.
  - apply Forall_app. split; [done|]. auto with widths.
  - rewrite length_app. simpl. lia.
Qed.

Lemma parseIPv4_ok s a : parseIPv4 s = Some a -> Forall is_u8 a /\ length a = 4%nat.
Proof. apply ipv4_fields_ok; [constructor|simpl; lia]. Qed.

Lemma ipv6_fields_ok fuel : forall s ip e ip' e' rest,
  Forall is_u8 ip -> (length ip + 2 * fuel = 16)%nat ->
  ipv6_fields fuel s ip e = Some (ip', e', rest) -> Forall is_u8 ip' /\ (length ip' <= 16)%nat.
Proof.
  induction fuel as [|fuel IH]; intros s ip e ip' e' rest Hip Hl; cbn [ipv6_fields].
  { intros [= <- _ _]. split; [done|lia]. }
  destruct (hex_field 0 0 s) as [[[[|off] acc] r]|]; try done.
  assert (H' : Forall is_u8 (ip ++ [u8 (Z.shiftr acc 8); u8 acc]) /\
    length (ip ++ [u8 (Z.shiftr acc 8); u8 acc]) = (length ip + 2)%nat).
  { split; [|by rewrite length_app]. apply Forall_app. split; [done|].
    auto with widths. }
  destruct H' as [Hu Hlen]. cbn zeta. destruct r as [|c r]; [intros [= <- _ _]; split; [done|lia]|].
  destruct (c =? dot).
  { destruct (_ && _); [done|]. case_bool_decide; [done|]. destruct (parseIPv4 s) as [v4|] eqn:E4; [|done].
    intros [= <- _ _]. apply parseIPv4_ok in E4 as [? ?]. rewrite length_app. split; [by apply Forall_app|lia]. }
  destruct (negb _); [done|]. destruct r as [|c' r]; [done|].
  destruct (c' =? 58); [|apply IH; [done|lia]].
  destruct e; [done|]. case_bool_decide; [intros [= <- _ _]; split; [done|lia]|apply IH; [done|lia]].
Qed.

Lemma parseIPv6_ok s a : parseIPv6 s = Some a -> Forall is_u8 a /\ length a = 16%nat.
Proof.
  unfold parseIPv6. destruct (GoStrings.Contains s 37); [done|]. destruct (match s with 58 :: 58 :: s => _ | _ => _ end) as [s' e].
  assert (H0 : forall n, Forall is_u8 (replicate n 0)) by (intros n; apply Forall_replicate; unfold is_u8; lia).
  destruct (_ && _); [intros [= <-]; split; [apply (H0 16%nat)|done]|].
  destruct (ipv6_fields 8 s' [] e) as [[[ip e'] [|]]|] eqn:E; try done.
  apply ipv6_fields_ok in E as [Hu Hl]; [|constructor|done]. case_bool_decide.
  - destruct e' as [e'|]; [|done]. intros [= <-]. split.
    + repeat (apply Forall_app; split); [by apply Forall_take|done|by apply Forall_drop].
    + rewrite !length_app, length_replicate, length_take, length_drop. lia.
  - destruct e'; [done|]. intros [= <-]. split; [done|lia].
Qed.

Lemma ParseAddr_ok s a : ParseAddr s = Some a -> addr_ok a.
Proof.
  unfold ParseAddr, addr_ok. assert (H : forall rest, parse_as rest s = Some a -> Forall is_u8 a /\ (length a = 4%nat \/ length a = 16%nat)).
  { induction rest as [|c rest IH]; [done|]. cbn [parse_as].
    destruct (c =? dot); [intros []%parseIPv4_ok; auto|]. destruct (c =? 58); [intros []%parseIPv6_ok; auto|].
    by destruct (c =? 37). }
  apply H.
Qed.

Lemma ParseUint_bound bits s n : ParseUint bits s = Some n -> 0 <= n < 2 ^ bits.
Proof.
  unfold ParseUint. case_bool_decide; [done|]. destruct (digits_value 0 s) as [v|] eqn:E; [|done].
  destruct (Z.ltb_spec v (2 ^ bits)); [|done]. intros [= <-]. split; [|done].
  assert (Hd : forall s acc v, 0 <= acc -> digits_value acc s = Some v -> 0 <= v).
  { clear. induction s as [|c s IH]; intros acc v Ha; cbn [digits_value]; [by intros [= <-]|].
    unfold digit. destruct (_ && _) eqn:E; [|done]. apply IH. lia. }
  by eapply Hd.
Qed.

Lemma ParsePrefix_ok s p : ParsePrefix s = Some p -> prefix_ok p /\ addr_ok (px_Addr p).
Proof.
  unfold ParsePrefix. destruct (CutLast s 47) as [[a b]|]; [|done]. destruct (ParseAddr a) as [ip|] eqn:Ea; [|done].
  destruct (prefix_bits b) as [n|] eqn:Eb; [|done]. destruct (Z.ltb_spec (BitLen ip) n); [done|]. intros [= <-].
  apply ParseAddr_ok in Ea. split; [|done]. split; [apply Ea|]. cbn [px_Bits px_Addr].
  assert (0 <= n < 2 ^ 63); [|lia]. unfold prefix_bits in Eb.
  destruct b as [|c [|c' b]]; [by apply ParseUint_bound in Eb..|]. destruct (_ || _); [done|]. by apply ParseUint_bound in Eb.
Qed.

(** ** What is printed is parsed *)

(** The fields of an IPv6 address, four digits each and none left out. *)
Fixpoint groups (a : Addr) : list gostring :=
  match a with
  | x :: y :: a => hex_EncodeToString [x; y] :: groups a
  | _ => []
  end.

Definition print_addr (a : Addr) : gostring :=
  if bool_decide (length a = 4%nat) then Join dot (map decimal a) else Join 58 (groups a).

Definition print_prefix (p : Prefix) : gostring := print_addr (px_Addr p) ++ 47 :: decimal (px_Bits p).

(** Reading the digits of one field. *)
Fixpoint octet_run (w : gostring) (val digLen : Z) : option (Z * Z) :=
  match w with
  | [] => Some (val, digLen)
  | c :: w =>
    match digit c with
    | Some d =>
      if (digLen =? 1) && (val =? 0) then None
      else if 255 <? val * 10 + d then None
      else octet_run w (val * 10 + d) (digLen + 1)
    | None => None
    end
  end.

Lemma ipv4_fields_run w : forall s val digLen fields v l,
  octet_run w val digLen = Some (v, l) ->
  forall c st ad, w = c ++ drop (length c) w -> (0 < length w)%nat ->
  ipv4_fields (w ++ s) st ad val digLen fields = ipv4_fields s false false v l fields.
Proof.
  induction w as [|x w IH]; intros s val digLen fields v l E c st ad Hc Hl; [simpl in Hl; lia|].
  cbn [octet_run] in E. cbn [app ipv4_fields]. destruct (digit x) as [d|]; [|done].
  destruct (_ && _); [done|]. destruct (_ <? _); [done|]. destruct w as [|y w]; [by injection E as <- <-|].
  apply (IH s _ _ fields v l E []); [done|simpl; lia].
Qed.

Lemma ipv4_octet x : is_u8 x -> exists l, forall s st ad fields,
  ipv4_fields (decimal x ++ s) st ad 0 0 fields = ipv4_fields s false false x l fields.
Proof.
  intros Hx. assert (Hin : x ∈ seqZ 0 256) by (apply elem_of_seqZ; unfold is_u8 in Hx; lia).
  assert (Hall : Forall (fun x => octet_run (decimal x) 0 0 = Some (x, Z.of_nat (length (decimal x)))) (seqZ 0 256)).
  { apply (bool_decide_unpack _). vm_compute. exact I. }
  rewrite Forall_forall in Hall. specialize (Hall x Hin). eexists. intros s st ad fields.
  apply (ipv4_fields_run _ s _ _ fields _ _ Hall []); [done|]. pose proof (decimal_not_nil x). destruct (decimal x); [done|simpl; lia].
Qed.

Lemma parseIPv4_print a : Forall is_u8 a -> length a = 4%nat -> parseIPv4 (Join dot (map decimal a)) = Some a.
Proof.
  intros Ha Hl. destruct (four_bytes a Hl) as (w & x & y & z & ->).
  apply Forall_cons in Ha as [Hw Ha]. apply Forall_cons in Ha as [Hx Ha]. apply Forall_cons in Ha as [Hy Ha].
  apply Forall_inv in Ha as Hz. cbn [map]. rewrite !Join_cons by done. cbn [Join]. unfold parseIPv4.
  destruct (ipv4_octet w Hw) as [lw Ew]. destruct (ipv4_octet x Hx) as [lx Ex].
  destruct (ipv4_octet y Hy) as [ly Ey]. destruct (ipv4_octet z Hz) as [lz Ez].
  assert (Hdot : forall s val l fields, s <> [] -> (length fields < 3)%nat ->
    ipv4_fields (dot :: s) false false val l fields = ipv4_fields s false true 0 0 (fields ++ [u8 val])).
  { intros s val l fields Hs Hf. cbn [ipv4_fields]. change (digit dot) with (@None Z). rewrite Z.eqb_refl.
    rewrite (bool_decide_false (s = [])) by done. cbn [orb]. by rewrite bool_decide_false by lia. }
  assert (Hne : forall n s, decimal n ++ s <> []) by (intros n s; pose proof (decimal_not_nil n); by destruct (decimal n)).
  rewrite Ew, Hdot by (apply Hne || (simpl; lia)). rewrite Ex, Hdot by (apply Hne || (simpl; lia)).
  rewrite Ey, Hdot by (apply decimal_not_nil || (simpl; lia)). rewrite <-(app_nil_r (decimal z)), Ez.
  cbn [ipv4_fields app]. rewrite bool_decide_false by (simpl; lia). by rewrite !u8_small.
Qed.

Lemma hex_field_group x y rest : is_u8 x -> is_u8 y ->
  (rest = [] \/ exists r, rest = 58 :: r) ->
  hex_field 0 0 (hex_EncodeToString [x; y] ++ rest) = Some (4%nat, x * 256 + y, rest).
Proof.
  unfold is_u8. intros Hx Hy Hr. unfold hex_EncodeToString. cbn [flat_map app hex_field].
  rewrite !hex_digit_char by zlia.
  replace ((((0 * 16 + x / 16) * 16 + x mod 16) * 16 + y / 16) * 16 + y mod 16) with (x * 256 + y) by zlia.
  repeat (rewrite bool_decide_false by lia). by destruct Hr as [->|[r ->]].
Qed.

Lemma pair_bytes x y : is_u8 x -> is_u8 y -> [u8 (Z.shiftr (x * 256 + y) 8); u8 (x * 256 + y)] = [x; y].
Proof.
  intros Hx Hy. unfold u8, is_u8 in *. rewrite Z.shiftr_div_pow2 by lia. f_equal; [|f_equal]; zlia.
Qed.

(** One field with another behind it. *)
Lemma ipv6_fields_field fuel x y c rest ip : is_u8 x -> is_u8 y -> c <> 58 ->
  ipv6_fields (S fuel) (hex_EncodeToString [x; y] ++ 58 :: c :: rest) ip None =
  ipv6_fields fuel (c :: rest) (ip ++ [x; y]) None.
Proof.
  intros Hx Hy Hc. cbn [ipv6_fields]. rewrite hex_field_group by (done || (right; by eexists)). cbn zeta.
  change (58 =? dot) with false. change (58 =? 58) with true. cbn [negb].
  rewrite (proj2 (Z.eqb_neq c 58)) by done. by rewrite pair_bytes.
Qed.

Lemma groups_head x y a : is_u8 x ->
  exists rest, Join 58 (groups (x :: y :: a)) = hex_char (x / 16) :: rest /\ hex_char (x / 16) <> 58.
Proof.
  intros Hx. cbn [groups].
  assert (Hc : hex_char (x / 16) <> 58).
  { unfold hex_char. unfold is_u8 in Hx. destruct (Z.ltb_spec (x / 16) 10); lia. }
  destruct (groups a); [by eexists|]. rewrite Join_cons by done. by eexists.
Qed.

Lemma ipv6_fields_groups fuel : forall a ip,
  length a = (2 * fuel)%nat -> Forall is_u8 a -> (0 < fuel)%nat ->
  ipv6_fields fuel (Join 58 (groups a)) ip None = Some (ip ++ a, None, []).
Proof.
  induction fuel as [|fuel IH]; intros a ip Hl Ha Hf; [lia|].
  destruct a as [|x [|y a]]; try (simpl in Hl; lia).
  apply Forall_cons in Ha as [Hx Ha]. apply Forall_cons in Ha as [Hy Ha].
  destruct fuel as [|fuel].
  - destruct a; [|simpl in Hl; lia]. cbn [groups Join ipv6_fields].
    rewrite <-(app_nil_r (hex_EncodeToString _)), hex_field_group by (done || by left). cbn zeta. by rewrite pair_bytes.
  - destruct a as [|x' [|y' a]]; try (simpl in Hl; lia).
    destruct (groups_head x' y' a (Forall_inv Ha)) as (rest & E & Hc).
    change (groups (x :: y :: x' :: y' :: a)) with (hex_EncodeToString [x; y] :: groups (x' :: y' :: a)).
    rewrite Join_cons by done. rewrite E, ipv6_fields_field, <-E by done.
    rewrite IH by (done || simpl in *; lia). by rewrite <-app_assoc.
Qed.

Lemma u8_pair x y : is_u8 x -> is_u8 y -> Forall is_u8 [x; y].
Proof. intros Hx Hy. constructor; [done|]. by apply Forall_singleton. Qed.

Lemma groups_chars a : Forall is_u8 a ->
  Forall (fun c => 48 <= c <= 58 \/ 97 <= c <= 102) (Join 58 (groups a)).
Proof.
  intros Ha. apply Forall_Join; [lia|].
  enough (H : forall n a, (length a <= n)%nat -> Forall is_u8 a ->
    Forall (Forall (fun c => 48 <= c <= 58 \/ 97 <= c <= 102)) (groups a)) by by eapply H.
  clear a Ha. induction n as [|n IH]; intros [|x [|y a]] Hl Ha; try constructor; try (simpl in Hl; lia).
  - apply Forall_cons in Ha as [Hx Ha]. apply Forall_cons in Ha as [Hy Ha].
    eapply Forall_impl; [by apply hex_text, u8_pair|]. simpl. lia.
  - apply IH; [simpl in Hl; lia|]. by do 2 apply Forall_inv_tail in Ha.
Qed.

Lemma parse_as_skip w : forall rest s, Forall (fun c => c <> dot /\ c <> 58 /\ c <> 37) w ->
  parse_as (w ++ rest) s = parse_as rest s.
Proof.
  induction w as [|c w IH]; intros rest s Hw; [done|]. apply Forall_cons in Hw as [(H1 & H2 & H3) Hw].
  cbn [app parse_as]. rewrite !(proj2 (Z.eqb_neq c _)) by done. by apply IH.
Qed.

Lemma ParseAddr_print a : addr_ok a -> ParseAddr (print_addr a) = Some a.
Proof.
  intros [Ha Hl]. unfold ParseAddr, print_addr. case_bool_decide as H4.
  - trans (parseIPv4 (Join dot (map decimal a))); [|by apply parseIPv4_print]. destruct (four_bytes a H4) as (w & x & y & z & ->).
    change (map decimal [w; x; y; z]) with (decimal w :: map decimal [x; y; z]). rewrite Join_cons by done.
    rewrite parse_as_skip; [done|]. eapply Forall_impl; [apply decimal_chars; apply Forall_inv in Ha; unfold is_u8 in Ha; lia|].
    unfold dot. simpl. lia.
  - destruct Hl as [|Hl]; [done|].
    assert (E : parseIPv6 (Join 58 (groups a)) = Some a).
    { pose proof (groups_chars a Ha) as Hc. unfold parseIPv6.
      assert (Hp : GoStrings.Contains (Join 58 (groups a)) 37 = false).
      { apply not_true_iff_false. unfold GoStrings.Contains. rewrite existsb_exists.
        intros (c & Hin%list_elem_of_In & E). rewrite Forall_forall in Hc. specialize (Hc c Hin). lia. }
      rewrite Hp. pose proof (ipv6_fields_groups 8 a [] Hl Ha ltac:(lia)) as Ef. cbn [app] in Ef.
      destruct a as [|x [|y a]]; try done. destruct (groups_head x y a (Forall_inv Ha)) as (rest & Eg & Hne).
      rewrite Eg in Ef |- *. destruct (decide (hex_char (x / 16) = 58)); [done|].
      assert (Ep : match hex_char (x / 16) :: rest with 58 :: 58 :: s => (s, Some 0%nat) | _ => (hex_char (x / 16) :: rest, None) end
        = (hex_char (x / 16) :: rest, None)).
      { destruct (hex_char (x / 16)) as [|p|p]; [done| |done]. repeat (destruct p as [p|p|]; try done). }
      rewrite Ep. rewrite (bool_decide_false (_ = [])) by done. cbn [andb]. rewrite Ef.
      by rewrite bool_decide_false by lia. }
    trans (parseIPv6 (Join 58 (groups a))); [|exact E]. clear E. destruct a as [|x [|y [|x' [|y' a]]]]; try done.
    change (groups (x :: y :: x' :: y' :: a)) with (hex_EncodeToString [x; y] :: groups (x' :: y' :: a)).
    rewrite Join_cons by done. rewrite parse_as_skip; [done|].
    apply Forall_cons in Ha as [Hx Ha]. apply Forall_inv in Ha as Hy.
    eapply Forall_impl; [by apply hex_text, u8_pair|]. unfold dot. simpl. lia.
Qed.

(** *** The short form *)

Definition is_word (w : Z) : Prop := 0 <= w < 65536.

(** The text of a field is over. *)
Definition field_end (rest : gostring) : Prop := rest = [] \/ exists r, rest = 58 :: r.

Lemma hex_field_word w rest : is_word w -> field_end rest ->
  exists k, hex_field 0 0 (appendHex w ++ rest) = Some (S k, w, rest).
Proof.
  intros Hw Hr.
  assert (Hend : forall off acc, hex_field off acc rest = Some (off, acc, rest)) by by (intros; destruct Hr as [->|[r ->]]).
  unfold is_word in Hw. unfold appendHex.
  destruct (Z.leb_spec 4096 w), (Z.leb_spec 256 w), (Z.leb_spec 16 w); try lia; cbn [app hex_field];
    rewrite !hex_digit_char by zlia; repeat (rewrite bool_decide_false by lia); rewrite Hend; eexists; do 3 f_equal; zlia.
Qed.

Definition word_bytes (ws : list Z) : list Z := flat_map (fun w => [u8 (Z.shiftr w 8); u8 w]) ws.

Lemma words_bytes n : forall a, length a = (2 * n)%nat -> Forall is_u8 a ->
  Forall is_word (words a) /\ length (words a) = n /\ word_bytes (words a) = a.
Proof.
  induction n as [|n IH]; intros a Hl Ha; [by destruct a|]. destruct a as [|x [|y a]]; try (simpl in Hl; lia).
  apply Forall_cons in Ha as [Hx Ha]. apply Forall_cons in Ha as [Hy Ha].
  destruct (IH a ltac:(simpl in Hl; lia) Ha) as (H1 & H2 & H3). cbn [words length word_bytes flat_map]. split_and!.
  - constructor; [|done]. unfold is_word, is_u8 in *. lia.
  - lia.
  - rewrite pair_bytes by done. cbn [app]. do 2 f_equal. exact H3.
Qed.

Lemma appendHex_chars w : is_word w -> appendHex w <> [] /\ Forall (fun c => 48 <= c <= 57 \/ 97 <= c <= 102) (appendHex w).
Proof.
  intros Hw. assert (H : forall d, 0 <= d < 16 -> 48 <= hex_char d <= 57 \/ 97 <= hex_char d <= 102)
    by (unfold hex_char; intros d Hd; destruct (Z.ltb_spec d 10); lia).
  unfold is_word in Hw. unfold appendHex.
  destruct (Z.leb_spec 4096 w), (Z.leb_spec 256 w), (Z.leb_spec 16 w); try lia; (split; [done|]); cbn [app];
    repeat (apply Forall_cons_2; [apply H; zlia|]); constructor.
Qed.

(** A field and what is behind it. *)
Lemma ipv6_field fuel w rest ip e : is_word w -> field_end rest ->
  ipv6_fields (S fuel) (appendHex w ++ rest) ip e =
  let ip' := ip ++ [u8 (Z.shiftr w 8); u8 w] in
  match rest with
  | [] => Some (ip', e, [])
  | _ :: [] => None
  | _ :: c :: rest' =>
    if c =? 58 then
      match e with
      | Some _ => None
      | None => if bool_decide (rest' = []) then Some (ip', Some (length ip'), []) else ipv6_fields fuel rest' ip' (Some (length ip'))
      end
    else ipv6_fields fuel (c :: rest') ip' e
  end.
Proof.
  intros Hw Hr. cbn [ipv6_fields]. destruct (hex_field_word w rest Hw Hr) as [k ->]. cbn zeta.
  destruct Hr as [->|[r ->]]; [done|]. change (58 =? dot) with false. change (58 =? 58) with true. cbn [negb].
  destruct r as [|c r]; [done|]. done.
Qed.

Lemma Join_words_head ws : ws <> [] -> Forall is_word ws ->
  exists c t, Join 58 (map appendHex ws) = c :: t /\ c <> 58 /\ c <> dot /\ c <> 37.
Proof.
  intros Hne Hws. destruct ws as [|w ws]; [done|]. apply Forall_inv in Hws. destruct (appendHex_chars w Hws) as [Hn Hc].
  destruct (appendHex w) as [|c t] eqn:E; [done|]. apply Forall_inv in Hc. exists c.
  assert (exists t', Join 58 (map appendHex (w :: ws)) = c :: t') as [t' Et].
  { cbn [map]. rewrite E. destruct ws; [by eexists|]. rewrite Join_cons by done. by eexists. }
  exists t'. split; [done|]. unfold dot. lia.
Qed.

(** All fields up to the end, and up to the double colon. *)
Lemma ipv6_fields_words ws : forall fuel ip e, ws <> [] -> Forall is_word ws -> (length ws <= fuel)%nat ->
  ipv6_fields fuel (Join 58 (map appendHex ws)) ip e = Some (ip ++ word_bytes ws, e, []) /\
  forall tail, e = None ->
  ipv6_fields fuel (Join 58 (map appendHex ws) ++ 58 :: 58 :: tail) ip e =
  let ip' := ip ++ word_bytes ws in
  if bool_decide (tail = []) then Some (ip', Some (length ip'), [])
  else ipv6_fields (fuel - length ws) tail ip' (Some (length ip')).
Proof.
  induction ws as [|w ws IH]; intros fuel ip e Hne Hws Hf; [done|]. apply Forall_cons in Hws as [Hw Hws].
  destruct fuel as [|fuel]; [simpl in Hf; lia|]. destruct ws as [|w' ws].
  - cbn [map Join word_bytes flat_map app]. split.
    + rewrite <-(app_nil_r (appendHex w)), ipv6_field by (done || by left). done.
    + intros tail ->. rewrite ipv6_field by (done || (right; by eexists)). cbn zeta. cbn [length]. rewrite Nat.sub_succ, Nat.sub_0_r. done.
  - destruct (Join_words_head (w' :: ws) ltac:(done) Hws) as (c & t & Et & Hc & _).
    destruct (IH fuel (ip ++ [u8 (Z.shiftr w 8); u8 w]) e ltac:(done) Hws ltac:(simpl in *; lia)) as [IH1 IH2].
    rewrite Et in IH1, IH2.
    change (map appendHex (w :: w' :: ws)) with (appendHex w :: map appendHex (w' :: ws)). rewrite Join_cons, Et by done.
    assert (Hb : forall l, (ip ++ [u8 (Z.shiftr w 8); u8 w]) ++ word_bytes (w' :: ws) ++ l = ip ++ word_bytes (w :: w' :: ws) ++ l)
      by (intros; by rewrite <-app_assoc).
    specialize (Hb []). rewrite !app_nil_r in Hb. rewrite <-Hb. split.
    + rewrite ipv6_field by (done || (right; by eexists)). cbn zeta. rewrite (proj2 (Z.eqb_neq c 58)) by done. exact IH1.
    + intros tail He. rewrite <-app_assoc. cbn [app]. rewrite ipv6_field by (done || (right; by eexists)). cbn zeta.
      rewrite (proj2 (Z.eqb_neq c 58)) by done. cbn [app] in IH2. rewrite IH2 by done. done.
Qed.

Lemma zeros_spec ws : take (zeros ws) ws = replicate (zeros ws) 0 /\ (zeros ws <= length ws)%nat.
Proof.
  induction ws as [|[|w|w] ws [IH1 IH2]]; [by split|..]; cbn [zeros take replicate length]; [|split; [done|lia]..].
  rewrite IH1. split; [done|lia].
Qed.

(** What the run is: zeros, and not none. *)
Definition run_of (ws : list Z) (r : option (nat * nat)) : Prop :=
  match r with
  | Some (s, e) => (s < e <= length ws)%nat /\ ws = take s ws ++ replicate (e - s) 0 ++ drop e ws
  | None => True
  end.

Lemma zero_run_spec all : forall ws i best, drop i all = ws -> run_of all best -> run_of all (zero_run i ws best).
Proof.
  intros ws. induction ws as [|w ws IH]; intros i best Hi Hb; [done|]. cbn [zero_run].
  assert (Hlen : (i < length all)%nat) by (apply (f_equal length) in Hi; rewrite length_drop in Hi; simpl in Hi; lia).
  apply IH.
  - replace (S i) with (i + 1)%nat by lia. rewrite <-drop_drop, Hi. done.
  - destruct (_ && _) eqn:E; [|done]. apply andb_true_iff in E as [Hl%bool_decide_eq_true _]. unfold run_of.
    destruct (zeros_spec (w :: ws)) as [Hz Hzl]. rewrite <-Hi, length_drop in Hzl.
    split; [rewrite Hi in Hzl; lia|]. replace (i + zeros (w :: ws) - i)%nat with (zeros (w :: ws)) by lia.
    rewrite <-Hz, <-drop_drop, <-Hi, take_drop. by rewrite take_drop.
Qed.

Lemma word_bytes_app a b : word_bytes (a ++ b) = word_bytes a ++ word_bytes b.
Proof. apply flat_map_app. Qed.

Lemma word_bytes_zeros n : word_bytes (replicate n 0) = replicate (2 * n) 0.
Proof. induction n as [|n IH]; [done|]. cbn [replicate word_bytes flat_map]. replace (2 * S n)%nat with (S (S (2 * n))) by lia. cbn [replicate]. by rewrite <-IH. Qed.

Lemma length_word_bytes ws : length (word_bytes ws) = (2 * length ws)%nat.
Proof. induction ws as [|w ws IH]; [done|]. cbn [word_bytes flat_map length app]. fold (word_bytes ws). lia. Qed.

Lemma appendTo6_chars a : length a = 16%nat -> Forall is_u8 a -> Forall (fun c => 48 <= c <= 58 \/ 97 <= c <= 102) (appendTo6 a).
Proof.
  intros Hl Ha. destruct (words_bytes 8 a Hl Ha) as (Hws & _ & _).
  assert (Hj : forall ws, Forall is_word ws -> Forall (fun c => 48 <= c <= 58 \/ 97 <= c <= 102) (Join 58 (map appendHex ws))).
  { intros ws H. apply Forall_Join; [lia|]. apply Forall_fmap. eapply Forall_impl; [exact H|]. intros w Hw.
    destruct (appendHex_chars w Hw) as [_ Hc]. eapply Forall_impl; [exact Hc|]. cbn. lia. }
  unfold appendTo6. destruct (zero_run 0 (words a) None) as [[s e]|]; [|by apply Hj].
  apply Forall_app. split; [by apply Hj, Forall_take|]. apply Forall_app. split; [repeat constructor; lia|by apply Hj, Forall_drop].
Qed.

Lemma parseIPv6_appendTo6 a : length a = 16%nat -> Forall is_u8 a -> parseIPv6 (appendTo6 a) = Some a.
Proof.
  intros Hl Ha. pose proof (appendTo6_chars a Hl Ha) as Hc. unfold parseIPv6.
  assert (Hp : GoStrings.Contains (appendTo6 a) 37 = false).
  { apply not_true_iff_false. unfold GoStrings.Contains. rewrite existsb_exists.
    intros (c & Hin%list_elem_of_In & E). rewrite Forall_forall in Hc. specialize (Hc c Hin). lia. }
  rewrite Hp. clear Hp Hc. destruct (words_bytes 8 a Hl Ha) as (Hws & Hwl & Hwb). unfold appendTo6.
  pose proof (zero_run_spec (words a) (words a) 0 None eq_refl I) as Hrun.
  assert (Hstart : forall c t, c <> 58 -> match c :: t with 58 :: 58 :: s => (s, Some 0%nat) | _ => (c :: t, None) end = (c :: t, None)).
  { intros c t Hne. destruct c as [|p|p]; [done| |done]. repeat (destruct p as [p|p|]; try done). }
  destruct (zero_run 0 (words a) None) as [[s e]|].
  - destruct Hrun as [Hse Heq]. set (pre := take s (words a)) in *. set (post := drop e (words a)) in *.
    assert (Hpre : Forall is_word pre) by by apply Forall_take. assert (Hpost : Forall is_word post) by by apply Forall_drop.
    assert (Hlpre : length pre = s) by (unfold pre; rewrite length_take; lia).
    assert (Hlpost : length post = (8 - e)%nat) by (unfold post; rewrite length_drop; lia).
    assert (Ha' : a = word_bytes pre ++ replicate (2 * (e - s)) 0 ++ word_bytes post).
    { rewrite <-Hwb at 1. rewrite Heq at 1. by rewrite !word_bytes_app, word_bytes_zeros. }
    assert (Hlb : length (word_bytes pre ++ word_bytes post) = (2 * (s + (8 - e)))%nat) by (rewrite length_app, !length_word_bytes; lia).
    assert (Hresult : Some (take (length (word_bytes pre)) (word_bytes pre ++ word_bytes post) ++
        replicate (16 - length (word_bytes pre ++ word_bytes post)) 0 ++
        drop (length (word_bytes pre)) (word_bytes pre ++ word_bytes post)) = Some a).
    { rewrite take_app_length, drop_app_length, Hlb. replace (16 - 2 * (s + (8 - e)))%nat with (2 * (e - s))%nat by lia. by rewrite <-Ha'. }
    destruct (decide (pre = [])) as [Epre|Epre].
    + rewrite Epre in *. change (word_bytes []) with (@nil Z) in *. cbn [map Join app length] in *. destruct (decide (post = [])) as [Epost|Epost].
      * rewrite Epost in *. cbn [map Join]. rewrite !bool_decide_true by done. cbn [andb]. cbn in Hresult.
        rewrite <-Hresult. done.
      * destruct (Join_words_head post Epost Hpost) as (c & t & Et & _). rewrite Et.
        rewrite (bool_decide_false (c :: t = [])) by done. cbn [andb]. rewrite <-Et.
        destruct (ipv6_fields_words post 8 [] (Some 0%nat) Epost Hpost ltac:(lia)) as [-> _]. cbn [app] in *.
        rewrite bool_decide_true by lia. exact Hresult.
    + destruct (Join_words_head pre Epre Hpre) as (c & t & Et & Hc & _). rewrite Et. cbn [app]. rewrite Hstart by done.
      rewrite (bool_decide_false (c :: _ = [])) by done. cbn [andb].
      change (c :: t ++ 58 :: 58 :: Join 58 (map appendHex post)) with ((c :: t) ++ 58 :: 58 :: Join 58 (map appendHex post)).
      rewrite <-Et. destruct (ipv6_fields_words pre 8 [] None Epre Hpre ltac:(lia)) as [_ Hell]. rewrite Hell by done. cbn zeta. cbn [app].
      destruct (decide (post = [])) as [Epost|Epost].
      * rewrite Epost in *. cbn [map Join]. rewrite bool_decide_true by done. rewrite app_nil_r in *.
        rewrite bool_decide_true by lia. exact Hresult.
      * destruct (Join_words_head post Epost Hpost) as (c' & t' & Et' & _). rewrite bool_decide_false by by rewrite Et'.
        destruct (ipv6_fields_words post (8 - length pre) (word_bytes pre) (Some (length (word_bytes pre))) Epost Hpost ltac:(lia)) as [-> _].
        rewrite bool_decide_true by lia. exact Hresult.
  - assert (Hne : words a <> []) by by destruct (words a).
    destruct (Join_words_head (words a) Hne Hws) as (c & t & Et & Hc & _). rewrite Et, Hstart by done.
    rewrite (bool_decide_false (c :: t = [])) by done. cbn [andb]. rewrite <-Et.
    destruct (ipv6_fields_words (words a) 8 [] None Hne Hws ltac:(lia)) as [-> _]. cbn [app]. rewrite Hwb.
    by rewrite bool_decide_false by lia.
Qed.

(** What is printed for an address is read as that address, an IPv4 address in
    whatever form it was held as itself. *)
Lemma ParseAddr_IP_String b : addr_ok b -> ParseAddr (IP_String (Some b)) = Some (default b (To4 (Some b))).
Proof.
  intros [Hb Hl]. assert (E0 : IP_String (Some b) = match To4 (Some b) with
    | Some b => Join dot (map decimal b)
    | None => if bool_decide (length b = 16%nat) then appendTo6 b else 63 :: hex_EncodeToString b end)
    by (by destruct b; [destruct Hl|]).
  rewrite E0. clear E0.
  destruct (To4 (Some b)) as [b4|] eqn:E4.
  - cbn [default]. assert (H4 : addr_ok b4).
    { split; [|left; by eapply To4_length]. cbn in E4. case_bool_decide; [by injection E4 as <-|].
      destruct (_ && _); [|done]. injection E4 as <-. by apply Forall_drop. }
    pose proof (ParseAddr_print b4 H4) as H. unfold print_addr in H.
    rewrite bool_decide_true in H by by eapply To4_length. exact H.
  - cbn [default]. assert (Hl16 : length b = 16%nat) by (destruct Hl as [H4|]; [by rewrite To4_Some in E4|done]).
    rewrite bool_decide_true by done. unfold ParseAddr. pose proof (parseIPv6_appendTo6 b Hl16 Hb) as Hp.
    pose proof (appendTo6_chars b Hl16 Hb) as Hc.
    assert (Hfirst : exists w rest, appendTo6 b = w ++ 58 :: rest /\ Forall (fun c => c <> dot /\ c <> 58 /\ c <> 37) w).
    { destruct (words_bytes 8 b Hl16 Hb) as (Hws & Hwl & _). unfold appendTo6.
      assert (Hj : forall ws tail, ws <> [] -> Forall is_word ws -> (2 <= length ws)%nat \/ (exists r, tail = 58 :: r) ->
        exists w rest, Join 58 (map appendHex ws) ++ tail = w ++ 58 :: rest /\ Forall (fun c => c <> dot /\ c <> 58 /\ c <> 37) w).
      { intros ws tail Hne Hw Hor. destruct ws as [|w ws]; [done|]. apply Forall_inv in Hw. destruct (appendHex_chars w Hw) as [_ Hch].
        assert (Hgood : Forall (fun c => c <> dot /\ c <> 58 /\ c <> 37) (appendHex w))
          by (eapply Forall_impl; [exact Hch|]; unfold dot; cbn; lia).
        destruct ws as [|w' ws].
        - destruct Hor as [|[r ->]]; [simpl in *; lia|]. exists (appendHex w), r. by split.
        - cbn [map]. rewrite Join_cons by done. rewrite <-app_assoc. exists (appendHex w), (Join 58 (appendHex w' :: map appendHex ws) ++ tail).
          by split. }
      destruct (zero_run 0 (words b) None) as [[s e]|].
      - destruct (decide (take s (words b) = [])) as [->|Hne]; [by exists [], (58 :: Join 58 (map appendHex (drop e (words b))))|].
        apply Hj; [done|by apply Forall_take|right; by eexists].
      - rewrite <-(app_nil_r (Join _ _)). apply Hj; [by destruct (words b)|done|left; lia]. }
    destruct Hfirst as (w & rest & E & Hw). rewrite E in Hp |- *. rewrite parse_as_skip by done. cbn [parse_as].
    change (58 =? dot) with false. change (58 =? 58) with true. exact Hp.
Qed.

Lemma CutLast_last a c b : no_sep c b -> CutLast (a ++ c :: b) c = Some (a, b).
Proof.
  unfold no_sep. intros Hb. assert (H : CutLast b c = None).
  { induction b as [|x b IH]; [done|]. apply not_elem_of_cons in Hb as [Hx Hb]. cbn [CutLast].
    rewrite IH by done. by rewrite (proj2 (Z.eqb_neq x c)) by congruence. }
  induction a as [|x a IH]; cbn [app CutLast]; [by rewrite H, Z.eqb_refl|by rewrite IH].
Qed.

(** The text of a prefix: its address in full form, or in the short form
    [net.IP.String] gives an IPv6 address, and its length. *)
Definition prefix_text (p : Prefix) (t : gostring) : Prop :=
  t = print_prefix p \/
  (length (px_Addr p) = 16%nat /\ To4 (Some (px_Addr p)) = None /\
   t = IP_String (Some (px_Addr p)) ++ 47 :: decimal (px_Bits p)).

Lemma ParsePrefix_text t a n : ParseAddr t = Some a -> prefix_ok (MkPrefix a n) -> addr_ok a ->
  ParsePrefix (t ++ 47 :: decimal n) = Some (MkPrefix a n).
Proof.
  intros Ht [_ Hn] Hok. unfold ParsePrefix. cbn [px_Addr px_Bits] in *.
  assert (Hn128 : 0 <= n <= 128) by (destruct Hok as [_ Hl]; unfold BitLen in Hn; lia).
  rewrite CutLast_last.
  - rewrite Ht.
    assert (Hall : Forall (fun n => prefix_bits (decimal n) = Some n) (seqZ 0 129)) by (apply (bool_decide_unpack _); vm_compute; exact I).
    rewrite Forall_forall in Hall. rewrite Hall by (apply elem_of_seqZ; lia). by rewrite (proj2 (Z.ltb_ge _ _)) by lia.
  - unfold no_sep. intros Hin. assert (Hd : 0 <= n) by lia. apply decimal_chars in Hd. rewrite Forall_forall in Hd.
    specialize (Hd _ Hin). simpl in Hd. lia.
Qed.

(** What is written is read. *)
Lemma ParsePrefix_prefix_text p t : prefix_ok p -> addr_ok (px_Addr p) -> prefix_text p t -> ParsePrefix t = Some p.
Proof.
  destruct p as [a n]. intros Hp Hok [->|(Hl & H4 & ->)]; cbn [px_Addr px_Bits] in *.
  { apply (ParsePrefix_text (print_addr a)); [by apply ParseAddr_print|done..]. }
  apply ParsePrefix_text; [|done..]. rewrite ParseAddr_IP_String by done. by rewrite H4.
Qed.

Lemma groups_visible : forall a, Forall is_u8 a -> Forall (Forall visible) (groups a).
Proof.
  fix IH 1. intros [|x [|y a]] Hb; cbn [groups]; [constructor..|].
  apply Forall_cons in Hb as [Hx Hb]. apply Forall_cons in Hb as [Hy Hb]. constructor; [|by apply IH].
  eapply Forall_impl; [apply hex_text; by apply u8_pair|]. unfold visible. simpl. lia.
Qed.

Lemma prefix_text_visible p t : prefix_ok p -> addr_ok (px_Addr p) -> prefix_text p t -> t <> [] /\ Forall visible t.
Proof.
  intros [_ Hn] [Hb Hl] Ht. assert (Hd : forall n, 0 <= n -> Forall visible (decimal n))
    by (intros n H; eapply Forall_impl; [by apply decimal_chars|]; unfold visible; simpl; lia).
  assert (Hend : Forall visible (47 :: decimal (px_Bits p))) by (constructor; [unfold visible; lia|apply Hd; lia]).
  assert (Ha : exists a, t = a ++ 47 :: decimal (px_Bits p) /\ Forall visible a).
  { destruct Ht as [->|(Hl16 & H4 & ->)]; eexists; (split; [reflexivity|]).
    - unfold print_addr. case_bool_decide.
      + apply Forall_Join; [unfold visible, dot; lia|]. apply List.Forall_map. eapply Forall_impl; [exact Hb|].
        intros x Hx. apply Hd. unfold is_u8 in Hx. lia.
      + apply Forall_Join; [unfold visible; lia|]. by apply groups_visible.
    - assert (E : IP_String (Some (px_Addr p)) = appendTo6 (px_Addr p)).
      { unfold IP_String. rewrite H4, bool_decide_true by done. by destruct (px_Addr p). }
      rewrite E. eapply Forall_impl; [by apply appendTo6_chars|]. unfold visible. simpl. lia. }
  destruct Ha as (a & -> & Ha). split; [by destruct a|]. by apply Forall_app.
Qed.
