(* ===== verification/Config.v ===== *)
(** The configuration ([config/config.go]): its defaults, what it checks, and how it is
    read from a file.  The fields are decoded one after the other into the defaults,
    the way [encoding/json] decodes into a struct. *)

From coqutil Require Import Datatypes.RecordSetters.
From stdpp Require Import strings.
From S2P Require Import Prelude GoUnicode GoStrings GoText GoFloat GoTime GoJson GoNet DnsMsg Encoder DnssecRecords Verify TrustAnchor Upstream UpstreamSpec Handler Acl RateLimit NetText.

Open Scope list_scope.
Open Scope Z_scope.

(** Durations are in nanoseconds. *)
Definition Seconds (n : Z) : Z := n * 1000000000.

Record Config := MkConfig {
  c_Listen : gostring; c_Allow : list gostring; c_RateLimit : float64; c_Burst : float64; c_MaxInFlight : Z;
  c_QueryTimeout : Z; c_UpstreamTimeout : Z; c_CacheEntries : Z; c_CacheMinTTL : Z; c_CacheMaxTTL : Z;
  c_TLSListen : gostring; c_TLSCert : gostring; c_TLSKey : gostring; c_QNAMEMinimization : bool;
  c_Use0x20 : bool; c_DNSSEC : bool; c_TrustAnchor : gostring; c_Middleware : list gostring;
  c_LogLevel : gostring; c_LogFormat : gostring }.

Inductive config_error :=
  | EListen | ETLS | EAllow (s : gostring) | ECacheTTL | ETimeouts | EMiddleware (name : gostring)
  | ELogFormat | ELogLevel | ETrustAnchor | EReadFile | EJSON.

Definition Default : Config := {|
  c_Listen := str "127.0.0.1:5353"%string;
  c_Allow := [str "127.0.0.0/8"%string; str "::1/128"%string];
  c_RateLimit := of_Z 50;
  c_Burst := of_Z 100;
  c_MaxInFlight := 512;
  c_QueryTimeout := Seconds 10;
  c_UpstreamTimeout := Seconds 3;
  c_CacheEntries := 10000;
  c_CacheMinTTL := Seconds 5;
  c_CacheMaxTTL := Seconds 86400;
  c_TLSListen := []; c_TLSCert := []; c_TLSKey := [];
  c_DNSSEC := true;
  c_QNAMEMinimization := true;
  c_Use0x20 := false;
  c_TrustAnchor := [];
  c_Middleware := [str "acl"%string; str "ratelimit"%string; str "cache"%string; str "singleflight"%string];
  c_LogLevel := str "info"%string;
  c_LogFormat := str "text"%string |}.

(** [AllowedPrefixes]: the first entry that is no prefix is the error. *)
Fixpoint parse_allow (allow : list gostring) : result config_error (list Prefix) :=
  match allow with
  | [] => Ok []
  | s :: allow =>
    match ParsePrefix (TrimSpace s) with
    | None => Err (EAllow s)
    | Some p => ps ← parse_allow allow; Ok (p :: ps)
    end
  end.

Definition AllowedPrefixes (c : Config) : result config_error (list Prefix) := parse_allow (c_Allow c).

Definition one_of (s : gostring) (names : list gostring) : bool := bool_decide (s ∈ names).

Definition known_middleware : list gostring :=
  [str "acl"%string; str "ratelimit"%string; str "cache"%string; str "singleflight"%string].

Definition Validate (c : Config) : result config_error unit :=
  if bool_decide (c_Listen c = []) then Err EListen
  else if negb (bool_decide (c_TLSListen c = [])) && (bool_decide (c_TLSCert c = []) || bool_decide (c_TLSKey c = []))
  then Err ETLS
  else
    _ ← AllowedPrefixes c;
    if c_CacheMaxTTL c <? c_CacheMinTTL c then Err ECacheTTL
    else if c_QueryTimeout c <? c_UpstreamTimeout c then Err ETimeouts
    else
      match List.find (fun name => negb (one_of name known_middleware)) (c_Middleware c) with
      | Some name => Err (EMiddleware name)
      | None =>
        if negb (one_of (c_LogFormat c) [str "text"%string; str "json"%string]) then Err ELogFormat
        else if negb (one_of (c_LogLevel c) [str "debug"%string; str "info"%string; str "warn"%string; str "error"%string])
        then Err ELogLevel
        else Ok tt
      end.

(** ** Reading *)

(** [json.Unmarshal] into a string variable that holds [old]. *)
Definition string_of (old : gostring) (v : json) : option gostring :=
  match v with JString s => Some s | JNull => Some old | _ => None end.

Definition MarshalJSON (d : Z) : gostring := marshal_string (Duration_String d).

Definition duration_of (v : json) : option Z := s ← string_of [] v; ParseDuration s.

Definition UnmarshalJSON (data : gostring) : option Z := v ← Parse data; duration_of v.

(** The arrays behind the two slices: what is left of each behind its last element. *)
Definition spares : Type := list gostring * list gostring.

(** A field, by its type, with the place of its value. *)
Inductive field :=
  | FString (get : Config -> gostring) (put : gostring -> Config -> Config)
  | FBool (get : Config -> bool) (put : bool -> Config -> Config)
  | FInt (get : Config -> Z) (put : Z -> Config -> Config)
  | FFloat (get : Config -> float64) (put : float64 -> Config -> Config)
  | FDuration (get : Config -> Z) (put : Z -> Config -> Config)
  | FStrings (get : Config -> list gostring) (put : list gostring -> Config -> Config)
      (spare : spares -> list gostring) (put_spare : list gostring -> spares -> spares).

Definition assign {E} (get : Config -> E) {setter : Setter get} (x : E) (c : Config) : Config := setter (constant x) c.

(** The tags of [Config], in the order of the struct. *)
Definition fields : list (gostring * field) := [
  (str "listen", FString c_Listen (assign c_Listen));
  (str "allow", FStrings c_Allow (assign c_Allow) fst (fun l sp => (l, sp.2)));
  (str "rate_limit", FFloat c_RateLimit (assign c_RateLimit));
  (str "burst", FFloat c_Burst (assign c_Burst));
  (str "max_in_flight", FInt c_MaxInFlight (assign c_MaxInFlight));
  (str "query_timeout", FDuration c_QueryTimeout (assign c_QueryTimeout));
  (str "upstream_timeout", FDuration c_UpstreamTimeout (assign c_UpstreamTimeout));
  (str "cache_entries", FInt c_CacheEntries (assign c_CacheEntries));
  (str "cache_min_ttl", FDuration c_CacheMinTTL (assign c_CacheMinTTL));
  (str "cache_max_ttl", FDuration c_CacheMaxTTL (assign c_CacheMaxTTL));
  (str "tls_listen", FString c_TLSListen (assign c_TLSListen));
  (str "tls_cert", FString c_TLSCert (assign c_TLSCert));
  (str "tls_key", FString c_TLSKey (assign c_TLSKey));
  (str "qname_minimization", FBool c_QNAMEMinimization (assign c_QNAMEMinimization));
  (str "use_0x20", FBool c_Use0x20 (assign c_Use0x20));
  (str "dnssec", FBool c_DNSSEC (assign c_DNSSEC));
  (str "trust_anchor", FString c_TrustAnchor (assign c_TrustAnchor));
  (str "middleware", FStrings c_Middleware (assign c_Middleware) snd (fun l sp => (sp.1, l)));
  (str "log_level", FString c_LogLevel (assign c_LogLevel));
  (str "log_format", FString c_LogFormat (assign c_LogFormat))]%string.

(** The field of a name: that name, or else one that differs in letter case. *)
Definition find_field (name : gostring) : option field :=
  snd <$> match List.find (fun nf => bool_decide (nf.1 = name)) fields with
          | Some nf => Some nf
          | None => List.find (fun nf => EqualFold nf.1 name) fields
          end.

(** The elements of an array go into the array of the slice; [null] leaves what is
    there, and behind its end there are empty strings. *)
Fixpoint decode_elems (old : list gostring) (vs : list json) : option (list gostring) :=
  match vs with
  | [] => Some []
  | v :: vs => e ← string_of (default [] (head old)) v; es ← decode_elems (tail old) vs; Some (e :: es)
  end.

(** One value into its field; [None] where the types do not fit. *)
Definition store_field (f : field) (v : json) (st : Config * spares) : option (Config * spares) :=
  let (c, sp) := st in
  match f, v with
  | FDuration _ put, _ => d ← duration_of v; Some (put d c, sp)
  | FStrings _ put _ put_spare, JNull => Some (put [] c, put_spare [] sp)
  | _, JNull => Some (c, sp)
  | FString _ put, JString s => Some (put s c, sp)
  | FBool _ put, JBool b => Some (put b c, sp)
  | FInt _ put, JNumber l => z ← ParseInt64 l; Some (put z c, sp)
  | FFloat _ put, JNumber l => x ← ParseFloat l; Some (put x c, sp)
  | FStrings get put spare put_spare, JArray vs =>
      let old := get c ++ spare sp in
      es ← decode_elems old vs;
      Some (put es c, put_spare (if bool_decide (vs = []) then [] else drop (length vs) old) sp)
  | _, _ => None
  end.

Fixpoint decode_members (kvs : list (gostring * json)) (st : Config * spares) : option (Config * spares) :=
  match kvs with
  | [] => Some st
  | (name, v) :: kvs =>
    st ← match find_field name with Some f => store_field f v st | None => Some st end;
    decode_members kvs st
  end.

(** [json.Unmarshal(data, &cfg)]. *)
Definition Unmarshal (data : gostring) (cfg : Config) : option Config :=
  v ← Parse data;
  match v with
  | JObject kvs => fst <$> decode_members kvs (cfg, ([], []))
  | JNull => Some cfg
  | _ => None
  end.

Definition Load (read_file : gostring -> option (list Z)) (path : gostring) : result config_error Config :=
  if bool_decide (path = []) then Ok Default
  else
    match read_file path with
    | None => Err EReadFile
    | Some data =>
      match Unmarshal data Default with
      | None => Err EJSON
      | Some cfg => _ ← Validate cfg; Ok cfg
      end
    end.

(** ** Facts *)

Lemma parse_allow_exact allow : match parse_allow allow with
  | Ok ps => Forall2 (fun s p => ParsePrefix (TrimSpace s) = Some p) allow ps
  | Err e => exists good bad rest, allow = good ++ bad :: rest /\ e = EAllow bad /\
      Forall (fun s => is_Some (ParsePrefix (TrimSpace s))) good /\ ParsePrefix (TrimSpace bad) = None
  end.
Proof.
  induction allow as [|s allow IH]; cbn [parse_allow]; [constructor|].
  destruct (ParsePrefix (TrimSpace s)) as [p|] eqn:E; [|by exists [], s, allow].
  destruct (parse_allow allow) as [ps|e]; cbn [mbind result_bind]; [by constructor|].
  destruct IH as (good & bad & rest & -> & -> & Hg & Hb). exists (s :: good), bad, rest. split_and!; [done..| |done].
  constructor; [by eexists|done].
Qed.

Lemma AllowedPrefixes_ok c ps : AllowedPrefixes c = Ok ps -> Forall prefix_ok ps.
Proof.
  intros H. pose proof (parse_allow_exact (c_Allow c)) as Hx. unfold AllowedPrefixes in H. rewrite H in Hx. clear H.
  induction Hx as [|s p allow ps Hp _ IH]; [constructor|].
  constructor; [by destruct (ParsePrefix_ok _ _ Hp)|done].
Qed.

(** An entry of the allow list: a prefix, with blanks around its text. *)
Definition allow_entry (p : Prefix) (entry : gostring) : Prop :=
  exists left text right, entry = left ++ text ++ right /\ blank left /\ blank right /\ prefix_text p text.

Lemma allow_entry_read p entry : prefix_ok p -> addr_ok (px_Addr p) -> allow_entry p entry ->
  ParsePrefix (TrimSpace entry) = Some p.
Proof.
  intros Hp Ha (left & text & right & -> & Hl & Hr & Ht). destruct (prefix_text_visible p text Hp Ha Ht).
  rewrite TrimSpace_padded by done. by apply ParsePrefix_prefix_text.
Qed.

(** Listing the defaults in a file is the same as leaving them out: the default
    configuration is valid and its allow list is access control's own default. *)
Lemma Default_valid : Validate Default = Ok tt /\ AllowedPrefixes Default = Ok LoopbackOnly.
Proof. split; by vm_compute. Qed.

Lemma Validate_middleware c : Validate c = Ok tt ->
  (exists ps, AllowedPrefixes c = Ok ps) /\ Forall (fun name => name ∈ known_middleware) (c_Middleware c).
Proof.
  unfold Validate. case_bool_decide; [done|]. destruct (_ && _); [done|].
  destruct (AllowedPrefixes c) as [ps|]; [|done]. cbn [mbind result_bind].
  destruct (_ <? _); [done|]. destruct (_ <? _); [done|].
  destruct (List.find _ _) as [name|] eqn:E; [done|]. intros _. split; [by eexists|].
  apply Forall_forall. intros name Hin. pose proof (find_none _ _ E name) as Hf. cbn in Hf.
  specialize (Hf (proj1 (list_elem_of_In _ _) Hin)). apply negb_false_iff in Hf. by apply bool_decide_eq_true in Hf.
Qed.


(** ** What is written is read

    A file is a JSON object with the values of some fields of a configuration, each
    in the form [encoding/json] gives it; a number with a fraction has no one form, so
    its text is a parameter. *)

Section written.
Context (literal : float64 -> gostring).

Definition field_json (c : Config) (f : field) : json :=
  match f with
  | FString get _ => JString (get c)
  | FBool get _ => JBool (get c)
  | FInt get _ => JNumber (print_int (get c))
  | FFloat get _ => JNumber (literal (get c))
  | FDuration get _ => JString (Duration_String (get c))
  | FStrings get _ _ _ => JArray (map JString (get c))
  end.

(** Taking one field over. *)
Definition copy (c : Config) (f : field) (c' : Config) : Config :=
  match f with
  | FString get put => put (get c) c'
  | FBool get put => put (get c) c'
  | FInt get put => put (get c) c'
  | FFloat get put => put (get c) c'
  | FDuration get put => put (get c) c'
  | FStrings get put _ _ => put (get c) c'
  end.

(** The value of a field can be written. *)
Definition field_ok (c : Config) (f : field) : Prop :=
  match f with
  | FString get _ => valid_utf8 (get c)
  | FBool _ _ => True
  | FInt get _ => - 2 ^ 63 <= get c < 2 ^ 63
  | FFloat get _ => number_ok (literal (get c)) /\ ParseFloat (literal (get c)) = Some (get c)
  | FDuration get _ => is_duration (get c)
  | FStrings get _ _ _ => Forall valid_utf8 (get c)
  end.

Definition document (c : Config) (selected : list (gostring * field)) : gostring :=
  print (JObject (map (fun nf => (nf.1, field_json c nf.2)) selected)).

Lemma Duration_String_utf8 d : valid_utf8 (Duration_String d).
Proof.
  assert (Hdec : forall n, 0 <= n -> valid_utf8 (decimal n)).
  { intros n Hn. apply valid_utf8_ascii. eapply Forall_impl; [by apply decimal_chars|]. cbn. lia. }
  assert (Hfrac : forall v k, 0 <= v -> valid_utf8 (fmtFrac v k).1 /\ 0 <= (fmtFrac v k).2).
  { intros v k Hv. destruct (fmtFrac_spec k v Hv) as (ft & -> & Hft). cbn [fst snd]. split; [|apply Z.div_pos; lia].
    destruct Hft as [[-> _]|(ds & -> & Hds & _)]; [apply valid_utf8_nil|]. apply valid_utf8_ascii.
    constructor; [unfold dot; lia|]. eapply Forall_impl; [exact Hds|]. cbn. lia. }
  pose proof valid_utf8_check as Hascii.
  assert (Hmu : valid_utf8 [194; 181]) by (apply (valid_utf8_rune 181); split; [lia|left; lia]).
  unfold Duration_String. set (u := u64 _). assert (Hu : 0 <= u) by (unfold u, u64; apply Z.mod_pos_bound; lia). clearbody u.
  apply valid_utf8_app; [destruct (d <? 0); [by apply Hascii|apply valid_utf8_nil]|].
  destruct (u <? 1000000000); [destruct (u =? 0); [by apply Hascii|]|].
  - unfold fmt_small. set (up := if u <? 1000 then _ else _).
    assert (Hup : valid_utf8 up.1) by (unfold up; destruct (u <? 1000); [by apply Hascii|destruct (u <? 1000000); [exact Hmu|by apply Hascii]]).
    destruct up as [unit prec]. destruct (Hfrac u prec Hu) as [H1 H2]. destruct (fmtFrac u prec) as [frac v].
    cbn [fst snd] in *. repeat apply valid_utf8_app; auto.
  - unfold fmt_large. destruct (Hfrac u 9%nat Hu) as [H1 H2]. destruct (fmtFrac u 9) as [frac v]. cbn [fst snd] in *.
    assert (0 <= v mod 60) by (apply Z.mod_pos_bound; lia). assert (0 <= v / 60 mod 60) by (apply Z.mod_pos_bound; lia).
    destruct (Z.leb_spec (v / 60) 0); [by repeat apply valid_utf8_app; auto|].
    destruct (Z.leb_spec (v / 60 / 60) 0); repeat apply valid_utf8_app; auto with lia.
Qed.

Lemma field_json_ok c f : field_ok c f -> json_ok 1 (field_json c f).
Proof.
  destruct f; cbn [field_ok field_json]; intros H; constructor; try done.
  - apply print_int_number.
  - by destruct H.
  - apply Duration_String_utf8.
  - apply Forall_fmap. eapply Forall_impl; [exact H|]. intros s Hs. by constructor.
Qed.

Lemma decode_elems_strings l : forall old, decode_elems old (map JString l) = Some l.
Proof. induction l as [|s l IH]; intros old; [done|]. cbn. by rewrite IH. Qed.

Lemma store_field_copy c f : field_ok c f -> forall c' sp, exists sp', store_field f (field_json c f) (c', sp) = Some (copy c f c', sp').
Proof.
  intros H c' sp. destruct f; cbn [store_field field_json copy field_ok] in *.
  - by eexists.
  - by eexists.
  - rewrite print_int_ParseInt64 by done. by eexists.
  - destruct H as [_ ->]. by eexists.
  - unfold duration_of. cbn [string_of mbind option_bind]. rewrite Duration_String_parse by done. by eexists.
  - rewrite decode_elems_strings. by eexists.
Qed.

(** Every field is found under its name. *)
Lemma find_field_names : Forall (fun nf => valid_utf8 nf.1 /\ find_field nf.1 = Some nf.2) fields.
Proof.
  assert (Hutf : forall s, forallb (fun c => (0 <=? c) && (c <? 128)) s = true -> valid_utf8 s).
  { intros s Hs. apply valid_utf8_ascii. apply Forall_forall. rewrite forallb_forall in Hs.
    intros c Hc. specialize (Hs c (proj1 (list_elem_of_In _ _) Hc)). lia. }
  repeat (apply Forall_cons; split; [split; [by apply Hutf|reflexivity]|]). constructor.
Qed.

Lemma decode_members_copy c selected : Forall (fun nf => nf ∈ fields /\ field_ok c nf.2) selected ->
  forall c' sp, exists sp', decode_members (map (fun nf => (nf.1, field_json c nf.2)) selected) (c', sp) =
    Some (fold_left (fun c' nf => copy c nf.2 c') selected c', sp').
Proof.
  induction 1 as [|[name f] selected [Hin Hok] _ IH]; intros c' sp; [by eexists|]. cbn [map decode_members fst snd].
  pose proof find_field_names as Hall. rewrite Forall_forall in Hall. destruct (Hall _ Hin) as [_ Hfind]. cbn [fst snd] in *.
  rewrite Hfind. destruct (store_field_copy c f Hok c' sp) as [sp' ->]. cbn [mbind option_bind fold_left]. apply IH.
Qed.

(** Only the fields written change, and what results is checked. *)
Lemma Load_selected c selected read_file path :
  path <> [] -> Forall (fun nf => nf ∈ fields /\ field_ok c nf.2) selected ->
  read_file path = Some (document c selected) ->
  Load read_file path =
    (let cfg := fold_left (fun c' nf => copy c nf.2 c') selected Default in _ ← Validate cfg; Ok cfg).
Proof.
  intros Hp Hsel Hread. unfold Load. rewrite bool_decide_false by done. rewrite Hread. unfold Unmarshal, document.
  rewrite Parse_print.
  - cbn [mbind option_bind]. destruct (decode_members_copy c selected Hsel Default ([], [])) as [sp' E].
    match goal with |- context [decode_members ?kvs ?st] => replace (decode_members kvs st) with
      (Some (fold_left (fun c' nf => copy c nf.2 c') selected Default, sp')) by (symmetry; exact E) end. done.
  - change maxNestingDepth with (S (Z.to_nat 9999)). constructor. apply Forall_fmap.
    eapply Forall_impl; [exact Hsel|]. intros [name f] [Hin Hok]. cbn [fst snd compose] in *.
    pose proof find_field_names as Hall. rewrite Forall_forall in Hall. split; [apply (Hall _ Hin)|].
    apply (json_ok_mono 1); [lia|]. by apply field_json_ok.
Qed.

(** With every field written, the configuration itself. *)
Lemma Load_full c read_file path :
  path <> [] -> Forall (fun nf => field_ok c nf.2) fields -> read_file path = Some (document c fields) ->
  Load read_file path = (_ ← Validate c; Ok c).
Proof.
  intros Hp Hok Hread. rewrite (Load_selected c fields read_file path Hp).
  - by destruct c.
  - apply Forall_forall. intros nf Hin. split; [done|]. rewrite Forall_forall in Hok. by apply Hok.
  - done.
Qed.

(** C22: A configuration file means what it says: an object that gives some of the
    fields of a configuration - in any order, also more than once - is read as
    these fields of it and the defaults for all others, and accepted exactly if the
    result passes the checks; one that gives all fields is read as that
    configuration. *)
Theorem Load_document c selected read_file path :
  path <> [] -> Forall (fun nf => nf ∈ fields /\ field_ok c nf.2) selected ->
  read_file path = Some (document c selected) ->
  Load read_file path =
    (let cfg := fold_left (fun c' nf => copy c nf.2 c') selected Default in _ ← Validate cfg; Ok cfg) /\
  (selected = fields -> Load read_file path = (_ ← Validate c; Ok c)).
Proof.
  intros Hp Hsel Hread. split; [by apply Load_selected|]. intros ->. apply Load_full; [done| |done].
  eapply Forall_impl; [exact Hsel|]. by intros nf [_ ?].
Qed.
End written.

(** A duration is read back from the JSON it is written as, every one of the 2^64:
    the text has the largest units that fit and up to nine decimal places, which
    are read through double precision without losing a nanosecond. *)
Theorem UnmarshalJSON_MarshalJSON d : is_duration d -> UnmarshalJSON (MarshalJSON d) = Some d.
Proof.
  intros Hd. unfold UnmarshalJSON, MarshalJSON. change (marshal_string (Duration_String d)) with (print (JString (Duration_String d))).
  rewrite Parse_print by (constructor; apply Duration_String_utf8). cbn. by apply Duration_String_parse.
Qed.

(** Only a configuration that passes the checks is loaded. *)
Lemma Load_valid read_file path c : Load read_file path = Ok c -> Validate c = Ok tt.
Proof.
  unfold Load. case_bool_decide; [intros [= <-]; apply Default_valid|]. destruct (read_file path) as [data|]; [|done].
  destruct (Unmarshal data Default) as [cfg|]; [|done]. destruct (Validate cfg) as [[]|] eqn:E; [|done]. by intros [= <-].
Qed.
