(* ===== verification/Chain.v ===== *)
(** The server as it is assembled ([buildHandler] of [cmd/server/main.go]): the
    resolver behind any list of the four middlewares, in any order and any number
    of times, serving any number of queries at once. *)

From stdpp Require Import strings.
From S2P Require Import Prelude Prog GoUnicode GoStrings GoText GoFloat GoTime GoNet DnsMsg Encoder Decoder WireSpec WireCalculus WireNames WireRoundTrip DecoderSafe DnssecRecords DnssecNames Verify Denial Privacy Interface Lru Cache CacheSpec Upstream UpstreamSpec TrustAnchor AnchorFile Validate ValidateSpec Resolve ResolveSpec Resolution Handler Acl RateLimit SingleFlight SingleFlightProg NetText Config.

Open Scope list_scope.
Open Scope Z_scope.

(** ** The handler that is built *)

(** A handler with the state it starts with and, inside that, the resolver's. *)
Record Built := MkBuilt {
  bs_State : Type; bs_init : bs_State; bs_world : bs_State -> world; bs_Handler : Handler bs_State }.

Section build.
Context `{Crypto} `{Env} (visit : list (Addr * bucket) -> list (Addr * bucket)).

(** Whether the context of a waiting query has ended, and what its [select] takes if
    its leader is done as well. *)
Definition wended (n : nat) (w : world) : bool := waiter_ended n (w_tick w).
Definition wpicks (n : nat) (w : world) : bool := select_done n (w_tick w).

Definition layer (cfg : Config) (allowed : list Prefix) (name : gostring) (b : Built) : result config_error Built :=
  if bool_decide (name = str "acl"%string) then
    Ok (MkBuilt (bs_State b) (bs_init b) (bs_world b) (Acl.Wrap (bs_Handler b) allowed))
  else if bool_decide (name = str "ratelimit"%string) then
    Ok (MkBuilt (limiter * bs_State b) (newLimiter (c_RateLimit cfg) (c_Burst cfg), bs_init b) (fun s => bs_world b s.2)
      (RateLimit.Wrap visit (fun s => wclock (bs_world b s)) (bs_Handler b)))
  else if bool_decide (name = str "cache"%string) then
    Ok (MkBuilt (store * bs_State b)
      (newStore (Cache.MkConfig (c_CacheEntries cfg) (c_CacheMinTTL cfg) (c_CacheMaxTTL cfg)), bs_init b)
      (fun s => bs_world b s.2) (Cache.ServeDNS (fun s => wclock (bs_world b s)) (bs_Handler b)))
  else if bool_decide (name = str "singleflight"%string) then
    Ok (MkBuilt (group * bs_State b) (no_group, bs_init b) (fun s => bs_world b s.2)
      (SingleFlightProg.ServeDNS (fun n s => wended n (bs_world b s)) (fun n s => wpicks n (bs_world b s)) (bs_Handler b)))
  else Err (EMiddleware name).

(** The loop over the list, which is applied in reverse. *)
Fixpoint build_layers (cfg : Config) (allowed : list Prefix) (names : list gostring) (b : Built) : result config_error Built :=
  match names with
  | [] => Ok b
  | name :: names => inner ← build_layers cfg allowed names b; layer cfg allowed name inner
  end.

Definition configured_resolver (cfg : Config) (anchors : option (list DS)) : Resolver :=
  NewWithOptions (MkOptions (c_UpstreamTimeout cfg) (negb (c_DNSSEC cfg)) (negb (c_QNAMEMinimization cfg)) (c_Use0x20 cfg) anchors).

(** The trust anchors the configuration names, [None] for the built-in ones. *)
Definition configured_anchors (read_file : gostring -> option (list Z)) (cfg : Config) : result config_error (option (list DS)) :=
  if bool_decide (c_TrustAnchor cfg = []) then Ok None
  else match LoadTrustAnchors read_file (c_TrustAnchor cfg) with
       | Ok anchors => Ok (Some anchors)
       | Err _ => Err ETrustAnchor
       end.

Definition buildHandler (read_file : gostring -> option (list Z)) (cfg : Config) : result config_error Built :=
  allowed ← AllowedPrefixes cfg;
  anchors ← configured_anchors read_file cfg;
  build_layers cfg allowed (c_Middleware cfg)
    (MkBuilt world new_world id (Handler.ServeDNS (configured_resolver cfg anchors))).
End build.

(** ** What a reply of the chain may be *)

Section chain.
Context `{Crypto} `{Env} (r : Resolver).

(** The replies of the resolver, refusals, and what a cache makes of one - the same
    with its TTLs capped, or an answer to another query with which it shares the
    key of the entry - or a shared flight: a copy for a query with the same key. *)
Inductive vouched : Message -> Message -> Prop :=
  | vouched_resolver req msg : sound_reply r req msg -> vouched req msg
  | vouched_refusal req : proper_query req -> vouched req (refusal_message req)
  | vouched_capped max req msg : 0 <= max -> vouched req msg -> vouched req (cap_message max msg)
  | vouched_shared k req req0 msg :
      collapses req0 = Some k -> collapses req = Some k -> vouched req0 msg -> vouched req (share msg req)
  | vouched_cached req req0 q q0 msg0 qt ttl left :
      m_Questions req = [q] -> h_CD (m_Header req) = false ->
      m_Questions req0 = [q0] -> h_CD (m_Header req0) = false -> vouched req0 msg0 ->
      put_ttl (q_Type q0) (h_RCode (m_Header msg0)) (m_Answers msg0) (m_Authorities msg0) = Some (qt, ttl) ->
      answers_for (normalizeKey (q_Name q0) qt) (q_Name q) (q_Type q) -> is_u32 left ->
      vouched req (cached_response req (MkHit (h_RCode (m_Header msg0)) (withTTL (m_Answers msg0) left)
        (withTTL (m_Authorities msg0) left) (h_AD (m_Header msg0)))).

(** An entry of the cache holds such a reply. *)
Definition from_reply (k : cache_key) (e : entry) : Prop :=
  exists req0 q0 msg0 qt ttl, m_Questions req0 = [q0] /\ h_CD (m_Header req0) = false /\ vouched req0 msg0 /\
    put_ttl (q_Type q0) (h_RCode (m_Header msg0)) (m_Answers msg0) (m_Authorities msg0) = Some (qt, ttl) /\
    k = normalizeKey (q_Name q0) qt /\
    en_rcode e = h_RCode (m_Header msg0) /\ en_answers e = m_Answers msg0 /\
    en_authorities e = m_Authorities msg0 /\ en_authentic e = h_AD (m_Header msg0).

Definition cache_ok (c : store) : Prop :=
  (exists clock, store_ok clock c) /\ forall k e, (k, e) ∈ recency (s_lru c) -> from_reply k e.

Lemma lookup_cache_ok c now name qtype : cache_ok c -> cache_ok (lookup c now name qtype).1.
Proof.
  intros [[t Hok] Hfrom]. split; [exists t; by apply lookup_ok|]. intros k e Hin.
  pose proof (lookup_bindings t c now name qtype Hok) as Hs. destruct (lookup c now name qtype).2.
  - destruct Hs as (k' & e' & Hin' & _ & _ & _ & E). rewrite E in Hin.
    apply elem_of_cons in Hin as [[= -> ->]|[_ Hin]%list_elem_of_filter]; by apply Hfrom.
  - destruct Hs as [E|(k' & e' & _ & _ & _ & E)]; rewrite E in Hin; [by apply Hfrom|].
    apply list_elem_of_filter in Hin as [_ Hin]. by apply Hfrom.
Qed.

Lemma lookup_vouched c now req q h :
  cache_ok c -> m_Questions req = [q] -> h_CD (m_Header req) = false ->
  (lookup c now (q_Name q) (q_Type q)).2 = Some h -> vouched req (cached_response req h).
Proof.
  intros [[t Hok] Hfrom] Hq Hcd E. pose proof (lookup_bindings t c now (q_Name q) (q_Type q) Hok) as Hs.
  rewrite E in Hs. destruct Hs as (k & e & Hin & Hfor & _ & -> & _).
  destruct (Hfrom k e Hin) as (req0 & q0 & msg0 & qt & ttl & Hq0 & Hcd0 & Hv & Hput & -> & E1 & E2 & E3 & E4).
  unfold hit_of. rewrite E1, E2, E3, E4. eapply vouched_cached; try done. apply served_ttl_u32.
Qed.

Lemma put_cache_ok c now req q msg :
  cache_ok c -> m_Questions req = [q] -> h_CD (m_Header req) = false -> vouched req msg ->
  cache_ok (put c now (q_Name q) (q_Type q) (h_RCode (m_Header msg)) (m_Answers msg) (m_Authorities msg) (h_AD (m_Header msg))).
Proof.
  intros [[t Hok] Hfrom] Hq Hcd Hv. split; [eexists; by apply put_max_ok|]. intros k e Hin.
  apply put_recency in Hin as [Hin|(qt & ttl & Hput & -> & ->)]; [by apply Hfrom| |apply Hok].
  exists req, q, msg, qt, ttl. by split_and!.
Qed.

(** ** Every layer keeps the promise *)

(** What the limiter lets through is what the handler behind does. *)
#[local] Instance ratelimit_serves {S} W visit clock (next : Handler S) P G good :
  Serves W next P G good ->
  Serves W (RateLimit.Wrap visit clock next) (fun hs : limiter * S => True /\ P hs.2) (fun hs hs' : limiter * S => anything hs.1 hs'.1 /\ G hs.2 hs'.2) good.
Proof.
  intros [HG Hnext]. split; [by apply pair_preorder; [apply _|]|]. intros addr req hs Hp. unfold RateLimit.Wrap.
  assert (Hzoom : forall hs, obeys W (fun hs : limiter * S => True /\ P hs.2) (fun hs hs' : limiter * S => anything hs.1 hs'.1 /\ G hs.2 hs'.2)
    hs (zoom_snd (next addr req)) (fun _ => answered good req)).
  { intros hs0. apply (obeys_zoom_snd W (fun _ => True) P (@anything limiter) G (next addr req)
      (fun _ => answered good req)); [done|by apply Hnext]. }
  destruct (addrIP addr) as [ip|]; [|apply Hzoom].
  eapply (obeys_bind W _ _ _ _ (fun _ _ => True)).
  - apply obeys_atomic. intros [h s] [_ Hs] _. unfold try_allow. cbn [fst snd] in *. by destruct (allow _ _ _ _).
  - intros hs1 [] _; [apply Hzoom|]. split; [simpl; lia|constructor].
Qed.

#[local] Instance cache_serves {S} W (clock : S -> Z) (next : Handler S) P G :
  Serves W next P G vouched ->
  Serves W (Cache.ServeDNS clock next) (fun cs : store * S => cache_ok cs.1 /\ P cs.2) (fun cs cs' : store * S => anything cs.1 cs'.1 /\ G cs.2 cs'.2) vouched.
Proof.
  intros [HG Hnext]. split; [by apply pair_preorder; [apply _|]|]. intros addr req cs Hp. unfold Cache.ServeDNS.
  assert (Hzoom : forall cs, obeys W (fun cs : store * S => cache_ok cs.1 /\ P cs.2) (fun cs cs' : store * S => anything cs.1 cs'.1 /\ G cs.2 cs'.2)
    cs (zoom_snd (next addr req)) (fun _ => answered vouched req)).
  { intros cs0. apply (obeys_zoom_snd W (fun cs : store * S => cache_ok cs.1) P (@anything store) G (next addr req)
      (fun _ => answered vouched req));
      [by intros c s s'|by apply Hnext]. }
  destruct (m_Questions req) as [|q [|]] eqn:Hq; [apply Hzoom| |apply Hzoom].
  destruct (h_CD (m_Header req)) eqn:Hcd; [apply Hzoom|].
  eapply (obeys_bind W _ _ _ _ (fun _ x => 0 <= x.2 /\ forall h, x.1 = Some h -> vouched req (cached_response req h))).
  - apply obeys_atomic. intros [c s] [Hc Hs] _. unfold consult. cbn [fst snd] in *.
    pose proof (lookup_cache_ok c (clock s) (q_Name q) (q_Type q) Hc) as Hc1.
    pose proof (fun h => lookup_vouched c (clock s) req q h Hc Hq Hcd) as Hh.
    destruct (lookup c (clock s) (q_Name q) (q_Type q)) as [c1 x]. cbn [fst snd] in *. split_and!; try done.
    destruct Hc1 as [[t [_ _ _ [Hmax _] _]] _]. apply Hmax.
  - intros cs1 [[h|] max] [Hmax Hh]; cbn [fst snd] in *; [apply obeys_reply; [by split_and!|by apply Hh]|].
    eapply obeys_bind; [apply Hzoom|]. intros cs2 out [Hlen Hout].
    destruct (last out) as [msg|] eqn:El; [|by split; [simpl; lia|]].
    eapply (obeys_bind W _ _ _ _ (fun _ _ => True)).
    + apply obeys_atomic. intros [c s] [Hc Hs] _. cbn [record fst snd] in *. split_and!; [|done..].
      apply (put_cache_ok c (clock s) req); [done..|]. rewrite Forall_forall in Hout. by apply Hout, last_Some_elem_of.
    + intros cs3 _ _. split; [by rewrite length_map|]. apply Forall_fmap. eapply Forall_impl; [exact Hout|].
      intros m [Hr Hv]. split; [exact Hr|by constructor].
Qed.

(** What is made of a record that can be written can be written. *)
Lemma decoded_set_TTL ttl rr : is_u32 ttl -> decoded_rr rr -> decoded_rr (set_TTL ttl rr).
Proof. by intros Ht (? & ? & ? & _ & ? & ?). Qed.

Lemma decoded_withTTL rrs ttl : is_u32 ttl -> Forall decoded_rr rrs -> Forall decoded_rr (withTTL rrs ttl).
Proof.
  intros Ht Hd. unfold withTTL. rewrite CloneRRs_id. apply Forall_map. eapply Forall_impl; [exact Hd|].
  intros rr Hrr. by apply decoded_set_TTL.
Qed.

Lemma decoded_capTTLs max rrs : 0 <= max -> Forall decoded_rr rrs -> Forall decoded_rr (capTTLs max rrs).
Proof.
  intros Hm Hd. unfold capTTLs. destruct (existsb _ _); [|done]. rewrite CloneRRs_id. apply Forall_map.
  eapply Forall_impl; [exact Hd|]. intros rr Hrr. apply decoded_set_TTL; [|done].
  destruct Hrr as (_ & _ & _ & Ht & _). unfold is_u32 in *. lia.
Qed.

Lemma vouched_formed req msg : vouched req msg -> formed msg.
Proof.
  induction 1 as [req msg [_ Hf]|req [Hop _]|max req msg Hm _ (? & ? & ? & ?)|k req req0 msg _ _ _ (? & ? & ? & ?)
    |req req0 q q0 msg0 qt ttl left _ _ _ _ _ (? & ? & ? & ?) _ _ Hleft].
  - done.
  - split; [done|]. split; [by vm_compute|]. by split; constructor.
  - split; [done|]. split; [done|]. by split; apply decoded_capTTLs.
  - unfold formed, share. cbn [m_Header m_Answers m_Authorities h_Opcode h_RCode]. rewrite !CloneRRs_id. auto.
  - split; [by vm_compute|]. split; [done|]. by split; apply decoded_withTTL.
Qed.
End chain.

(** ** What reaches a client *)

(** A name and the names below it, as the cache sees them. *)
Definition at_or_above (above name : gostring) : Prop :=
  ToLower (trim_dot name) = ToLower (trim_dot above) \/
  exists pre, ToLower (trim_dot name) = pre ++ dot :: ToLower (trim_dot above).

(** The question whose answer is given: the same up to case and the root dot - or one
    of type 0, whose answer the cache takes for one about every type (see the
    findings). *)
Definition reused (q0 q : Question) : Prop :=
  (ToLower (trim_dot (q_Name q)) = ToLower (trim_dot (q_Name q0)) /\ q_Type q0 = q_Type q) \/
  (q_Type q0 = anyType /\ at_or_above (q_Name q0) (q_Name q)).

(** The same records, at other TTLs. *)
Definition same_data : list RR -> list RR -> Prop := Forall2 (fun a b => set_TTL 0 a = set_TTL 0 b).

#[local] Instance same_data_equiv : Equivalence same_data.
Proof.
  unfold same_data. split.
  - intros l. by induction l; constructor.
  - intros l l' E. induction E; by constructor.
  - intros l1 l2 l3 E. revert l3. induction E; intros l3 E3; inversion E3; subst; constructor; [congruence|auto].
Qed.

Lemma at_or_above_trans a b c : at_or_above a b -> at_or_above b c -> at_or_above a c.
Proof.
  unfold at_or_above. intros [E1|[p1 E1]] [E2|[p2 E2]].
  - left. congruence.
  - right. exists p2. by rewrite E2, E1.
  - right. exists p1. by rewrite E2, E1.
  - right. exists (p2 ++ dot :: p1). by rewrite E2, E1, <-app_assoc.
Qed.

Lemma reused_trans q1 q2 q3 : reused q1 q2 -> reused q2 q3 -> reused q1 q3.
Proof.
  unfold reused. intros [[E1 T1]|[T1 E1]] [[E2 T2]|[T2 E2]].
  - left. split; congruence.
  - right. split; [congruence|]. eapply at_or_above_trans; [by left|done].
  - right. split; [done|]. eapply at_or_above_trans; [done|by left].
  - right. split; [done|]. by eapply at_or_above_trans.
Qed.

Lemma same_data_map f rrs : (forall rr, set_TTL 0 (f rr) = set_TTL 0 rr) -> same_data rrs (map f rrs).
Proof. intros Hf. unfold same_data. induction rrs; constructor; [by rewrite Hf|done]. Qed.

Lemma same_data_withTTL rrs ttl : same_data rrs (withTTL rrs ttl).
Proof. unfold withTTL. rewrite CloneRRs_id. by apply same_data_map. Qed.

Lemma same_data_capTTLs max rrs : same_data rrs (capTTLs max rrs).
Proof. unfold capTTLs. destruct (existsb _ _); [|done]. rewrite CloneRRs_id. by apply same_data_map. Qed.

(** The type an answer is stored under. *)
Lemma put_ttl_type qtype rcode answers authorities qt ttl :
  put_ttl qtype rcode answers authorities = Some (qt, ttl) ->
  (rcode = RCodeNameError -> qt = anyType) /\ (rcode <> RCodeNameError -> qt = qtype).
Proof.
  unfold put_ttl. destruct (Z.eqb_spec rcode RCodeNameError); [intros [= <- _]; by split|].
  destruct (rcode =? RCodeSuccess); [destruct answers; intros [= <- _]; by split|].
  destruct (rcode =? RCodeServerFailure); [|done]. intros [= <- _]. by split.
Qed.

Lemma answers_for_reused q0 q : answers_for (normalizeKey (q_Name q0) (q_Type q0)) (q_Name q) (q_Type q) -> reused q0 q.
Proof.
  unfold normalizeKey. intros [[= En Et]|(anc & [= En Et] & Ha)]; [by left|]. right. split; [done|].
  unfold at_or_above. rewrite En. by destruct Ha as [->|?]; [left|right].
Qed.

Lemma answers_for_above name qt q : answers_for (normalizeKey name qt) (q_Name q) (q_Type q) -> at_or_above name (q_Name q).
Proof.
  unfold normalizeKey, at_or_above. intros [[= En _]|(anc & [= En _] & Ha)]; [by left|].
  rewrite En. by destruct Ha as [->|?]; [left|right].
Qed.

(** Queries that share a flight ask the same. *)
Lemma collapses_reused k req0 req q : collapses req0 = Some k -> collapses req = Some k -> m_Questions req = [q] ->
  exists q0, m_Questions req0 = [q0] /\ h_CD (m_Header req0) = false /\ h_CD (m_Header req) = false /\ reused q0 q.
Proof.
  unfold collapses. intros H0 H1 Hq. rewrite Hq in H1. destruct (m_Questions req0) as [|q0 [|]]; [done| |done].
  destruct (h_CD (m_Header req0)); [done|]. destruct (h_CD (m_Header req)); [done|]. exists q0. split_and!; [done..|].
  left. split; congruence.
Qed.

Section server.
Context `{Crypto} `{Env} (r : Resolver).

(** What may be said to a client that asked one question. *)
Definition delivered (req msg : Message) : Prop :=
  forall q, m_Questions req = [q] ->
  (h_AD (m_Header msg) = true -> h_CD (m_Header req) = false /\ r_validate r = true /\
    h_RCode (m_Header msg) = RCodeSuccess /\ exists q0 answers, reused q0 q /\
      verified_answer r (q_Name q0) (q_Type q0) answers /\ same_data answers (m_Answers msg)) /\
  (r_validate r = true -> h_CD (m_Header req) = false ->
    (h_RCode (m_Header msg) = RCodeSuccess -> h_AD (m_Header msg) = false -> exists q0 answers, reused q0 q /\
      excused_answer r (q_Name q0) (q_Type q0) answers /\ same_data answers (m_Answers msg)) /\
    (h_RCode (m_Header msg) = RCodeNameError -> exists q0, at_or_above (q_Name q0) (q_Name q) /\
      missing_name r (q_Name q0) (q_Type q0))).

Lemma vouched_delivered req msg : vouched r req msg -> delivered req msg.
Proof.
  induction 1 as [req msg [Hv _]|req _|max req msg _ _ IH|k req req0 msg Hk0 Hk _ IH|req req0 q q0 msg0 qt ttl left Hq Hcd Hq0 Hcd0 _ IH Hput Hfor _];
    intros q' Hq'.
  - assert (Hr : reused q' q') by by left. destruct (Hv q' Hq') as [Hsec Hrest]. split.
    + intros Had. destruct (Hsec Had) as (? & ? & ? & ?). split_and!; [done..|]. by exists q', (m_Answers msg).
    + intros Hval Hc. destruct (Hrest Hval Hc) as [Hex Hnx]. split.
      * intros Hrc Had. exists q', (m_Answers msg). split_and!; [done|by apply Hex|done].
      * intros Hrc. exists q'. split; [by left|by apply Hnx].
  - split; [done|]. intros _ _. split; done.
  - destruct (IH q' Hq') as [Hsec Hrest]. cbn [cap_message m_Header m_Answers].
    pose proof (same_data_capTTLs max (m_Answers msg)) as Hsd. split.
    + intros Had. destruct (Hsec Had) as (? & ? & ? & q0 & answers & ? & ? & ?). split_and!; [done..|].
      exists q0, answers. split_and!; [done..|by etrans].
    + intros Hval Hc. destruct (Hrest Hval Hc) as [Hex Hnx]. split; [|done].
      intros Hrc Had. destruct (Hex Hrc Had) as (q0 & answers & ? & ? & ?). exists q0, answers. split_and!; [done..|by etrans].
  - destruct (collapses_reused k req0 req q' Hk0 Hk Hq') as (q0 & Hq0 & Hcd0 & Hcd & Hr).
    destruct (IH q0 Hq0) as [Hsec Hrest]. cbn [share m_Header m_Answers h_AD h_RCode]. rewrite CloneRRs_id. split.
    + intros Had. destruct (Hsec Had) as (? & ? & ? & q1 & answers & ? & ? & ?). split_and!; [done..|].
      exists q1, answers. split_and!; [by eapply reused_trans|done..].
    + intros Hval _. destruct (Hrest Hval Hcd0) as [Hex Hmiss]. split.
      * intros Hrc Had. destruct (Hex Hrc Had) as (q1 & answers & ? & ? & ?). exists q1, answers.
        split_and!; [by eapply reused_trans|done..].
      * intros Hrc. destruct (Hmiss Hrc) as (q1 & ? & ?). exists q1. split; [|done].
        eapply at_or_above_trans; [done|]. by destruct Hr as [[? _]|[_ ?]]; [left|].
  - rewrite Hq in Hq'. injection Hq' as <-. destruct (IH q0 Hq0) as [Hsec Hrest].
    apply put_ttl_type in Hput as [Hnx Hother]. cbn [cached_response m_Header m_Answers h_AD h_RCode hit_rcode hit_answers hit_authentic].
    pose proof (same_data_withTTL (m_Answers msg0) left) as Hsd.
    assert (Hsame : h_RCode (m_Header msg0) = RCodeSuccess -> reused q0 q).
    { intros E. rewrite Hother in Hfor by (rewrite E; done). by apply answers_for_reused. }
    split.
    + intros Had. destruct (Hsec Had) as (? & ? & ? & q1 & answers & ? & ? & ?). split_and!; [done..|].
      exists q1, answers. split_and!; [eapply reused_trans; [done|by apply Hsame]|done|by etrans].
    + intros Hval _. destruct (Hrest Hval Hcd0) as [Hex Hmiss]. split.
      * intros Hrc Had. destruct (Hex Hrc Had) as (q1 & answers & ? & ? & ?). exists q1, answers.
        split_and!; [eapply reused_trans; [done|by apply Hsame]|done|by etrans].
      * intros Hrc. destruct (Hmiss Hrc) as (q1 & ? & ?). exists q1. split; [|done].
        eapply at_or_above_trans; [done|by eapply answers_for_above].
Qed.

Context (visit : list (Addr * bucket) -> list (Addr * bucket)).

Lemma newStore_cache_ok cfg : cache_ok r (newStore cfg).
Proof.
  split; [exists 0; apply newStore_ok|]. intros k e Hin. by apply elem_of_nil in Hin.
Qed.

(** A handler that was built and keeps the promise, whatever its state is. *)
Definition keeps_promise (b : Built) : Prop := exists P G,
  Serves True (bs_Handler b) P G (vouched r) /\ P (bs_init b) /\ forall s, P s -> world_ok r (bs_world b s).

Lemma layer_serves cfg allowed name b b' :
  layer visit cfg allowed name b = Ok b' -> keeps_promise b -> keeps_promise b'.
Proof.
  unfold layer. intros E (P & G & Hs & Hi & Hw).
  case_bool_decide; [injection E as <-; exists P, G; split_and!; [|done..]; apply Wrap_serves; [done|by constructor]|].
  case_bool_decide.
  { injection E as <-. exists (fun hs : limiter * bs_State b => True /\ P hs.2),
      (fun hs hs' : limiter * bs_State b => anything hs.1 hs'.1 /\ G hs.2 hs'.2).
    split_and!; [by apply ratelimit_serves|done|done|by intros [? s] [_ ?]; apply Hw]. }
  case_bool_decide.
  { injection E as <-. exists (fun cs : store * bs_State b => cache_ok r cs.1 /\ P cs.2),
      (fun cs cs' : store * bs_State b => anything cs.1 cs'.1 /\ G cs.2 cs'.2).
    split_and!; [by apply cache_serves|apply newStore_cache_ok|done|by intros [? s] [_ ?]; apply Hw]. }
  case_bool_decide; [|done]. injection E as <-.
  exists (fun gs : group * bs_State b => group_ok (vouched r) gs.1 /\ P gs.2),
    (fun gs gs' : group * bs_State b => group_grows gs.1 gs'.1 /\ G gs.2 gs'.2).
  split_and!; [|apply no_group_ok|done|by intros [? s] [_ ?]; apply Hw].
  eapply SingleFlightProg.ServeDNS_serves; [|done]. intros k req req' msg Hk Hk' [_ Hv]. by apply (vouched_shared r k req' req msg).
Qed.

Lemma build_layers_serves cfg allowed names : forall b b',
  build_layers visit cfg allowed names b = Ok b' -> keeps_promise b -> keeps_promise b'.
Proof.
  induction names as [|name names IH]; intros b b' E Hs; cbn [build_layers] in E; [by injection E as <-|].
  destruct (build_layers visit cfg allowed names b) as [inner|] eqn:Ei; [|done]. cbn [mbind result_bind] in E.
  eapply layer_serves; [done|]. by eapply IH.
Qed.

(** Whatever a configuration lists, what is built from it keeps the promise. *)
Lemma built_keeps_promise read_file cfg anchors b :
  env_ok -> r = configured_resolver cfg anchors -> configured_anchors read_file cfg = Ok anchors ->
  buildHandler visit read_file cfg = Ok b -> keeps_promise b.
Proof.
  intros Henv Hr Ha Hb. unfold buildHandler in Hb. rewrite Ha in Hb.
  destruct (AllowedPrefixes cfg) as [allowed|]; [|done]. cbn [mbind result_bind] in Hb. rewrite <-Hr in Hb.
  eapply build_layers_serves; [exact Hb|]. exists (world_ok r), anything. split_and!; [|apply new_world_ok|done].
  apply (Serves_impl True _ _ _ (sound_reply r)); [|by constructor].
  apply (Serves_wait False); [done|by apply Handler.ServeDNS_serves].
Qed.
End server.

(** A query as the server starts a goroutine for it. *)
Definition query_from : Type := net_Addr * Message.

Definition serving (b : Built) (x : query_from) : prog (bs_State b) (list Message) := bs_Handler b x.1 x.2.

(** Whatever queries a server that was built serves at once, the state of its resolver
    stays sound, and every reply is vouched for by the anchors that were configured. *)
Lemma built_pool `{Crypto} `{Env} visit read_file cfg anchors b s goroutines :
  env_ok -> buildHandler visit read_file cfg = Ok b -> configured_anchors read_file cfg = Ok anchors ->
  pool_reach (serving b) (fun x => proper_query x.2) (bs_init b) s goroutines ->
  world_ok (configured_resolver cfg anchors) (bs_world b s) /\
  forall i addr req out, goroutines !! i = Some ((addr, req), Ret out) ->
    answered (vouched (configured_resolver cfg anchors)) req out.
Proof.
  intros Henv Hb Ha Hpool. set (r := configured_resolver cfg anchors) in *.
  destruct (built_keeps_promise r visit read_file cfg anchors b Henv eq_refl Ha Hb) as (P & G & [HG Hs] & Hi & Hw).
  destruct (pool_obeys True P G (serving b) (fun x => proper_query x.2) (bs_init b)
    (fun x _ => answered (vouched r) x.2)
    Hi (fun _ _ _ _ _ h => h) (fun x s Hp _ => Hs x.1 x.2 s Hp) s goroutines Hpool) as (HP & _ & Hall).
  split; [by apply Hw|]. intros i addr req out Hg. exact (Forall_lookup_1 _ _ _ _ Hall Hg).
Qed.


(** A configuration that passes the checks can be built: the only thing that can
    still go wrong is the file of trust anchors, and then there is no server rather
    than one that trusts the built-in anchors.  What is built puts the layers in
    the order they are listed: with access control first, a client outside the
    allow list is refused without reaching a limiter, a cache or the network. *)
Lemma Validate_buildHandler `{Crypto} `{Env} visit read_file cfg :
  Validate cfg = Ok tt ->
  match configured_anchors read_file cfg with
  | Err _ => buildHandler visit read_file cfg = Err ETrustAnchor
  | Ok anchors => exists b, buildHandler visit read_file cfg = Ok b /\
      forall allowed rest, AllowedPrefixes cfg = Ok allowed -> c_Middleware cfg = str "acl"%string :: rest ->
        forall addr req, permits allowed addr = false -> bs_Handler b addr req = Ret [refusal_message req]
  end.
Proof.
  intros [[allowed Ha] Hm]%Validate_middleware. unfold buildHandler. rewrite Ha. cbn [mbind result_bind].
  destruct (configured_anchors read_file cfg) as [anchors|e] eqn:Ea; cbn [mbind result_bind].
  2: { unfold configured_anchors in Ea. case_bool_decide; [done|]. destruct (LoadTrustAnchors _ _); [done|]. by injection Ea as <-. }
  set (b0 := MkBuilt _ _ _ _). clearbody b0.
  assert (Hlayer : forall name b, name ∈ known_middleware -> exists b', layer visit cfg allowed name b = Ok b').
  { intros name b Hin. unfold layer. repeat (case_bool_decide; [by eexists|]).
    exfalso. unfold known_middleware in Hin. set_solver. }
  assert (Hall : forall names, Forall (fun name => name ∈ known_middleware) names ->
    exists b, build_layers visit cfg allowed names b0 = Ok b).
  { induction 1 as [|name names Hin _ [b IH]]; [by eexists|]. cbn [build_layers]. rewrite IH. by apply Hlayer. }
  destruct (Hall _ Hm) as [b Hb]. exists b. split; [done|]. intros allowed' rest [= <-] El addr req Hd.
  rewrite El in Hb. cbn [build_layers] in Hb. destruct (build_layers visit cfg allowed rest b0) as [inner|]; [|done].
  cbn [mbind result_bind] in Hb. unfold layer in Hb. rewrite bool_decide_true in Hb by done. injection Hb as <-.
  cbn [bs_Handler]. unfold Acl.Wrap. by rewrite Hd.
Qed.
