(* ===== verification/Network.v ===== *)
(** The whole server from bytes to bytes: what arrives at its sockets runs through the
    listeners and the chain of handlers, and what leaves is what a client reads. *)

From S2P Require Import Prelude Prog GoUnicode GoStrings GoText GoFloat GoTime GoNet DnsMsg Encoder Decoder WireSpec WireCalculus WireNames WireRoundTrip DecoderSafe DnssecRecords DnssecNames Verify Denial Privacy Interface Upstream UpstreamSpec TrustAnchor AnchorFile Validate ValidateSpec Resolve ResolveSpec Resolution Handler Acl RateLimit SingleFlight SingleFlightProg DnsServer NetText Config Chain.

Open Scope list_scope.
Open Scope Z_scope.

(** ** What a client reads *)

(** The messages of a client on a connection, up to the first bytes that are none. *)
Fixpoint decoded_prefix (packets : list (list Z)) : list Message :=
  match packets with
  | [] => []
  | packet :: packets => match Unpack packet with Ok req => req :: decoded_prefix packets | Err _ => [] end
  end.

Definition requests_in (stream : list Z) : list Message := decoded_prefix (unframe (Datatypes.S (length stream)) stream).

(** Names that survive the compression, and sections whose length fits the header. *)
Definition plain (msg : Message) : Prop :=
  ascii_message msg /\ Z.of_nat (length (m_Answers msg)) < 65536 /\ Z.of_nat (length (m_Authorities msg)) < 65536.

(** What a client gets of a message: all of it, up to the case of names, or, marked as
    truncated, all but the records. *)
Definition conveyed (msg m : Message) : Prop :=
  h_ID (m_Header m) = h_ID (m_Header msg) /\ h_QR (m_Header m) = h_QR (m_Header msg) /\
  h_RCode (m_Header m) = h_RCode (m_Header msg) /\ h_AD (m_Header m) = h_AD (m_Header msg) /\
  h_CD (m_Header m) = h_CD (m_Header msg) /\ Forall2 question_sim (m_Questions msg) (m_Questions m) /\
  (h_TC (m_Header m) = h_TC (m_Header msg) /\
     Forall2 rr_sim (m_Answers msg) (m_Answers m) /\ Forall2 rr_sim (m_Authorities msg) (m_Authorities m) \/
   h_TC (m_Header m) = true /\ m_Answers m = [] /\ m_Authorities m = []).

Lemma message_sim_conveyed edns0 size msg m : message_sim (outgoing edns0 size msg) m -> conveyed msg m.
Proof.
  intros (Hh & Hq & Ha & Hn & _). unfold conveyed. rewrite Hh.
  assert (E : m_Header (outgoing edns0 size msg) = m_Header msg /\ m_Questions (outgoing edns0 size msg) = m_Questions msg /\
    m_Answers (outgoing edns0 size msg) = m_Answers msg /\ m_Authorities (outgoing edns0 size msg) = m_Authorities msg)
    by by destruct edns0.
  destruct E as (E1 & E2 & E3 & E4). rewrite E2 in Hq. rewrite E3 in Ha. rewrite E4 in Hn. unfold counted_header. rewrite E1.
  split_and!; try done. by left.
Qed.

Lemma truncated_sim_conveyed edns0 size msg m : message_sim (truncated (outgoing edns0 size msg)) m -> conveyed msg m.
Proof.
  intros (Hh & Hq & Ha & Hn & _). unfold conveyed. rewrite Hh.
  assert (E : m_Header (outgoing edns0 size msg) = m_Header msg /\ m_Questions (outgoing edns0 size msg) = m_Questions msg)
    by by destruct edns0.
  destruct E as [E1 E2]. unfold counted_header. cbn [truncated m_Header m_Questions m_Answers m_Authorities] in *.
  rewrite E1. rewrite E2 in Hq. inversion Ha. inversion Hn. split_and!; try done. by right.
Qed.

(** A reply to what was decoded can be written. *)
Lemma reply_message_ok req msg :
  decoded_message req -> replies req msg -> formed msg -> plain msg -> message_ok msg.
Proof.
  intros ((Hh & Hq & _) & Dq & _) (Hid & _ & _ & Eq & Ear) (Hop & Hrc & Ha & Hn) ((Aq & Aa & An & _) & La & Ln).
  assert (Hrrs : forall rrs, Z.of_nat (length rrs) < 65536 -> Forall decoded_rr rrs -> Forall ascii_rr rrs -> section_ok rr_ok rrs).
  { intros rrs Hl Hd Has. split; [done|]. rewrite Forall_forall in Hd. rewrite Forall_forall in Has.
    apply Forall_forall. intros rr Hrr. by apply decoded_rr_ok; [apply Hd|apply Has]. }
  split; [split; [rewrite Hid; apply Hh|by split]|]. rewrite Ear, Eq. split.
  { rewrite Eq in Aq. eapply decoded_section_ok; [exact Hq|exact Dq|exact Aq|]. intros q (? & ? & ?) ?.
    split_and!; try done. by apply decoded_name_ok. }
  split; [by apply Hrrs|]. split; [by apply Hrrs|]. split; [simpl; lia|constructor].
Qed.

(** ** Bytes for bytes *)

Section bytes.
Context {S : Type} (W : Prop) (h : Handler S) (P : S -> Prop) (G : S -> S -> Prop) (good : Message -> Message -> Prop).
Context (Hserves : Serves W h P G good).

(** Some bytes are what a writer made of a good reply. *)
Definition written (write : Message -> result wire_error (list Z)) (req : Message) (d : list Z) : Prop :=
  exists msg, replies req msg /\ good req msg /\ write msg = Ok d.

Lemma sent_written write req msgs : answered good req msgs ->
  (length (sent (map write msgs)) <= 1)%nat /\ Forall (written write req) (sent (map write msgs)).
Proof.
  intros [Hl Hf]. destruct msgs as [|msg [|]]; [by split; [simpl; lia|constructor]| |simpl in Hl; lia].
  apply Forall_inv in Hf as [? ?]. cbn [map sent omap list_omap]. destruct (write msg) as [d|] eqn:E; [|by split; [simpl; lia|constructor]].
  split; [simpl; lia|]. constructor; [by exists msg|constructor].
Qed.

Lemma datagram_obeys ip data s : bytes data ->
  obeys W P G s (serveUDP_once h ip data) (fun _ out =>
    match Unpack (take (Z.to_nat maxUDPPacketSize) data) with
    | Err _ => out = []
    | Ok req => (length out <= 1)%nat /\ Forall (written (udp_WriteMsg (udp_writer ip req)) req) out
    end).
Proof.
  intros Hb. unfold serveUDP_once, handleUDPQuery. destruct (Unpack _) as [req|] eqn:E; [|done].
  assert (Hp : proper_query req) by (eapply decoded_query; [|exact E]; by apply bytes_take).
  eapply obeys_bind; [by apply (serves_obeys (Serves := Hserves))|]. intros s1 out Hout. cbn [obeys]. by apply sent_written.
Qed.

(** What a connection carries back: for each request in turn at most one frame. *)
Definition frames_for (reqs : list Message) (out : list Z) : Prop :=
  exists replies, out = concat (map frame (concat replies)) /\
    Forall2 (fun req ds => (length ds <= 1)%nat /\
      Forall (written (fun msg => Pack (outgoing (bool_decide (OPT req <> None)) maxUDPPacketSize msg)) req) ds) reqs replies.

Lemma frames_for_none : frames_for [] [].
Proof. exists []. split; [done|constructor]. Qed.

Lemma connection_obeys ip fuel : forall stream s, bytes stream ->
  obeys W P G s (handleTCPConn h fuel ip stream) (fun _ => frames_for (decoded_prefix (unframe fuel stream))).
Proof.
  induction fuel as [|fuel IH]; intros stream s Hb; [exact frames_for_none|]. cbn [handleTCPConn unframe].
  destruct (ReadFull 2 stream) as [[lenBuf st]|] eqn:E1; [|exact frames_for_none].
  assert (Hb1 : bytes st).
  { unfold ReadFull in E1. case_bool_decide; [|done]. injection E1 as _ <-. by apply Forall_drop. }
  destruct (ReadFull _ st) as [[data st']|] eqn:E2; [|exact frames_for_none].
  assert (Hb2 : bytes data /\ bytes st').
  { unfold ReadFull in E2. case_bool_decide; [|done]. injection E2 as <- <-. split; [by apply bytes_take|by apply Forall_drop]. }
  destruct Hb2 as [Hd Hst]. cbn [decoded_prefix]. destruct (Unpack data) as [req|] eqn:E; [|exact frames_for_none].
  eapply obeys_bind; [apply (serves_obeys (Serves := Hserves)); exact (decoded_query data req Hd E)|]. intros s1 msgs Hmsgs.
  eapply obeys_bind; [by apply IH|]. intros s2 rest (replies & -> & Hrest). cbn [obeys].
  exists (sent (map (fun msg => Pack (outgoing (bool_decide (OPT req <> None)) maxUDPPacketSize msg)) msgs) :: replies).
  cbn [concat]. rewrite sent_framed, map_app, concat_app. split; [done|]. constructor; [by apply sent_written|done].
Qed.
End bytes.

(** ** The server *)

(** What arrives at a socket: a datagram, or a connection with the bytes the client
    sends on it. *)
Inductive arrival := Datagram (ip : IP) (data : list Z) | Connection (ip : IP) (stream : list Z).

Definition arrived (a : arrival) : list Z := match a with Datagram _ data => data | Connection _ stream => stream end.

(** The goroutine that is started for it, and what that writes to the socket. *)
Definition serving_arrival (b : Built) (a : arrival) : prog (bs_State b) (list (list Z)) :=
  match a with
  | Datagram ip data => serveUDP_once (bs_Handler b) ip data
  | Connection ip stream => out ← serve_stream (bs_Handler b) ip stream; Ret [out]
  end.

Section network.
Context `{Crypto} `{Env} (r : Resolver).

(** Bytes that answer a request: a client that sent it reads one of the messages that
    may be said to it. *)
Definition client_reads (req : Message) (d : list Z) : Prop :=
  exists msg, replies req msg /\ delivered r req msg /\ (plain msg -> exists m, Unpack d = Ok m /\ conveyed msg m).

Lemma written_udp_read ip req d : decoded_message req -> written (vouched r) (udp_WriteMsg (udp_writer ip req)) req d ->
  client_reads req d /\ (length (m_Questions req) = 1%nat -> Z.of_nat (length d) <= client_limit req).
Proof.
  intros Hreq (msg & Hr & Hv & Hd). pose proof Hr as (_ & _ & _ & Eq & Ear). destruct (udp_writer_limit ip req) as [El Hl]. split.
  - exists msg. split; [done|]. split; [by apply vouched_delivered|]. intros Hpl.
    destruct (udp_WriteMsg_read (udp_writer ip req) msg Ear) as (d' & whole & m & Hd' & Hu & _ & Hm).
    { eapply reply_message_ok; [done..|by eapply vouched_formed|done]. }
    rewrite Hd in Hd'. injection Hd' as <-. exists m. split; [done|]. cbn zeta in Hm.
    destruct (_ <? _); [by eapply truncated_sim_conveyed|by eapply message_sim_conveyed; destruct Hm].
  - intros H1. destruct (m_Questions req) as [|q [|]] eqn:Hq; try done. rewrite <-El.
    apply (udp_WriteMsg_fits (udp_writer ip req) msg q); [rewrite El; lia|by rewrite Eq|done..].
Qed.

Lemma written_tcp_read edns0 req d : decoded_message req ->
  written (vouched r) (fun msg => Pack (outgoing edns0 maxUDPPacketSize msg)) req d -> client_reads req d.
Proof.
  intros Hreq (msg & Hr & Hv & Hd). pose proof Hr as (_ & _ & _ & Eq & Ear).
  exists msg. split; [done|]. split; [by apply vouched_delivered|]. intros Hpl.
  destruct (outgoing_ok edns0 maxUDPPacketSize msg Ear) as [Hok _].
  { eapply reply_message_ok; [done..|by eapply vouched_formed|done]. }
  destruct (emits_Pack _ _ _ (emits_message _ Hok)) as (d' & m & Hd' & _ & Hu & Hm). rewrite Hd in Hd'. injection Hd' as <-.
  exists m. split; [done|]. by eapply message_sim_conveyed.
Qed.

Lemma decoded_prefix_decoded packets : Forall bytes packets -> Forall decoded_message (decoded_prefix packets).
Proof.
  induction 1 as [|packet packets Hb _ IH]; [constructor|]. cbn [decoded_prefix].
  destruct (Unpack packet) as [req|] eqn:E; [|constructor]. constructor; [by eapply Unpack_decoded|done].
Qed.

Lemma unframe_bytes fuel : forall stream, bytes stream -> Forall bytes (unframe fuel stream).
Proof.
  induction fuel as [|fuel IH]; intros stream Hb; [constructor|]. cbn [unframe]. unfold ReadFull.
  case_bool_decide; [|constructor]. case_bool_decide; [|constructor].
  constructor; [by apply bytes_take, Forall_drop|by apply IH, Forall_drop, Forall_drop].
Qed.

(** What the client of an arrival may get. *)
Definition answered_arrival (a : arrival) (out : list (list Z)) : Prop :=
  match a with
  | Datagram ip data =>
    match Unpack (take (Z.to_nat maxUDPPacketSize) data) with
    | Err _ => out = []
    | Ok req => (length out <= 1)%nat /\ Forall (fun d => client_reads req d /\
        (length (m_Questions req) = 1%nat -> Z.of_nat (length d) <= client_limit req)) out
    end
  | Connection ip stream => exists replies,
      Forall2 (fun req ds => (length ds <= 1)%nat /\ Forall (client_reads req) ds) (requests_in stream) replies /\
      out = [concat (map frame (concat replies))] /\
      (Forall (fun d => is_u16 (Z.of_nat (length d))) (concat replies) ->
       unframe (Datatypes.S (length (concat out))) (concat out) = concat replies)
  end.

Lemma arrival_obeys b P G a s : Serves True (bs_Handler b) P G (vouched r) -> bytes (arrived a) ->
  obeys True P G s (serving_arrival b a) (fun _ => answered_arrival a).
Proof.
  intros Hs Hb. destruct a as [ip data|ip stream]; cbn [arrived serving_arrival answered_arrival] in *.
  - eapply obeys_mono; [by apply (datagram_obeys True _ _ _ _ Hs)|]. intros s1 out. cbn beta; cbn [answered_arrival].
    destruct (Unpack _) as [req|] eqn:E; [|done]. intros [Hl Hf]. split; [done|]. eapply Forall_impl; [exact Hf|].
    intros d Hd. apply (written_udp_read ip); [|exact Hd]. eapply Unpack_decoded; [|exact E]. by apply bytes_take.
  - eapply obeys_bind; [by apply (connection_obeys True _ _ _ _ Hs)|]. intros s1 out (replies & -> & Hf). cbn [obeys].
    exists replies. split_and!; [|done|].
    + assert (Hd : Forall decoded_message (requests_in stream)) by by apply decoded_prefix_decoded, unframe_bytes.
      unfold requests_in in *. revert Hd. induction Hf as [|req ds reqs replies [Hl Hds] _ IH]; intros Hd; [constructor|].
      apply Forall_cons in Hd as [Hreq Hd]. constructor; [|by apply IH]. split; [done|].
      eapply Forall_impl; [exact Hds|]. intros d. by apply written_tcp_read.
    + intros Hu. cbn [concat]. rewrite app_nil_r. apply unframe_frames; [done|lia].
Qed.
End network.

