(* ===== verification/Commands.v ===== *)
(** The two programs: the server ([cmd/server/main.go]) from its command line to the
    open sockets, and the query tool ([cmd/resolve/main.go]). *)

From coqutil Require Import Datatypes.RecordSetters.
From stdpp Require Import strings.
From S2P Require Import Prelude Prog GoUnicode GoStrings GoText GoFloat GoTime GoJson GoNet DnsMsg Encoder Decoder WireSpec WireCalculus WireNames WireRoundTrip DecoderSafe DnssecRecords DnssecNames Verify Denial Privacy Interface Lru Cache Upstream UpstreamSpec TrustAnchor AnchorFile Validate ValidateSpec Resolve ResolveSpec Resolution Handler Acl RateLimit SingleFlight SingleFlightProg DnsServer NetText Config Chain.

Open Scope list_scope.
Open Scope Z_scope.

(** ** The command line *)

Record Flags := MkFlags { fl_config : gostring; fl_addr : gostring }.

Definition no_flags : Flags := MkFlags [] [].

Definition set_flag (name value : gostring) (f : Flags) : option Flags :=
  if bool_decide (name = str "config") then Some (MkFlags value (fl_addr f))
  else if bool_decide (name = str "addr") then Some (MkFlags (fl_config f) value)
  else None.

(** A flag is one with a leading dash, or two; [None] for an argument that is none. *)
Definition flag_name (arg : gostring) : option gostring :=
  match arg with
  | 45 :: 45 :: name => Some name
  | 45 :: c :: name => Some (c :: name)
  | _ => None
  end.

(** [flag.Parse] with two flags that take a value each, behind an equals sign or as
    the next argument.  An error ends the process with code 2, a call for help with
    code 0. *)
Fixpoint parse_flags (args : list gostring) (f : Flags) : result Z Flags :=
  match args with
  | [] => Ok f
  | arg :: args =>
    match flag_name arg with
    | None => Ok f
    | Some [] => Ok f
    | Some (c :: name) =>
      if (c =? 45) || (c =? 61) then Err 2
      else
        match Cut (c :: name) 61 with
        | Some (name, value) =>
          match set_flag name value f with
          | Some f => parse_flags args f
          | None => Err (if bool_decide (name ∈ [str "help"; str "h"]) then 0 else 2)
          end
        | None =>
          match set_flag (c :: name) [] f with
          | None => Err (if bool_decide (c :: name ∈ [str "help"; str "h"]) then 0 else 2)
          | Some _ =>
            match args with
            | [] => Err 2
            | value :: args => match set_flag (c :: name) value f with Some f => parse_flags args f | None => Err 2 end
            end
          end
        end
    end
  end.

(** ** The server *)

Inductive log_level := LevelDebug | LevelInfo | LevelWarn | LevelError.

(** What [newLogger] makes of the configuration: the level, and whether the log is in
    JSON. *)
Definition newLogger (cfg : Config) : log_level * bool :=
  let l := c_LogLevel cfg in
  (if bool_decide (l = str "debug") then LevelDebug
   else if bool_decide (l = str "warn") then LevelWarn
   else if bool_decide (l = str "error") then LevelError
   else LevelInfo,
   bool_decide (c_LogFormat cfg = str "json")).

(** The fields of [dnsserver.Server] that are set. *)
Record Server := MkServer {
  srv_Addr : gostring; srv_Handler : Built; srv_QueryTimeout : Z; srv_MaxInFlight : Z; srv_TLSAddr : option gostring }.

(** How far the start gets: an exit code, or a server to run. *)
Inductive start_up := Exit (code : Z) | Start (srv : Server).

Section main.
Context `{Crypto} `{Env} (visit : list (Addr * bucket) -> list (Addr * bucket)).
(** The file system, and whether a certificate and its key can be loaded. *)
Context (read_file : gostring -> option (list Z)) (LoadX509KeyPair : gostring -> gostring -> bool).

(** The flag replaces the address of the configuration. *)
Definition override (listen : gostring) (cfg : Config) : Config :=
  if bool_decide (listen = []) then cfg else assign c_Listen listen cfg.

Definition starting (args : list gostring) : start_up :=
  match parse_flags args no_flags with
  | Err code => Exit code
  | Ok f =>
    match (cfg ← Load read_file (fl_config f); _ ← Validate (override (fl_addr f) cfg); Ok (override (fl_addr f) cfg)) with
    | Err _ => Exit 1
    | Ok cfg =>
      match buildHandler visit read_file cfg with
      | Err _ => Exit 1
      | Ok handler =>
        let srv := MkServer (c_Listen cfg) handler (c_QueryTimeout cfg) (c_MaxInFlight cfg) in
        if bool_decide (c_TLSListen cfg = []) then Start (srv None)
        else if LoadX509KeyPair (c_TLSCert cfg) (c_TLSKey cfg) then Start (srv (Some (c_TLSListen cfg)))
        else Exit 1
      end
    end
  end.

(** The process: what happens to its sockets, and its exit code. *)
Definition main (resolves : gostring -> bool) (opens : socket -> gostring -> bool) (first_error : listen_error)
    (args : list gostring) : list socket_event * Z :=
  match starting args with
  | Exit code => ([], code)
  | Start srv =>
    let (trace, err) := ListenAndServe resolves opens first_error (srv_Addr srv) (srv_TLSAddr srv) in
    (trace, match err with None => 0 | Some _ => 1 end)
  end.
End main.

(** ** The query tool *)

(** What it prints, a line for each address, and its exit code.  [args] begins with
    the name of the program. *)
Definition resolve_main `{Crypto} `{Env} (args : list gostring) : prog world (list gostring * Z) :=
  let look_up name qtype :=
    x ← (Resolve New false name qtype : prog world (result resolve_error (list IP)));
    Ret (match x with Ok ips => (map IP_String ips, 0) | Err _ => ([], 1) end) in
  match args with
  | [_; name] => look_up name TypeA
  | [_; name; t] =>
    if bool_decide (ToUpper t = str "A") then look_up name TypeA
    else if bool_decide (ToUpper t = str "AAAA") then look_up name TypeAAAA
    else Ret ([], 2)
  | _ => Ret ([], 2)
  end.

(** * What the programs do *)

(** ** Flags *)

(** The ways to give a flag a value. *)
Definition spellings (name value : gostring) : list (list gostring) :=
  [[45 :: name; value]; [45 :: 45 :: name; value]; [45 :: name ++ 61 :: value]; [45 :: 45 :: name ++ 61 :: value]].

Lemma parse_flags_spelling name value f f' l args :
  set_flag name value f = Some f' -> l ∈ spellings name value -> parse_flags (l ++ args) f = parse_flags args f'.
Proof.
  intros Hset Hl. assert (Hname : name = str "config" \/ name = str "addr").
  { unfold set_flag in Hset. case_bool_decide; [by left|]. case_bool_decide; [by right|done]. }
  unfold spellings in Hl. rewrite !elem_of_cons, elem_of_nil in Hl.
  destruct Hname as [-> | ->]; unfold set_flag in Hset; injection Hset as <-;
    by destruct Hl as [-> |[-> |[-> |[-> |[]]]]].
Qed.

(** ** The server *)

Section main_spec.
Context `{Crypto} `{Env} (visit : list (Addr * bucket) -> list (Addr * bucket)).
Context (read_file : gostring -> option (list Z)) (LoadX509KeyPair : gostring -> gostring -> bool).
Context (resolves : gostring -> bool) (opens : socket -> gostring -> bool) (first_error : listen_error).

Abbreviation serve := (main visit read_file LoadX509KeyPair resolves opens first_error).

(** The sockets a configuration asks for. *)
Definition sockets (cfg : Config) : list (socket * gostring) :=
  [(UDPSocket, c_Listen cfg); (TCPSocket, c_Listen cfg)] ++
  (if bool_decide (c_TLSListen cfg = []) then [] else [(TLSSocket, c_TLSListen cfg)]).

(** A configuration the server can run with, and the handler it then has. *)
Record runs_with (cfg : Config) (b : Built) : Prop := {
  rw_valid : Validate cfg = Ok tt;
  rw_handler : buildHandler visit read_file cfg = Ok b;
  rw_key : c_TLSListen cfg <> [] -> LoadX509KeyPair (c_TLSCert cfg) (c_TLSKey cfg) = true }.

Definition server_of (cfg : Config) (b : Built) : Server :=
  MkServer (c_Listen cfg) b (c_QueryTimeout cfg) (c_MaxInFlight cfg)
    (if bool_decide (c_TLSListen cfg = []) then None else Some (c_TLSListen cfg)).

(** What the command line configures: the file, with the address of the flag. *)
Definition configures (args : list gostring) (cfg : Config) : Prop :=
  exists f c, parse_flags args no_flags = Ok f /\ Load read_file (fl_config f) = Ok c /\ cfg = override (fl_addr f) c.

Lemma starting_Start args cfg b :
  configures args cfg -> runs_with cfg b -> starting visit read_file LoadX509KeyPair args = Start (server_of cfg b).
Proof.
  intros (f & c & Hf & Hc & ->) [Hv Hb Hk]. unfold starting. rewrite Hf, Hc. cbn [mbind result_bind]. rewrite Hv. cbn [mbind result_bind].
  rewrite Hb. cbn zeta. unfold server_of. case_bool_decide; [done|]. by rewrite Hk.
Qed.

(** A server was started with the configuration of the file, but for the address that
    the flag replaces; else the process ends, with code 0 only after printing help. *)
Lemma starting_inv args :
  match starting visit read_file LoadX509KeyPair args with
  | Start srv => exists cfg b, configures args cfg /\ runs_with cfg b /\ srv = server_of cfg b
  | Exit code => code = 1 /\ (exists f, parse_flags args no_flags = Ok f) \/ parse_flags args no_flags = Err code
  end.
Proof.
  unfold starting. destruct (parse_flags args no_flags) as [f|code] eqn:Hf; [|by right].
  destruct (Load read_file (fl_config f)) as [cfg|] eqn:Hc; cbn [mbind result_bind]; [|left; eauto].
  destruct (Validate (override (fl_addr f) cfg)) as [[]|] eqn:Hv; cbn [mbind result_bind]; [|left; eauto].
  destruct (buildHandler visit read_file (override (fl_addr f) cfg)) as [b|] eqn:Hb; [|left; eauto].
  cbn zeta. case_bool_decide as Ht; [|destruct (LoadX509KeyPair _ _) eqn:Hk; [|left; eauto]];
    (eexists _, b; split_and!; [exists f, cfg; by split_and!|by split|unfold server_of]).
  - by rewrite bool_decide_true.
  - by rewrite bool_decide_false.
Qed.

Lemma parse_flags_code args f code : parse_flags args f = Err code -> code = 0 \/ code = 2.
Proof.
  revert f. induction args as [args IH] using (induction_ltof1 _ (@length gostring)). unfold ltof in IH.
  intros f. destruct args as [|arg args]; [done|]. cbn [parse_flags].
  destruct (flag_name arg) as [[|c name]|]; [done| |done].
  destruct (_ || _); [intros [= <-]; by right|]. destruct (Cut _ _) as [[n v]|].
  - destruct (set_flag n v f); [by apply IH; simpl; lia|]. case_bool_decide; intros [= <-]; auto.
  - destruct (set_flag _ [] f); [|case_bool_decide; intros [= <-]; auto].
    destruct args as [|value args]; [intros [= <-]; by right|].
    destruct (set_flag _ value f); [by apply IH; simpl; lia|]. intros [= <-]; by right.
Qed.

Lemma serve_error_None err : serve_error err = None <-> err = EClosed.
Proof. by destruct err. Qed.

Lemma Serving_trace opened mid : Serving ∈ map Open opened ++ mid ++ map Close (reverse opened) <-> Serving ∈ mid.
Proof.
  rewrite !elem_of_app. split; [|auto]. intros [(? & ? & _)%list_elem_of_fmap|[?|(? & ? & _)%list_elem_of_fmap]]; done.
Qed.

(** Everything a server needs can be opened. *)
Definition all_open (cfg : Config) : Prop :=
  resolves (c_Listen cfg) = true /\ Forall (fun sa => opens sa.1 sa.2 = true) (sockets cfg).

(** The sockets of a server that was started. *)
Lemma ListenAndServe_server cfg b : exists opened mid err,
  ListenAndServe resolves opens first_error (srv_Addr (server_of cfg b)) (srv_TLSAddr (server_of cfg b)) =
    (map Open opened ++ mid ++ map Close (reverse opened), err) /\
  (all_open cfg /\ mid = [Serving] /\ opened = map fst (sockets cfg) /\ err = serve_error first_error \/
   ~ all_open cfg /\ mid = [] /\ err <> None).
Proof.
  unfold ListenAndServe, server_of, all_open. cbn [srv_Addr srv_TLSAddr]. destruct (resolves _).
  2: { exists [], [], (Some EResolveAddr). split; [done|]. right. by split_and!; [intros [? _]|..]. }
  replace (_ ++ match _ with Some _ => _ | None => _ end) with (sockets cfg) by (unfold sockets; by case_bool_decide).
  destruct (open_all_trace opens first_error (sockets cfg)) as (opened & _ & _ & Hrest).
  case_bool_decide as Hall.
  - destruct Hrest as [-> ->]. exists (map fst (sockets cfg)), [Serving], (serve_error first_error). split; [done|]. by left.
  - destruct Hrest as [s ->]. exists opened, [], (Some (DnsServer.EListen s)). split; [done|]. right. by split_and!; [intros [_ ?]|..].
Qed.

(** The server trusts the anchors of the file its configuration names, the built-in ones
    if it names none, and no others: whatever queries it serves at once, every reply
    it gives is one that a resolver with exactly these anchors may deliver. *)
Definition trusts (cfg : Config) (b : Built) : Prop := exists r,
  match c_TrustAnchor cfg with
  | [] => trustAnchors r = RootAnchors
  | path => LoadTrustAnchors read_file path = Ok (trustAnchors r)
  end /\ r_validate r = c_DNSSEC cfg /\
  forall s goroutines, pool_reach (serving b) (fun x => proper_query x.2) (bs_init b) s goroutines ->
  forall i addr req out, goroutines !! i = Some ((addr, req), Ret out) -> answered (delivered r) req out.

Lemma buildHandler_trusts cfg b : env_ok -> buildHandler visit read_file cfg = Ok b -> trusts cfg b.
Proof.
  intros Henv Hb. destruct (configured_anchors read_file cfg) as [anchors|e] eqn:Ha.
  2: { unfold buildHandler in Hb. rewrite Ha in Hb. by destruct (AllowedPrefixes cfg). }
  exists (configured_resolver cfg anchors). split; [|split; [by destruct (c_DNSSEC cfg) eqn:E; unfold configured_resolver; rewrite E|]].
  - unfold configured_anchors in Ha. case_bool_decide as Ep; [rewrite Ep; by injection Ha as <-|].
    destruct (LoadTrustAnchors read_file (c_TrustAnchor cfg)) as [ds|] eqn:El; [|done]. injection Ha as <-.
    destruct (c_TrustAnchor cfg); [done|exact El].
  - intros s goroutines Hpool i addr req out Hg.
    destruct (built_pool visit read_file cfg anchors b s goroutines Henv Hb Ha Hpool) as [_ Hall].
    destruct (Hall i addr req out Hg) as [Hl Hout]. split; [done|]. eapply Forall_impl; [exact Hout|].
    intros msg [? ?]. split; [done|by apply vouched_delivered].
Qed.

(** What a configuration that a server runs with guarantees: it trusts the anchors of the
    file it names, and with access control first, a client outside the
    allow list is refused without reaching anything behind. *)
Lemma runs_with_built cfg b : runs_with cfg b ->
  (env_ok -> trusts cfg b) /\
  forall allowed rest, AllowedPrefixes cfg = Ok allowed -> c_Middleware cfg = str "acl"%string :: rest ->
    forall addr req, permits allowed addr = false -> bs_Handler b addr req = Ret [refusal_message req].
Proof.
  intros [Hv Hb _]. split; [intros Henv; by apply buildHandler_trusts|].
  pose proof (Validate_buildHandler visit read_file cfg Hv) as H'.
  destruct (configured_anchors read_file cfg) as [anchors|]; [|congruence].
  destruct H' as (b' & Hb' & Hacl). rewrite Hb in Hb'. by injection Hb' as <-.
Qed.



(** C20: From the command line to the open sockets: whatever way the flags are spelt, a
    configuration that was written to the file - all of its fields - is the one the
    server runs with, the address of the flag in place of its own.  If it can run,
    the sockets are opened in order, UDP, TCP and then TLS if asked for, service
    begins, and ends with code 0 exactly if it was told to stop. *)
Theorem main_configured literal c path listen l1 l2 b :
  path <> [] -> Forall (fun nf => field_ok literal c nf.2) fields -> read_file path = Some (document literal c fields) ->
  Validate c = Ok tt -> l1 ∈ spellings (str "config") path -> l2 ∈ spellings (str "addr") listen ->
  runs_with (override listen c) b -> all_open (override listen c) ->
  starting visit read_file LoadX509KeyPair (l1 ++ l2) = Start (server_of (override listen c) b) /\
  serve (l1 ++ l2) =
    (map Open (map fst (sockets (override listen c))) ++ [Serving] ++ map Close (reverse (map fst (sockets (override listen c)))),
     match first_error with EClosed => 0 | _ => 1 end).
Proof.
  intros Hp Hok Hread Hv Hl1 Hl2 Hr Ha.
  assert (Hst : starting visit read_file LoadX509KeyPair (l1 ++ l2) = Start (server_of (override listen c) b)).
  { apply starting_Start; [|done]. exists (MkFlags path listen), c. cbn [fl_config fl_addr]. split_and!; [| |done].
    - rewrite (parse_flags_spelling (str "config") path no_flags (MkFlags path [])) by done.
      rewrite <-(app_nil_r l2). by rewrite (parse_flags_spelling (str "addr") listen _ (MkFlags path listen)).
    - rewrite (Load_full literal c read_file path) by done. by rewrite Hv. }
  split; [done|]. unfold main. rewrite Hst.
  destruct (ListenAndServe_server (override listen c) b) as (opened & mid & err & -> & [(_ & -> & -> & ->)|[Hn _]]); [|done].
  by destruct first_error.
Qed.
End main_spec.

(** ** The query tool *)

Section resolve_spec.
Context `{Crypto} `{Env}.

(** What the arguments behind the name of the program ask for. *)
Inductive requests : list gostring -> gostring -> Z -> Prop :=
  | requests_default name : requests [name] name TypeA
  | requests_A name t : ToUpper t = str "A" -> requests [name; t] name TypeA
  | requests_AAAA name t : ToUpper t = str "AAAA" -> requests [name; t] name TypeAAAA.

(** The length of the addresses of a family, in bytes. *)
Definition family_length (qtype : Z) : nat := if qtype =? TypeA then 4%nat else 16%nat.

(** The addresses of an answer to a question. *)
Definition addresses (name : gostring) (qtype : Z) (found : list Addr) : Prop :=
  exists chain end_ tail, linked qtype name chain end_ /\ Forall (answering qtype end_) tail /\
    Forall2 (fun rr b => (if qtype =? TypeA then rr_A rr else rr_AAAA rr) = Some b /\ addr_ok b /\ length b = family_length qtype) tail found /\
    (verified_answer New name qtype (chain ++ tail) \/ excused_answer New name qtype (chain ++ tail)).

Lemma linked_no_address qtype name chain end_ : linked qtype name chain end_ -> omap result_address chain = [].
Proof. induction 1 as [|rr l ? ? Ht _ _ _ _ IH]; [done|]. cbn [omap list_omap]. unfold result_address. by rewrite Ht. Qed.

Lemma answering_addresses qtype end_ tail : qtype = TypeA \/ qtype = TypeAAAA ->
  Forall (answering qtype end_) tail -> Forall decoded_rr tail ->
  exists found, omap result_address tail = map Some found /\
    Forall2 (fun rr b => (if qtype =? TypeA then rr_A rr else rr_AAAA rr) = Some b /\ addr_ok b /\ length b = family_length qtype) tail found.
Proof.
  intros Hq Ht Hd. induction Ht as [|rr tail (Htype & _) _ IH]; [by exists []|]. apply Forall_cons in Hd as [(_ & _ & _ & _ & _ & Hrd) Hd].
  destruct (IH Hd) as (found & Ho & H2). cbn [omap list_omap]. rewrite Ho. unfold decoded_rdata, result_address in *. rewrite Htype in *.
  destruct Hq as [-> | ->]; cbn in Hrd |- *; destruct Hrd as (b & Eb & Hl & Hb); rewrite Eb;
    rewrite bool_decide_true by done; exists (b :: found); (split; [done|]); (constructor; [|done]); (split; [done|]);
    (split; [split; [exact Hb|rewrite Hl; auto]|done]).
Qed.

Lemma inv_Resolve name qtype : env_ok -> labels_full name -> qtype = TypeA \/ qtype = TypeAAAA ->
  inv (world_ok New) (Resolve New false name qtype)
    (fun ips => exists found, ips = map Some found /\ addresses name qtype found) (fun _ => True).
Proof.
  intros Henv Hn Hq. unfold Resolve. eapply inv_bind; [eapply inv_mono; [by apply ResolveRR_inv|exact (fun _ h => h)|done]|].
  intros res (chain & end_ & tail & Hl & Ha & Ht & _ & _ & _ & _ & Hs & Hns & [Hw _]). apply inv_ret.
  rewrite Ha in Hw. apply Forall_app in Hw as [_ Hw].
  destruct (answering_addresses qtype end_ tail Hq Ht Hw) as (found & Ho & H2). exists found. split.
  - rewrite Ha, omap_app, (linked_no_address _ _ _ _ Hl). exact Ho.
  - exists chain, end_, tail. split_and!; [done..|]. rewrite <-Ha. destruct (res_Secure res).
    + left. destruct (Hs eq_refl) as (_ & Hv & Hd). by exists chain, end_, tail.
    + right. exists chain, end_, tail. by split_and!; [..|apply Hns].
Qed.

(** C21: The query tool prints what it was asked for: with a domain name and the type A,
    the default, or AAAA in any case, it ends - whatever the servers answer - and
    either prints nothing and exits with code 1, or prints the addresses of the
    records at the end of a chain of aliases from the name, one on each line, and
    exits with code 0.  Each line is read back as that address, and the answer was
    verified, or excused as below a zone proven unsigned.  Any other arguments are
    an error of usage, code 2, and nothing is asked. *)
Theorem resolve_main_outcome program args :
  env_ok ->
  (forall name qtype, requests args name qtype -> labels_full name ->
     exists w lines code, exec (resolve_main (program :: args)) new_world = Some (w, (lines, code)) /\ world_ok New w /\
       (code = 1 /\ lines = [] \/
        code = 0 /\ exists found, addresses name qtype found /\
          Forall2 (fun line b => line = IP_String (Some b) /\ ParseAddr line = Some (default b (To4 (Some b)))) lines found)) /\
  ((forall name qtype, ~ requests args name qtype) -> resolve_main (program :: args) = Ret ([], 2)).
Proof.
  intros Henv. split.
  - intros name qtype Hr Hn. assert (Hq : qtype = TypeA \/ qtype = TypeAAAA) by (destruct Hr; auto).
    destruct (inv_exec (world_ok New) _ _ _ new_world (inv_Resolve name qtype Henv Hn Hq) (new_world_ok New)) as (w & x & E & Hw & Hx).
    assert (Hgo : exec (resolve_main (program :: args)) new_world =
      Some (w, match x with Ok ips => (map IP_String ips, 0) | Err _ => ([], 1) end)).
    { assert (Hbind := exec_bind (Resolve New false name qtype : prog world _)
        (fun x => Ret (match x with Ok ips => (map IP_String ips, 0) | Err _ => ([], 1) end)) new_world).
      rewrite E in Hbind. clear -Hbind Hr. destruct Hr as [name|name t Ht|name t Ht]; unfold resolve_main; cbv zeta;
        [|rewrite bool_decide_true by done|rewrite bool_decide_false by (rewrite Ht; done); rewrite bool_decide_true by done]; exact Hbind. }
    rewrite Hgo. destruct x as [ips|e].
    + destruct Hx as (found & -> & Hf). exists w, (map IP_String (map Some found)), 0. split_and!; [done..|]. right. split; [done|].
      exists found. split; [done|]. destruct Hf as (_ & _ & tail & _ & _ & H2 & _). clear -H2.
      induction H2 as [|rr b tail found (_ & Hb & _) _ IH]; constructor; [|exact IH]. split; [done|]. by apply ParseAddr_IP_String.
    + exists w, [], 1. split_and!; [done..|]. by left.
  - intros Hno. destruct args as [|name [|t [|]]]; try done; [by destruct (Hno name TypeA); constructor|].
    cbn [resolve_main]. case_bool_decide; [by destruct (Hno name TypeA); constructor|].
    case_bool_decide; [by destruct (Hno name TypeAAAA); constructor|done].
Qed.
End resolve_spec.
