(* ===== verification/Witnesses.v ===== *)
(** Concrete instances: for every theorem with hypotheses, an input on which they
    hold, with the model evaluated there. *)

From stdpp Require Import strings.
From S2P Require Import Prelude Prog GoUnicode GoStrings GoNet DnsMsg Encoder Decoder WireSpec WireCalculus WireNames WireRoundTrip DecoderSafe DnssecRecords DnssecNames Verify VerifySpec Denial DenialSpec Privacy Interface Lru Cache CacheSpec.

Open Scope string_scope.
Open Scope Z_scope.

(** Deciding a closed decidable proposition. *)
Ltac compute_decide := apply (bool_decide_unpack _); vm_compute; exact I.

(** ** Messages *)

Definition n_com : gostring := str "com".
Definition n_example : gostring := str "example.com".
Definition n_www : gostring := str "www.Example.com.".

Definition ex_a : RR :=
  MkRR n_www TypeA ClassIN 300 0 (Some [192; 0; 2; 1]) None [] [] None [].
Definition ex_ns : RR := MkRR n_example TypeNS ClassIN 3600 0 None None n_www [] None [].
Definition ex_soa_data : SOA := MkSOA n_www n_example 1 2 3 4 60.
Definition ex_soa : RR := MkRR n_example TypeSOA ClassIN 3600 0 None None [] [] (Some ex_soa_data) [].
Definition ex_txt : RR := MkRR n_com 16 ClassIN 5 0 None None [] [] None [3; 97; 98; 99].

Definition ex_message : Message :=
  MkMessage (MkHeader 4660 true 0 true false true true false false 0 0 0 0 0)
    [MkQuestion n_www TypeA ClassIN] [ex_a] [ex_ns; ex_soa] [ex_txt; NewOPT 1232 true].

Lemma ex_message_ok : message_ok ex_message.
Proof.
  unfold message_ok, header_ok, section_ok, question_ok, rr_ok.
  split_and!; try compute_decide; repeat constructor; try compute_decide.
  exists ex_soa_data. split; [done|]. unfold soa_ok. compute_decide.
Defined.

Lemma Unpack_Pack_witness :
  message_ok ex_message /\
  exists buf m', Pack ex_message = Ok buf /\ Z.of_nat (length buf) <= pack_bound ex_message /\
    Unpack buf = Ok m' /\ message_sim ex_message m'.
Proof. split; [exact ex_message_ok|]. apply (Unpack_Pack ex_message). exact ex_message_ok. Defined.

(** A question whose name is a compression pointer to itself. *)
Definition loop_packet : list Z := [0; 1; 0; 0; 0; 1; 0; 0; 0; 0; 0; 0; 192; 12; 0; 1; 0; 1].

Lemma Unpack_total_witness :
  Unpack loop_packet = Err ETooManyJumps /\
  match Unpack loop_packet with Ok m => decoded_message m | Err e => e <> EOutOfFuel end.
Proof.
  split; [vm_compute; reflexivity|]. apply (Unpack_total loop_packet). compute_decide.
Defined.

(** The bytes [ex_message] packs to, and the message they unpack to. *)
Definition ex_packet : list Z :=
  Eval vm_compute in match Pack ex_message with Ok buf => buf | Err _ => [] end.
Definition ex_unpacked : Message :=
  Eval vm_compute in match Unpack ex_packet with Ok m => m | Err _ => ex_message end.

Lemma Pack_Unpack_witness :
  Unpack ex_packet = Ok ex_unpacked /\
  exists buf' m', Pack ex_unpacked = Ok buf' /\ Unpack buf' = Ok m' /\
    m_Header m' = m_Header ex_unpacked /\ message_sim ex_unpacked m'.
Proof.
  assert (E : Unpack ex_packet = Ok ex_unpacked) by (vm_compute; reflexivity).
  split; [exact E|]. apply (Pack_Unpack ex_packet ex_unpacked); [compute_decide|exact E|].
  unfold ascii_message, ascii_rr, ascii_rdata.
  unfold ex_unpacked. cbn [m_Questions m_Answers m_Authorities m_Additionals].
  split_and!; repeat (apply Forall_cons; split); try apply Forall_nil; cbn [q_Name rr_Name rr_NS rr_CNAME rr_SOA];
    try split_and!; try (vm_compute; reflexivity); intros s Hs; try discriminate Hs;
    injection Hs as <-; split; vm_compute; reflexivity.
Defined.

(** ** DNSSEC records *)

Definition ex_sig : RRSIG := MkRRSIG TypeNSEC 15 2 300 4000 1000 2049 n_com [1; 2; 3].
Definition ex_sig_labels : list gostring := [n_com].

Lemma parseRRSIG_exact_witness :
  parseRRSIG (rrsig_rdata ex_sig (wire_labels ex_sig_labels ++ [0])) = Ok ex_sig.
Proof.
  apply (parseRRSIG_exact (rrsig_rdata ex_sig (wire_labels ex_sig_labels ++ [0])) ex_sig);
    [compute_decide|].
  exists ex_sig_labels. split_and!; try (vm_compute; reflexivity); unfold rrsig_ok; compute_decide.
Defined.

Definition ex_nsec3 : NSEC3 := MkNSEC3 1 0 0 [170] [1; 2] [0; 1; 64].

Lemma parseNSEC3_exact_witness :
  parseNSEC3 [1; 0; 0; 0; 1; 170; 2; 1; 2; 0; 1; 64] = Ok ex_nsec3 /\
  nsec3_rdata ex_nsec3 = [1; 0; 0; 0; 1; 170; 2; 1; 2; 0; 1; 64].
Proof.
  split; [vm_compute; reflexivity|].
  apply (parseNSEC3_exact [1; 0; 0; 0; 1; 170; 2; 1; 2; 0; 1; 64] ex_nsec3);
    [compute_decide|vm_compute; reflexivity].
Defined.

Definition ex_key : DNSKEY := MkDNSKEY 257 3 15 (replicate 32 7).

Lemma KeyTag_sum_witness :
  KeyTag ex_key =
  (tag_total true (key_rdata ex_key) + tag_total true (key_rdata ex_key) / 65536) mod 65536.
Proof. apply (KeyTag_sum ex_key); [compute_decide|vm_compute; discriminate]. Defined.

Lemma typeInBitmap_spec_witness :
  typeInBitmap (encode_bitmap [(0, [64; 1]); (1, [128])]) 256 = true /\
  typeInBitmap (encode_bitmap [(0, [64; 1]); (1, [128])]) 256 =
    lists_type [(0, [64; 1]); (1, [128])] 256.
Proof. split; [vm_compute; reflexivity|]. apply typeInBitmap_spec. compute_decide. Defined.

(** ** Signatures *)

(** Cryptography with no strength: the hashes are the identity, an Ed25519
    signature is the data itself, no other signature is valid. *)
Definition toy_crypto : Crypto := {|
  sha1 := fun l => l; sha256 := fun l => l; sha384 := fun l => l; sha512 := fun l => l;
  rsa_VerifyPKCS1v15 := fun _ _ _ _ _ => false;
  ed25519_Verify := fun _ data sig => bool_decide (data = sig);
  IsOnCurve := fun _ _ _ => false;
  ecdsa_Verify := fun _ _ _ _ _ _ => false |}.

Definition ns_rr (owner target : gostring) (ttl : Z) : RR :=
  MkRR owner TypeNS ClassIN ttl 0 None None target [] None [].

Definition ex_set : list RR := [ns_rr n_com n_www 300; ns_rr n_com n_example 300].
Definition ex_set' : list RR :=
  [ns_rr (str "COM.") n_example 17; ns_rr n_com n_www 17; ns_rr n_com n_www 17].
Definition ex_ns_sig : RRSIG := MkRRSIG TypeNS 15 1 300 4000 1000 2049 n_com [].
Definition ex_signed : list Z :=
  Eval vm_compute in match signedData ex_set ex_ns_sig with Ok d => d | Err _ => [] end.

Lemma covered_by_list l l' :
  Forall (fun rr => Exists (fun rr' => canonicalRDATA rr' = canonicalRDATA rr) l') l -> covered_by l l'.
Proof.
  intros H rr Hrr. rewrite Forall_forall in H. by apply Exists_exists, H.
Defined.

Lemma signedData_set_witness : signedData ex_set' ex_ns_sig = Ok ex_signed.
Proof.
  apply (signedData_set ex_set ex_set' (ns_rr n_com n_www 300) (ns_rr (str "COM.") n_example 17));
    try (vm_compute; reflexivity).
  - apply covered_by_list.
    apply Forall_cons; split; [right; left; vm_compute; reflexivity|].
    apply Forall_cons; split; [left; vm_compute; reflexivity|constructor].
  - apply covered_by_list.
    apply Forall_cons; split; [right; left; vm_compute; reflexivity|].
    apply Forall_cons; split; [left; vm_compute; reflexivity|].
    apply Forall_cons; split; [left; vm_compute; reflexivity|constructor].
Defined.

Lemma ex_set_fits : rdata_fits ex_set /\ rdata_fits ex_set'.
Proof.
  split; intros rr x Hrr E; unfold ex_set, ex_set' in Hrr;
    repeat (apply elem_of_cons in Hrr as [->|Hrr]; [vm_compute in E; injection E as <-; vm_compute; reflexivity|]);
    by apply elem_of_nil in Hrr.
Defined.

Lemma signedData_injective_witness : covered_by ex_set ex_set'.
Proof.
  destruct (signedData_injective ex_set ex_set' (ns_rr n_com n_www 300)
    (ns_rr (str "COM.") n_example 17) ex_ns_sig ex_ns_sig ex_signed) as (_ & _ & _ & H & _);
    try (unfold rrsig_ok; compute_decide); try apply ex_set_fits; try (vm_compute; reflexivity).
  exact H.
Defined.

Definition ex_good_sig : RRSIG :=
  let unsigned := MkRRSIG TypeNS 15 1 300 4000 1000 (KeyTag ex_key) n_com [] in
  MkRRSIG TypeNS 15 1 300 4000 1000 (KeyTag ex_key) n_com
    match signedData ex_set unsigned with Ok d => d | Err _ => [] end.

Lemma VerifyRRSet_spec_witness :
  VerifyRRSet (H := toy_crypto) ex_set ex_good_sig ex_key 2000 = Ok tt /\
  VerifyRRSet (H := toy_crypto) ex_set ex_good_sig ex_key 5000 = Err EExpired /\
  exists d, entitled ex_set ex_good_sig ex_key 2000 d /\
    accepts (H := toy_crypto) 15 (replicate 32 7) d (sig_Signature ex_good_sig).
Proof.
  assert (E : VerifyRRSet (H := toy_crypto) ex_set ex_good_sig ex_key 2000 = Ok tt) by (vm_compute; reflexivity).
  split; [exact E|]. split; [vm_compute; reflexivity|].
  pose proof (VerifyRRSet_spec (H := toy_crypto) ex_set ex_good_sig ex_key 2000) as Hspec.
  rewrite E in Hspec. apply Hspec; [unfold rrsig_ok; compute_decide|unfold bytes; compute_decide].
Defined.

Lemma checkValidityPeriod_window_witness :
  checkValidityPeriod (MkRRSIG TypeNS 15 1 300 100 4294967000 2049 n_com []) 4294967290 = Ok tt.
Proof.
  apply (checkValidityPeriod_window (MkRRSIG TypeNS 15 1 300 100 4294967000 2049 n_com []) 4294967290 396);
    [compute_decide|lia|vm_compute; reflexivity|vm_compute; discriminate].
Defined.

(** ** Denial of existence *)

(** A zone given by its names and their types. *)
Definition zone_data : Type := list (list gostring * list Z).
Definition zowns (z : zone_data) (k : list gostring) : Prop := k ∈ z.*1.
Definition ztypes (z : zone_data) (k : list gostring) (t : Z) : Prop :=
  exists ts, (k, ts) ∈ z /\ t ∈ ts.

Lemma ztypes_owns z k t : ztypes z k t -> zowns z k.
Proof. intros (ts & Hin & _). by apply (list_elem_of_fmap_2' fst _ (k, ts)). Defined.

#[local] Instance in_gap_dec o n k : Decision (in_gap name_cmp o n k).
Proof. unfold in_gap. case_decide; apply _. Defined.

Definition truthfulb (z : zone_data) (n : nsecRecord) : bool :=
  let o := key (nr_owner n) in
  let x := key (ns_NextDomain (nr_rr n)) in
  bool_decide (o ∈ z.*1) && bool_decide (x ∈ z.*1) &&
  forallb (fun k => negb (bool_decide (in_gap name_cmp o x k))) z.*1 &&
  forallb (fun kt => negb (bool_decide (kt.1 = o)) || forallb (NSEC_TypeInBitmap (nr_rr n)) kt.2) z.

Lemma truthfulb_spec z n : truthfulb z n = true -> truthful (zowns z) (ztypes z) n.
Proof.
  unfold truthfulb. rewrite !andb_true_iff, !bool_decide_eq_true, !forallb_forall.
  intros [[[Ho Hx] Hg] Ht]. split_and!; [done|done| |].
  - intros k Hk Hown. apply list_elem_of_In in Hown. specialize (Hg k Hown).
    by rewrite bool_decide_true in Hg.
  - intros t Hb (ts & Hin & Hts). apply list_elem_of_In in Hin, Hts. specialize (Ht _ Hin).
    simpl in Ht. rewrite bool_decide_true in Ht by done. simpl in Ht.
    rewrite forallb_forall in Ht. specialize (Ht t Hts). congruence.
Defined.

Definition n_ab : gostring := str "a.b.example.com".
Definition n_b : gostring := str "b.example.com".
Definition n_zz : gostring := str "zz.example.com".

(** A zone with a name, [b.example.com], that only exists as a branch. *)
Definition ex_zone : zone_data := [(key n_example, [TypeNS; TypeSOA]); (key n_ab, [TypeA])].

Definition nsec_rr (owner next : gostring) (bitmap : list Z) : RR :=
  MkRR owner TypeNSEC ClassIN 300 0 None None [] [] None
    (match encodeName next with Ok w => w | Err _ => [] end ++ bitmap).

Definition ex_nsecs : list RR :=
  [nsec_rr n_example n_ab [0; 1; 34]; nsec_rr n_ab n_example [0; 1; 64]].

Lemma ex_nsecs_truthful : nsecs_truthful (zowns ex_zone) (ztypes ex_zone) ex_nsecs.
Proof.
  split; [vm_compute; discriminate|].
  assert (H : forallb (fun n => name_wf (nr_owner n) && name_wf (ns_NextDomain (nr_rr n)) &&
    truthfulb ex_zone n) (nsec_records ex_nsecs) = true) by (vm_compute; reflexivity).
  rewrite forallb_forall in H. intros n Hn%list_elem_of_In. specialize (H n Hn).
  rewrite !andb_true_iff in H. destruct H as [[H1 H2] H3]. split; [done|by apply truthfulb_spec].
Defined.

Lemma ProveNameError_sound_witness :
  ProveNameError (H := toy_crypto) ex_nsecs n_zz = Ok tt /\
  ~ zone_has (zowns ex_zone) (ztypes ex_zone) (key n_zz) TypeA.
Proof.
  assert (E : ProveNameError (H := toy_crypto) ex_nsecs n_zz = Ok tt) by (vm_compute; reflexivity).
  split; [exact E|]. refine (ProveNameError_sound (zowns ex_zone) (ztypes ex_zone)
    (ztypes_owns ex_zone) (H := toy_crypto) ex_nsecs n_zz TypeA ex_nsecs_truthful _ E).
  vm_compute; reflexivity.
Defined.

Lemma ProveNoData_sound_witness :
  ProveNoData (H := toy_crypto) ex_nsecs n_b TypeA = Ok tt /\
  ~ zone_has (zowns ex_zone) (ztypes ex_zone) (key n_b) TypeA.
Proof.
  assert (E : ProveNoData (H := toy_crypto) ex_nsecs n_b TypeA = Ok tt) by (vm_compute; reflexivity).
  split; [exact E|]. refine (ProveNoData_sound (zowns ex_zone) (ztypes ex_zone)
    (ztypes_owns ex_zone) (H := toy_crypto) ex_nsecs n_b TypeA ex_nsecs_truthful _ E).
  vm_compute; reflexivity.
Defined.

Lemma ProveNoDS_sound_witness :
  ProveNoDS (H := toy_crypto) ex_nsecs n_ab = Ok tt /\ ~ ztypes ex_zone (key n_ab) TypeDS.
Proof.
  assert (E : ProveNoDS (H := toy_crypto) ex_nsecs n_ab = Ok tt) by (vm_compute; reflexivity).
  split; [exact E|]. refine (ProveNoDS_sound (zowns ex_zone) (ztypes ex_zone)
    (ztypes_owns ex_zone) (H := toy_crypto) ex_nsecs n_ab _ _ E); [|vm_compute; reflexivity].
  destruct ex_nsecs_truthful as [Hne Hall]. split; [exact Hne|]. intros n Hn.
  destruct (Hall n Hn) as [Hwf Ht]. split; [exact Hwf|]. intros _. exact Ht.
Defined.

(** A root zone with nothing below it, and a hash telling the root from the rest. *)
Definition root_crypto : Crypto := {|
  sha1 := fun l => if bool_decide (l = [0]) then [0] else [128];
  sha256 := fun l => l; sha384 := fun l => l; sha512 := fun l => l;
  rsa_VerifyPKCS1v15 := fun _ _ _ _ _ => false;
  ed25519_Verify := fun _ _ _ => false;
  IsOnCurve := fun _ _ _ => false;
  ecdsa_Verify := fun _ _ _ _ _ _ => false |}.

Definition root_zone : zone_data := [([], [TypeNS; TypeSOA])].

Definition root_nsec3 (flags : Z) : nsec3Record :=
  Nsec3.MkNsec3Record (str "00") [dot] (MkNSEC3 1 flags 0 [] [0] [0; 1; 34]).

Lemma canonicalName_root name w : canonicalName name = Ok w -> w = [0] <-> key name = [].
Proof.
  intros H. rewrite key_map. split.
  - intros ->. apply canonicalName_spec in H as (ls & Hw & Hv & Hls).
    destruct ls as [|l ls]; [by destruct (splitName name)|].
    apply (f_equal length) in Hw. rewrite length_app, length_wire_labels in Hw.
    unfold wire_len in Hw. simpl in Hw. lia.
  - intros Hk. rewrite canonicalName_splitName in H.
    destruct (splitName name) as [|l ls]; [by injection H as <-|].
    apply (f_equal length) in Hk. rewrite length_reverse in Hk. simpl in Hk. lia.
Defined.

Lemma root_hash flags name h :
  Nsec3.hashName (H := root_crypto) (root_nsec3 flags) name = Ok h ->
  (key name = [] /\ h = str "00") \/ (key name <> [] /\ h = str "G0").
Proof.
  unfold Nsec3.hashName. cbn [root_nsec3 Nsec3.rr n3_Algorithm n3_Iterations n3_Salt].
  change (negb (1 =? Nsec3.nsec3HashSHA1)) with false.
  change (Nsec3.maxNSEC3Iterations <? 0) with false. cbv iota.
  destruct (canonicalName name) as [w|] eqn:E; [|done]. intros [= <-].
  pose proof (canonicalName_root _ _ E) as Hw. unfold Nsec3.iterated_hash. cbn [Nat.iter Z.to_nat].
  cbn [sha1 root_crypto]. rewrite app_nil_r. destruct (decide (w = [0])) as [->|Hne].
  - left. split; [by apply Hw|]. by rewrite bool_decide_true.
  - right. split; [by rewrite <-Hw|]. by rewrite bool_decide_false.
Defined.

Lemma root_in_tree k : in_tree (zowns root_zone) k -> k = [].
Proof.
  intros (k' & Hp & Hk). unfold zowns, root_zone in Hk.
  apply elem_of_cons in Hk as [->|Hk%elem_of_nil]; [by apply prefix_nil_inv in Hp|done].
Defined.

Lemma root_nsec3_truthful flags :
  truthful3 (zowns root_zone) (ztypes root_zone) (H := root_crypto) [] (root_nsec3 flags).
Proof.
  split; intros name h Hh%root_hash Hm.
  - destruct Hh as [[Hk ->]|[_ ->]]; [|by vm_compute in Hm]. rewrite Hk.
    split_and!; [apply prefix_nil|exists []; split; [done|unfold zowns; compute_decide]|].
    intros t Ht (ts & Hin & Hts). unfold root_zone in Hin.
    apply elem_of_cons in Hin as [[= ->]|Hin%elem_of_nil]; [|done].
    apply elem_of_cons in Hts as [->|Hts]; [by vm_compute in Ht|].
    apply elem_of_cons in Hts as [->|Hts%elem_of_nil]; [by vm_compute in Ht|done].
  - intros _. destruct Hh as [[_ ->]|[Hk ->]]; [by vm_compute in Hm|].
    destruct (OptOut _).
    + intros k Hp t (ts & Hin & _). apply elem_of_cons in Hin as [[= -> _]|Hin%elem_of_nil]; [|done].
      by apply prefix_nil_inv in Hp.
    + by intros Ht%root_in_tree.
Defined.

Lemma root_truthful flags :
  nsec3s_truthful (zowns root_zone) (ztypes root_zone) (H := root_crypto) [] [root_nsec3 flags].
Proof. intros n [->|Hn%elem_of_nil]%elem_of_cons; [apply root_nsec3_truthful|done]. Defined.

Lemma proveNameErrorNSEC3_sound_witness :
  proveNameErrorNSEC3 (H := root_crypto) [root_nsec3 0] n_com [dot] = Ok tt /\
  proveNameErrorNSEC3 (H := root_crypto) [root_nsec3 1] n_com [dot] = Ok tt /\
  ~ zone_has (zowns root_zone) (ztypes root_zone) (key n_com) TypeNS /\
  ~ zone_has (zowns root_zone) (ztypes root_zone) (key n_com) TypeA.
Proof.
  assert (E : forall flags, flags = 0 \/ flags = 1 -> proveNameErrorNSEC3 (H := root_crypto) [root_nsec3 flags] n_com [dot] = Ok tt)
    by (intros flags [-> | ->]; vm_compute; reflexivity).
  split; [apply E; by left|]. split; [apply E; by right|]. split.
  - refine (proj2 (proveNameErrorNSEC3_sound (zowns root_zone) (ztypes root_zone)
      (ztypes_owns root_zone) (H := root_crypto) [] [root_nsec3 0] n_com [dot] TypeNS
      (root_truthful 0) _ (E 0 _)) _); [vm_compute; reflexivity|by left|].
    intros n [->|Hn%elem_of_nil]%elem_of_cons; [vm_compute; reflexivity|done].
  - refine (proj1 (proveNameErrorNSEC3_sound (zowns root_zone) (ztypes root_zone)
      (ztypes_owns root_zone) (H := root_crypto) [] [root_nsec3 1] n_com [dot] TypeA
      (root_truthful 1) _ (E 1 _)) _); [vm_compute; reflexivity|by right|discriminate].
Defined.

Lemma proveNoDataNSEC3_sound_witness :
  proveNoDataNSEC3 (H := root_crypto) [root_nsec3 0] [dot] TypeA [dot] = Ok tt /\
  ~ ztypes root_zone (key [dot]) TypeA.
Proof.
  assert (E : proveNoDataNSEC3 (H := root_crypto) [root_nsec3 0] [dot] TypeA [dot] = Ok tt)
    by (vm_compute; reflexivity).
  split; [exact E|]. refine (proj1 (proveNoDataNSEC3_sound (zowns root_zone) (ztypes root_zone)
    (ztypes_owns root_zone) (H := root_crypto) [] [root_nsec3 0] [dot] TypeA [dot]
    (root_truthful 0) _ E) _); [vm_compute; reflexivity|discriminate].
Defined.

Lemma proveNoDSNSEC3_sound_witness :
  proveNoDSNSEC3 (H := root_crypto) [root_nsec3 1] n_com = Ok tt /\
  ~ ztypes root_zone (key n_com) TypeDS.
Proof.
  assert (E : proveNoDSNSEC3 (H := root_crypto) [root_nsec3 1] n_com = Ok tt)
    by (vm_compute; reflexivity).
  split; [exact E|]. refine (proveNoDSNSEC3_sound (zowns root_zone) (ztypes root_zone)
    (ztypes_owns root_zone) (H := root_crypto) [] [root_nsec3 1] n_com (root_truthful 1) _ E).
  apply prefix_nil.
Defined.

Lemma base32Hex_order_witness :
  base32Hex [0; 255] = str "03VG" /\
  Compare (base32Hex [0; 255]) (base32Hex [1; 0]) = Compare [0; 255] [1; 0].
Proof.
  split; [vm_compute; reflexivity|]. apply base32Hex_order; [compute_decide|compute_decide|reflexivity].
Defined.

(** ** Caches *)

From S2P Require Import DelegationCache.
Import Cache CacheSpec.

Definition ex_store : store := newStore (MkConfig 2 0 0).
Definition ex_store1 : store := put ex_store 0 n_www TypeA RCodeSuccess [ex_a] [] true.

Lemma ex_store1_ok : store_ok 0 ex_store1.
Proof. apply (put_ok 0); [apply newStore_ok|lia]. Defined.

Lemma lookup_sound_witness :
  exists k e, (k, e) ∈ recency (s_lru ex_store1) /\ answers_for k n_www TypeA /\
    100 < en_expiry e /\ (lookup ex_store1 100 n_www TypeA).2 = Some (hit_of e 100).
Proof.
  pose proof (lookup_sound 0 ex_store1 100 n_www TypeA ex_store1_ok) as H.
  destruct (lookup ex_store1 100 n_www TypeA).2 as [h|] eqn:E;
    [|vm_compute in E; discriminate E].
  destruct H as (k & e & H1 & H2 & H3 & -> & _). exists k, e. auto.
Defined.

Lemma lookup_put_witness :
  exists left, (lookup ex_store1 (7 * Second) (str "WWW.example.com") TypeA).2 =
      Some (MkHit RCodeSuccess (withTTL [ex_a] left) (withTTL [] left) true) /\
    1 <= left <= 86400 /\ (left - 1) * Second < 0 + 300 * Second - 7 * Second.
Proof.
  apply (lookup_put 0 ex_store 0 (7 * Second) n_www (str "WWW.example.com") TypeA RCodeSuccess
    [ex_a] [] true TypeA 300); [apply newStore_ok|vm_compute; reflexivity|lia| |vm_compute; reflexivity].
  vm_compute. split; [discriminate|reflexivity].
Defined.

Definition ex_store_nx : store := put ex_store 0 n_example TypeA RCodeNameError [] [] false.

Lemma nxdomain_cut_witness :
  (lookup ex_store_nx Second n_ab TypeMX).2 = Some (MkHit RCodeNameError [] [] false).
Proof.
  apply (nxdomain_cut 0 ex_store 0 Second n_example n_ab TypeA TypeMX [] [] false 60);
    [apply newStore_ok|vm_compute; reflexivity|lia| | |vm_compute; reflexivity|].
  - vm_compute. split; [discriminate|reflexivity].
  - right. exists (str "a.b"). vm_compute. reflexivity.
  - intros anc Hl _.
    destruct (l_entries (s_lru ex_store_nx) !! (anc, anyType)) as [[id e]|] eqn:El; [exfalso|exact El].
    assert (Hin : (anc, anyType) ∈ (recency (s_lru ex_store_nx)).*1).
    { apply (list_elem_of_fmap_2' fst _ ((anc, anyType), e)); [|done].
      apply recency_elem; [apply (put_ok 0 ex_store 0); [apply newStore_ok|lia]|eauto]. }
    assert (Hr : (recency (s_lru ex_store_nx)).*1 = [normalizeKey n_example anyType])
      by (vm_compute; reflexivity).
    rewrite Hr in Hin. apply elem_of_cons in Hin as [[= ->]|Hin%elem_of_nil]; [|done].
    vm_compute in Hl. lia.
Defined.

(** A handler that counts its calls, the count being the time, and replies without
    data, in front of it a cache. *)
Definition ex_next : Handler Z := fun _ req =>
  atomic (fun n => (n + 1, tt)) ≫= fun _ : unit =>
  Ret [MkMessage (MkHeader (h_ID (m_Header req)) true 0 false false (h_RD (m_Header req)) true false false 0 0 0 0 0)
         (m_Questions req) [] [] []].

Lemma ex_next_serves : Serves False ex_next (fun _ => True) Z.le (fun _ _ => True).
Proof.
  split; [apply _|]. intros addr req n _. eapply (obeys_bind False _ _ _ _ (fun _ _ => True)).
  - apply obeys_atomic. intros m _ _. cbn. split_and!; [done|lia|done].
  - intros m [] _. apply obeys_reply; [by split_and!|done].
Defined.

Definition ex_query : Message :=
  MkMessage (MkHeader 1 false 0 false false true false false false 0 0 0 0 0) [MkQuestion n_www TypeA ClassIN] [] [] [].

Lemma ServeDNS_cache_witness :
  obeys False (fun cs => (store_ok cs.2 cs.1 /\ s_maxTTL cs.1 = 86400) /\ True)
    (fun cs cs' => anything cs.1 cs'.1 /\ cs.2 <= cs'.2) (ex_store, 0) (Cache.ServeDNS id ex_next OtherAddr ex_query)
    (fun _ out => Forall (ttls_within 86400) out).
Proof.
  apply (ServeDNS_cache False id ex_next (fun _ => True) Z.le (fun _ _ => True) OtherAddr ex_query 86400 (ex_store, 0)
    ex_next_serves); [auto| |reflexivity|reflexivity].
  split; [simpl; lia|]. constructor; [|constructor]. apply (bool_decide_unpack _). vm_compute. exact I.
Defined.

Definition ex_dcache : delegationCache := newDelegationCache 2.

Lemma ex_dcache_ok : dcache_ok ex_dcache.
Proof.
  split; [apply empty_lru_ok|vm_compute; lia|vm_compute; lia|].
  intros k e Hin. by apply elem_of_nil in Hin.
Defined.

Definition ex_ip : IP := Some [192; 0; 2; 53].

Lemma put_bounded_witness :
  exists c' e, DelegationCache.put (Some ex_dcache) 0 n_com [ex_ip] 300 true = Some c' /\ dcache_ok c' /\
    recency (dc_lru c') = take (dc_maxEntries ex_dcache) ((normalizeZone n_com, e) ::
      without (normalizeZone n_com) (recency (dc_lru ex_dcache))) /\
    de_servers e = [ex_ip] /\ de_secure e = true /\
    0 + 60 * NanosPerSecond <= de_expiry e <= 0 + 604800 * NanosPerSecond.
Proof. apply (put_bounded ex_dcache 0 n_com [ex_ip] 300 true ex_dcache_ok); [discriminate|lia]. Defined.

Definition ex_dcache1 : delegationCache := put_delegation ex_dcache 0 n_com [ex_ip] 300 true.

Lemma closestEnclosing_deepest_witness :
  exists zone servers secure c', closestEnclosing (Some ex_dcache1) 1 n_www =
    (Some c', Some (zone, servers, secure)) /\ zone = n_com /\ servers <> [].
Proof.
  assert (Hok : dcache_ok ex_dcache1).
  { apply (put_delegation_spec ex_dcache 0 n_com [ex_ip] 300 true ex_dcache_ok). discriminate. }
  destruct (closestEnclosing_deepest ex_dcache1 1 n_www Hok) as (c' & found & E & _ & _ & _ & H).
  assert (Ef : (closestEnclosing (Some ex_dcache1) 1 n_www).2 = Some (n_com, [ex_ip], true))
    by (vm_compute; reflexivity).
  rewrite E in Ef. cbn [snd] in Ef. subst found. exists n_com, [ex_ip], true, c'.
  split; [exact E|]. split; [reflexivity|apply H].
Defined.

(** [PackQuery] of a mixed-case name with a trailing dot. *)
Lemma PackQuery_Pack_witness :
  is_u16 4660 /\ name_ok n_www = true /\
  exists buf, PackQuery 4660 n_www TypeAAAA = Ok buf /\ length buf = 33%nat /\
    Pack (query_message 4660 n_www TypeAAAA) = Ok buf.
Proof.
  assert (H1 : is_u16 4660) by (unfold is_u16; lia).
  assert (H2 : name_ok n_www = true) by (vm_compute; reflexivity).
  split; [done|split; [done|]]. rewrite <-(PackQuery_Pack 4660 n_www TypeAAAA H1 H2).
  eexists. split; [vm_compute; reflexivity|split; vm_compute; reflexivity].
Defined.
