(* ===== verification/WitnessNet.v ===== *)
(** A small network to run the resolver against: one server that speaks for a
    signed root, and the resolver's theorems applied to what it answers. *)

From stdpp Require Import strings.
From S2P Require Import Prelude Prog GoUnicode GoStrings GoNet DnsMsg Encoder Decoder WireSpec WireCalculus WireNames WireRoundTrip DecoderSafe DnssecRecords DnssecNames Verify Denial Lru DelegationCache ServerChoice Privacy Interface Upstream UpstreamSpec TrustAnchor Validate ValidateSpec Resolve ResolveSpec Resolution Witnesses.

Open Scope list_scope.
Open Scope Z_scope.

(** ** Records of a signed root *)

(** Two keys: one of an algorithm the resolver knows, one it does not. *)
Definition net_key : DNSKEY := MkDNSKEY 257 3 15 (replicate 32 7).
Definition odd_key : DNSKEY := MkDNSKEY 257 3 99 [1; 2; 3; 4].

Definition raw_rr (owner : gostring) (type : Z) (raw : list Z) : RR :=
  MkRR owner type ClassIN 300 (Z.of_nat (length raw)) None None [] [] None raw.

Definition key_rr (k : DNSKEY) : RR := raw_rr [dot] TypeDNSKEY (key_rdata k).

Definition root_wire : list Z := [0].

(** The signature of a set by a key: in the toy cryptography, the signed data. *)
Definition sign (k : DNSKEY) (labels : Z) (rrset : list RR) : RR :=
  match rrset with
  | [] => raw_rr [dot] TypeRRSIG []
  | rr :: _ =>
    let sig := MkRRSIG (rr_Type rr) (dk_Algorithm k) labels 300 4000 1000 (KeyTag k) [dot] [] in
    let data := match signedData rrset sig with Ok d => d | Err _ => [] end in
    raw_rr (rr_Name rr) TypeRRSIG
      (be16 (rr_Type rr) ++ [dk_Algorithm k; labels] ++ be32 300 ++ be32 4000 ++ be32 1000 ++
       be16 (KeyTag k) ++ root_wire ++ data)
  end.

Definition n_a : gostring := [97].
Definition n_c : gostring := [99].
Definition n_u : gostring := [117].
Definition n_x : gostring := [120].

Definition a_rr (owner : gostring) : RR :=
  MkRR owner TypeA ClassIN 300 4 (Some [192; 0; 2; 1]) None [] [] None [].
Definition cname_rr (owner target : gostring) : RR :=
  MkRR owner TypeCNAME ClassIN 300 0 None None [] target None [].
Definition net_nsec : RR := raw_rr [dot] TypeNSEC ([1; 117; 0] ++ [0; 1; 34]).
Definition net_nsec2 : RR := raw_rr n_u TypeNSEC ([0] ++ [0; 1; 64]).

(** What the server knows: [a] has an address, [c] leads to [a], [u] is signed with
    the odd key only, nothing else exists. *)
Definition answers_for (name : gostring) (type : Z) : list RR * list RR * Z :=
  if (type =? TypeDNSKEY) && equalName name [dot] then
    ([key_rr net_key; key_rr odd_key; sign net_key 0 [key_rr net_key; key_rr odd_key]], [], 0)
  else if equalName name n_a then
    if type =? TypeA then ([a_rr n_a; sign net_key 1 [a_rr n_a]], [], 0) else ([], [], 0)
  else if equalName name n_c then
    ([cname_rr n_c n_a; sign net_key 1 [cname_rr n_c n_a]], [], 0)
  else if equalName name n_u then ([a_rr n_u; sign odd_key 1 [a_rr n_u]], [], 0)
  else ([], [net_nsec; sign net_key 0 [net_nsec]; net_nsec2; sign net_key 1 [net_nsec2]], RCodeNameError).

(** What a server answers: the records of the answer and authority sections and the
    RCODE, by name and type. *)
Abbreviation knowledge := (gostring -> Z -> list RR * list RR * Z).

Definition reply (know : knowledge) (packet : list Z) : option (list Z) :=
  match Unpack packet with
  | Ok msg =>
    match m_Questions msg with
    | [q] =>
      let '(answers, authorities, rcode) := know (q_Name q) (q_Type q) in
      match Pack (MkMessage
        (MkHeader (h_ID (m_Header msg)) true 0 true false false false false false rcode 0 0 0 0)
        [q] answers authorities []) with
      | Ok buf => if forallb (fun b => (0 <=? b) && (b <? 256)) buf then Some buf else None
      | Err _ => None
      end
    | _ => None
    end
  | Err _ => None
  end.

(** A quiet network: the clock stands still, nothing is lost. *)
Definition net_of (know : knowledge) : Env := {|
  clock := fun _ => 2000 * NanosPerSecond;
  rand_read := fun _ n => Some (replicate n 5);
  rand_shuffle := fun _ l => l;
  range_first := fun _ ks => match ks with k :: _ => k | [] => [] end;
  range_order := fun _ l => l;
  ctx_ended := fun _ => false;
  ctx_deadline := fun n => Some (2010 * NanosPerSecond);
  waiter_ended := fun _ _ => false;
  select_done := fun _ _ => true;
  dials := fun _ _ _ _ => true;
  udp_exchange := fun _ _ _ p => reply know p;
  tcp_exchange := fun _ _ _ _ => None |}.

Lemma reply_bytes know p d : reply know p = Some d -> bytes d.
Proof.
  unfold reply. destruct (Unpack p) as [m|]; [|done]. destruct (m_Questions m) as [|q [|]]; try done.
  destruct (know _ _) as [[answers authorities] rcode]. destruct (Pack _) as [buf|]; [|done].
  destruct (forallb _ buf) eqn:E; [|done]. intros [= <-]. rewrite forallb_forall in E.
  apply Forall_forall. intros x Hx%list_elem_of_In%E. unfold is_u8. lia.
Defined.

Lemma net_of_ok know : env_ok (H := net_of know).
Proof.
  split; try done.
  - intros n e t p d. apply reply_bytes.
  - intros n ks Hks. destruct ks; [done|]. by left.
Defined.

#[local] Instance net : Env := net_of answers_for.
#[local] Existing Instance toy_crypto.

Definition net_ok : env_ok := net_of_ok answers_for.

Definition net_anchor : DS := MkDS (KeyTag net_key) 15 2 ([0] ++ keyRDATA net_key).
Definition net_resolver : Resolver :=
  MkResolver (Some [Some [192; 0; 2; 53]]) [] false true (Some [net_anchor]) true false 0.

Definition run_program {A} (m : M A) (w : world) : world * result resolve_error A :=
  default (w, Err EFuel) (exec m w).

Definition run (name : gostring) (type : Z) : world * result resolve_error Result :=
  run_program (ResolveRR net_resolver false name type) new_world.

(** ** The theorems at work *)

Definition net_world_ok : world_ok net_resolver new_world := new_world_ok net_resolver.

Lemma run_a : (run n_a TypeA).2 = Ok (MkResult [a_rr n_a] [] true).
Proof. vm_compute. reflexivity. Defined.

Definition c_answers : list RR := [MkRR n_c TypeCNAME ClassIN 300 3 None None [] n_a None []; a_rr n_a].

Lemma run_c : (run n_c TypeA).2 = Ok (MkResult c_answers [] true).
Proof. vm_compute. reflexivity. Defined.

Lemma run_u : (run n_u TypeA).2 = Ok (MkResult [a_rr n_u] [] false).
Proof. vm_compute. reflexivity. Defined.

Lemma run_x : (run n_x TypeA).2 = Err (NXDOMAINError n_x None).
Proof. vm_compute. reflexivity. Defined.

Lemma full name : bool_decide (labels_full name) = true -> labels_full name.
Proof. apply bool_decide_eq_true. Defined.

Lemma run_returns name type x : labels_full name -> (run name type).2 = Ok x ->
  may_return net_resolver (ResolveRR net_resolver false name type) (Ok x).
Proof.
  intros Hn E. unfold run, run_program in E.
  pose proof (ResolveRR_inv net_resolver false name type net_ok Hn new_world) as Hob.
  destruct (exec _ new_world) as [[w' y]|] eqn:Ex; [|discriminate E]. cbn in E. subst y. exists new_world.
  exact (exec_returns False _ anything _ _ new_world w' (Ok x) Hob net_world_ok Ex).
Defined.

Lemma run_returns_error name type e : labels_full name -> (run name type).2 = Err e -> e <> EFuel ->
  may_return net_resolver (ResolveRR net_resolver false name type) (Err e).
Proof.
  intros Hn E He. unfold run, run_program in E.
  pose proof (ResolveRR_inv net_resolver false name type net_ok Hn new_world) as Hob.
  destruct (exec _ new_world) as [[w' y]|] eqn:Ex; [|cbn in E; congruence]. cbn in E. subst y. exists new_world.
  exact (exec_returns False _ anything _ _ new_world w' (Err e) Hob net_world_ok Ex).
Defined.

(** Two resolutions that take turns. *)
Definition asked_c : asked := MkAsked n_c TypeA false.
Definition asked_a : asked := MkAsked n_a TypeA false.
Definition two_resolutions : list (turn asked) := [Begin asked_c; Move 0; Begin asked_a] ++ robin 100 2.
Definition two_world : world := (play (resolving net_resolver) new_world two_resolutions).1.
Definition two_goroutines : list (asked * M Result) := (play (resolving net_resolver) new_world two_resolutions).2.

Lemma two_done :
  result_of two_goroutines 0 = Some (asked_c, Ok (MkResult c_answers [] true)) /\
  result_of two_goroutines 1 = Some (asked_a, Ok (MkResult [a_rr n_a] [] true)).
Proof. vm_compute. by split. Defined.

Lemma ResolveRR_state_witness :
  world_ok net_resolver two_world /\ two_goroutines !! 0%nat = Some (asked_c, Ret (Ok (MkResult c_answers [] true))) /\
  promised net_resolver asked_c (Ok (MkResult c_answers [] true)).
Proof.
  assert (H0 : two_goroutines !! 0%nat = Some (asked_c, Ret (Ok (MkResult c_answers [] true))))
    by (apply result_of_Some; apply two_done).
  destruct (ResolveRR_state net_resolver new_world two_world two_goroutines net_ok) as [Hw Hr].
  - by left.
  - apply play_reach. change (begun two_resolutions) with [asked_c; asked_a].
    constructor; [by apply full|]. constructor; [by apply full|constructor].
  - split; [exact Hw|]. split; [exact H0|]. apply (Hr 0%nat asked_c _ H0).
Defined.

Lemma ResolveRR_answers_witness :
  exists chain name tail, linked TypeA n_c chain name /\ c_answers = chain ++ tail /\
    Forall (answering TypeA name) tail /\ (length chain < maxCNAMEChain)%nat /\
    ([] = [] :> list RR \/ tail = [] /\ exists soa, [] = [soa] /\ is_soa soa = true) /\
    well_formed (MkResult c_answers [] true).
Proof.
  apply (ResolveRR_answers net_resolver false n_c TypeA (MkResult c_answers [] true));
    [apply net_ok|by apply full|apply run_returns; [by apply full|apply run_c]].
Defined.

Lemma ResolveRR_secure_witness :
  r_validate net_resolver = true /\ false = false /\
  exists chain name tail, linked TypeA n_c chain name /\ c_answers = chain ++ tail /\
    (ascii_names c_answers -> vetted [net_anchor] (visited n_c chain) c_answers) /\
    (tail = [] -> denied [net_anchor] name (fun nsecs => ProveNoData nsecs name TypeA)).
Proof.
  apply (ResolveRR_secure net_resolver false n_c TypeA (MkResult c_answers [] true));
    [apply net_ok|by apply full|apply run_returns; [by apply full|apply run_c]|reflexivity].
Defined.

Lemma ResolveRR_no_downgrade_witness :
  exists chain name tail, linked TypeA n_u chain name /\ [a_rr n_u] = chain ++ tail /\
    excused [net_anchor] (visited n_u chain).
Proof.
  apply (ResolveRR_no_downgrade net_resolver false n_u TypeA (MkResult [a_rr n_u] [] false));
    [apply net_ok|by apply full|reflexivity|reflexivity|apply run_returns; [by apply full|apply run_u]|reflexivity].
Defined.

Lemma ResolveRR_nxdomain_witness :
  (forall rr, None = Some rr -> is_soa rr = true /\ decoded_rr rr) /\
  (exists chain, linked TypeA n_x chain n_x) /\
  (r_validate net_resolver = true -> false = false ->
    denied [net_anchor] n_x (fun nsecs => ProveNameError nsecs n_x) \/ excuse [net_anchor] n_x).
Proof.
  apply (ResolveRR_nxdomain net_resolver false n_x TypeA n_x None);
    [apply net_ok|by apply full|apply run_returns_error; [by apply full|apply run_x|discriminate]].
Defined.

Lemma ResolveRR_ends_witness :
  exec (ResolveRR net_resolver false n_c TypeA) new_world <> None /\
  same (resolve net_resolver false 200 n_c TypeA 0 0) (ResolveRR net_resolver false n_c TypeA).
Proof.
  destruct (ResolveRR_ends net_resolver false n_c TypeA new_world) as ((w' & x & E & _) & _ & Hfuel);
    [apply net_ok|by apply full|apply net_world_ok|].
  split; [rewrite E; discriminate|]. apply Hfuel. apply (bool_decide_unpack _). vm_compute. exact I.
Defined.

Lemma queryServers_asks_witness :
  exists w' x, exec (queryServers net_resolver [Some [192; 0; 2; 53]; Some [10; 0; 0; 1]] n_a TypeA) new_world = Some (w', x) /\
  (length (w_sent w') <= 16)%nat /\ w_delegations w' = w_delegations new_world /\
  match x with
  | Ok (msg, s) => s ∈ [Some [192; 0; 2; 53]; Some [10; 0; 0; 1]] /\ allowsUpstream net_resolver s = true /\
      accepted net_resolver s n_a TypeA msg
  | Err e => server_error e
  end.
Proof.
  destruct (queryServers_asks net_resolver [Some [192; 0; 2; 53]; Some [10; 0; 0; 1]] n_a TypeA new_world net_ok)
    as (w' & x & E & (sent & Hs & Hl & _) & Hd & _ & _ & _ & Hx).
  exists w', x. split; [exact E|]. split; [rewrite Hs, length_app; simpl in *; lia|]. by split.
Defined.

Lemma allowsUpstream_blocks_witness :
  To4 (Some [192; 168; 1; 1]) = Some [192; 168; 1; 1] /\
  allowsUpstream net_resolver (Some [192; 168; 1; 1]) = negb (in_blocks refused_v4 [192; 168; 1; 1]).
Proof.
  split; [reflexivity|].
  apply (allowsUpstream_blocks net_resolver (Some [192; 168; 1; 1]) [192; 168; 1; 1]); [reflexivity| |reflexivity].
  repeat constructor; unfold is_u8; lia.
Defined.

Lemma minimizedQName_label_witness :
  labelsOf (minimizedQName n_www n_com) = [str "Example"%string; str "com"%string] /\
  isSubdomainOrEqual n_www (minimizedQName n_www n_com) = true.
Proof.
  split; [vm_compute; reflexivity|].
  apply (minimizedQName_label n_www n_com). by apply full.
Defined.

Definition net_rtts : rttTracker := {[ ip_text (Some [192; 0; 2; 1]) := 40000000 ]}.

Lemma order_observe_witness :
  rtt_get (observe (Some net_rtts) (fun ks => hd [] ks) (Some [192; 0; 2; 1]) 80000000) (Some [192; 0; 2; 1]) = 50000000 /\
  order (Some net_rtts) [Some [192; 0; 2; 2]; Some [192; 0; 2; 1]] ≡ₚ [Some [192; 0; 2; 2]; Some [192; 0; 2; 1]].
Proof.
  split; [vm_compute; reflexivity|].
  apply (order_observe (Some net_rtts) (fun ks => hd [] ks) (Some [192; 0; 2; 1]) 80000000
    [Some [192; 0; 2; 2]; Some [192; 0; 2; 1]]).
  - split; [vm_compute; lia|]. intros k d Hk. unfold net_rtts in Hk. apply lookup_singleton_Some in Hk as [_ <-]. lia.
  - lia.
  - intros [|k ks] Hks; [done|by left].
Defined.
