(* ===== verification/WitnessServer.v ===== *)
(** The server in front of the small network, and the theorems about its parts
    applied to what happens there. *)

From stdpp Require Import strings.
From Stdlib Require Import SpecFloat.
From S2P Require Import Prelude Prog GoUnicode GoStrings GoText GoFloat GoTime GoNet DnsMsg Encoder Decoder WireSpec WireCalculus WireNames WireRoundTrip DecoderSafe DnssecRecords DnssecNames Verify Denial Lru Cache CacheSpec DelegationCache ServerChoice Privacy Interface Upstream UpstreamSpec TrustAnchor AnchorFile Validate ValidateSpec Resolve ResolveSpec Resolution Handler Acl RateLimit SingleFlight SingleFlightProg SingleFlightRefine DnsServer NetText Config Chain Network Witnesses WitnessNet.

Open Scope list_scope.
Open Scope Z_scope.

#[local] Existing Instance net.
#[local] Existing Instance toy_crypto.

(** ** The handler *)

Definition query (id : Z) (name : gostring) (qtype : Z) (opt : list RR) : Message :=
  MkMessage (MkHeader id false 0 false false true false false false 0 0 0 0 0) [MkQuestion name qtype ClassIN] [] [] opt.

Definition localhost : net_Addr := UDPAddr (Some [127; 0; 0; 1]).
Definition stranger : net_Addr := UDPAddr (Some [203; 0; 113; 9]).

Lemma query_proper id name qtype opt : bool_decide (labels_full name) = true -> proper_query (query id name qtype opt).
Proof. intros H%bool_decide_eq_true. split; [simpl; lia|by constructor]. Defined.

(** What a program leaves when it runs alone. *)
Definition alone {S A} (p : prog S A) (s : S) (a : A) : S * A := default (s, a) (exec p s).

Lemma ServeDNS_outcome_witness :
  exists msg, (alone (Handler.ServeDNS net_resolver localhost (query 7 n_a TypeA [])) new_world []).2 = [msg] /\
    h_AD (m_Header msg) = true /\ m_Answers msg = [a_rr n_a] /\
    vouched_reply net_resolver (query 7 n_a TypeA []) msg.
Proof.
  assert (Hp : proper_query (query 7 n_a TypeA [])) by by apply query_proper.
  destruct (ServeDNS_outcome net_resolver localhost (query 7 n_a TypeA []) new_world net_ok net_world_ok Hp)
    as [(w' & out & E) H].
  pose proof (serves_obeys (Serves := Handler.ServeDNS_serves net_resolver net_ok) localhost (query 7 n_a TypeA []) new_world Hp) as Hob.
  destruct (H out (exec_returns False _ anything _ _ new_world w' out Hob net_world_ok E)) as (msg & -> & _ & Hv & _ & _).
  assert (Hc : match (alone (Handler.ServeDNS net_resolver localhost (query 7 n_a TypeA [])) new_world []).2 with
    | [m] => h_AD (m_Header m) = true /\ m_Answers m = [a_rr n_a] | _ => False end) by (vm_compute; by split).
  unfold alone in Hc |- *. rewrite E in Hc |- *. cbn [default snd] in Hc |- *. destruct Hc as [H1 H2].
  exists msg. by split_and!.
Defined.

Lemma Wrap_exact_witness :
  permits LoopbackOnly localhost = true /\ permits LoopbackOnly stranger = false /\
  exists msg, Acl.Wrap (Handler.ServeDNS net_resolver) LoopbackOnly stranger (query 7 n_a TypeA []) = Ret [msg] /\
    h_RCode (m_Header msg) = RCodeRefused.
Proof.
  split; [vm_compute; reflexivity|]. split; [vm_compute; reflexivity|].
  destruct (Wrap_exact (Handler.ServeDNS net_resolver) LoopbackOnly stranger (query 7 n_a TypeA []))
    as (_ & _ & Hrefused & _).
  - constructor; [|constructor; [|constructor]]; (split; [|unfold BitLen; simpl; lia]);
      apply Forall_forall; intros x Hx; unfold is_u8; simpl in Hx; set_solver by lia.
  - apply (bool_decide_unpack _). vm_compute. exact I.
  - destruct (Hrefused ltac:(vm_compute; reflexivity)) as (msg & E & _ & Hr & _). by exists msg.
Defined.

(** ** Rate limiting *)

Definition a_client : Addr := [127; 0; 0; 1].
Definition a_limiter : limiter := newLimiter (of_Z 0) (of_Z 0).
Definition a_bucket : bucket := MkBucket (of_Z 1) 0.
Definition used_limiter : limiter := with_clients a_limiter {[ a_client := a_bucket ]}.

Lemma allow_spec_witness :
  let '(h', ok) := allow id used_limiter 10000000 a_client in
  ok = true /\ lm_clients h' !! a_client = Some (take_token used_limiter 10000000 a_bucket).1 /\ limiter_ok h'.
Proof.
  assert (Hok : limiter_ok used_limiter) by (unfold limiter_ok; vm_compute; lia).
  assert (Hseen : seen_by used_limiter 10000000).
  { intros ip b Hb. unfold used_limiter in Hb. cbn [with_clients lm_clients] in Hb.
    apply lookup_singleton_Some in Hb as [_ <-]. simpl. lia. }
  pose proof (allow_spec id (fun l => Permutation_refl l) used_limiter 10000000 a_client Hok Hseen) as H.
  assert (Hb : lm_clients used_limiter !! a_client = Some a_bucket) by (vm_compute; reflexivity).
  destruct (allow id used_limiter 10000000 a_client) as [h' ok]. rewrite Hb in H.
  destruct H as (H1 & _ & _ & _ & H2 & _). pose proof (f_equal fst H2) as E1. pose proof (f_equal snd H2) as E2. cbn [fst snd] in E1, E2.
  split; [|split; [exact E1|exact H1]]. rewrite E2. vm_compute. reflexivity.
Defined.

Lemma burst_exhausted_witness : answered_at id 150 a_limiter 0 a_client = 100%nat.
Proof. apply (burst_exhausted id a_limiter 0 a_client 150); vm_compute; reflexivity. Defined.

(** ** Shared queries *)

(** Two clients ask for the same, the second in other letters; the first is answered. *)
Definition good_reply (req msg : Message) : Prop := h_ID (m_Header msg) = h_ID (m_Header req).

Definition after (s : flight) (e : event) : flight := default s (step s e).

Definition one_client : flight := after no_flight (Arrive 1 (query 11 n_a TypeA [])).
Definition two_clients : flight := after one_client (Arrive 2 (query 12 [65; 46] TypeA [])).
Definition answered_client : flight := after two_clients (Write 1 (refusal_message (query 11 n_a TypeA []))).

Lemma answered_client_reachable : reachable good_reply answered_client.
Proof.
  assert (R1 : reachable good_reply one_client).
  { apply (reach_step good_reply no_flight (Arrive 1 (query 11 n_a TypeA []))); [apply reach_start|exact I|].
    vm_compute. reflexivity. }
  assert (R2 : reachable good_reply two_clients).
  { apply (reach_step good_reply one_client (Arrive 2 (query 12 [65; 46] TypeA []))); [exact R1|exact I|].
    vm_compute. reflexivity. }
  apply (reach_step good_reply two_clients (Write 1 (refusal_message (query 11 n_a TypeA [])))); [exact R2| |].
  - intros cl Hcl. assert (E : fl_clients two_clients !! 1%nat = Some (MkClient (query 11 n_a TypeA []) (Leading (n_a, TypeA) 0 None) []))
      by (vm_compute; reflexivity). rewrite E in Hcl. injection Hcl as <-. reflexivity.
  - vm_compute. reflexivity.
Defined.

Lemma one_flight_witness :
  fl_clients answered_client !! 1%nat = Some (MkClient (query 11 n_a TypeA [])
    (Leading (n_a, TypeA) 0 (Some (refusal_message (query 11 n_a TypeA [])))) [refusal_message (query 11 n_a TypeA [])]) /\
  Forall (rightful good_reply (query 11 n_a TypeA [])) [refusal_message (query 11 n_a TypeA [])].
Proof.
  assert (E : fl_clients answered_client !! 1%nat = Some (MkClient (query 11 n_a TypeA [])
    (Leading (n_a, TypeA) 0 (Some (refusal_message (query 11 n_a TypeA [])))) [refusal_message (query 11 n_a TypeA [])]))
    by (vm_compute; reflexivity).
  split; [exact E|].
  apply (proj2 (one_flight good_reply answered_client answered_client_reachable) _ _ E).
Defined.

(** The second client waits while the first returns and publishes; then its own step
    gives it its copy. *)
Definition over_client : flight := after (after answered_client (SingleFlight.Return 1)) (Publish 1).

Lemma answered_meanwhile : meanwhile good_reply 2 answered_client over_client.
Proof.
  eapply (meanwhile_step _ _ _ (SingleFlight.Return 1)); [exact I|exact I|vm_compute; reflexivity|].
  eapply (meanwhile_step _ _ _ (Publish 1)); [exact I|exact I|vm_compute; reflexivity|]. apply meanwhile_refl.
Defined.

Lemma waiter_released_witness :
  fl_clients (after over_client (Wake 2)) !! 2%nat = Some (MkClient (query 12 [65; 46] TypeA []) Finished
    [share (refusal_message (query 11 n_a TypeA [])) (query 12 [65; 46] TypeA [])]) /\
  exists id' k, collapses (query 12 [65; 46] TypeA []) = Some k /\
    fl_clients over_client !! 2%nat = Some (MkClient (query 12 [65; 46] TypeA []) (Waiting 0) []) /\
    exists req' w c, collapses req' = Some k /\ fl_clients over_client !! id' = Some (MkClient req' c w).
Proof.
  split; [vm_compute; reflexivity|].
  destruct (waiter_released good_reply answered_client 2 (query 12 [65; 46] TypeA []) 0 [])
    as (id' & k & Hk & Hlater); [apply answered_client_reachable|vm_compute; reflexivity|].
  destruct (Hlater over_client answered_meanwhile) as (Hw & req' & w & Hr & H).
  exists id', k. split; [exact Hk|]. split; [exact Hw|]. exists req', w.
  destruct H as [[H _]|[[H _]|[H _]]]; eexists; (split; [exact Hr|exact H]).
Defined.

(** ** The listeners *)

Definition bytes_of (r : result wire_error (list Z)) : list Z := match r with Ok b => b | Err _ => [] end.

Definition packet_a : list Z := Eval vm_compute in bytes_of (Pack (query 21 n_a TypeA [])).
Definition packet_x : list Z := Eval vm_compute in bytes_of (Pack (query 22 n_x TypeA [NewOPT 1232 false])).
Definition request_of (packet : list Z) : Message :=
  match Unpack packet with Ok m => m | Err _ => query 0 [] 0 [] end.

(** A handler that counts the queries it refuses. *)
Definition refuser : Handler nat := fun _ req =>
  atomic (fun n => (S n, tt)) ≫= fun _ : unit => Ret [refusal_message req].

(** Two queries in one go, and the beginning of a third. *)
Definition two_requests : list Message := [request_of packet_a; request_of packet_x].
Definition two_frames : list Z := concat (map frame [packet_a; packet_x]) ++ [0; 9; 1].

Lemma tcp_pipelined_witness :
  same (serve_stream refuser None two_frames)
    (replies ← answer_each refuser None two_requests; Ret (concat (map frame replies))) /\
  (alone (serve_stream refuser None two_frames) 0%nat []).1 = 2%nat /\
  length (alone (answer_each refuser None two_requests) 0%nat []).2 = 2%nat.
Proof.
  split; [|vm_compute; by split].
  apply (tcp_pipelined refuser None [packet_a; packet_x] two_requests [0; 9; 1]).
  - apply (bool_decide_unpack _). vm_compute. exact I.
  - constructor; [vm_compute; reflexivity|]. constructor; [vm_compute; reflexivity|constructor].
  - intros data st E data' st' E'. vm_compute in E. injection E as <- <-. vm_compute in E'. discriminate E'.
Defined.

Lemma refuser_serves : Serves False refuser (fun _ => True) anything (fun _ _ => True).
Proof.
  split; [apply _|]. intros addr req n _. eapply (obeys_bind False _ _ _ _ (fun _ _ => True)).
  - by apply obeys_atomic.
  - intros m [] _. apply obeys_reply; [by split_and!|done].
Defined.

Lemma udp_reply_witness :
  client_limit (request_of packet_x) = 1232 /\
  exists packet, (alone (handleUDPQuery refuser None packet_x) 0%nat []).2 = [packet] /\ Z.of_nat (length packet) <= 1232.
Proof.
  split; [vm_compute; reflexivity|].
  destruct (exec (handleUDPQuery refuser None packet_x) 0%nat) as [[n packets]|] eqn:E; [|vm_compute in E; discriminate E].
  assert (Hb : bytes packet_x) by (apply (bool_decide_unpack _); vm_compute; exact I).
  assert (Hu : Unpack packet_x = Ok (request_of packet_x)) by (vm_compute; reflexivity).
  assert (Hr : returns (fun _ => True) anything 0%nat (handleUDPQuery refuser None packet_x) packets).
  { unfold handleUDPQuery in E |- *. rewrite Hu in E |- *. cbn in E. injection E as _ <-.
    eapply (returns_Act _ _ 0%nat 0%nat); [exact I|exact I|reflexivity|]. apply returns_Ret. }
  destruct (udp_reply False refuser (fun _ => True) anything (fun _ _ => True) None packet_x (request_of packet_x)
    (MkQuestion n_x TypeA ClassIN) 0%nat packets refuser_serves Hb Hu ltac:(vm_compute; reflexivity) Hr) as (_ & Hl & Hp & _).
  unfold alone. rewrite E. cbn [default snd].
  assert (Hone : length packets = 1%nat).
  { assert (H1 : length (alone (handleUDPQuery refuser None packet_x) 0%nat []).2 = 1%nat) by (vm_compute; reflexivity).
    unfold alone in H1. rewrite E in H1. exact H1. }
  destruct packets as [|packet [|]]; [discriminate Hone| |discriminate Hone].
  exists packet. split; [reflexivity|]. apply Hp. by left.
Defined.

(** A limit of one: the second datagram is dropped while the first is in progress. *)
Definition busy_events : list server_event := [Receive 0 1; Start 0; Receive 0 2; Start 0; Finish 1; Cancel; Stop 0; Stop 1; Join; Return].
Definition busy_server : server := default (new_server 1 2) (server_run (new_server 1 2) busy_events).

Lemma in_flight_bounded_witness :
  sv_dropped busy_server = [2%nat] /\ sv_phase busy_server = Returned /\
  (length (sv_running busy_server) <= 1)%nat /\
  received busy_events ≡ₚ held busy_server ++ sv_running busy_server ++ sv_dropped busy_server ++ finished busy_events.
Proof.
  split; [vm_compute; reflexivity|]. split; [vm_compute; reflexivity|].
  destruct (in_flight_bounded 1 2 busy_events busy_server) as (H1 & H2 & _); [vm_compute; reflexivity|].
  split; [exact H1|exact H2].
Defined.

(** ** Configuration *)

Definition ipv6_prefix : Prefix := MkPrefix ([32; 1; 13; 184] ++ replicate 12 0) 32.

(** An allow list with an IPv6 prefix in short form, in the midst of blanks. *)
Definition allow_config : Config := assign c_Allow [str "127.0.0.0/8"%string; str "  2001:db8::/32 "%string] Default.


(** As the documentation shows it: a comment, a blank line, and a record; the record as
    [dig] prints it, with a TTL behind tabs, its digest in upper case and two groups. *)
Definition anchor_content : line_content :=
  let digest := ToUpper (hex_EncodeToString (ds_Digest net_anchor)) in
  Anchor [[]; [9; 9]; [9]; [9]; [9]; [32]; [32]; [32]; [32]] [str "172800"%string; str "IN"%string] net_anchor
    [take 10 digest; drop 10 digest].
Definition anchor_lines : list file_line :=
  [MkLine Nothing [] (Some (str " comments and blank lines are ignored"%string)) false; MkLine Nothing [32; 9] None true;
   MkLine anchor_content [] None false].

Lemma anchor_lines_ok : Forall line_ok anchor_lines.
Proof.
  assert (Hc : content_ok anchor_content).
  { unfold anchor_content, content_ok, anchor_ok, field_ok, visible, blank, is_u16, is_u8.
    split_and!; try (apply (bool_decide_unpack _); vm_compute; exact I). }
  assert (Hd : forall l, bool_decide (Forall (fun c => c = 32 \/ c = 9) (ln_trail l) /\
      10 ∉ match ln_remark l with Some text => text | None => [] end /\
      last (line_text l) <> Some 13 /\ Z.of_nat (length (line_text l)) + 1 < maxScanTokenSize) = true ->
    content_ok (ln_content l) -> line_ok l).
  { intros l (H1 & H2 & H3 & H4)%bool_decide_eq_true H5. split_and!; [done|done| |done|done].
    intros text Ht. by rewrite Ht in H2. }
  unfold anchor_lines. do 3 (apply Forall_cons; split; [apply Hd; [vm_compute; reflexivity|exact I || exact Hc]|]). constructor.
Defined.

Definition anchor_file : gostring := concat (map print_line anchor_lines).

Lemma ParseTrustAnchors_print_witness : ParseTrustAnchors anchor_file = Ok [net_anchor].
Proof. exact (ParseTrustAnchors_print anchor_lines anchor_lines_ok). Defined.

(** ** The whole server *)

Definition net_config : Config :=
  MkConfig (c_Listen Default) (c_Allow Default) (c_RateLimit Default) (c_Burst Default) 512 (c_QueryTimeout Default)
    (c_UpstreamTimeout Default) 100 0 0 [] [] [] true false true (str "root.key"%string) (c_Middleware Default)
    (c_LogLevel Default) (c_LogFormat Default).

Definition net_files (path : gostring) : option (list Z) :=
  if bool_decide (path = str "root.key"%string) then Some anchor_file else None.

Definition no_server : Built := MkBuilt world new_world id (fun _ _ => Ret []).
Definition net_server : Built :=
  match buildHandler id net_files net_config with Ok b => b | Err _ => no_server end.

Lemma net_server_built : buildHandler id net_files net_config = Ok net_server.
Proof.
  assert (H : is_ok (buildHandler id net_files net_config) = true) by (vm_compute; reflexivity).
  unfold net_server. destruct (buildHandler id net_files net_config); [reflexivity|discriminate H].
Defined.

Lemma net_anchors : configured_anchors net_files net_config = Ok (Some [net_anchor]).
Proof. vm_compute. reflexivity. Defined.

Lemma Validate_buildHandler_witness :
  Validate net_config = Ok tt /\
  match configured_anchors net_files net_config with
  | Err _ => buildHandler id net_files net_config = Err ETrustAnchor
  | Ok anchors => exists b, buildHandler id net_files net_config = Ok b /\
      forall allowed rest, AllowedPrefixes net_config = Ok allowed -> c_Middleware net_config = str "acl"%string :: rest ->
        forall addr req, permits allowed addr = false -> bs_Handler b addr req = Ret [refusal_message req]
  end.
Proof. split; [vm_compute; reflexivity|]. apply (Validate_buildHandler id net_files net_config). vm_compute. reflexivity. Defined.

(** Three clients: the first two ask the same at once, so the second waits for what
    the first gets; the third asks later, in other letters, and is answered from
    the cache.  All are told that the answer is authentic. *)
Definition from_localhost (id : Z) (name : gostring) : query_from := (localhost, query id name TypeA []).

Definition three_clients : list (turn query_from) :=
  [Begin (from_localhost 31 n_a)] ++ robin 8 1 ++ [Begin (from_localhost 32 n_a)] ++ robin 100 2 ++
  [Begin (from_localhost 33 [65])] ++ robin 10 3.

Definition server_state : bs_State net_server := (play (serving net_server) (bs_init net_server) three_clients).1.
Definition server_goroutines : list (query_from * prog (bs_State net_server) (list Message)) :=
  (play (serving net_server) (bs_init net_server) three_clients).2.

(** A query that is done and got one reply, which says that it is authentic. *)
Definition served {S} (goroutines : list (query_from * prog S (list Message))) (i : nat) : bool :=
  match result_of goroutines i with
  | Some ((_, req), [msg]) => (h_ID (m_Header req) =? Z.of_nat i + 31) && h_AD (m_Header msg)
  | _ => false
  end.

Lemma served_inv {S} (goroutines : list (query_from * prog S (list Message))) i : served goroutines i = true ->
  exists addr req msg, goroutines !! i = Some ((addr, req), Ret [msg]) /\ h_AD (m_Header msg) = true.
Proof.
  unfold served. intros Hs. destruct (result_of goroutines i) as [[[addr req] [|msg [|]]]|] eqn:E; try discriminate Hs.
  apply result_of_Some in E. apply andb_true_iff in Hs as [_ Had]. by exists addr, req, msg.
Qed.

Lemma clients_served : forallb (served server_goroutines) (seq 0 3) = true.
Proof. vm_compute. reflexivity. Defined.


(** ** Bytes *)

(** A query as a client packs it. *)
Definition packed (m : Message) : list Z := match Pack m with Ok buf => buf | Err _ => [] end.

(** A datagram, one that is no message, and a connection with two queries, the second
    of which is answered from the cache, and junk behind them. *)
Definition datagram_a : arrival := Datagram (Some [127; 0; 0; 1]) (packed (query 41 n_a TypeA [])).
Definition datagram_junk : arrival := Datagram (Some [127; 0; 0; 1]) [1; 2; 3].
Definition connection_ac : arrival := Connection (Some [127; 0; 0; 1])
  (frame (packed (query 42 n_c TypeA [])) ++ frame (packed (query 43 [65] TypeA [])) ++ [0; 3; 1; 2; 3]).

Definition three_arrivals : list (turn arrival) :=
  [Begin datagram_a] ++ robin 8 1 ++ [Begin connection_ac] ++ robin 40 2 ++ [Begin datagram_junk] ++ robin 100 3.

Definition bytes_state : bs_State net_server := (play (serving_arrival net_server) (bs_init net_server) three_arrivals).1.
Definition bytes_goroutines : list (arrival * prog (bs_State net_server) (list (list Z))) :=
  (play (serving_arrival net_server) (bs_init net_server) three_arrivals).2.

(** The identifiers of the messages in some packets, and whether they are marked
    authentic. *)
Definition read_marks (packets : list (list Z)) : list (Z * bool) :=
  omap (fun d => match Unpack d with Ok m => Some (h_ID (m_Header m), h_AD (m_Header m)) | Err _ => None end) packets.

Lemma bytes_served :
  option_map (fun x => read_marks x.2) (result_of bytes_goroutines 0) = Some [(41, true)] /\
  option_map (fun x => read_marks (unframe 1000 (concat x.2))) (result_of bytes_goroutines 1) = Some [(42, true); (43, true)] /\
  option_map snd (result_of bytes_goroutines 2) = Some [].
Proof. vm_compute. by split_and!. Defined.

(** The datagram that goes back: the name [a] once, then a pointer to it. *)
Definition answer_bytes : list Z :=
  [0; 41; 129; 160; 0; 1; 0; 1; 0; 0; 0; 0; 1; 97; 0; 0; 1; 0; 1; 192; 12; 0; 1; 0; 1; 0; 0; 1; 44; 0; 4; 192; 0; 2; 1].


(** ** Shared queries as programs *)

(** Two clients that ask the same at once: the second is given a copy. *)
Definition shared_query (x : query_from) : prog (group * world) (list Message) :=
  SingleFlightProg.ServeDNS wended wpicks (Handler.ServeDNS net_resolver) x.1 x.2.

Definition two_alike : list (turn query_from) :=
  [Begin (from_localhost 51 n_a); Move 0; Begin (from_localhost 52 [65]); Move 1] ++ robin 100 2.

Definition alike_state : group * world := (play shared_query (no_group, new_world) two_alike).1.
Definition alike_goroutines : list (query_from * prog (group * world) (list Message)) :=
  (play shared_query (no_group, new_world) two_alike).2.

(** What both are given, and that the second did not ask the resolver. *)
Definition alike_replies : option (list Message * list Message) :=
  match result_of alike_goroutines 0, result_of alike_goroutines 1 with
  | Some (_, out0), Some (_, out1) => Some (out0, out1)
  | _, _ => None
  end.

Lemma alike_shared :
  match alike_replies with
  | Some ([msg0], [msg1]) => msg1 = share msg0 (from_localhost 52 [65]).2
  | _ => False
  end.
Proof. vm_compute. reflexivity. Defined.

Lemma ServeDNS_refines_witness :
  exists fl, reachable (fine (sound_reply net_resolver)) fl /\
    fl_inFlight fl = gr_inFlight alike_state.1 /\ fl_calls fl = map snd (gr_calls alike_state.1) /\
    forall i addr req out, alike_goroutines !! i = Some ((addr, req), Ret out) ->
      fl_clients fl !! i = Some (MkClient req Finished out).
Proof.
  assert (Hq : Forall (fun x : query_from => proper_query x.2) (begun two_alike)).
  { change (begun two_alike) with [from_localhost 51 n_a; from_localhost 52 [65]].
    repeat (constructor; [by apply query_proper|]). constructor. }
  pose proof (play_reach shared_query _ (no_group, new_world) two_alike Hq) as Hr. clear Hq.
  unfold alike_state, alike_goroutines. revert Hr. generalize (play shared_query (no_group, new_world) two_alike).
  intros [[g s] ts] Hr. cbn [fst snd] in Hr |- *.
  destruct (ServeDNS_refines wended wpicks (Handler.ServeDNS net_resolver) False (world_ok net_resolver) anything (sound_reply net_resolver)
    (Hnext := Handler.ServeDNS_serves net_resolver net_ok) new_world g s ts net_world_ok Hr) as (fl & Hreach & [H1 H2 _] & Hret).
  exists fl. split; [exact Hreach|]. split; [exact H1|]. split; [exact H2|].
  intros i addr req out Hi. exact (proj1 (Hret i addr req out Hi)).
Defined.
