(* ===== verification/WitnessCommands.v ===== *)
(** The two programs run: the server started from a file its configuration was written
    to, and the query tool against a small network whose root is signed with a key
    the built-in trust anchor fits. *)

From stdpp Require Import strings.
From Stdlib Require Import SpecFloat.
From S2P Require Import Prelude Prog GoUnicode GoStrings GoText GoFloat GoTime GoJson GoNet DnsMsg Encoder Decoder WireSpec WireCalculus WireNames WireRoundTrip DecoderSafe DnssecRecords DnssecNames Verify Denial Lru Cache DelegationCache ServerChoice Privacy Interface Upstream UpstreamSpec TrustAnchor AnchorFile Validate ValidateSpec Resolve ResolveSpec Resolution Handler Acl RateLimit SingleFlight SingleFlightProg DnsServer NetText Config Chain Commands Witnesses WitnessNet WitnessServer.

Open Scope list_scope.
Open Scope Z_scope.

(** ** Files *)

(** The numbers of the configurations here are whole. *)
Definition whole (x : float64) : gostring := decimal (to_uint64 x).

Definition full_config : Config :=
  MkConfig (str "[::1]:5353"%string) (c_Allow Default) (of_Z 50) (of_Z 100) 512 4530918273645
    (c_UpstreamTimeout Default) 100 0 0 (str "[::1]:853"%string) (str "server.crt"%string) (str "server.key"%string) true false true
    (str "root.key"%string) (c_Middleware Default) (str "debug"%string) (c_LogFormat Default).

Definition config_path : gostring := str "resolver.json"%string.

Definition files (path : gostring) : option (list Z) :=
  if bool_decide (path = config_path) then Some (document whole full_config fields) else net_files path.

Ltac check_field :=
  lazymatch goal with
  | |- True => exact I
  | |- valid_utf8 _ => apply valid_utf8_check; vm_compute; reflexivity
  | |- Forall _ _ => apply Forall_forall; intros ? ?%list_elem_of_In; repeat match goal with H : In _ _ |- _ => destruct H as [<-|H] end; [check_field..|done]
  | |- is_duration _ => split; vm_compute; congruence
  | |- - 2 ^ 63 <= _ < 2 ^ 63 => split; vm_compute; congruence
  | |- _ /\ _ => split; vm_compute; reflexivity
  end.

Lemma full_config_ok : Forall (fun nf => field_ok whole full_config nf.2) fields.
Proof. unfold fields. repeat (apply Forall_cons; split; [cbn [snd field_ok]; check_field|]). constructor. Defined.

Lemma Load_document_witness : Load files config_path = Ok full_config /\ Validate full_config = Ok tt.
Proof.
  assert (Hv : Validate full_config = Ok tt) by (vm_compute; reflexivity). split; [|exact Hv].
  destruct (Load_document whole full_config fields files config_path) as [_ Hfull].
  - vm_compute. discriminate.
  - apply Forall_forall. intros nf Hin. split; [exact Hin|]. pose proof full_config_ok as Hok.
    rewrite Forall_forall in Hok. exact (Hok nf Hin).
  - vm_compute. reflexivity.
  - rewrite (Hfull eq_refl), Hv. reflexivity.
Defined.

Lemma UnmarshalJSON_MarshalJSON_witness :
  MarshalJSON 4530918273645 = 34 :: str "1h15m30.918273645s"%string ++ [34] /\ UnmarshalJSON (MarshalJSON 4530918273645) = Some 4530918273645.
Proof. split; [vm_compute; reflexivity|]. apply (UnmarshalJSON_MarshalJSON 4530918273645). split; vm_compute; congruence. Defined.

(** ** The server *)

Section server.
#[local] Existing Instance net.
#[local] Existing Instance toy_crypto.

Definition new_address : gostring := str "0.0.0.0:53"%string.
Definition run_config : Config := override new_address full_config.
Definition run_built : Built := match buildHandler id files run_config with Ok b => b | Err _ => no_server end.

Lemma run_config_runs : runs_with id files (fun _ _ => true) run_config run_built.
Proof.
  split; [vm_compute; reflexivity| |reflexivity].
  assert (H : is_ok (buildHandler id files run_config) = true) by (vm_compute; reflexivity).
  unfold run_built. destruct (buildHandler id files run_config); [reflexivity|discriminate H].
Defined.

Definition every_socket : list socket := [UDPSocket; TCPSocket; TLSSocket].
Definition command_line : list gostring := [str "-config=resolver.json"; str "--addr"; new_address]%string.

Lemma main_configured_witness :
  main id files (fun _ _ => true) (fun _ => true) (fun _ _ => true) EClosed command_line =
    (map Open every_socket ++ [Serving] ++ map Close (reverse every_socket), 0).
Proof.
  destruct (main_configured id files (fun _ _ => true) (fun _ => true) (fun _ _ => true) EClosed
    whole full_config config_path new_address [str "-config=resolver.json"%string] [str "--addr"%string; new_address] run_built)
    as [_ E].
  - vm_compute. discriminate.
  - exact full_config_ok.
  - vm_compute. reflexivity.
  - vm_compute. reflexivity.
  - right. right. left.
  - right. left.
  - exact run_config_runs.
  - split; [reflexivity|]. repeat constructor.
  - exact E.
Defined.

(** The port of the TLS listener is taken. *)
Definition taken (s : socket) (_ : gostring) : bool := match s with TLSSocket => false | _ => true end.

End server.

(** ** The query tool *)

(** An RSA key that the built-in anchor fits when the hash of the key is its digest. *)
Definition tool_key : DNSKEY := MkDNSKEY 257 3 8 [1; 3; 74; 90].

Definition tool_crypto : Crypto := {|
  sha1 := fun l => l;
  sha256 := fun l => if bool_decide (l = 0 :: keyRDATA tool_key) then concat (map ds_Digest RootAnchors) else l;
  sha384 := fun l => l; sha512 := fun l => l;
  rsa_VerifyPKCS1v15 := fun _ _ _ digest sig => bool_decide (digest = sig);
  ed25519_Verify := fun _ _ _ => false; IsOnCurve := fun _ _ _ => false; ecdsa_Verify := fun _ _ _ _ _ _ => false |}.

(** [c] is another name for [a], which has an IPv6 address. *)
Definition v6 : Addr := [32; 1; 13; 184; 0; 0; 0; 0; 0; 0; 0; 0; 0; 0; 0; 83].
Definition aaaa_rr (owner : gostring) : RR := MkRR owner TypeAAAA ClassIN 300 16 None (Some v6) [] [] None [].

Definition tool_knows (name : gostring) (type : Z) : list RR * list RR * Z :=
  let signed rrs := (rrs ++ [sign tool_key 1 rrs], [], 0) in
  if (type =? TypeDNSKEY) && equalName name [dot] then ([key_rr tool_key; sign tool_key 0 [key_rr tool_key]], [], 0)
  else if equalName name n_c then signed [cname_rr n_c n_a]
  else if equalName name n_a && (type =? TypeAAAA) then signed [aaaa_rr n_a]
  else ([], [], RCodeServerFailure).

Section tool.
#[local] Instance tool_net : Env := net_of tool_knows.
#[local] Existing Instance tool_crypto.

Definition tool_args : list gostring := [str "resolve"; str "C."; str "aaaa"]%string.

Lemma tool_prints : (alone (resolve_main tool_args) new_world ([], 2)).2 = ([str "2001:db8::53"%string], 0).
Proof. vm_compute. reflexivity. Defined.

Lemma resolve_main_outcome_witness :
  exists w b, exec (resolve_main tool_args) new_world = Some (w, ([str "2001:db8::53"%string], 0)) /\
    addresses (str "C."%string) TypeAAAA [b] /\ str "2001:db8::53"%string = IP_String (Some b).
Proof.
  assert (Hok : env_ok) by exact (net_of_ok tool_knows).
  destruct (resolve_main_outcome (str "resolve"%string) [str "C."; str "aaaa"]%string Hok) as [H _].
  destruct (H (str "C."%string) TypeAAAA) as (w & lines & code & E & _ & Hx).
  - constructor. vm_compute. reflexivity.
  - apply (bool_decide_unpack _). vm_compute. exact I.
  - pose proof tool_prints as Hp. unfold alone, tool_args in Hp |- *. rewrite E in Hp |- *. cbn [default snd] in Hp. injection Hp as -> ->.
    destruct Hx as [[Hx _]|(_ & found & Ha & Hl)]; [discriminate Hx|]. inversion Hl as [|line b ls bs [H1 _] Hr]; subst.
    inversion Hr; subst. exists w, b. split; [reflexivity|]. split; [exact Ha|exact H1].
Defined.
End tool.
