(* ===== verification/Findings.v ===== *)
(** Behaviours of the code that differ from what it means to do, each shown on a
    concrete input. *)

From stdpp Require Import strings.
From S2P Require Import Prelude Prog GoUnicode GoStrings GoNet DnsMsg Encoder Decoder WireSpec WireCalculus WireNames WireRoundTrip DecoderSafe DnssecRecords DnssecNames Verify VerifySpec Denial DenialSpec Lru Cache CacheSpec DelegationCache ServerChoice Privacy Upstream UpstreamSpec TrustAnchor Validate ValidateSpec Resolve ResolveSpec Resolution Witnesses WitnessNet.

Open Scope string_scope.
Open Scope Z_scope.

(** ** The codec *)

Definition question_message (names : list gostring) : Message :=
  MkMessage zero_header (map (fun n => MkQuestion n TypeA ClassIN) names) [] [] [].

(** [Pack] counts the characters of a name, [Unpack] its wire bytes: a name of four
    63-byte labels is packed without complaint and refused on arrival. *)
Definition long_name : gostring :=
  Join dot [replicate 63 97; replicate 63 97; replicate 63 97; replicate 63 97].

Lemma long_name_packed :
  length long_name = 255%nat /\
  match Pack (question_message [long_name]) with
  | Ok buf => Unpack buf = Err ENameTooLong
  | Err _ => False
  end.
Proof. vm_compute. split; reflexivity. Qed.

(** [strings.ToLower] maps bytes that are not UTF-8 to one replacement character,
    so the table of names takes two different names for one, and the second is
    packed as a pointer to the first. *)
Definition ff_com : gostring := 255 :: dot :: n_com.
Definition fe_com : gostring := 254 :: dot :: n_com.

Lemma distinct_names_merged :
  ff_com <> fe_com /\
  match Pack (question_message [ff_com; fe_com]) with
  | Ok buf =>
    match Unpack buf with
    | Ok m => map q_Name (m_Questions m) = [ff_com; ff_com]
    | Err _ => False
    end
  | Err _ => False
  end.
Proof. split; [discriminate|vm_compute; reflexivity]. Qed.

(** The labels written in front of a pointer are never entered in the table, so a
    name written twice is not always replaced by a pointer to its first
    occurrence: the third question repeats the label "a". *)
Lemma longest_suffix_missed :
  match Pack (question_message [n_com; str "a.com"; str "a.com"]) with
  | Ok buf => drop 21 buf =
      [1; 97; 192; 12; 0; 1; 0; 1;  1; 97; 192; 12; 0; 1; 0; 1]
  | Err _ => False
  end.
Proof. vm_compute. reflexivity. Qed.

(** ** Names *)

(** The Kelvin sign folds to "k": [equalName] is not the ASCII comparison DNS
    defines. *)
Lemma equalName_kelvin : equalName (str "k.com") (226 :: 132 :: 170 :: str ".com") = true.
Proof. vm_compute. reflexivity. Qed.

(** [equalName] folds and [isSubdomainOrEqual] lower-cases, and they disagree on the
    dotted capital I: a name and its lower-case form are each strictly below the
    other, so "strictly below" does not terminate a walk. *)
Definition dotted_I : gostring := 196 :: 176 :: str ".com".

Lemma isProperSubdomain_cycle :
  isProperSubdomain dotted_I (str "i.com") = true /\ isProperSubdomain (str "i.com") dotted_I = true.
Proof. vm_compute. split; reflexivity. Qed.

(** ** Denial of existence *)

(** A truthful NSEC record that shows a name to be a branch of the tree - the owner
    is above it and the next name below it - is accepted as proof that the name
    does not exist, and with it everything below. *)
Lemma ProveNameError_branch :
  let nsecs := [nsec_rr n_example n_ab [0; 1; 34]] in
  ProveNameError (H := toy_crypto) nsecs n_b = Ok tt /\
  ProveNoData (H := toy_crypto) nsecs n_b TypeA = Ok tt /\
  Forall (truthful (zowns ex_zone) (ztypes ex_zone)) (nsec_records nsecs) /\
  in_tree (zowns ex_zone) (key n_b).
Proof.
  cbv zeta. split; [vm_compute; reflexivity|]. split; [vm_compute; reflexivity|]. split.
  - constructor; [|constructor]. apply truthfulb_spec. vm_compute. reflexivity.
  - exists (key n_ab). split; [|unfold zowns; compute_decide].
    exists [str "a"]. vm_compute. reflexivity.
Qed.

(** An opt-out gap may hide unsigned delegations, yet it is accepted as proof that a
    name does not exist. *)
Lemma proveNameErrorNSEC3_opt_out :
  OptOut (Nsec3.rr (root_nsec3 1)) = true /\
  proveNameErrorNSEC3 (H := root_crypto) [root_nsec3 1] n_com [dot] = Ok tt.
Proof. vm_compute. split; reflexivity. Qed.

(** ** The message cache *)

(** A response to a question of type 0 is stored under the any-type key, so one empty
    answer to such a question hides every type of the name and of every name
    below it. *)
Lemma type_zero_poisons :
  let s := Cache.put (newStore (MkConfig 0 0 0)) 0 n_example 0 RCodeSuccess [] [] false in
  (lookup s 1 n_www TypeA).2 = Some (MkHit RCodeSuccess [] [] false) /\
  (lookup s 1 n_ab TypeMX).2 = Some (MkHit RCodeSuccess [] [] false).
Proof. vm_compute. split; reflexivity. Qed.

(** ** Resolving *)

Section forged.
#[local] Existing Instance toy_crypto.

(** The signed root of the small network, with an attacker that replaces the answers
    for one name. *)
Definition forge (victim : gostring) (answers : list RR) : knowledge := fun name type =>
  if equalName name victim && (type =? TypeA) then (answers, [], 0) else answers_for name type.

Definition run_forged (victim : gostring) (answers : list RR) : result resolve_error Result :=
  (run_program (ResolveRR (H0 := net_of (forge victim answers)) net_resolver false victim TypeA) new_world).2.

(** An unsigned CNAME is refused when its target exists ... *)
Lemma forged_cname_refused : run_forged n_c [cname_rr n_c n_a] = Err ErrBogus.
Proof. vm_compute. reflexivity. Qed.

(** ... but not when it does not: the error of the target is passed on before the
    chain is checked, so anyone can make a signed name vanish. *)
Lemma forged_cname_accepted : run_forged n_c [cname_rr n_c n_x] = Err (NXDOMAINError n_x None).
Proof. vm_compute. reflexivity. Qed.

(** A forged address without a signature is refused; with a signature that claims
    the zone's key of an algorithm the resolver does not know it is accepted, if
    only as not secure, although the zone signs with a known algorithm as well. *)
Definition forged_a : RR := MkRR n_a TypeA ClassIN 300 4 (Some [6; 6; 6; 6]) None [] [] None [].

Lemma forged_address_refused : run_forged n_a [forged_a] = Err ErrBogus.
Proof. vm_compute. reflexivity. Qed.

Lemma forged_algorithm_accepted :
  run_forged n_a [forged_a; sign odd_key 1 [forged_a]] = Ok (MkResult [forged_a] [] false).
Proof. vm_compute. reflexivity. Qed.
End forged.
