(* ===== verification/FindingsServer.v ===== *)
(** Behaviours of the server around the resolver that differ from what it means to
    do, each shown on a concrete input. *)

From stdpp Require Import strings.
From S2P Require Import Prelude Prog GoUnicode GoStrings GoText GoFloat GoTime GoJson GoNet DnsMsg Encoder Decoder DnssecRecords Interface Lru Cache Upstream UpstreamSpec Handler Acl RateLimit SingleFlight DnsServer NetText Config Chain Witnesses WitnessServer.

Open Scope list_scope.
Open Scope Z_scope.

(** ** The listeners *)

(** [Serve] waits for the first listener to return only.  Another that has read a
    query by then can start it after the wait is over: here [Serve] has returned
    and query 7 is in progress, about to be cut off. *)
Lemma shutdown_leaves_query :
  match server_run (new_server 512 2) [Receive 0 7; Cancel; Stop 1; Join; Return; Start 0] with
  | Some s => sv_phase s = Returned /\ sv_running s = [7%nat]
  | None => False
  end.
Proof. vm_compute. by split. Qed.

(** A connection takes a place for as long as it is open, idle or not: with a limit
    of two, two connections that never send anything make the server drop every
    datagram. *)
Lemma idle_connections_block :
  match server_run (new_server 2 2) [Receive 1 1; Start 1; Receive 1 2; Start 1; Receive 0 3; Start 0] with
  | Some s => sv_dropped s = [3%nat]
  | None => False
  end.
Proof. vm_compute. reflexivity. Qed.

(** The length in front of a packet wraps: one of 65536 bytes is announced as empty,
    and the client takes its bytes for further packets. *)
Lemma frame_wraps packet : length packet = Z.to_nat 65536 -> frame packet = 0 :: 0 :: packet.
Proof. intros H. unfold frame. rewrite H, Z2Nat.id by lia. reflexivity. Qed.

(** Truncation keeps all questions, and the number of questions is not checked: the
    datagram is longer than the client can take. *)
Definition many_questions : Message :=
  MkMessage (m_Header (query 9 n_com TypeA [])) (map (fun i => MkQuestion (str "n" ++ decimal i) TypeA ClassIN) (seqZ 100 80)) [] [] [].

Lemma truncated_too_long :
  match (alone (handleUDPQuery refuser None (bytes_of (Pack many_questions))) 0%nat []).2 with
  | [packet] => client_limit many_questions < Z.of_nat (length packet)
  | _ => False
  end.
Proof. vm_compute. reflexivity. Qed.

(** Nothing looks at the QR bit: a response that arrives is answered like a query. *)
Definition stray_response : Message :=
  MkMessage (MkHeader 9 true 0 false false true false false false 0 0 0 0 0) [MkQuestion n_com TypeA ClassIN] [] [] [].

Lemma response_answered : length (alone (handleUDPQuery refuser None (bytes_of (Pack stray_response))) 0%nat []).2 = 1%nat.
Proof. vm_compute. reflexivity. Qed.

(** ** Access control *)

(** Three questions, the third a pointer to the second: the refusal repeats them with
    worse compression and is longer than the query. *)
Definition compressed_query : list Z :=
  [0; 9; 0; 0; 0; 3; 0; 0; 0; 0; 0; 0] ++
  [1; 98; 1; 99; 0; 0; 1; 0; 1] ++ [1; 97; 192; 12; 0; 1; 0; 1] ++ [192; 21; 0; 1; 0; 1].

Lemma refusal_longer :
  match (alone (handleUDPQuery (Acl.Wrap refuser []) None compressed_query) 0%nat []).2 with
  | [packet] => (length compressed_query < length packet)%nat
  | _ => False
  end.
Proof. vm_compute. lia. Qed.

(** A prefix of IPv4-mapped addresses is accepted and admits nobody: the addresses of
    clients are unmapped first. *)
Lemma mapped_prefix_admits_nobody :
  match ParsePrefix (str "::ffff:10.0.0.0/104") with
  | Some p => permits [p] (UDPAddr (Some [10; 0; 0; 1])) = false /\
      permits [p] (UDPAddr (Some (v4InV6Prefix ++ [10; 0; 0; 1]))) = false
  | None => False
  end.
Proof. vm_compute. by split. Qed.

(** An empty list of prefixes refuses everybody, loopback included. *)
Lemma empty_list_refuses : permits [] localhost = false.
Proof. reflexivity. Qed.

(** ** Configuration *)

(** The bounds are checked before the defaults are put in for zeros: this
    configuration is valid, and the cache works with a minimum of five seconds
    above its maximum of one. *)
Definition zero_min : Config.Config :=
  Config.MkConfig (c_Listen Default) (c_Allow Default) (c_RateLimit Default) (c_Burst Default) 512 (c_QueryTimeout Default)
    (c_UpstreamTimeout Default) 100 0 (Config.Seconds 1) [] [] [] true false true [] (c_Middleware Default)
    (c_LogLevel Default) (c_LogFormat Default).

Lemma defaults_beat_checks :
  Validate zero_min = Ok tt /\
  ttlBounds (Cache.MkConfig (c_CacheEntries zero_min) (c_CacheMinTTL zero_min) (c_CacheMaxTTL zero_min)) = (5, 1).
Proof. vm_compute. by split. Qed.

(** A zero for the time of one exchange stands for three seconds, and passes the check
    against the one second a whole query has: a socket may then use all of it. *)
Definition zero_upstream : Config.Config :=
  Config.MkConfig (c_Listen Default) (c_Allow Default) (c_RateLimit Default) (c_Burst Default) 512 (Config.Seconds 1)
    0 100 (c_CacheMinTTL Default) (c_CacheMaxTTL Default) [] [] [] true false true [] (c_Middleware Default)
    (c_LogLevel Default) (c_LogFormat Default).

Lemma zero_upstream_timeout anchors :
  Validate zero_upstream = Ok tt /\
  c_QueryTimeout zero_upstream < upstreamTimeout (configured_resolver zero_upstream anchors).
Proof. split; [by vm_compute|]. destruct anchors; vm_compute; done. Qed.

(** ** Sharing *)

(** Queries are shared, and answered from the cache, by name and type only: an update
    and a question of class CH get what a standard query for the class IN got. *)
Definition other_query (opcode class : Z) : Message :=
  MkMessage (MkHeader 9 false opcode false false true false false false 0 0 0 0 0) [MkQuestion n_com TypeA class] [] [] [].

Lemma opcode_and_class_ignored :
  collapses (other_query 5 ClassIN) = collapses (other_query 0 ClassIN) /\
  collapses (other_query 0 3) = collapses (other_query 0 ClassIN) /\
  let c := Cache.put (newStore (Cache.MkConfig 0 0 0)) 0 n_com TypeA RCodeSuccess [] [] false in
  let asked req := (alone (Cache.ServeDNS (fun _ => 1) refuser localhost req) (c, 0%nat) []).1.2 in
  asked (other_query 5 ClassIN) = 0%nat /\ asked (other_query 0 3) = 0%nat.
Proof. vm_compute. by split_and!. Qed.

(** ** Long responses *)

(** An answer as two upstream responses can add up to: an alias and the records of its
    target. *)
Definition long_rr (owner : gostring) (n : nat) : RR :=
  MkRR owner 16 ClassIN 300 (Z.of_nat n) None None [] [] None (replicate n 0).
Definition long_message : Message :=
  MkMessage (MkHeader 9 true 0 false false true true false false 0 0 0 0 0) [MkQuestion n_com 16 ClassIN]
    [MkRR n_com TypeCNAME ClassIN 300 0 None None [] n_ab None []; long_rr n_ab 40000; long_rr n_ab 25500] [] [].

(** Over TCP it is longer than its length prefix can say. *)
Lemma long_response_misframed :
  match Pack long_message, tcp_WriteMsg false long_message with
  | Ok packet, Ok sent => 65535 < Z.of_nat (length packet) /\ Uint16 (take 2 sent) = Z.of_nat (length packet) - 65536
  | _, _ => False
  end.
Proof.
  assert (H : match Pack long_message, tcp_WriteMsg false long_message with
    | Ok packet, Ok sent => (65535 <? Z.of_nat (length packet)) && (Uint16 (take 2 sent) =? Z.of_nat (length packet) - 65536)
    | _, _ => false end = true) by (vm_compute; reflexivity).
  destruct (Pack long_message); [|discriminate H]. destruct (tcp_WriteMsg false long_message); [|discriminate H]. lia.
Qed.


(** ** Configuration files *)

(** An empty file is no configuration; nor is one with a [null] duration, where any
    other field keeps its default; and [null] for the allow list, which is no list,
    admits nobody. *)
Lemma empty_and_null_files :
  Unmarshal [] Default = None /\
  Unmarshal (print (JObject [(str "query_timeout", JNull)])) Default = None /\
  Unmarshal (print (JObject [(str "listen", JNull)])) Default = Some Default /\
  option_map AllowedPrefixes (Unmarshal (print (JObject [(str "allow", JNull)])) Default) = Some (Ok []).
Proof. vm_compute. by split_and!. Qed.
